(* ===== verification/_CoqProject ===== *)
-Q . S2P
Prelude.v
CString.v
Layout.v
Kalloc.v
Pipe.v
Proc.v
ProcInv.v
ProcOps.v
History.v
Syscall.v
Block.v
Bio.v
Log.v
Fs.v
FsBlock.v
FsFile.v
FsDir.v
FsInode.v
FsDemo.v
Mkfs.v
MkfsInv.v
MkfsBoot.v
Ide.v
Boot.v
Vm.v
VmInv.v
VmCopy.v
VmDemo.v
Seg.v
Asm.v
File.v
Sysfile.v
Exec.v
FileInv.v
FileCalls.v
Blocked.v
Perm.v
FileDemo.v
Mp.v
Devices.v
Smp.v
Lock.v
Console.v
Kbd.v
Login.v
Trap.v
Ulib.v
Ustring.v
Cprintf.v
Umalloc.v
UmallocInv.v
Programs.v
Grep.v
Sh.v
ShRound.v
