(* ===== verification/Prelude.v ===== *)
(** * A verification development for the xv6 kernel and user programs

    The program is xv6 for the x86, a small Unix, extended by a history of
    exited processes ([gethistory]), blocking of system calls ([block],
    [unblock]), permissions of files ([chmod]) and a login in [init].  This
    library translates its C and assembly code to functions and step
    relations and proves what the parts promise to each other.  Source files
    are named as under [src/].

    ** The parts and how they interact

    The boot loader reads the kernel from the disk.  The kernel finds and
    starts the processors, gives physical memory to a page allocator, builds
    page tables on it and runs processes.  A trap brings a process into the
    kernel: for a system call the dispatcher fetches the arguments and calls a
    handler.  Process handlers work on the process table; file handlers work
    on open files, which are pipes, devices or inodes.  Inodes and directories
    live in disk blocks; changes to blocks go through a log and a cache of
    buffers to the disk driver.  User programs see only system calls.

    ** Conventions

    Kernel code is written in the monad [M S A := S → outcome (A * S)] of this
    file: it returns, calls [panic], goes to sleep, or runs into undefined
    behaviour ([Undef]).  Integers are [Z], with [u32], [s32], [u8] where the
    code wraps around.  Memory is a function from addresses to bytes, with
    [load32] and [store32]; where the layout of a structure plays no part it is
    a record, and a pointer to an element of an array is its index.  Code that
    sleeps is cut at the point where it sleeps: what runs between is atomic
    because it holds a lock, and the interleavings are those of the pieces.

    ** Files of the development

    - [Prelude]: the monad, its tactics [mstep], [minv], [bcase], the hint
      database [xv6], integers of fixed width, lists.  [CString]: [string.c].
      [Layout]: constants of [memlayout.h], [mmu.h], [param.h], [traps.h].
    - Memory: [Kalloc] ([kalloc.c], the free list inside the free pages); [Vm]
      ([vm.c], page tables in the same memory), [VmInv] its invariant and
      [mappages], [allocuvm], [VmCopy] [setupkvm] and [copyuvm], [VmDemo] an
      instance; [Seg] (descriptors, [seginit], [switchuvm], [tvinit],
      [mycpu]).
    - Processes: [Proc] ([proc.c] over the class [Kernel] of what it calls, and
      the step relation [pstep]), [ProcInv] the invariant of the table,
      [ProcOps] the operations as steps, [History] the ring of exited
      processes; [Asm] ([vectors.S], [trapasm.S], [swtch.S], [usys.S],
      [initcode.S] on a model of their instructions); [Trap] ([trap.c]); [Lock]
      ([spinlock.c], [sleeplock.c], interleaved access by access).
    - System calls: [Syscall] ([syscall.c], [sysproc.c]); [Sysfile]
      ([sysfile.c]); [Exec] ([exec.c], the instance of [Kernel] and the table
      of all handlers); [FileInv], [FileCalls] reference counts of open files
      for every system call; [Blocked] the table of blocked calls over all
      system calls; [Perm] the permission checks; [FileDemo] an instance.
    - Files: [Pipe] ([pipe.c]); [File] ([file.c]); [Fs] ([fs.c]) with [FsBlock]
      (bitmap), [FsFile] (contents), [FsDir] (directories), [FsInode] (inode
      cache), [FsDemo] (an instance); [Log] ([log.c]); [Block] the contract of
      the buffer cache, [Bio] ([bio.c], [memide.c]) its implementation; [Ide]
      ([ide.c]); [Mkfs] ([mkfs.c]), [MkfsInv], [MkfsBoot].
    - Machine: [Boot] ([bootmain.c]); [Mp] ([mp.c]); [Smp] ([startothers],
      [entryother.S], the local APIC); [Devices] ([ioapic.c], [picirq.c],
      output of [uart.c], the clock); [Console] and [Cprintf] ([console.c]);
      [Kbd] ([kbd.c], input of [uart.c]).
    - User programs: [Login] and the end of [Programs] ([init.c]); [Ulib],
      [Ustring] ([ulib.c], [printf.c]); [Umalloc], [UmallocInv] ([umalloc.c]);
      [Programs] (small programs, parts of [sh.c]); [Grep] ([grep.c]); [Sh],
      [ShRound] ([sh.c]).

    ** What the theorems show

    - Refinements: the buffer cache implements the contract that the log and
      the file system are proved against, and panics only when all buffers
      are locked or pinned; the IDE driver is a queue of requests, on a disk
      without errors that takes the data of a write at once; a pipe is a queue
      of bytes and loses no wakeup (without kills of writers); the console is a
      queue of edited lines; the history is the list of the last exits; [fork],
      [exit] and the others are sequences of the steps of the process system.
    - Invariants: the process table, the page allocator's partition, the inode
      cache, reference counts of open files over all system calls, mutual
      exclusion of both kinds of lock, calls that can never be blocked, the
      heap of a user program.
    - Crashes: a transaction is all or nothing whatever write the machine stops
      after, also when recovery is interrupted; operations within their limit
      never overflow a log with room for [LOGSIZE] blocks (the log that [mkfs]
      makes is one block shorter, see [Log.LogDemo]).
    - Functional behaviour and round trips: reading back what was written to a
      file, looking up what was linked, booting from the image of [mkfs],
      copying an address space, traps and context switches returning with the
      registers they were entered with, parsing a command that was written
      down, the matcher of [grep] against a semantics of patterns, loading the
      kernel, reading the processor table.
    - Termination: the parser of the shell, [startothers] under every
      interleaving, [malloc], [mkfs], [grep].
    - Errors: refused permissions change nothing; and theorems about defects
      of the code, such as [Pipe.pipe_killed_writer_strands_reader],
      [Perm.pipe_io_panics], [Perm.open_unchecked],
      [Syscall.gethistory_panics], [Syscall.gethistory_returns_oldest],
      [Ide.ide_error_ignored], [Ide.IdeDemo.ide_slow_write_lost],
      [Mp.mpinit_unknown_entry_loops], [Umalloc.malloc_wraps].

    ** Bounds and fuel

    Loops that are not structural get a number of rounds.  Where the code
    bounds them the number is computed from the state: the blocks or pages in a
    range, [dir_fuel] for the entries of a directory, [4 * length + 4] calls
    for the parser of a line, [length + 1] rounds for the reads of [grep],
    rounds of [readseg] from the size; running out is a distinct result
    ([Undef] or [None]), so that a theorem that an operation returns also says
    that its rounds are enough.  Where the end depends on data in memory (a
    final 0, the list of free blocks, the entries of the processor table) or on
    a device (the disk becoming ready, two equal readings of the clock) the
    number is an argument, and the theorem names one that is enough.

    Devices are parameters: the classes [IdeDev]/[IdeLaws] and
    [IoApic]/[IoApicLaws] state what the drivers rely on, and each has an
    instance at which the theorems are used.  The laws of the disk hold only
    while it is not busy, so a driver that does not wait for it has none.

    ** Not modelled

    - [bootasm.S], [entry.S] and the first part of [entryother.S]: they change
      the mode of the processor, which the machine of [Asm] does not have.
    - The order of the calls in [main] of [main.c], and [consoleinit], which
      enters the console in the table of devices ([devs], a parameter of
      [File]).
    - The wrappers of single instructions in [x86.h], the prototypes of
      [defs.h] and [user.h].
    - The locks of the single components: a critical section is one step; that
      locks exclude each other is proved in [Lock].  The memory of the
      processors is sequentially consistent.
    - What [mpenter] and [mpmain] do before they set [started] is one step of
      [Smp]; [trap] does not acknowledge interrupts to the local APIC.
    - Messages that [trap] and [mkfs] print; the opening of the console in
      [init]; failure of [malloc] in the shell.
    - [usertests.c], [forktest.c], [stressfs.c], [zombie.c]: programs that test
      the kernel. *)

From stdpp Require Export strings gmap list prelude.

(** ** Outcomes of kernel code

    A piece of kernel code either returns, calls [panic], goes to sleep
    waiting for another thread, or runs into behaviour the C standard leaves
    undefined (signed overflow, a null dereference). *)

Inductive outcome (A : Type) : Type :=
| Ok (a : A)
| Panic (msg : string)
| Blocked
| Undef.
Arguments Ok {A} a.
Arguments Panic {A} msg.
Arguments Blocked {A}.
Arguments Undef {A}.

(** The state-and-outcome monad in which handlers are written. *)
Definition M (S A : Type) : Type := S → outcome (A * S).

Global Instance M_ret {S} : MRet (M S) := λ A a s, Ok (a, s).
Global Instance M_bind {S} : MBind (M S) := λ A B k c s,
  match c s with
  | Ok (a, s') => k a s'
  | Panic m => Panic m
  | Blocked => Blocked
  | Undef => Undef
  end.

Section monad.
Context {S : Type}.
Definition panic {A} (m : string) : M S A := λ _, Panic m.
Definition blocked {A} : M S A := λ _, Blocked.
Definition undef {A} : M S A := λ _, Undef.
Definition gets {A} (f : S → A) : M S A := λ s, Ok (f s, s).
Definition modify (f : S → S) : M S unit := λ s, Ok (tt, f s).

(** [for (x in l) f(x);] *)
Fixpoint mfor {A} (l : list A) (f : A → M S unit) : M S unit :=
  match l with
  | [] => mret tt
  | x :: l' => f x ≫= λ _, mfor l' f
  end.

Lemma bind_ok {A B} (c : M S A) (k : A → M S B) s a s' :
  c s = Ok (a, s') → (c ≫= k) s = k a s'.
Proof. intros H. unfold mbind, M_bind. by rewrite H. Qed.

Lemma bind_inv {A B} (c : M S A) (k : A → M S B) s b s' :
  (c ≫= k) s = Ok (b, s') → ∃ a s1, c s = Ok (a, s1) ∧ k a s1 = Ok (b, s').
Proof.
  unfold mbind, M_bind. destruct (c s) as [[a s1]|m| |] eqn:E; intros H; try done.
  eauto.
Qed.
End monad.

(** ** Automation

    [mstep] runs a monadic computation one call at a time, using the
    equations of the context; [minv] inverts an equation saying that a
    computation returned. *)

Create HintDb xv6.

Ltac mstep :=
  repeat first
    [ progress cbn [mret M_ret gets modify panic blocked undef]
    | match goal with
      | H : ?c ?s = Ok (?a, ?s') |- context [(?c ≫= ?k) ?s] =>
          rewrite (bind_ok c k s a s' H)
      end
    | progress unfold mbind, M_bind, mret, M_ret, gets, modify ].

Ltac minv :=
  repeat match goal with
  | H : (_ ≫= _) _ = Ok (_, _) |- _ =>
      let a := fresh "a" in let s := fresh "s" in let E := fresh "E" in
      apply bind_inv in H as (a & s & E & H)
  | H : mret _ _ = Ok (_, _) |- _ => unfold mret, M_ret in H
  | H : gets _ _ = Ok (_, _) |- _ => unfold gets in H
  | H : modify _ _ = Ok (_, _) |- _ => unfold modify in H
  | H : panic _ _ = Ok _ |- _ => discriminate H
  | H : blocked _ = Ok _ |- _ => discriminate H
  | H : undef _ = Ok _ |- _ => discriminate H
  | H : Ok (_, _) = Ok (_, _) |- _ => first [injection H as <- <- | injection H as ?; subst]
  | u : unit |- _ => destruct u
  | H : Panic _ = Ok _ |- _ => discriminate H
  | H : Blocked = Ok _ |- _ => discriminate H
  | H : Undef = Ok _ |- _ => discriminate H
  | H : (_, _) = (_, _) |- _ => injection H as ?; subst
  end.

(** Case analysis on the boolean comparisons the code makes. *)
Ltac bcase :=
  repeat match goal with
  | |- context [Z.eqb ?a ?b] => destruct (Z.eqb_spec a b)
  | |- context [Z.ltb ?a ?b] => destruct (Z.ltb_spec a b)
  | |- context [Z.leb ?a ?b] => destruct (Z.leb_spec a b)
  end.

(** ** Lists *)

Lemma alter_alter {A} (f g : A → A) i (l : list A) : alter f i (alter g i l) = alter (f ∘ g) i l.
Proof.
  apply list_eq. intros j. destruct (decide (j = i)) as [->|Hne].
  - rewrite !list_lookup_alter_eq. by destruct (l !! i).
  - by rewrite !list_lookup_alter_ne by done.
Qed.

Lemma list_inserts_0 {A} (l d : list A) : (length l ≤ length d)%nat → list_inserts 0 l d = l ++ drop (length l) d.
Proof.
  intros Hl. apply list_eq. intros n. destruct (decide (n < length l)%nat).
  - rewrite list_lookup_inserts by lia. rewrite lookup_app_l by lia. f_equal. lia.
  - rewrite list_lookup_inserts_ge by lia. rewrite lookup_app_r, lookup_drop by lia. f_equal. lia.
Qed.

(** ** Machine integers

    Integers are kept as [Z] and wrapped where the C code wraps. *)

Declare Scope xv6_scope.
Delimit Scope xv6_scope with xv6.
Open Scope Z_scope.

Definition u8 (z : Z) : Z := z mod 256.
Definition u16 (z : Z) : Z := z mod 2 ^ 16.
Definition u32 (z : Z) : Z := z mod 2 ^ 32.
Definition s16 (z : Z) : Z := (z + 2 ^ 15) mod 2 ^ 16 - 2 ^ 15.
Definition s32 (z : Z) : Z := (z + 2 ^ 31) mod 2 ^ 32 - 2 ^ 31.
Definition INT_MAX : Z := 2 ^ 31 - 1.

Notation "a +32 b" := (u32 (a + b)) (at level 50, left associativity) : xv6_scope.
Notation "a -32 b" := (u32 (a - b)) (at level 50, left associativity) : xv6_scope.

(** C truth value of an integer. *)
Definition truthy (z : Z) : bool := negb (z =? 0).

Lemma u8_range z : 0 ≤ u8 z < 256.
Proof. apply Z.mod_pos_bound. lia. Qed.
Lemma u16_range z : 0 ≤ u16 z < 2 ^ 16.
Proof. apply Z.mod_pos_bound. lia. Qed.
Lemma u32_range z : 0 ≤ u32 z < 2 ^ 32.
Proof. apply Z.mod_pos_bound. lia. Qed.
Lemma u8_small z : 0 ≤ z < 256 → u8 z = z.
Proof. apply Z.mod_small. Qed.
Lemma u16_small z : 0 ≤ z < 2 ^ 16 → u16 z = z.
Proof. apply Z.mod_small. Qed.
Lemma u32_small z : 0 ≤ z < 2 ^ 32 → u32 z = z.
Proof. apply Z.mod_small. Qed.
Lemma s32_range z : - 2 ^ 31 ≤ s32 z < 2 ^ 31.
Proof. unfold s32. pose proof (Z.mod_pos_bound (z + 2 ^ 31) (2 ^ 32) eq_refl). lia. Qed.
Lemma s32_small z : - 2 ^ 31 ≤ z < 2 ^ 31 → s32 z = z.
Proof. intros. unfold s32. rewrite Z.mod_small; lia. Qed.
Lemma s16_small z : - 2 ^ 15 ≤ z < 2 ^ 15 → s16 z = z.
Proof. intros. unfold s16. rewrite Z.mod_small; lia. Qed.
Lemma u32_add_l a b : u32 (u32 a + b) = u32 (a + b).
Proof. unfold u32. by rewrite Zplus_mod_idemp_l. Qed.
Lemma u32_add_r a b : u32 (a + u32 b) = u32 (a + b).
Proof. unfold u32. by rewrite Zplus_mod_idemp_r. Qed.
Lemma u32_s32 z : u32 (s32 z) = u32 z.
Proof.
  unfold u32, s32. rewrite Zminus_mod_idemp_l. f_equal. lia.
Qed.
Lemma u32_u32 z : u32 (u32 z) = u32 z.
Proof. unfold u32. by rewrite Zmod_mod. Qed.
Lemma s32_u32 z : s32 (u32 z) = s32 z.
Proof. unfold u32, s32. by rewrite Zplus_mod_idemp_l. Qed.

#[export] Hint Resolve u8_range u16_range u32_range s32_range : xv6.
Create Rewrite HintDb xv6.
#[export] Hint Rewrite u32_add_l u32_add_r u32_s32 u32_u32 s32_u32 : xv6.

Lemma truthy_false z : truthy z = false ↔ z = 0.
Proof. unfold truthy. rewrite negb_false_iff. apply Z.eqb_eq. Qed.
Lemma truthy_true z : truthy z = true ↔ z ≠ 0.
Proof. unfold truthy. rewrite negb_true_iff. apply Z.eqb_neq. Qed.

(** A single-bit mask selects one bit. *)
Lemma land_pow2_eqb f k : 0 ≤ k → (Z.land f (2 ^ k) =? 0) = negb (Z.testbit f k).
Proof.
  intros Hk. destruct (Z.testbit f k) eqn:E; simpl.
  - apply Z.eqb_neq. intros H.
    assert (Z.testbit (Z.land f (2 ^ k)) k = true) as Hb.
    { rewrite Z.land_spec, E, Z.pow2_bits_true by lia. done. }
    rewrite H, Z.bits_0 in Hb. done.
  - apply Z.eqb_eq, Z.bits_inj'. intros n Hn.
    rewrite Z.land_spec, Z.bits_0, Z.pow2_bits_eqb by lia.
    bcase; subst; [by rewrite E | by rewrite andb_false_r].
Qed.

(** ** Byte-addressed memory *)

Definition mem : Type := Z → Z.

Definition store (m : mem) (a v : Z) : mem := λ x, if x =? a then v else m x.

(** The [n] bytes at address [a]. *)
Fixpoint bytes (m : mem) (a : Z) (n : nat) : list Z :=
  match n with
  | O => []
  | S n' => m a :: bytes m (a + 1) n'
  end.

Definition store32 (m : mem) (a v : Z) : mem :=
  store (store (store (store m a (u8 v)) (a + 1) (u8 (v / 2 ^ 8)))
    (a + 2) (u8 (v / 2 ^ 16))) (a + 3) (u8 (v / 2 ^ 24)).

Definition load32 (m : mem) (a : Z) : Z :=
  m a + 2 ^ 8 * m (a + 1) + 2 ^ 16 * m (a + 2) + 2 ^ 24 * m (a + 3).

Definition load16 (m : mem) (a : Z) : Z := m a + 2 ^ 8 * m (a + 1).

Lemma store_same m a v : store m a v a = v.
Proof. unfold store. by rewrite Z.eqb_refl. Qed.
Lemma store_other m a v x : x ≠ a → store m a v x = m x.
Proof. intros H. unfold store. by apply Z.eqb_neq in H as ->. Qed.

Lemma length_bytes m a n : length (bytes m a n) = n.
Proof. revert a. induction n; intros a; simpl; auto. Qed.

Lemma lookup_bytes m a n i : (i < n)%nat → bytes m a n !! i = Some (m (a + Z.of_nat i)).
Proof.
  revert a i. induction n as [|n IH]; intros a i Hi; [lia|].
  destruct i as [|i]; simpl; [by rewrite Z.add_0_r|].
  rewrite IH by lia. do 2 f_equal. lia.
Qed.

Lemma bytes_ext m m' a n :
  (∀ x, a ≤ x < a + Z.of_nat n → m x = m' x) → bytes m a n = bytes m' a n.
Proof.
  revert a. induction n as [|n IH]; intros a H; simpl; [done|].
  f_equal; [apply H; lia | apply IH; intros; apply H; lia].
Qed.

Lemma load_store32_same m a v : load32 (store32 m a v) a = u32 v.
Proof.
  unfold load32, store32, store. repeat (rewrite Z.eqb_refl || (bcase; [lia|])).
  bcase; try lia. unfold u8, u32. Z.div_mod_to_equations. lia.
Qed.

Lemma store32_other m a v x : ¬ (a ≤ x < a + 4) → store32 m a v x = m x.
Proof. intros H. unfold store32, store. bcase; lia. Qed.

Lemma load32_ext m m' a : (∀ x, a ≤ x < a + 4 → m x = m' x) → load32 m a = load32 m' a.
Proof. intros H. unfold load32. rewrite !H by lia. done. Qed.
Lemma load_store32_ne m a b v : b + 4 ≤ a ∨ a + 4 ≤ b → load32 (store32 m a v) b = load32 m b.
Proof. intros H. apply load32_ext. intros x Hx. apply store32_other. lia. Qed.

