(* ===== verification/CString.v ===== *)
(** * String and memory routines

    Models [string.c] (and the variants of [ulib.c]) on a byte-addressed
    memory: every loop of the C code is a recursion that performs the same
    byte loads and stores in the same order. *)

From S2P Require Import Prelude.

(** ** [memset] and the string instructions of [x86.h] *)

(** [rep stosb]: [cnt] bytes from [a]. *)
Fixpoint stosb (m : mem) (a data : Z) (cnt : nat) : mem :=
  match cnt with
  | O => m
  | S cnt' => stosb (store m a (u8 data)) (a + 1) data cnt'
  end.

(** [rep stosl]: [cnt] little-endian words from [a]. *)
Fixpoint stosl (m : mem) (a data : Z) (cnt : nat) : mem :=
  match cnt with
  | O => m
  | S cnt' => stosl (store32 m a data) (a + 4) data cnt'
  end.

Definition memset (m : mem) (dst c n : Z) : mem :=
  if (dst mod 4 =? 0) && (n mod 4 =? 0) then
    let c := Z.land c 255 in
    stosl m dst
      (Z.lor (Z.lor (Z.lor (Z.shiftl c 24) (Z.shiftl c 16)) (Z.shiftl c 8)) c)
      (Z.to_nat (n / 4))
  else stosb m dst c (Z.to_nat n).

(** ** [memcmp] *)

Fixpoint memcmp_loop (m : mem) (s1 s2 : Z) (n : nat) : Z :=
  match n with
  | O => 0
  | S n' => if negb (m s1 =? m s2) then m s1 - m s2
            else memcmp_loop m (s1 + 1) (s2 + 1) n'
  end.

Definition memcmp (m : mem) (v1 v2 n : Z) : Z := memcmp_loop m v1 v2 (Z.to_nat n).

(** ** [memmove] *)

(** [while(n-- > 0) *--d = *--s;] *)
Fixpoint copy_down (m : mem) (d s : Z) (n : nat) : mem :=
  match n with
  | O => m
  | S n' => copy_down (store m (d - 1) (m (s - 1))) (d - 1) (s - 1) n'
  end.

(** [while(n-- > 0) *d++ = *s++;] *)
Fixpoint copy_up (m : mem) (d s : Z) (n : nat) : mem :=
  match n with
  | O => m
  | S n' => copy_up (store m d (m s)) (d + 1) (s + 1) n'
  end.

Definition memmove (m : mem) (dst src n : Z) : mem :=
  if (src <? dst) && (dst <? src + n)
  then copy_down m (dst + n) (src + n) (Z.to_nat n)
  else copy_up m dst src (Z.to_nat n).

(** [memcpy exists to placate GCC.  Use memmove.] *)
Definition memcpy (m : mem) (dst src n : Z) : mem := memmove m dst src n.

(** ** [strncmp], [strncpy], [safestrcpy], [strlen] *)

Fixpoint strncmp_loop (m : mem) (p q : Z) (n : nat) : Z :=
  match n with
  | O => 0
  | S n' =>
      if truthy (m p) && (m p =? m q) then strncmp_loop m (p + 1) (q + 1) n'
      else u8 (m p) - u8 (m q)
  end.

Definition strncmp (m : mem) (p q n : Z) : Z := strncmp_loop m p q (Z.to_nat n).

(** [while(n-- > 0) *s++ = 0;] *)
Fixpoint pad_zero (m : mem) (s : Z) (n : nat) : mem :=
  match n with
  | O => m
  | S n' => pad_zero (store m s 0) (s + 1) n'
  end.

(** [while(n-- > 0 && ( *s++ = *t++ ) != 0);] followed by the padding loop,
    which runs for the [n] left when a NUL was copied. *)
Fixpoint strncpy_loop (m : mem) (s t : Z) (n : nat) : mem :=
  match n with
  | O => m
  | S n' =>
      let m' := store m s (m t) in
      if m t =? 0 then pad_zero m' (s + 1) n'
      else strncpy_loop m' (s + 1) (t + 1) n'
  end.

Definition strncpy (m : mem) (s t n : Z) : mem := strncpy_loop m s t (Z.to_nat n).

(** [while(--n > 0 && ( *s++ = *t++ ) != 0);  *s = 0;] with [n] the value left
    after the first decrement. *)
Fixpoint safestrcpy_loop (m : mem) (s t : Z) (n : nat) : mem :=
  match n with
  | O => store m s 0
  | S n' =>
      let m' := store m s (m t) in
      if m t =? 0 then store m' (s + 1) 0
      else safestrcpy_loop m' (s + 1) (t + 1) n'
  end.

Definition safestrcpy (m : mem) (s t n : Z) : mem :=
  if n <=? 0 then m else safestrcpy_loop m s t (Z.to_nat (n - 1)).

(** [for(n = 0; s[n]; n++);] needs a NUL to stop: the fuel bounds the search. *)
Fixpoint strlen (fuel : nat) (m : mem) (s : Z) : option Z :=
  match fuel with
  | O => None
  | S f => if truthy (m s) then Z.succ <$> strlen f m (s + 1) else Some 0
  end.

(** ** Specifications *)

(** The string at [p], cut at the first NUL or after [n] bytes. *)
Fixpoint cstr (m : mem) (p : Z) (n : nat) : list Z :=
  match n with
  | O => []
  | S n' => if m p =? 0 then [] else m p :: cstr m (p + 1) n'
  end.

Definition byte_mem (m : mem) : Prop := ∀ x, 0 ≤ m x < 256.

Lemma byte_mem_store m a v : byte_mem m → 0 ≤ v < 256 → byte_mem (store m a v).
Proof. intros Hm Hv x. unfold store. bcase; auto. Qed.
#[export] Hint Resolve byte_mem_store : xv6.
Lemma load32_range m a : byte_mem m → 0 ≤ load32 m a < 2 ^ 32.
Proof. intros Hm. unfold load32. pose proof (Hm a). pose proof (Hm (a + 1)). pose proof (Hm (a + 2)). pose proof (Hm (a + 3)). lia. Qed.

Lemma cstr_ext m m' p n :
  (∀ x, p ≤ x < p + Z.of_nat n → m x = m' x) → cstr m p n = cstr m' p n.
Proof.
  revert p. induction n as [|n IH]; intros p H; simpl; [done|].
  rewrite (H p) by lia. destruct (m' p =? 0); [done|].
  f_equal. apply IH. intros. apply H. lia.
Qed.

Lemma length_cstr m p n : (length (cstr m p n) ≤ n)%nat.
Proof.
  revert p. induction n as [|n IH]; intros p; simpl; [done|].
  destruct (m p =? 0); simpl; [lia|]. specialize (IH (p + 1)). lia.
Qed.

Lemma stosb_spec m a data cnt x :
  stosb m a data cnt x =
  if (a <=? x) && (x <? a + Z.of_nat cnt) then u8 data else m x.
Proof.
  revert m a. induction cnt as [|cnt IH]; intros m a; simpl.
  { bcase; simpl; try done; lia. }
  rewrite IH. unfold store. bcase; simpl; try done; lia.
Qed.

(** The word [memset] builds holds its byte four times. *)
Lemma memset_word c : 0 ≤ c < 256 →
  let w := Z.lor (Z.lor (Z.lor (Z.shiftl c 24) (Z.shiftl c 16)) (Z.shiftl c 8)) c in
  u8 w = c ∧ u8 (w / 2 ^ 8) = c ∧ u8 (w / 2 ^ 16) = c ∧ u8 (w / 2 ^ 24) = c.
Proof.
  intros Hc.
  assert (forallb (λ c, let w := Z.lor (Z.lor (Z.lor (Z.shiftl c 24) (Z.shiftl c 16)) (Z.shiftl c 8)) c in
    (u8 w =? c) && (u8 (w / 2 ^ 8) =? c) && (u8 (w / 2 ^ 16) =? c) && (u8 (w / 2 ^ 24) =? c))
    (seqZ 0 256) = true) as Hall by (vm_compute; reflexivity).
  rewrite forallb_forall in Hall. specialize (Hall c).
  cbv zeta in Hall. rewrite !andb_true_iff, !Z.eqb_eq in Hall.
  destruct Hall as [[[? ?] ?] ?]; [|auto].
  apply list_elem_of_In, elem_of_seqZ. lia.
Qed.

Lemma stosl_spec m a data b cnt x :
  u8 data = b → u8 (data / 2 ^ 8) = b → u8 (data / 2 ^ 16) = b → u8 (data / 2 ^ 24) = b →
  stosl m a data cnt x =
  if (a <=? x) && (x <? a + 4 * Z.of_nat cnt) then b else m x.
Proof.
  intros H0 H1 H2 H3. revert m a. induction cnt as [|cnt IH]; intros m a; cbn [stosl].
  { bcase; simpl; try done; lia. }
  rewrite IH. unfold store32, store. rewrite H0, H1, H2, H3.
  bcase; simpl; try done; lia.
Qed.

Lemma copy_up_spec m d s n x :
  ¬ (s < d < s + Z.of_nat n) →
  copy_up m d s n x =
  if (d <=? x) && (x <? d + Z.of_nat n) then m (s + (x - d)) else m x.
Proof.
  revert m d s. induction n as [|n IH]; intros m d s H; simpl.
  { bcase; simpl; try done; lia. }
  rewrite IH by lia. unfold store. bcase; simpl; try done; try lia; f_equal; lia.
Qed.

Lemma copy_down_spec m d s n x :
  ¬ (d < s < d + Z.of_nat n) →
  copy_down m d s n x =
  if (d - Z.of_nat n <=? x) && (x <? d) then m (s - (d - x)) else m x.
Proof.
  revert m d s. induction n as [|n IH]; intros m d s H; simpl.
  { bcase; simpl; try done; lia. }
  rewrite IH by lia. unfold store. bcase; simpl; try done; try lia; f_equal; lia.
Qed.

Lemma memmove_spec m dst src n x : 0 ≤ n →
  memmove m dst src n x =
  if (dst <=? x) && (x <? dst + n) then m (src + (x - dst)) else m x.
Proof.
  intros Hn. unfold memmove.
  destruct (Z.ltb_spec src dst); destruct (Z.ltb_spec dst (src + n)); simpl.
  - rewrite copy_down_spec by lia. rewrite Z2Nat.id by done.
    bcase; simpl; try done; try lia; f_equal; lia.
  - rewrite copy_up_spec by lia. by rewrite Z2Nat.id by done.
  - rewrite copy_up_spec by lia. by rewrite Z2Nat.id by done.
  - rewrite copy_up_spec by lia. by rewrite Z2Nat.id by done.
Qed.

Lemma memset_spec m dst c n x : 0 ≤ n →
  memset m dst c n x = if (dst <=? x) && (x <? dst + n) then u8 c else m x.
Proof.
  intros Hn. unfold memset.
  destruct (Z.eqb_spec (dst mod 4) 0); destruct (Z.eqb_spec (n mod 4) 0); simpl.
  2-4: rewrite stosb_spec; by rewrite Z2Nat.id by done.
  change 255 with (Z.ones 8). rewrite Z.land_ones by lia.
  pose proof (Z.mod_pos_bound c (2 ^ 8) eq_refl) as Hc.
  destruct (memset_word (c mod 2 ^ 8) Hc) as (H0 & H1 & H2 & H3).
  rewrite (stosl_spec _ _ _ (c mod 2 ^ 8)) by assumption.
  rewrite Z2Nat.id by (apply Z.div_pos; lia).
  replace (4 * (n / 4)) with n by (Z.div_mod_to_equations; lia). done.
Qed.

Lemma strncmp_spec m p q n : byte_mem m →
  strncmp_loop m p q n = 0 ↔ cstr m p n = cstr m q n.
Proof.
  intros Hm. revert p q. induction n as [|n IH]; intros p q; simpl; [done|].
  unfold truthy. rewrite !u8_small by apply Hm.
  destruct (Z.eqb_spec (m p) 0) as [E|E]; simpl.
  { destruct (Z.eqb_spec (m q) 0); split; intros; try done; lia. }
  destruct (Z.eqb_spec (m p) (m q)) as [E'|E'].
  - rewrite IH, <- E'. apply Z.eqb_neq in E. rewrite E. split; congruence.
  - destruct (m q =? 0); split; intros H; try done; [lia|lia|congruence].
Qed.

Lemma pad_zero_spec m s n x :
  pad_zero m s n x = if (s <=? x) && (x <? s + Z.of_nat n) then 0 else m x.
Proof.
  revert m s. induction n as [|n IH]; intros m s; simpl.
  { bcase; simpl; try done; lia. }
  rewrite IH. unfold store. bcase; simpl; try done; lia.
Qed.

Lemma bytes_pad_zero m s n : bytes (pad_zero m s n) s n = replicate n 0.
Proof.
  apply list_eq_same_length with n; rewrite ?length_bytes, ?length_replicate; [done..|].
  intros i a b Hi. rewrite lookup_bytes, lookup_replicate_2 by done.
  rewrite pad_zero_spec. intros [= <-] [= <-]. bcase; simpl; lia.
Qed.

Lemma strncpy_frame m s t n x :
  ¬ (s ≤ x < s + Z.of_nat n) → strncpy_loop m s t n x = m x.
Proof.
  revert m s t. induction n as [|n IH]; intros m s t H; simpl; [done|].
  destruct (m t =? 0).
  - rewrite pad_zero_spec. unfold store. bcase; simpl; try done; lia.
  - rewrite IH by lia. apply store_other. lia.
Qed.

Lemma strncpy_bytes m s t n :
  (s + Z.of_nat n ≤ t ∨ t + Z.of_nat n ≤ s) →
  bytes (strncpy_loop m s t n) s n =
  cstr m t n ++ replicate (n - length (cstr m t n)) 0.
Proof.
  revert m s t. induction n as [|n IH]; intros m s t H; [done|].
  cbn [strncpy_loop bytes cstr]. destruct (Z.eqb_spec (m t) 0) as [E|E].
  - cbn [app length]. rewrite pad_zero_spec, bytes_pad_zero, E.
    unfold store. bcase; simpl; try lia; done.
  - rewrite strncpy_frame by lia. rewrite store_same. cbn [app length].
    f_equal. rewrite IH by lia. rewrite Nat.sub_succ.
    rewrite (cstr_ext (store m s (m t)) m) by (intros; apply store_other; lia). done.
Qed.

Lemma safestrcpy_frame m s t n x :
  ¬ (s ≤ x ≤ s + Z.of_nat n) → safestrcpy_loop m s t n x = m x.
Proof.
  revert m s t. induction n as [|n IH]; intros m s t H; simpl.
  { apply store_other. lia. }
  destruct (m t =? 0).
  - rewrite !store_other by lia. done.
  - rewrite IH by lia. apply store_other. lia.
Qed.

Lemma safestrcpy_str m s t n :
  (s + Z.of_nat n < t ∨ t + Z.of_nat n ≤ s) →
  cstr (safestrcpy_loop m s t n) s (S n) = cstr m t n.
Proof.
  revert m s t. induction n as [|n IH]; intros m s t H.
  { simpl. by rewrite store_same. }
  cbn [safestrcpy_loop]. destruct (Z.eqb_spec (m t) 0) as [E|E].
  - cbn [cstr]. rewrite store_other, store_same, E by lia. done.
  - cbn [cstr]. rewrite safestrcpy_frame, store_same by lia.
    apply Z.eqb_neq in E. rewrite E. f_equal.
    specialize (IH (store m s (m t)) (s + 1) (t + 1)). cbn [cstr] in IH.
    rewrite IH by lia. apply cstr_ext. intros. apply store_other. lia.
Qed.

Lemma strlen_spec m s k fuel :
  (∀ i, 0 ≤ i < Z.of_nat k → m (s + i) ≠ 0) → m (s + Z.of_nat k) = 0 →
  (k < fuel)%nat → strlen fuel m s = Some (Z.of_nat k).
Proof.
  revert s k. induction fuel as [|f IH]; intros s k Hnz Hz Hf; [lia|].
  destruct k as [|k]; simpl.
  { rewrite Z.add_0_r in Hz. by rewrite Hz. }
  specialize (Hnz 0) as H0. rewrite Z.add_0_r in H0.
  unfold truthy. rewrite (proj2 (Z.eqb_neq _ _)) by (apply H0; lia). simpl.
  rewrite (IH (s + 1) k); [|intros i Hi|..|lia].
  - simpl. f_equal. lia.
  - replace (s + 1 + i) with (s + (i + 1)) by lia. apply Hnz. lia.
  - rewrite <- Hz. f_equal. lia.
Qed.

(** A byte array cut at its first NUL: the C string it holds. *)
Fixpoint cut (l : list Z) : list Z :=
  match l with
  | [] => []
  | b :: r => if b =? 0 then [] else b :: cut r
  end.

Lemma cstr_cut m p n : cstr m p n = cut (bytes m p n).
Proof.
  revert p. induction n as [|n IH]; intros p; simpl; [done|].
  destruct (m p =? 0); [done|]. by rewrite IH.
Qed.

Lemma cut_app_zeros l k : cut (cut l ++ replicate k 0) = cut l.
Proof.
  induction l as [|b l IH]; simpl; [by destruct k|].
  destruct (b =? 0) eqn:E; simpl; [by destruct k|]. rewrite E. by rewrite IH.
Qed.

Lemma byte_mem_pad m s n : byte_mem m → byte_mem (pad_zero m s n).
Proof. intros Hm x. rewrite pad_zero_spec. destruct (_ && _); [lia|apply Hm]. Qed.

Lemma byte_mem_strncpy m s t n : byte_mem m → byte_mem (strncpy_loop m s t n).
Proof.
  revert m s t. induction n as [|n IH]; intros m s t Hm; simpl; [done|].
  destruct (m t =? 0); [apply byte_mem_pad|apply IH]; by apply byte_mem_store.
Qed.

(** ** Properties *)

(** [memset] stores the low byte of its argument at exactly the [n]
    addresses from [dst], whether it takes the word path ([stosl]) or the
    byte path ([stosb]). *)
Theorem memset_fills m dst c n : 0 ≤ n →
  ∀ x, memset m dst c n x = if (dst <=? x) && (x <? dst + n) then u8 c else m x.
Proof. intros Hn x. by apply memset_spec. Qed.

Lemma memset_fills_witness :
  memset (λ _, 7) 8 258 16 23 = 2 ∧ memset (λ _, 7) 9 258 3 11 = 2 ∧
  memset (λ _, 7) 9 258 3 12 = 7.
Proof.
  split; [|split]; rewrite memset_fills by lia; reflexivity.
Defined.

(** [memmove] copies the [n] bytes at [src] to [dst] as they were before
    the call, also when the two ranges overlap, and changes nothing else. *)
Theorem memmove_overlap m dst src n : 0 ≤ n →
  bytes (memmove m dst src n) dst (Z.to_nat n) = bytes m src (Z.to_nat n) ∧
  (∀ x, ¬ (dst ≤ x < dst + n) → memmove m dst src n x = m x).
Proof.
  intros Hn. split.
  - apply list_eq_same_length with (Z.to_nat n); rewrite ?length_bytes; [done..|].
    intros i a b Hi. rewrite !lookup_bytes by done. rewrite memmove_spec by done.
    intros [= <-] [= <-]. bcase; simpl; try lia. f_equal. lia.
  - intros x Hx. rewrite memmove_spec by done. bcase; simpl; try done; lia.
Qed.

Lemma memmove_overlap_witness :
  bytes (memmove (λ x, x) 12 10 5) 12 5 = [10; 11; 12; 13; 14].
Proof.
  exact (proj1 (memmove_overlap (λ x, x) 12 10 5 ltac:(lia))).
Defined.

(** [safestrcpy] with a positive size leaves, in the [n] bytes at [s], a
    NUL-terminated string that is the source cut to [n - 1] bytes, and
    touches no byte outside them. *)
Theorem safestrcpy_terminates m s t n : 0 < n →
  (s + n ≤ t ∨ t + n ≤ s) →
  let m' := safestrcpy m s t n in
  cstr m' s (Z.to_nat n) = cstr m t (Z.to_nat (n - 1)) ∧
  (length (cstr m' s (Z.to_nat n)) < Z.to_nat n)%nat ∧
  (∀ x, ¬ (s ≤ x < s + n) → m' x = m x).
Proof.
  intros Hn Hd. unfold safestrcpy. rewrite (proj2 (Z.leb_gt _ _)) by done.
  replace (Z.to_nat n) with (S (Z.to_nat (n - 1))) by lia. cbv zeta.
  rewrite safestrcpy_str by lia. repeat split.
  - pose proof (length_cstr m t (Z.to_nat (n - 1))). lia.
  - intros x Hx. apply safestrcpy_frame. lia.
Qed.

Lemma safestrcpy_terminates_witness :
  cstr (safestrcpy (λ x, x) 100 65 4) 100 4 = [65; 66; 67].
Proof.
  exact (proj1 (safestrcpy_terminates (λ x, x) 100 65 4 ltac:(lia) ltac:(lia))).
Defined.

(** [strncpy] fills all [n] bytes of the destination: the source up to
    its NUL, then zeros; and two names so stored compare equal with [strncmp]
    exactly when the sources agree on their first [n] bytes. *)
Theorem strncpy_strncmp m s t q n : byte_mem m → 0 ≤ n →
  (s + n ≤ t ∨ t + n ≤ s) → (s + n ≤ q ∨ q + n ≤ s) →
  let m' := strncpy m s t n in
  bytes m' s (Z.to_nat n) =
    cstr m t (Z.to_nat n) ++ replicate (Z.to_nat n - length (cstr m t (Z.to_nat n))) 0 ∧
  (strncmp m' q s n = 0 ↔ cstr m q (Z.to_nat n) = cstr m t (Z.to_nat n)).
Proof.
  intros Hm Hn Ht Hq. unfold strncpy, strncmp. cbv zeta.
  rewrite strncpy_bytes by (rewrite Z2Nat.id; lia). split; [done|].
  rewrite strncmp_spec by (by apply byte_mem_strncpy).
  rewrite (cstr_cut _ s), strncpy_bytes by (rewrite Z2Nat.id; lia).
  rewrite (cstr_cut m t), cut_app_zeros.
  rewrite (cstr_ext _ m q) by (intros; apply strncpy_frame; lia). done.
Qed.

Lemma strncpy_strncmp_witness :
  strncmp (strncpy (λ x, if x =? 42 then 0 else 9) 100 40 6) 40 100 6 = 0.
Proof.
  refine (proj2 (proj2 (strncpy_strncmp (λ x, if x =? 42 then 0 else 9) 100 40 40 6 _ _ _ _)) eq_refl);
    [intros x; bcase; lia | lia..].
Defined.
