(* ===== verification/Layout.v ===== *)
(** * Memory layout

    Constants and address arithmetic of [memlayout.h] and [mmu.h], with the
    constants of [param.h], [elf.h] and [traps.h] that several parts use. *)

From S2P Require Import Prelude.

Definition NCPU : nat := 8.
Definition ELF_MAGIC : Z := 1179403647.
Definition sizeof_proghdr : Z := 32.
Definition T_SYSCALL : Z := 64.
Definition T_IRQ0 : Z := 32.
Definition IRQ_TIMER : Z := 0.
Definition IRQ_KBD : Z := 1.
Definition IRQ_COM1 : Z := 4.
Definition IRQ_IDE : Z := 14.
Definition IRQ_SPURIOUS : Z := 31.
Definition IRQ_ERROR : Z := 19.
Definition DPL_USER : Z := 3.

Definition PGSIZE : Z := 4096.
Definition EXTMEM : Z := 2 ^ 20.
Definition PHYSTOP : Z := 14 * 2 ^ 24.
Definition DEVSPACE : Z := 2 ^ 32 - 2 ^ 25.
Definition KERNBASE : Z := 2 ^ 31.
Definition KERNLINK : Z := KERNBASE + EXTMEM.
Definition V2P (a : Z) : Z := u32 (a - KERNBASE).
Definition P2V (a : Z) : Z := u32 (a + KERNBASE).

(** [~(PGSIZE-1)] as an unsigned int. *)
Definition page_mask : Z := u32 (Z.lnot (PGSIZE - 1)).
Definition PGROUNDUP (sz : Z) : Z := Z.land (u32 (sz + PGSIZE - 1)) page_mask.
Definition PGROUNDDOWN (a : Z) : Z := Z.land a page_mask.

(** Masking the low bits rounds down. *)
Lemma land_page_mask a : 0 ≤ a < 2 ^ 32 → Z.land a page_mask = a - a mod PGSIZE.
Proof.
  intros Ha. change page_mask with (Z.ldiff (Z.ones 32) (Z.ones 12)).
  change PGSIZE with (2 ^ 12). rewrite <- Z.land_ones by lia.
  assert (Z.land a (Z.ldiff (Z.ones 32) (Z.ones 12)) = Z.ldiff a (Z.ones 12)) as ->.
  { apply Z.bits_inj'. intros i Hi. rewrite Z.land_spec, !Z.ldiff_spec, !Z.testbit_ones_nonneg by lia.
    destruct (Z.ltb_spec i 32); [by rewrite andb_true_l|].
    rewrite (Z.bits_above_log2 a i); [done|lia|].
    destruct (Z.eq_dec a 0) as [->|]; [simpl; lia|]. apply Z.log2_lt_pow2; [lia|].
    apply Z.lt_le_trans with (2 ^ 32); [lia|]. apply Z.pow_le_mono_r; lia. }
  rewrite Z.sub_nocarry_ldiff; [|].
  - apply Z.bits_inj'. intros i Hi. rewrite !Z.ldiff_spec, Z.land_spec.
    by destruct (Z.testbit a i), (Z.testbit (Z.ones 12) i).
  - apply Z.bits_inj'. intros i Hi. rewrite Z.ldiff_spec, Z.land_spec, Z.bits_0.
    by destruct (Z.testbit a i), (Z.testbit (Z.ones 12) i).
Qed.

Lemma PGROUNDDOWN_eq a : 0 ≤ a < 2 ^ 32 → PGROUNDDOWN a = a - a mod PGSIZE.
Proof. apply land_page_mask. Qed.

Lemma PGROUNDUP_eq a : 0 ≤ a ≤ 2 ^ 32 - PGSIZE →
  PGROUNDUP a = a + PGSIZE - 1 - (a + PGSIZE - 1) mod PGSIZE.
Proof.
  intros Ha. unfold PGROUNDUP. unfold PGSIZE in *. rewrite u32_small by lia. apply land_page_mask. lia.
Qed.

Lemma PGROUNDUP_bounds a : 0 ≤ a ≤ 2 ^ 32 - PGSIZE →
  a ≤ PGROUNDUP a < a + PGSIZE ∧ PGROUNDUP a mod PGSIZE = 0.
Proof. intros Ha. rewrite PGROUNDUP_eq by done. unfold PGSIZE. Z.div_mod_to_equations. lia. Qed.

Lemma PGROUNDDOWN_bounds a : 0 ≤ a < 2 ^ 32 →
  PGROUNDDOWN a ≤ a < PGROUNDDOWN a + PGSIZE ∧ PGROUNDDOWN a mod PGSIZE = 0.
Proof. intros Ha. rewrite PGROUNDDOWN_eq by done. unfold PGSIZE. Z.div_mod_to_equations. lia. Qed.
