(* ===== verification/Kalloc.v ===== *)
(** * The physical page allocator

    Models [kalloc.c]: a free list threaded through the free pages
    themselves.  It refines a set of pages: whatever its clients do with the
    pages they hold, no page is handed out twice and none is lost. *)

From S2P Require Import Prelude CString Layout.

(** [kmem], with the memory the pages are in. *)
Record kmem := Kmem { km : mem; freelist : Z }.

Section kalloc.
(** The linker symbol [end]. *)
Context (end_ : Z).

Definition kfree (v : Z) : M kmem unit := λ s,
  if truthy (v mod PGSIZE) || (v <? end_) || (PHYSTOP <=? V2P v) then Panic "kfree"
  else
    let m := memset (km s) v 1 PGSIZE in
    Ok (tt, Kmem (store32 m v (freelist s)) v).

Definition kalloc : M kmem Z := λ s,
  let r := freelist s in
  Ok (r, if truthy r then Kmem (km s) (load32 (km s) r) else s).

(** The loop of [freerange]; every round frees one page below [vend]. *)
Fixpoint freerange_loop (fuel : nat) (p vend : Z) : M kmem unit :=
  match fuel with
  | O => undef
  | S f =>
      if u32 (p + PGSIZE) <=? vend then kfree p;; freerange_loop f (u32 (p + PGSIZE)) vend
      else mret tt
  end.

Definition freerange (vstart vend : Z) : M kmem unit :=
  freerange_loop (S (Z.to_nat (vend / PGSIZE))) (PGROUNDUP vstart) vend.

Definition kinit1 (vstart vend : Z) : M kmem unit := freerange vstart vend.
Definition kinit2 (vstart vend : Z) : M kmem unit := freerange vstart vend.

(** ** The free list as a list of pages *)

Definition page_ok (p : Z) : Prop := p mod PGSIZE = 0 ∧ end_ ≤ p ∧ KERNBASE ≤ p < KERNBASE + PHYSTOP.

(** [x] is a byte of page [p]. *)
Definition in_page (p x : Z) : Prop := p ≤ x < p + PGSIZE.

(** The free list starting at [h] in memory [m] is [ps]; the rest of every
    free page is filled with 1. *)
Fixpoint flist (m : mem) (h : Z) (ps : list Z) : Prop :=
  match ps with
  | [] => h = 0
  | p :: ps' => h = p ∧ (∀ x, p + 4 ≤ x < p + PGSIZE → m x = 1) ∧ flist m (load32 m p) ps'
  end.

Lemma page_pos p : page_ok p → 0 < p < 2 ^ 32.
Proof. unfold page_ok, KERNBASE, PHYSTOP. lia. Qed.

Lemma pages_disjoint p q x : p mod PGSIZE = 0 → q mod PGSIZE = 0 → in_page p x → in_page q x → p = q.
Proof. unfold in_page, PGSIZE. intros. Z.div_mod_to_equations. lia. Qed.

Lemma flist_frame m m' h ps : (∀ p x, p ∈ ps → in_page p x → m x = m' x) → flist m h ps → flist m' h ps.
Proof.
  revert h. induction ps as [|p ps IH]; intros h Hx; simpl; [done|].
  intros (-> & Hj & Hf). split_and!; [done|..].
  - intros x Hr. rewrite <- (Hx p x); [auto|by left|unfold in_page, PGSIZE in *; lia].
  - erewrite <- load32_ext; [apply IH; [|exact Hf]|].
    + intros q x Hq. apply Hx. by right.
    + intros x Hr. apply (Hx p); [by left|]. unfold in_page, PGSIZE. lia.
Qed.

Lemma kfree_spec s v ps : page_ok v → Forall page_ok ps → v ∉ ps → 0 ≤ freelist s < 2 ^ 32 →
  flist (km s) (freelist s) ps →
  ∃ s', kfree v s = Ok (tt, s') ∧ flist (km s') (freelist s') (v :: ps) ∧
    ∀ x, ¬ in_page v x → km s' x = km s x.
Proof.
  intros Hv Hps Hnin Hfl Hf. pose proof (page_pos _ Hv). destruct Hv as (Ha & He & Hr).
  unfold kfree. rewrite Ha. simpl.
  rewrite (proj2 (Z.ltb_ge v end_)) by done.
  assert (V2P v < PHYSTOP) by (unfold V2P; rewrite u32_small; unfold KERNBASE, PHYSTOP in *; lia).
  rewrite (proj2 (Z.leb_gt PHYSTOP (V2P v))) by done. simpl.
  set (m' := store32 _ _ _). exists (Kmem m' v). split; [done|]. simpl.
  assert (∀ x, ¬ in_page v x → m' x = km s x) as Hfr.
  { intros x Hx. unfold m', in_page, PGSIZE in *. rewrite store32_other by lia.
    rewrite memset_spec by lia. bcase; simpl; lia || done. }
  split; [|exact Hfr]. split_and!; [done|..].
  - intros x Hx. unfold m', PGSIZE in *. rewrite store32_other by lia. rewrite memset_spec by lia.
    bcase; simpl; lia || done.
  - unfold m'. rewrite load_store32_same, u32_small by done. fold m'.
    eapply flist_frame; [|exact Hf]. intros q x Hq Hx. symmetry. apply Hfr. intros Hx'.
    destruct Hnin. rewrite (pages_disjoint v q x); try done. by eapply Forall_forall in Hps as [? _].
Qed.

(** ** Clients

    The pages handed out are [held]; a client gives back pages it holds and
    writes to bytes of pages it holds. *)

Inductive kevent :=
| KAlloc (p : Z)
| KFree (p : Z)
| KWrite (a v : Z).

Inductive kstep : kmem * list Z → kevent → kmem * list Z → Prop :=
| ks_alloc s held p s' : kalloc s = Ok (p, s') → p ≠ 0 → kstep (s, held) (KAlloc p) (s', p :: held)
| ks_none s held s' : kalloc s = Ok (0, s') → kstep (s, held) (KAlloc 0) (s', held)
| ks_free s held held' p s' : held ≡ₚ p :: held' → kfree p s = Ok (tt, s') →
    kstep (s, held) (KFree p) (s', held')
| ks_write s held p a v : p ∈ held → in_page p a →
    kstep (s, held) (KWrite a v) (Kmem (store (km s) a v) (freelist s), held).

(** The pages are partitioned into the free list and the held ones. *)
Record kalloc_inv (pages : list Z) (x : kmem * list Z) : Prop := {
  ka_ok : Forall page_ok pages;
  ka_nodup : NoDup pages;
  ka_part : ∃ free, flist (km x.1) (freelist x.1) free ∧ free ++ x.2 ≡ₚ pages
}.

Lemma flist_head m h ps : Forall page_ok ps → flist m h ps → 0 ≤ h < 2 ^ 32.
Proof.
  destruct ps as [|p ps]; simpl; [intros _ ->; lia|].
  intros [Hp _]%Forall_cons (-> & _). apply page_pos in Hp. lia.
Qed.

Lemma kstep_inv pages x e y : kalloc_inv pages x → kstep x e y → kalloc_inv pages y.
Proof.
  intros [Hok Hnd (free & Hf & Hp)] Hs.
  assert (Forall page_ok free) as Hokf.
  { rewrite <- Hp in Hok. by apply Forall_app in Hok as [? _]. }
  destruct Hs as [s held p s' Ha Hp0|s held s' Ha|s held held' p s' Hh Hk|s held p a v Hin Ha];
    simpl in *; split; try done.
  - unfold kalloc in Ha. injection Ha as <- <-. destruct free as [|q free]; simpl in Hf; [done|].
    destruct Hf as (E & _ & Hf). rewrite (proj2 (truthy_true _)) by done. exists free. simpl.
    rewrite <- E in *. split; [done|]. rewrite <- Hp. by rewrite <- Permutation_middle.
  - unfold kalloc in Ha. injection Ha as E <-. rewrite E. simpl. by exists free.
  - assert (page_ok p) as Hpp.
    { eapply Forall_forall; [exact Hok|]. rewrite <- Hp, Hh. set_solver. }
    assert (p ∉ free) as Hnin.
    { rewrite <- Hp, Hh in Hnd. apply NoDup_app in Hnd as (_ & Hd & _). intros Hin. apply (Hd p Hin). by left. }
    destruct (kfree_spec s p free) as (s1 & Hk1 & Hf1 & _); eauto using flist_head.
    rewrite Hk in Hk1. injection Hk1 as <-. exists (p :: free). split; [done|].
    rewrite <- Hp, Hh. simpl. by rewrite Permutation_middle.
  - exists free. split; [|done]. eapply flist_frame; [|exact Hf]. intros q x Hq Hx.
    symmetry. apply store_other. intros ->. rewrite <- Hp in Hnd.
    apply NoDup_app in Hnd as (_ & Hd & _). apply (Hd q Hq). rewrite (pages_disjoint q p a); try done.
    + by eapply Forall_forall in Hokf as [? _].
    + eapply (Forall_forall page_ok); [exact Hok|]. rewrite <- Hp. set_solver.
Qed.

Inductive kruns : kmem * list Z → list kevent → kmem * list Z → Prop :=
| kr_nil x : kruns x [] x
| kr_cons x e y es z : kstep x e y → kruns y es z → kruns x (e :: es) z.

Lemma kruns_inv pages x es y : kalloc_inv pages x → kruns x es y → kalloc_inv pages y.
Proof. intros Hi Hr. induction Hr; eauto using kstep_inv. Qed.

(** Progress: freeing a held page does not panic, and allocation fails only
    when no page is free. *)
Lemma kalloc_none pages s held : kalloc_inv pages (s, held) → freelist s = 0 → held ≡ₚ pages.
Proof.
  intros [Hok _ (free & Hf & Hp)] E. simpl in *. destruct free as [|p free]; [done|].
  destruct Hf as (E' & _). assert (page_ok p) as Hpp%page_pos; [|lia].
  rewrite <- Hp in Hok. simpl in Hok. by apply Forall_cons in Hok as [? _].
Qed.

(** ** Initialisation *)

Lemma freerange_loop_spec fuel p vend s ps :
  p mod PGSIZE = 0 → end_ ≤ p → KERNBASE ≤ p → vend ≤ KERNBASE + PHYSTOP → p ≤ 2 ^ 32 - 2 * PGSIZE →
  vend - p < PGSIZE * (Z.of_nat fuel + 1) →
  flist (km s) (freelist s) ps → Forall page_ok ps → NoDup ps → (∀ q, q ∈ ps → q < p) →
  ∃ s' new, freerange_loop (S fuel) p vend s = Ok (tt, s') ∧ flist (km s') (freelist s') (new ++ ps) ∧
    Forall page_ok new ∧ NoDup (new ++ ps) ∧
    ∀ q, q ∈ new ↔ q mod PGSIZE = 0 ∧ p ≤ q ∧ q + PGSIZE ≤ vend.
Proof.
  revert p s ps. induction fuel as [|f IH]; intros p s ps Ha He Hk Hv Hp Hfuel Hf Hok Hnd Hlt;
    cbn [freerange_loop]; (rewrite u32_small by (unfold PGSIZE, KERNBASE in *; lia));
    destruct (Z.leb_spec (p + PGSIZE) vend) as [Hle|Hle]; try (unfold PGSIZE in *; lia).
  1, 3: exists s, []; split_and!; try done; intros q; split; [intros []%not_elem_of_nil|];
    unfold PGSIZE in *; intros (? & ? & ?); Z.div_mod_to_equations; lia.
  assert (page_ok p) as Hpp by (unfold page_ok, PGSIZE, KERNBASE in *; split_and!; lia).
  assert (p ∉ ps) as Hnin by (intros Hin%Hlt; lia).
  destruct (kfree_spec s p ps) as (s1 & Hs1 & Hf1 & _); eauto using flist_head.
  destruct (IH (p + PGSIZE) s1 (p :: ps)) as (s2 & new & Hs2 & Hf2 & Hok2 & Hnd2 & Hin2); try done.
  - unfold PGSIZE in *. rewrite <- Ha. Z.div_mod_to_equations. lia.
  - unfold PGSIZE in *. lia.
  - unfold PGSIZE in *. lia.
  - unfold PGSIZE, KERNBASE, PHYSTOP in *. lia.
  - unfold PGSIZE in *. lia.
  - by constructor.
  - by constructor.
  - intros q [->|Hq]%elem_of_cons; [unfold PGSIZE; lia|]. apply Hlt in Hq. unfold PGSIZE. lia.
  - exists s2, (new ++ [p]). rewrite <- (assoc_L app). simpl.
    split_and!; [by rewrite (bind_ok _ _ _ _ _ Hs1)|done|apply Forall_app; auto|done|].
    intros q. rewrite elem_of_app, Hin2, list_elem_of_singleton. unfold PGSIZE in *. split.
    + intros [Hq| ->]; [lia|done].
    + intros (Hq & Hpq & Hqv). destruct (Z.eq_dec q p) as [->|]; [by right|left].
      split_and!; [done| |done]. Z.div_mod_to_equations. lia.
Qed.

Lemma freerange_spec vstart vend s ps :
  end_ ≤ vstart → KERNBASE ≤ vstart ≤ KERNBASE + PHYSTOP → 0 ≤ vend ≤ KERNBASE + PHYSTOP →
  flist (km s) (freelist s) ps → Forall page_ok ps → NoDup ps → (∀ q, q ∈ ps → q < vstart) →
  ∃ s' new, freerange vstart vend s = Ok (tt, s') ∧ flist (km s') (freelist s') (new ++ ps) ∧
    Forall page_ok new ∧ NoDup (new ++ ps) ∧
    ∀ q, q ∈ new ↔ q mod PGSIZE = 0 ∧ vstart ≤ q ∧ q + PGSIZE ≤ vend.
Proof.
  intros He Hs Hv Hf Hok Hnd Hlt. assert (0 ≤ vstart ≤ 2 ^ 32 - PGSIZE) as Hr
    by (unfold KERNBASE, PHYSTOP, PGSIZE in *; lia).
  destruct (PGROUNDUP_bounds vstart Hr) as [Hb Ha].
  destruct (freerange_loop_spec (Z.to_nat (vend / PGSIZE)) (PGROUNDUP vstart) vend s ps)
    as (s' & new & H1 & H2 & H3 & H4 & H5); try done; try (unfold KERNBASE, PHYSTOP, PGSIZE in *; lia).
  - unfold KERNBASE, PHYSTOP, PGSIZE in *. Z.div_mod_to_equations. lia.
  - intros q Hq%Hlt. lia.
  - exists s', new. split_and!; try done. intros q. rewrite H5. unfold PGSIZE in *.
    split; intros (Hq & ? & ?); (split_and!; [done| |done]); Z.div_mod_to_equations; lia.
Qed.

(** The two-phase initialisation of [main] ([kinit1] up to 4 MB, [kinit2]
    up to [PHYSTOP]) succeeds and puts on the free list every whole page of
    physical memory behind the kernel, each once, and no other page. *)
Theorem kinit_frees_all m : KERNBASE ≤ end_ ≤ P2V (4 * 2 ^ 20) →
  ∃ s free, (kinit1 end_ (P2V (4 * 2 ^ 20));; kinit2 (P2V (4 * 2 ^ 20)) (P2V PHYSTOP)) (Kmem m 0) = Ok (tt, s) ∧
    kalloc_inv free (s, []) ∧
    ∀ p, p ∈ free ↔ p mod PGSIZE = 0 ∧ end_ ≤ p < KERNBASE + PHYSTOP.
Proof.
  change (P2V (4 * 2 ^ 20)) with (KERNBASE + 4 * 2 ^ 20). change (P2V PHYSTOP) with (KERNBASE + PHYSTOP).
  intros He.
  destruct (freerange_spec end_ (KERNBASE + 4 * 2 ^ 20) (Kmem m 0) []) as (s1 & n1 & H1 & H2 & H3 & H4 & H5);
    try done; try (unfold KERNBASE, PHYSTOP in *; lia); [constructor|by intros q ?%not_elem_of_nil|].
  rewrite app_nil_r in *.
  destruct (freerange_spec (KERNBASE + 4 * 2 ^ 20) (KERNBASE + PHYSTOP) s1 n1) as (s2 & n2 & G1 & G2 & G3 & G4 & G5);
    try done; try (unfold KERNBASE, PHYSTOP in *; lia).
  { intros q (Hq & ? & ?)%H5. unfold PGSIZE in *. lia. }
  exists s2, (n2 ++ n1). split; [unfold kinit1, kinit2; by rewrite (bind_ok _ _ _ _ _ H1)|]. split.
  - split; [by apply Forall_app|done|]. exists (n2 ++ n1). simpl. by rewrite app_nil_r.
  - intros p. rewrite elem_of_app, H5, G5. unfold KERNBASE, PHYSTOP, PGSIZE in *.
    split; [intros [(? & ? & ?)|(? & ? & ?)]; (split; [done|]); Z.div_mod_to_equations; lia|].
    intros (Hp & ? & ?). destruct (Z.le_gt_cases (2 ^ 31 + 4 * 2 ^ 20) p); [left|right];
      (split_and!; [done|lia|]); Z.div_mod_to_equations; lia.
Qed.

(** C20: starting from a free list of distinct pages and no page handed out,
    whatever sequence of allocations, frees of held pages and writes to held
    pages the clients make, the free list (read from the pages themselves) and
    the held pages together are exactly the initial pages, each once: no page
    is handed out twice and none is lost; [kalloc] returns 0 only when every
    page is held, and freeing a held page does not panic. *)
Theorem kalloc_partition pages s es s' held : kalloc_inv pages (s, []) →
  kruns (s, []) es (s', held) →
  (∃ free, flist (km s') (freelist s') free ∧ NoDup (free ++ held) ∧ free ++ held ≡ₚ pages) ∧
  (∀ s'', kalloc s' = Ok (0, s'') → held ≡ₚ pages) ∧
  (∀ p, p ∈ held → ∃ s'', kfree p s' = Ok (tt, s'')).
Proof.
  intros Hi Hr. pose proof (kruns_inv _ _ _ _ Hi Hr) as Hi'. split; [|split].
  - destruct Hi' as [Hok Hnd (free & Hf & Hp)]. exists free. split_and!; [done| |done]. by rewrite Hp.
  - intros s'' [= E _]. by eapply kalloc_none.
  - intros p Hp. destruct Hi' as [Hok Hnd (free & Hf & Hpp)]. simpl in *.
    rewrite <- Hpp in Hok, Hnd. apply Forall_app in Hok as [Hok1 Hok2].
    apply NoDup_app in Hnd as (_ & Hd & _).
    destruct (kfree_spec s' p free) as (s2 & Hs2 & _); eauto using flist_head.
    + by eapply Forall_forall.
    + intros Hin. by apply (Hd p).
Qed.
End kalloc.

(** ** Examples *)

(** Two pages freed into an empty list; one is allocated and written to. *)
Definition two_pages : kmem :=
  match (kfree KERNBASE KERNBASE;; kfree KERNBASE (KERNBASE + 4096)) (Kmem (λ _, 0) 0) with
  | Ok (_, s) => s
  | _ => Kmem (λ _, 0) 0
  end.

Lemma two_pages_inv : kalloc_inv KERNBASE [KERNBASE + 4096; KERNBASE] (two_pages, []).
Proof.
  assert (Forall (page_ok KERNBASE) [KERNBASE + 4096; KERNBASE]) as Hok.
  { repeat constructor; vm_compute; try discriminate; done. }
  destruct (kfree_spec KERNBASE (Kmem (λ _, 0) 0) KERNBASE []) as (s1 & E1 & Hf1 & _);
    [repeat constructor; vm_compute; try discriminate; done|constructor|set_solver|done|done|].
  destruct (kfree_spec KERNBASE s1 (KERNBASE + 4096) [KERNBASE]) as (s2 & E2 & Hf2 & _).
  - by apply Forall_cons in Hok as [? _].
  - by apply Forall_cons in Hok as [_ ?].
  - intros [E|[]%not_elem_of_nil]%elem_of_cons. discriminate E.
  - destruct Hf1 as [-> _]. done.
  - done.
  - unfold two_pages. rewrite (bind_ok _ _ _ _ _ E1), E2. split; [done| |].
    + constructor; [intros [E|[]%not_elem_of_nil]%elem_of_cons; discriminate E|].
      constructor; [apply not_elem_of_nil|constructor].
    + exists [KERNBASE + 4096; KERNBASE]. by rewrite app_nil_r.
Qed.

Lemma kalloc_partition_witness : ∃ s' free, flist (km s') (freelist s') free ∧
  free ++ [KERNBASE + 4096] ≡ₚ [KERNBASE + 4096; KERNBASE].
Proof.
  destruct (kalloc_partition KERNBASE [KERNBASE + 4096; KERNBASE] two_pages
    [KAlloc (KERNBASE + 4096); KWrite (KERNBASE + 4096) 7]
    (Kmem (store (km two_pages) (KERNBASE + 4096) 7) KERNBASE) [KERNBASE + 4096] two_pages_inv)
    as [(free & ? & _ & ?) _]; [|eauto].
  eapply kr_cons; [eapply ks_alloc; [reflexivity|done]|].
  eapply kr_cons; [|apply kr_nil].
  refine (ks_write KERNBASE (Kmem (km two_pages) KERNBASE) _ (KERNBASE + 4096) _ _ _ _); [by left|].
  vm_compute. split; done.
Defined.

Lemma kinit_frees_all_witness : ∃ s free,
  (kinit1 (KERNBASE + 2 ^ 20) (KERNBASE + 2 ^ 20) (P2V (4 * 2 ^ 20));;
   kinit2 (KERNBASE + 2 ^ 20) (P2V (4 * 2 ^ 20)) (P2V PHYSTOP)) (Kmem (λ _, 0) 0) = Ok (tt, s) ∧
  kalloc_inv (KERNBASE + 2 ^ 20) free (s, []).
Proof.
  destruct (kinit_frees_all (KERNBASE + 2 ^ 20) (λ _, 0)) as (s & free & ? & ? & _); [vm_compute; split; discriminate|eauto].
Defined.
