(* ===== verification/Pipe.v ===== *)
(** * Pipes

    Models [pipe.c]: the ring buffer of [struct pipe], [pipewrite],
    [piperead] and [pipeclose], and the interleavings of the threads that
    use one pipe.  A call runs under [p->lock] until it returns or sleeps;
    these critical sections are the atomic steps. *)

From S2P Require Import Prelude.

Definition PIPESIZE : Z := 512.

(** The two addresses pipe code sleeps on and wakes: [&p->nread], [&p->nwrite]. *)
Inductive pchan := CNread | CNwrite.
Global Instance pchan_eq_dec : EqDecision pchan.
Proof. solve_decision. Defined.

Record pipe := Pipe {
  data : list Z;
  nread : Z;      (* number of bytes read *)
  nwrite : Z;     (* number of bytes written *)
  readopen : Z;   (* read fd is still open *)
  writeopen : Z   (* write fd is still open *)
}.

(** What a call did when it gave up [p->lock]: returned, or went to sleep.
    A sleeping [pipewrite] still has the bytes [rest] to store. *)
Inductive presult :=
| PRet (r : Z)
| PSleep (c : pchan) (rest : list Z).

(** The fields [pipealloc] sets; [junk] is what the page held before. *)
Definition pipe_init (junk : list Z) : pipe := Pipe junk 0 0 1 1.

(** [p->data[p->nwrite++ % PIPESIZE] = c] *)
Definition pipe_put (p : pipe) (c : Z) : pipe :=
  Pipe (<[Z.to_nat (nwrite p mod PIPESIZE) := c]> (data p))
    (nread p) (u32 (nwrite p + 1)) (readopen p) (writeopen p).

(** [p->data[p->nread++ % PIPESIZE]] *)
Definition pipe_get (p : pipe) : Z * pipe :=
  (data p !!! Z.to_nat (nread p mod PIPESIZE),
   Pipe (data p) (u32 (nread p + 1)) (nwrite p) (readopen p) (writeopen p)).

Definition pipe_full (p : pipe) : bool := nwrite p =? u32 (nread p + PIPESIZE).
Definition pipe_empty (p : pipe) : bool := nread p =? nwrite p.

(** The loop of [pipewrite] from the byte it has reached: [rest] is
    [addr[i..n)] and [n] the requested length.  Returns the pipe, the
    channels woken in order, and how the call left the critical section. *)
Fixpoint pipewrite_from (p : pipe) (killed : bool) (n : Z) (rest : list Z)
    : pipe * list pchan * presult :=
  match rest with
  | [] => (p, [CNread], PRet n)
  | c :: rest' =>
      if pipe_full p then
        if (readopen p =? 0) || killed then (p, [], PRet (-1))
        else (p, [CNread], PSleep CNwrite rest)
      else pipewrite_from (pipe_put p c) killed n rest'
  end.

Definition pipewrite (p : pipe) (killed : bool) (addr : list Z)
    : pipe * list pchan * presult :=
  pipewrite_from p killed (Z.of_nat (length addr)) addr.

(** The copy loop of [piperead]. *)
Fixpoint piperead_copy (p : pipe) (n : nat) : pipe * list Z :=
  match n with
  | O => (p, [])
  | S n' =>
      if pipe_empty p then (p, [])
      else let '(c, p1) := pipe_get p in
           let '(p2, l) := piperead_copy p1 n' in (p2, c :: l)
  end.

(** [piperead] from the head of its wait loop: the pipe, the bytes stored at
    [addr], the channels woken, and how the call ended. *)
Definition piperead (p : pipe) (killed : bool) (n : Z)
    : pipe * list Z * list pchan * presult :=
  if pipe_empty p && truthy (writeopen p) then
    if killed then (p, [], [], PRet (-1)) else (p, [], [], PSleep CNread [])
  else
    let '(p', l) := piperead_copy p (Z.to_nat n) in
    (p', l, [CNwrite], PRet (Z.of_nat (length l))).

(** [pipeclose]: the pipe, the channel woken, and whether the page is freed. *)
Definition pipeclose (p : pipe) (writable : bool) : pipe * list pchan * bool :=
  let '(p', c) :=
    if writable then (Pipe (data p) (nread p) (nwrite p) (readopen p) 0, CNread)
    else (Pipe (data p) (nread p) (nwrite p) 0 (writeopen p), CNwrite) in
  (p', [c], (readopen p' =? 0) && (writeopen p' =? 0)).

(** ** Threads sharing one pipe *)

Inductive tstat :=
| Ready
| Asleep (c : pchan)
| Returned (r : Z).

Inductive tprog :=
| TWrite (n : Z) (rest : list Z)
| TRead (n : Z) (got : list Z).

Record thread := Thread { prog : tprog; tkilled : bool; stat : tstat }.

(** [wakeup(chan)]: every thread sleeping on the channel becomes runnable. *)
Definition wake1 (c : pchan) (t : thread) : thread :=
  match stat t with
  | Asleep c' => if decide (c' = c) then Thread (prog t) (tkilled t) Ready else t
  | _ => t
  end.

Definition wake (cs : list pchan) (ts : list thread) : list thread :=
  foldl (λ ts c, wake1 c <$> ts) ts cs.

Definition stat_of (r : presult) : tstat :=
  match r with PRet r => Returned r | PSleep c _ => Asleep c end.

Definition rest_of (r : presult) : list Z :=
  match r with PRet _ => [] | PSleep _ rest => rest end.

(** A pipe, its threads, and the bytes that went in and came out so far. *)
Record psys := PSys {
  the_pipe : pipe;
  threads : list thread;
  written : list Z;
  got : list Z
}.

(** The bytes a run of [pipewrite] stored before it stopped with [r]. *)
Definition consumed (p p' : pipe) (rest : list Z) : list Z :=
  take (Z.to_nat (u32 (nwrite p' - nwrite p))) rest.

Inductive pevent :=
| EvRun (t : nat)
| EvKill (writer : bool) (t : nat)
| EvClose (writable : bool)
| EvCall (pr : tprog).

Definition is_writer (pr : tprog) : bool :=
  match pr with TWrite _ _ => true | TRead _ _ => false end.

Definition active (t : thread) : bool :=
  match stat t with Returned _ => false | _ => true end.

Definition fresh_call (pr : tprog) : Prop :=
  match pr with
  | TWrite n rest => n = Z.of_nat (length rest)
  | TRead n g => g = []
  end.

(** One critical section.  [fileclose] calls [pipeclose] when the last file
    for that end goes away, so no thread is inside a call through that end;
    for the same reason no call starts through a closed end. *)
Inductive pipe_step : psys → pevent → psys → Prop :=
| step_write s t n rest k p' wk r :
    threads s !! t = Some (Thread (TWrite n rest) k Ready) →
    pipewrite_from (the_pipe s) k n rest = (p', wk, r) →
    pipe_step s (EvRun t)
      (PSys p' (<[t := Thread (TWrite n (rest_of r)) k (stat_of r)]> (wake wk (threads s)))
         (written s ++ consumed (the_pipe s) p' rest) (got s))
| step_read s t n g k p' l wk r :
    threads s !! t = Some (Thread (TRead n g) k Ready) →
    piperead (the_pipe s) k n = (p', l, wk, r) →
    pipe_step s (EvRun t)
      (PSys p' (<[t := Thread (TRead n l) k (stat_of r)]> (wake wk (threads s)))
         (written s) (got s ++ l))
| step_close s w p' wk fr :
    pipeclose (the_pipe s) w = (p', wk, fr) →
    Forall (λ t, is_writer (prog t) = w → active t = false) (threads s) →
    pipe_step s (EvClose w) (PSys p' (wake wk (threads s)) (written s) (got s))
| step_kill s t pr k st :
    threads s !! t = Some (Thread pr k st) →
    pipe_step s (EvKill (is_writer pr) t)
      (PSys (the_pipe s)
         (<[t := Thread pr true (match st with Asleep _ => Ready | st => st end)]> (threads s))
         (written s) (got s))
| step_call s pr :
    fresh_call pr →
    (if is_writer pr then writeopen (the_pipe s) else readopen (the_pipe s)) ≠ 0 →
    pipe_step s (EvCall pr)
      (PSys (the_pipe s) (threads s ++ [Thread pr false Ready]) (written s) (got s)).

(** Runs of the system, with the events that happened. *)
Inductive pipe_run : psys → list pevent → psys → Prop :=
| run_nil s : pipe_run s [] s
| run_cons s s1 s2 e evs : pipe_step s e s1 → pipe_run s1 evs s2 → pipe_run s (e :: evs) s2.

(** The step relation as a function, to run concrete schedules. *)
Definition pipe_exec (s : psys) (e : pevent) : option psys :=
  match e with
  | EvRun t =>
      match threads s !! t with
      | Some (Thread (TWrite n rest) k Ready) =>
          let '(p', wk, r) := pipewrite_from (the_pipe s) k n rest in
          Some (PSys p' (<[t := Thread (TWrite n (rest_of r)) k (stat_of r)]> (wake wk (threads s)))
                  (written s ++ consumed (the_pipe s) p' rest) (got s))
      | Some (Thread (TRead n g) k Ready) =>
          let '(p', l, wk, r) := piperead (the_pipe s) k n in
          Some (PSys p' (<[t := Thread (TRead n l) k (stat_of r)]> (wake wk (threads s)))
                  (written s) (got s ++ l))
      | _ => None
      end
  | EvKill w t =>
      match threads s !! t with
      | Some (Thread pr k st) =>
          if decide (is_writer pr = w) then
            Some (PSys (the_pipe s)
              (<[t := Thread pr true (match st with Asleep _ => Ready | st => st end)]> (threads s))
              (written s) (got s))
          else None
      | None => None
      end
  | EvClose w =>
      if decide (Forall (λ t, is_writer (prog t) = w → active t = false) (threads s)) then
        let '(p', wk, fr) := pipeclose (the_pipe s) w in
        Some (PSys p' (wake wk (threads s)) (written s) (got s))
      else None
  | EvCall pr =>
      let fresh := match pr with
                   | TWrite n rest => n =? Z.of_nat (length rest)
                   | TRead n g => bool_decide (g = [])
                   end in
      if fresh && truthy (if is_writer pr then writeopen (the_pipe s) else readopen (the_pipe s))
      then Some (PSys (the_pipe s) (threads s ++ [Thread pr false Ready]) (written s) (got s))
      else None
  end.

Fixpoint pipe_execs (s : psys) (evs : list pevent) : option psys :=
  match evs with
  | [] => Some s
  | e :: evs => s' ← pipe_exec s e; pipe_execs s' evs
  end.

Definition psys_init (junk : list Z) : psys := PSys (pipe_init junk) [] [] [].

Lemma pipe_exec_step s e s' : pipe_exec s e = Some s' → pipe_step s e s'.
Proof.
  destruct e as [t|w t|w|pr]; simpl.
  - destruct (threads s !! t) as [[[n rest|n g] k [| |]]|] eqn:Ht; try done.
    + destruct (pipewrite_from _ _ _ _) as [[p' wk] r] eqn:E. intros [= <-]. by eapply step_write.
    + destruct (piperead _ _ _) as [[[p' l] wk] r] eqn:E. intros [= <-]. by eapply step_read.
  - destruct (threads s !! t) as [[pr k st]|] eqn:Ht; [|done].
    case_decide; [|done]. subst. intros [= <-]. by eapply step_kill.
  - case_decide as Hf; [|done]. destruct (pipeclose _ _) as [[p' wk] fr] eqn:E.
    intros [= <-]. by eapply step_close.
  - destruct (_ && _) eqn:E; [|done]. intros [= <-]. apply andb_true_iff in E as [E1 E2].
    apply truthy_true in E2. apply step_call; [|done].
    destruct pr; simpl in *; [lia|by apply bool_decide_eq_true in E1].
Qed.

Lemma pipe_execs_run s evs s' : pipe_execs s evs = Some s' → pipe_run s evs s'.
Proof.
  revert s. induction evs as [|e evs IH]; intros s; simpl.
  { intros [= <-]. apply run_nil. }
  intros (s1 & H1 & H2)%bind_Some. eapply run_cons; [by apply pipe_exec_step|auto].
Qed.

(** ** The queue a pipe holds *)

Definition pcount (p : pipe) : Z := u32 (nwrite p - nread p).

Definition contents (p : pipe) : list Z :=
  (λ k, data p !!! Z.to_nat ((nread p + k) mod PIPESIZE)) <$> seqZ 0 (pcount p).

Record pipe_ok (p : pipe) : Prop := {
  ok_len : length (data p) = Z.to_nat PIPESIZE;
  ok_nread : 0 ≤ nread p < 2 ^ 32;
  ok_nwrite : 0 ≤ nwrite p < 2 ^ 32;
  ok_count : pcount p ≤ PIPESIZE
}.

Lemma pipe_full_count p : pipe_ok p → pipe_full p = (pcount p =? PIPESIZE).
Proof.
  intros [_ Hr Hw Hc]. unfold pipe_full, pcount, u32, PIPESIZE in *.
  bcase; try done; exfalso; Z.div_mod_to_equations; lia.
Qed.

Lemma pipe_empty_count p : pipe_ok p → pipe_empty p = (pcount p =? 0).
Proof.
  intros [_ Hr Hw Hc]. unfold pipe_empty, pcount, u32, PIPESIZE in *.
  bcase; try done; exfalso; Z.div_mod_to_equations; lia.
Qed.

Lemma pcount_nonneg p : 0 ≤ pcount p.
Proof. apply u32_range. Qed.

Lemma length_contents p : length (contents p) = Z.to_nat (pcount p).
Proof. unfold contents. by rewrite length_fmap, length_seqZ. Qed.

Lemma pcount_put p c : pipe_ok p → pcount p < PIPESIZE → pcount (pipe_put p c) = pcount p + 1.
Proof.
  intros [_ Hr Hw Hc] H. unfold pipe_put, pcount, u32, PIPESIZE in *. simpl in *.
  Z.div_mod_to_equations; lia.
Qed.

Lemma ring_slot_ne p k : pipe_ok p → 0 ≤ k < pcount p → pcount p < PIPESIZE →
  (nread p + k) mod PIPESIZE ≠ nwrite p mod PIPESIZE.
Proof.
  intros [_ Hr Hw Hc] H. unfold pcount, u32, PIPESIZE in *.
  Z.div_mod_to_equations; lia.
Qed.

Lemma ring_slot_new p : pipe_ok p →
  (nread p + pcount p) mod PIPESIZE = nwrite p mod PIPESIZE.
Proof.
  intros [_ Hr Hw Hc]. unfold pcount, u32, PIPESIZE in *.
  Z.div_mod_to_equations; lia.
Qed.

Lemma pipe_put_ok p c : pipe_ok p → pcount p < PIPESIZE → pipe_ok (pipe_put p c).
Proof.
  intros H Hc. pose proof (pcount_put p c H Hc) as Hp. destruct H as [Hl Hr Hw _].
  split; simpl; auto with xv6; [by rewrite length_insert | lia].
Qed.

Lemma contents_put p c : pipe_ok p → pcount p < PIPESIZE →
  contents (pipe_put p c) = contents p ++ [c].
Proof.
  intros H Hc. unfold contents at 1. rewrite pcount_put by done.
  pose proof (pcount_nonneg p).
  rewrite seqZ_app by lia. rewrite fmap_app. f_equal.
  - apply list_fmap_ext. intros i k Hk. apply lookup_seqZ in Hk as [-> Hk].
    cbn [pipe_put data nread]. rewrite list_lookup_total_insert_ne; [done|].
    intros E. apply Z2Nat.inj in E; try (apply Z.mod_pos_bound; done).
    symmetry in E. revert E. apply ring_slot_ne; [done|lia|done].
  - simpl. f_equal. rewrite Z.add_0_l, ring_slot_new by done.
    apply list_lookup_total_insert_eq. destruct H as [-> _ _ _].
    pose proof (Z.mod_pos_bound (nwrite p) PIPESIZE eq_refl). lia.
Qed.

Lemma pcount_get p : pipe_ok p → 0 < pcount p → pcount (pipe_get p).2 = pcount p - 1.
Proof.
  intros [_ Hr Hw Hc] H. unfold pipe_get, pcount, u32, PIPESIZE in *. simpl in *.
  Z.div_mod_to_equations; lia.
Qed.

Lemma pipe_get_ok p : pipe_ok p → 0 < pcount p → pipe_ok (pipe_get p).2.
Proof.
  intros H Hc. pose proof (pcount_get p H Hc) as Hp. destruct H as [Hl Hr Hw ?].
  split; auto with xv6; [apply u32_range | lia].
Qed.

Lemma contents_get p : pipe_ok p → 0 < pcount p →
  contents p = (pipe_get p).1 :: contents (pipe_get p).2.
Proof.
  intros H Hc. unfold contents at 2. rewrite pcount_get by done.
  unfold contents. rewrite seqZ_cons by done. rewrite fmap_cons.
  rewrite Z.add_0_r. f_equal. rewrite <- (fmap_add_seqZ 1 0), <- list_fmap_compose.
  apply list_fmap_ext. intros i k _. simpl. do 2 f_equal.
  unfold u32, PIPESIZE. destruct H as [_ Hr _ _]. Z.div_mod_to_equations; lia.
Qed.

(** A run of [pipewrite] appends a prefix of its bytes and stops with the
    rest: either nothing is left, or the pipe is full. *)
Lemma pipewrite_spec p k n rest p' wk r :
  pipe_ok p → pipewrite_from p k n rest = (p', wk, r) →
  ∃ dn left, rest = dn ++ left ∧ pipe_ok p' ∧
    contents p' = contents p ++ dn ∧
    pcount p' = pcount p + Z.of_nat (length dn) ∧
    nwrite p' = u32 (nwrite p + Z.of_nat (length dn)) ∧
    nread p' = nread p ∧ readopen p' = readopen p ∧ writeopen p' = writeopen p ∧
    ((left = [] ∧ wk = [CNread] ∧ r = PRet n) ∨
     (left ≠ [] ∧ pipe_full p' = true ∧ wk = [CNread] ∧ r = PSleep CNwrite left ∧
        readopen p ≠ 0 ∧ k = false) ∨
     (left ≠ [] ∧ pipe_full p' = true ∧ wk = [] ∧ r = PRet (-1) ∧
        (readopen p = 0 ∨ k = true))).
Proof.
  revert p. induction rest as [|c rest IH]; intros p Hok H; simpl in H.
  { simplify_eq. exists [], []. rewrite !app_nil_r, !Z.add_0_r.
    rewrite u32_small by apply Hok. split_and!; auto. }
  destruct (pipe_full p) eqn:Hf.
  - exists [], (c :: rest). rewrite app_nil_r. simpl. rewrite !Z.add_0_r.
    rewrite u32_small by apply Hok.
    destruct (Z.eqb_spec (readopen p) 0); destruct k; simpl in H; simplify_eq;
      split_and!; auto 10.
  - rewrite pipe_full_count in Hf by done. apply Z.eqb_neq in Hf.
    assert (pcount p < PIPESIZE) as Hc by (pose proof (ok_count p Hok); lia).
    apply IH in H as (dn & left & -> & Hok' & Hcont & Hcnt & Hnw & Hnr & Hro & Hwo & Hr);
      [|by apply pipe_put_ok].
    exists (c :: dn), left. rewrite contents_put in Hcont by done.
    rewrite pcount_put in Hcnt by done. cbn [pipe_put nwrite nread readopen writeopen] in *.
    rewrite u32_add_l in Hnw. rewrite <- app_assoc in Hcont.
    split_and!; try done; cbn [length]; [lia|].
    rewrite Hnw. f_equal. lia.
Qed.

Lemma piperead_copy_spec p n :
  pipe_ok p → let '(p', l) := piperead_copy p n in
  pipe_ok p' ∧ contents p = l ++ contents p' ∧ length l = (n `min` Z.to_nat (pcount p))%nat ∧
  nwrite p' = nwrite p ∧ readopen p' = readopen p ∧ writeopen p' = writeopen p.
Proof.
  revert p. induction n as [|n IH]; intros p Hok; cbn [piperead_copy]; [by split_and!|].
  rewrite pipe_empty_count by done. pose proof (pcount_nonneg p).
  destruct (Z.eqb_spec (pcount p) 0) as [E|E].
  { rewrite E. split_and!; try done. }
  specialize (IH (pipe_get p).2). rewrite pcount_get in IH by (done || lia).
  unfold pipe_get at 1. cbn [pipe_get snd] in IH. destruct (piperead_copy _ n) as [p' l].
  destruct IH as (Hok' & Hc & Hl & ? & ? & ?).
  { apply (pipe_get_ok p); [done|lia]. }
  split_and!; try done.
  - rewrite contents_get by (done || lia). cbn [pipe_get fst snd]. by rewrite Hc.
  - cbn [length]. rewrite Hl. lia.
Qed.

Lemma consumed_done p p' dn left :
  nwrite p' = u32 (nwrite p + Z.of_nat (length dn)) →
  0 ≤ nwrite p < 2 ^ 32 → (Z.of_nat (length dn) < 2 ^ 32) →
  consumed p p' (dn ++ left) = dn.
Proof.
  intros Hn Hw Hd. unfold consumed. rewrite Hn.
  replace (Z.to_nat (u32 _)) with (length dn); [by rewrite take_app_length|].
  unfold u32. Z.div_mod_to_equations; lia.
Qed.

(** ** Invariants of the shared system *)

Definition fifo_inv (s : psys) : Prop :=
  pipe_ok (the_pipe s) ∧ written s = got s ++ contents (the_pipe s).

Lemma contents_closed p w :
  contents (pipeclose p w).1.1 = contents p ∧ (pipe_ok p → pipe_ok (pipeclose p w).1.1).
Proof. destruct w; (split; [done|]); intros [????]; by split. Qed.

Lemma fifo_step s e s' : fifo_inv s → pipe_step s e s' → fifo_inv s'.
Proof.
  intros [Hok Hw] Hs. destruct Hs as
    [s t n rest k p' wk r Ht H | s t n g k p' l wk r Ht H | s w p' wk fr H _ | |];
    unfold fifo_inv; simpl; try done.
  - apply pipewrite_spec in H as (dn & left & -> & Hok' & Hc & Hcnt & Hnw & _); [|done].
    split; [done|]. rewrite (consumed_done _ _ _ _ Hnw); [|apply Hok|].
    + by rewrite Hw, Hc, app_assoc.
    + pose proof (ok_count p' Hok'). pose proof (pcount_nonneg (the_pipe s)).
      unfold PIPESIZE in *. lia.
  - unfold piperead in H. destruct (_ && _).
    { destruct k; simplify_eq; by rewrite app_nil_r. }
    pose proof (piperead_copy_spec (the_pipe s) (Z.to_nat n) Hok) as Hr.
    destruct (piperead_copy _ _) as [p1 l1]. simplify_eq.
    destruct Hr as (Hok' & Hc & _). split; [done|]. by rewrite Hw, Hc, app_assoc.
  - pose proof (contents_closed (the_pipe s) w) as [Hc Ho]. rewrite H in Hc, Ho. simpl in *.
    split; [auto|]. by rewrite Hc.
Qed.

(** A sleeping thread has a reason to sleep: writers wait on a full pipe with
    readers left, readers on an empty pipe with writers left. *)
Definition sleep_ok (p : pipe) (t : thread) : Prop :=
  match stat t, prog t with
  | Asleep c, TWrite _ _ => c = CNwrite ∧ pcount p = PIPESIZE ∧ readopen p ≠ 0
  | Asleep c, TRead _ _ => c = CNread ∧ pcount p = 0 ∧ writeopen p ≠ 0
  | _, _ => True
  end.

Definition thread_ok (p : pipe) (t : thread) : Prop :=
  sleep_ok p t ∧ (is_writer (prog t) = true → tkilled t = false) ∧
  (is_writer (prog t) = false → active t = true → readopen p ≠ 0).

Definition awake_inv (s : psys) : Prop :=
  fifo_inv s ∧ Forall (thread_ok (the_pipe s)) (threads s).

Lemma wake1_prog c t : prog (wake1 c t) = prog t ∧ tkilled (wake1 c t) = tkilled t ∧
  active (wake1 c t) = active t.
Proof.
  destruct t as [pr k st]. unfold wake1, active. destruct st as [|c'|]; simpl; try done.
  by destruct (decide (c' = c)).
Qed.

Lemma wake1_asleep c t c' : stat (wake1 c t) = Asleep c' → stat t = Asleep c' ∧ c' ≠ c.
Proof.
  destruct t as [pr k st]. unfold wake1. destruct st as [|c1|]; simpl; try done.
  destruct (decide (c1 = c)); simpl; naive_solver.
Qed.

(** What a step has to show about the threads it does not run: the pipe moved
    from [p] to [p'] and channel [c] was woken. *)
Lemma thread_ok_wake p p' c t :
  thread_ok p t →
  (stat t = Asleep CNread → c = CNread ∨ (pcount p' = pcount p ∧ writeopen p' = writeopen p)) →
  (stat t = Asleep CNwrite → c = CNwrite ∨ (pcount p' = pcount p ∧ readopen p' = readopen p)) →
  (is_writer (prog t) = false → active t = true → readopen p' = readopen p) →
  thread_ok p' (wake1 c t).
Proof.
  intros (Hs & Hk & Ha) Hr Hw Hro. destruct (wake1_prog c t) as (Ep & Ek & Ea).
  unfold thread_ok. rewrite Ep, Ek, Ea. split_and!; [|done|].
  - unfold sleep_ok. destruct (stat (wake1 c t)) as [|c'|] eqn:Est; [done| |done].
    apply wake1_asleep in Est as [Est Hne]. unfold sleep_ok in Hs. rewrite Est in *.
    rewrite Ep. destruct (prog t); destruct Hs as (-> & Hs1 & Hs2);
      [destruct (Hw eq_refl) as [->|[-> ->]] | destruct (Hr eq_refl) as [->|[-> ->]]]; done.
  - intros H1 H2. rewrite Hro by done. auto.
Qed.

Lemma thread_ok_closed p p' t :
  thread_ok p t → readopen p = 0 → readopen p' = readopen p → thread_ok p' t.
Proof.
  intros (Hs & Hk & Ha) H0 E. split_and!; [|done|].
  - unfold sleep_ok, active in *. destruct (stat t); [done| |done].
    destruct (prog t); simpl in *; naive_solver.
  - intros H1 H2. by rewrite E, H0 in *; apply Ha.
Qed.

Lemma wake_one c ts : wake [c] ts = wake1 c <$> ts.
Proof. done. Qed.

Lemma awake_write s t n rest p' wk r :
  awake_inv s → threads s !! t = Some (Thread (TWrite n rest) false Ready) →
  pipewrite_from (the_pipe s) false n rest = (p', wk, r) →
  Forall (thread_ok p') (<[t := Thread (TWrite n (rest_of r)) false (stat_of r)]> (wake wk (threads s))).
Proof.
  intros [[Hok _] Hts] Ht H.
  apply pipewrite_spec in H as (dn & left & -> & Hok' & _ & Hcnt & _ & _ & Hro & Hwo & Hr); [|done].
  pose proof (ok_count p' Hok') as Hmax.
  assert (∀ x, x ∈ threads s → is_writer (prog x) = true → stat x = Asleep CNwrite → pcount p' = pcount (the_pipe s)).
  { intros x Hx Hwx Hsx. rewrite Forall_forall in Hts. destruct (Hts x Hx) as [Hs _].
    unfold sleep_ok in Hs. rewrite Hsx in Hs. destruct (prog x); [|done]. lia. }
  assert (∀ x, x ∈ threads s → stat x = Asleep CNwrite → is_writer (prog x) = true) as Hwr.
  { intros x Hx Hsx. rewrite Forall_forall in Hts. destruct (Hts x Hx) as [Hs _].
    unfold sleep_ok in Hs. rewrite Hsx in Hs. destruct (prog x); [done|]. naive_solver. }
  destruct Hr as [(-> & -> & ->) | [(Hl & Hf & -> & -> & Hr0 & _) | (Hl & Hf & -> & -> & [Hr0|?])]]; [..|done].
  1,2: apply Forall_insert; [rewrite wake_one; apply Forall_fmap, Forall_forall; intros x Hx;
    apply thread_ok_wake with (the_pipe s); [by eapply Forall_forall in Hts|auto| |auto];
    intros; right; eauto|].
  - split; [done|]. by split.
  - rewrite pipe_full_count in Hf by done. apply Z.eqb_eq in Hf.
    split; [|by split]. split_and!; [done..|]. by rewrite Hro.
  - apply Forall_insert; [|split; [done|by split]].
    apply Forall_forall. intros x Hx. rewrite Forall_forall in Hts.
    apply (thread_ok_closed (the_pipe s)); auto.
Qed.

Lemma awake_read s t n g k p' l wk r :
  awake_inv s → threads s !! t = Some (Thread (TRead n g) k Ready) →
  piperead (the_pipe s) k n = (p', l, wk, r) →
  Forall (thread_ok p') (<[t := Thread (TRead n l) k (stat_of r)]> (wake wk (threads s))).
Proof.
  intros [[Hok _] Hts] Ht H. unfold piperead in H.
  rewrite pipe_empty_count in H by done.
  assert (readopen (the_pipe s) ≠ 0) as Hro.
  { apply (Forall_lookup_1 _ _ _ _ Hts) in Ht as (_ & _ & Ha). by apply Ha. }
  destruct (Z.eqb_spec (pcount (the_pipe s)) 0) as [E|E];
    destruct (truthy (writeopen (the_pipe s))) eqn:Hw; simpl in H.
  { apply truthy_true in Hw. destruct k; simplify_eq; (apply Forall_insert; [done|]);
      (split; [done|]); (split; [done|]); by intros. }
  all: pose proof (piperead_copy_spec (the_pipe s) (Z.to_nat n) Hok) as Hc;
    destruct (piperead_copy _ _) as [p1 l1]; simplify_eq;
    destruct Hc as (_ & _ & _ & _ & Hr1 & Hw1);
    (apply Forall_insert; [|split; [done|]; split; [done|]; by rewrite Hr1]);
    rewrite wake_one; apply Forall_fmap, Forall_forall; intros x Hx;
    rewrite Forall_forall in Hts; specialize (Hts x Hx);
    apply thread_ok_wake with (the_pipe s); auto; intros Hs; destruct Hts as [Hx1 _];
    unfold sleep_ok in Hx1; rewrite Hs in Hx1; destruct (prog x); destruct Hx1 as (?&?&?); try done.
  apply truthy_false in Hw. done.
Qed.

Lemma awake_step s e s' :
  awake_inv s → pipe_step s e s' → (∀ t, e ≠ EvKill true t) → awake_inv s'.
Proof.
  intros Hinv Hs He. split; [by eapply fifo_step; [apply Hinv|]|].
  destruct Hs as
    [s t n rest k p' wk r Ht H | s t n g k p' l wk r Ht H | s w p' wk fr H Hact
    | s t pr k st Ht | s pr Hf Ho]; simpl.
  - assert (k = false) as ->.
    { destruct Hinv as [_ Hts]. apply (Forall_lookup_1 _ _ _ _ Hts) in Ht as (_ & Hk & _).
      by apply Hk. }
    by eapply awake_write.
  - by eapply awake_read.
  - destruct Hinv as [_ Hts]. rewrite Forall_forall in Hts, Hact.
    assert (∀ x c, x ∈ threads s → stat x = Asleep c →
      is_writer (prog x) = w → False) as Hno.
    { intros x c Hx Hs Hw. specialize (Hact x Hx Hw). unfold active in Hact. by rewrite Hs in Hact. }
    assert (∀ x, x ∈ threads s → stat x = Asleep (if w then CNwrite else CNread) → False) as Hno'.
    { intros x Hx Hs. apply (Hno x _ Hx Hs). destruct (Hts x Hx) as [Hx1 _].
      unfold sleep_ok in Hx1. rewrite Hs in Hx1. destruct (prog x), w; naive_solver. }
    destruct w; unfold pipeclose in H; simplify_eq; rewrite wake_one;
      apply Forall_fmap, Forall_forall; intros x Hx;
      (apply thread_ok_wake with (the_pipe s); [by apply Hts|..]); auto; intros Hs.
    intros Ha. by rewrite (Hact x Hx Hs) in Ha.
  - destruct Hinv as [_ Hts]. apply Forall_insert; [done|].
    apply (Forall_lookup_1 _ _ _ _ Hts) in Ht as (H1 & H2 & H3).
    destruct pr as [n rest|n g]; simpl in *; [by destruct (He t)|].
    split; [|split; [done|]]; destruct st; simpl in *; try done; intros; by apply H3.
  - destruct Hinv as [_ Hts]. apply Forall_app. split; [done|]. apply Forall_singleton.
    split; [done|]. split; [done|]. simpl. intros E _. by rewrite E in Ho.
Qed.

(** ** Properties *)

Lemma run_fifo s evs s' : fifo_inv s → pipe_run s evs s' → fifo_inv s'.
Proof. intros Hi. induction 1; eauto using fifo_step. Qed.

Lemma run_awake s evs s' :
  awake_inv s → pipe_run s evs s' → (∀ t, EvKill true t ∉ evs) → awake_inv s'.
Proof.
  intros Hi. induction 1 as [|s s1 s2 e evs Hs Hr IH]; intros Hk; [done|].
  apply IH; [|set_solver]. eapply awake_step; [done..|]. set_solver.
Qed.

Lemma init_fifo junk : length junk = Z.to_nat PIPESIZE → fifo_inv (psys_init junk).
Proof. intros Hj. split; [|done]. by split. Qed.

(** C8: whatever the interleaving of readers, writers, kills and closes, the
    bytes that came out of the pipe followed by the bytes in the buffer are
    exactly the bytes that went in, in order; and the buffer never holds more
    than [PIPESIZE] bytes, also when [nread] and [nwrite] wrap around. *)
Theorem pipe_fifo junk evs s :
  length junk = Z.to_nat PIPESIZE →
  pipe_run (psys_init junk) evs s →
  written s = got s ++ contents (the_pipe s) ∧ pcount (the_pipe s) ≤ PIPESIZE.
Proof.
  intros Hj Hr. destruct (run_fifo _ _ _ (init_fifo _ Hj) Hr) as [[???] ?]. done.
Qed.

Lemma pipe_fifo_witness :
  match pipe_execs (psys_init (replicate 512 0))
    [EvCall (TRead 2 []); EvRun 0; EvCall (TWrite 3 [7; 8; 9]); EvRun 1; EvRun 0] with
  | Some s => got s = [7; 8] ∧ written s = got s ++ contents (the_pipe s) ∧
              pcount (the_pipe s) ≤ PIPESIZE
  | None => False
  end.
Proof.
  destruct (pipe_execs _ _) as [s|] eqn:E; [|vm_compute in E; discriminate E].
  split; [vm_compute in E; injection E as <-; reflexivity|].
  apply (pipe_fifo (replicate 512 0) _ s eq_refl (pipe_execs_run _ _ _ E)).
Defined.

(** C23: no wakeup is lost as long as no writer is killed: a thread asleep in
    [pipewrite] waits for a full pipe whose read end is open, and one asleep
    in [piperead] for an empty pipe whose write end is open. *)
Theorem pipe_no_lost_wakeup junk evs s :
  length junk = Z.to_nat PIPESIZE →
  pipe_run (psys_init junk) evs s → (∀ t, EvKill true t ∉ evs) →
  ∀ t thr, threads s !! t = Some thr → sleep_ok (the_pipe s) thr.
Proof.
  intros Hj Hr Hk t thr Ht.
  assert (awake_inv s) as [_ Hts].
  { eapply run_awake; [|done..]. split; [by apply init_fifo|]. constructor. }
  by apply (Forall_lookup_1 _ _ _ _ Hts) in Ht as [? _].
Qed.

Lemma pipe_no_lost_wakeup_witness :
  match pipe_execs (psys_init (replicate 512 0)) [EvCall (TRead 2 []); EvRun 0] with
  | Some s => match threads s !! 0%nat with
              | Some thr => stat thr = Asleep CNread ∧ sleep_ok (the_pipe s) thr
              | None => False
              end
  | None => False
  end.
Proof.
  destruct (pipe_execs _ _) as [s|] eqn:E; [|vm_compute in E; discriminate E].
  destruct (threads s !! 0%nat) as [thr|] eqn:Et;
    [|vm_compute in E; injection E as <-; discriminate Et].
  split; [vm_compute in E; injection E as <-; injection Et as <-; reflexivity|].
  refine (pipe_no_lost_wakeup (replicate 512 0) _ s eq_refl (pipe_execs_run _ _ _ E) _ 0%nat thr Et).
  intros t H. repeat (apply elem_of_cons in H as [H|H]; [discriminate|]).
  by apply not_elem_of_nil in H.
Defined.

(** A writer that is killed when it finds the pipe full returns -1 without
    the [wakeup(&p->nread)] of the other paths, although it stored bytes: a
    reader that was asleep stays asleep on a full pipe. *)
Theorem pipe_killed_writer_strands_reader :
  ∃ evs s thr,
    pipe_run (psys_init (replicate 512 0)) evs s ∧
    threads s !! 0%nat = Some thr ∧ stat thr = Asleep CNread ∧
    is_writer (prog thr) = false ∧ pcount (the_pipe s) = PIPESIZE ∧
    Forall (λ t, active t = true → t = thr) (threads s).
Proof.
  pose (evs := [EvCall (TRead 2 []); EvRun 0; EvCall (TWrite 600 (replicate 600 65));
    EvKill true 1; EvRun 1]).
  destruct (pipe_execs (psys_init (replicate 512 0)) evs) as [s|] eqn:E;
    [|vm_compute in E; discriminate E].
  exists evs, s, (Thread (TRead 2 []) false (Asleep CNread)).
  split; [by apply pipe_execs_run|]. vm_compute in E. injection E as <-.
  repeat split; try (vm_compute; reflexivity). by repeat constructor.
Qed.
