(* ===== verification/Proc.v ===== *)
(** * Processes

    Models [proc.c]: the process table, the life cycle of a process
    ([allocproc], [userinit], [fork], [exit], [wait], [kill]), sleeping and
    waking, the scheduler, and the ring buffer of exited processes.

    The parts of the kernel that process code calls (page allocator, page
    tables, files, inodes, the log) are the operations of the class
    [Kernel]: the theorems below hold for every implementation of it. *)

From S2P Require Import Prelude CString Layout.

(** ** Data *)

Definition NPROC : nat := 64.
Definition NOFILE : nat := 16.
Definition KSTACKSIZE : Z := 4096.
Definition MAX_HISTORY : Z := 100.
Definition CMD_NAME_MAX : Z := 16.

Inductive procstate := UNUSED | EMBRYO | SLEEPING | RUNNABLE | RUNNING | ZOMBIE.
Global Instance procstate_eq_dec : EqDecision procstate.
Proof. solve_decision. Defined.

(** A [void*] used as a sleep channel: null, a process-table slot, or the
    address of another kernel object. *)
Inductive vptr := Null | ProcPtr (i : nat) | ObjPtr (a : Z).
Global Instance vptr_eq_dec : EqDecision vptr.
Proof. solve_decision. Defined.

(** [struct proc *] as a channel. *)
Definition ptr (p : option nat) : vptr :=
  match p with Some i => ProcPtr i | None => Null end.

Record trapframe := TF {
  tf_edi : Z; tf_esi : Z; tf_ebp : Z; tf_oesp : Z; tf_ebx : Z; tf_edx : Z; tf_ecx : Z;
  tf_eax : Z; tf_gs : Z; tf_fs : Z; tf_es : Z; tf_ds : Z; tf_trapno : Z; tf_err : Z;
  tf_eip : Z; tf_cs : Z; tf_eflags : Z; tf_esp : Z; tf_ss : Z
}.
Definition zero_tf : trapframe := TF 0 0 0 0 0 0 0 0 0 0 0 0 0 0 0 0 0 0 0.
Definition sizeof_trapframe : Z := 76.
Definition set_eax (v : Z) (t : trapframe) : trapframe :=
  TF (tf_edi t) (tf_esi t) (tf_ebp t) (tf_oesp t) (tf_ebx t) (tf_edx t) (tf_ecx t) v
    (tf_gs t) (tf_fs t) (tf_es t) (tf_ds t) (tf_trapno t) (tf_err t) (tf_eip t) (tf_cs t)
    (tf_eflags t) (tf_esp t) (tf_ss t).

Record context := Ctx { c_edi : Z; c_esi : Z; c_ebx : Z; c_ebp : Z; c_eip : Z }.
Definition sizeof_context : Z := 20.

(** Per-process state.  [p_tf] and [p_context] are the addresses of the two
    frames on the kernel stack; [p_tfv], [p_ctxv] and [p_kret] are what is
    stored there (the last is the return address between the frames). *)
Record proc := Proc {
  p_sz : Z;
  p_pgdir : Z;
  p_kstack : Z;
  p_state : procstate;
  p_pid : Z;
  p_parent : option nat;
  p_tf : Z;
  p_tfv : trapframe;
  p_kret : Z;
  p_context : Z;
  p_ctxv : context;
  p_chan : vptr;
  p_killed : Z;
  p_ofile : list (option nat);
  p_cwd : option nat;
  p_name : list Z
}.

Definition empty_proc : proc :=
  Proc 0 0 0 UNUSED 0 None 0 zero_tf 0 0 (Ctx 0 0 0 0 0) Null 0
    (replicate NOFILE None) None (replicate 16 0).

Definition set_state (st : procstate) (p : proc) : proc :=
  Proc (p_sz p) (p_pgdir p) (p_kstack p) st (p_pid p) (p_parent p) (p_tf p) (p_tfv p)
    (p_kret p) (p_context p) (p_ctxv p) (p_chan p) (p_killed p) (p_ofile p) (p_cwd p) (p_name p).
Definition set_pid (pid : Z) (p : proc) : proc :=
  Proc (p_sz p) (p_pgdir p) (p_kstack p) (p_state p) pid (p_parent p) (p_tf p) (p_tfv p)
    (p_kret p) (p_context p) (p_ctxv p) (p_chan p) (p_killed p) (p_ofile p) (p_cwd p) (p_name p).
Definition set_parent (par : option nat) (p : proc) : proc :=
  Proc (p_sz p) (p_pgdir p) (p_kstack p) (p_state p) (p_pid p) par (p_tf p) (p_tfv p)
    (p_kret p) (p_context p) (p_ctxv p) (p_chan p) (p_killed p) (p_ofile p) (p_cwd p) (p_name p).
Definition set_chan (c : vptr) (p : proc) : proc :=
  Proc (p_sz p) (p_pgdir p) (p_kstack p) (p_state p) (p_pid p) (p_parent p) (p_tf p) (p_tfv p)
    (p_kret p) (p_context p) (p_ctxv p) c (p_killed p) (p_ofile p) (p_cwd p) (p_name p).
Definition set_killed (k : Z) (p : proc) : proc :=
  Proc (p_sz p) (p_pgdir p) (p_kstack p) (p_state p) (p_pid p) (p_parent p) (p_tf p) (p_tfv p)
    (p_kret p) (p_context p) (p_ctxv p) (p_chan p) k (p_ofile p) (p_cwd p) (p_name p).
Definition set_kstack (k : Z) (p : proc) : proc :=
  Proc (p_sz p) (p_pgdir p) k (p_state p) (p_pid p) (p_parent p) (p_tf p) (p_tfv p)
    (p_kret p) (p_context p) (p_ctxv p) (p_chan p) (p_killed p) (p_ofile p) (p_cwd p) (p_name p).
Definition set_frames (tf kret ctx : Z) (cv : context) (p : proc) : proc :=
  Proc (p_sz p) (p_pgdir p) (p_kstack p) (p_state p) (p_pid p) (p_parent p) tf (p_tfv p)
    kret ctx cv (p_chan p) (p_killed p) (p_ofile p) (p_cwd p) (p_name p).
Definition set_tfv (t : trapframe) (p : proc) : proc :=
  Proc (p_sz p) (p_pgdir p) (p_kstack p) (p_state p) (p_pid p) (p_parent p) (p_tf p) t
    (p_kret p) (p_context p) (p_ctxv p) (p_chan p) (p_killed p) (p_ofile p) (p_cwd p) (p_name p).
Definition set_pgdir (d : Z) (p : proc) : proc :=
  Proc (p_sz p) d (p_kstack p) (p_state p) (p_pid p) (p_parent p) (p_tf p) (p_tfv p)
    (p_kret p) (p_context p) (p_ctxv p) (p_chan p) (p_killed p) (p_ofile p) (p_cwd p) (p_name p).
Definition set_sz (sz : Z) (p : proc) : proc :=
  Proc sz (p_pgdir p) (p_kstack p) (p_state p) (p_pid p) (p_parent p) (p_tf p) (p_tfv p)
    (p_kret p) (p_context p) (p_ctxv p) (p_chan p) (p_killed p) (p_ofile p) (p_cwd p) (p_name p).
Definition set_ofile (o : list (option nat)) (p : proc) : proc :=
  Proc (p_sz p) (p_pgdir p) (p_kstack p) (p_state p) (p_pid p) (p_parent p) (p_tf p) (p_tfv p)
    (p_kret p) (p_context p) (p_ctxv p) (p_chan p) (p_killed p) o (p_cwd p) (p_name p).
Definition set_cwd (c : option nat) (p : proc) : proc :=
  Proc (p_sz p) (p_pgdir p) (p_kstack p) (p_state p) (p_pid p) (p_parent p) (p_tf p) (p_tfv p)
    (p_kret p) (p_context p) (p_ctxv p) (p_chan p) (p_killed p) (p_ofile p) c (p_name p).
Definition set_name (n : list Z) (p : proc) : proc :=
  Proc (p_sz p) (p_pgdir p) (p_kstack p) (p_state p) (p_pid p) (p_parent p) (p_tf p) (p_tfv p)
    (p_kret p) (p_context p) (p_ctxv p) (p_chan p) (p_killed p) (p_ofile p) (p_cwd p) n.

(** [struct history_entry]. *)
Record hentry := HEntry { h_pid : Z; h_name : list Z; h_mem : Z }.
Definition empty_hentry : hentry := HEntry 0 (replicate 16 0) 0.
Global Instance hentry_inhabited : Inhabited hentry := populate empty_hentry.
Global Instance proc_inhabited : Inhabited proc := populate empty_proc.

(** [safestrcpy] between two character arrays. *)
Definition arr_safestrcpy (dst src : list Z) (n : Z) : list Z :=
  let base := Z.of_nat (length dst) in
  let m : mem := λ x, if x <? base then dst !!! Z.to_nat x else src !!! Z.to_nat (x - base) in
  bytes (safestrcpy m 0 base n) 0 (length dst).

(** ** What process code uses of the rest of the kernel

    Operations that call [wakeup] return the channels they woke. *)

Class Kernel (K : Type) := {
  k_kalloc : M K Z;                      (* 0 when out of memory *)
  k_kfree : Z → M K unit;
  k_setupkvm : M K Z;                    (* 0 when out of memory *)
  k_inituvm : Z → M K unit;              (* loads initcode at address 0 *)
  k_copyuvm : Z → Z → M K Z;             (* 0 when out of memory *)
  k_freevm : Z → M K unit;
  k_allocuvm : Z → Z → Z → M K Z;        (* 0 on failure *)
  k_deallocuvm : Z → Z → Z → M K Z;
  k_switchuvm : Z → Z → M K unit;        (* kernel stack, page directory *)
  k_filedup : nat → M K unit;
  k_fileclose : nat → M K (list vptr);
  k_idup : nat → M K unit;
  k_iput : nat → M K (list vptr);
  k_begin_op : M K unit;
  k_end_op : M K (list vptr);
  k_namei_root : M K (option nat);       (* namei("/") *)
  k_forkret : Z;                         (* link addresses of forkret *)
  k_trapret : Z                          (* and trapret *)
}.

(** ** The process table and the operations on it *)

(** The globals of [proc.c]; [cpus] holds [c->proc] of every CPU and [krest]
    the state of the rest of the kernel. *)
Record pst (K : Type) := PSt {
  procs : list proc;
  nextpid : Z;
  initproc : option nat;
  cpus : list (option nat);
  phist : list hentry;
  hcount : Z;
  hindex : Z;
  krest : K
}.
Arguments PSt {K}.
Arguments procs {K}. Arguments nextpid {K}. Arguments initproc {K}. Arguments cpus {K}.
Arguments phist {K}. Arguments hcount {K}. Arguments hindex {K}. Arguments krest {K}.

(** [for(p = ptable.proc; p < &ptable.proc[NPROC]; p++) if(cond) goto found;] *)
Fixpoint scan (cond : proc → bool) (ps : list proc) (i : nat) : option nat :=
  match ps with
  | [] => None
  | p :: ps' => if cond p then Some i else scan cond ps' (S i)
  end.

Definition state_is (st : procstate) (p : proc) : bool := bool_decide (p_state p = st).

(** [if(p->state == SLEEPING && p->chan == chan) p->state = RUNNABLE;] *)
Definition wake_proc (chan : vptr) (p : proc) : proc :=
  if state_is SLEEPING p && bool_decide (p_chan p = chan) then set_state RUNNABLE p else p.

(** [wakeup1]: every process sleeping on [chan] becomes RUNNABLE. *)
Definition wakeup1 (chan : vptr) (ps : list proc) : list proc := wake_proc chan <$> ps.

(** The loop of [exit] that passes abandoned children to init. *)
Fixpoint reparent (cur : nat) (init : option nat) (is_ : list nat) (ps : list proc) : list proc :=
  match is_ with
  | [] => ps
  | i :: is' =>
      let ps' :=
        if bool_decide (p_parent (ps !!! i) = Some cur) then
          let ps1 := alter (set_parent init) i ps in
          if state_is ZOMBIE (ps !!! i) then wakeup1 (ptr init) ps1 else ps1
        else ps in
      reparent cur init is' ps'
  end.

(** The scan of [wait]: whether there are children, and the first zombie. *)
Fixpoint wait_scan (cur : nat) (ps : list proc) (i : nat) (havekids : bool) : bool * option nat :=
  match ps with
  | [] => (havekids, None)
  | p :: ps' =>
      if negb (bool_decide (p_parent p = Some cur)) then wait_scan cur ps' (S i) havekids
      else if state_is ZOMBIE p then (true, Some i)
      else wait_scan cur ps' (S i) true
  end.

Section ops.
Context {K : Type} `{Kernel K}.
Abbreviation PS := (pst K).

Definition with_procs (ps : list proc) (s : PS) : PS :=
  PSt ps (nextpid s) (initproc s) (cpus s) (phist s) (hcount s) (hindex s) (krest s).
Definition with_cpus (cs : list (option nat)) (s : PS) : PS :=
  PSt (procs s) (nextpid s) (initproc s) cs (phist s) (hcount s) (hindex s) (krest s).
Definition with_rest (k : K) (s : PS) : PS :=
  PSt (procs s) (nextpid s) (initproc s) (cpus s) (phist s) (hcount s) (hindex s) k.
Definition with_nextpid (n : Z) (s : PS) : PS :=
  PSt (procs s) n (initproc s) (cpus s) (phist s) (hcount s) (hindex s) (krest s).
Definition with_initproc (i : option nat) (s : PS) : PS :=
  PSt (procs s) (nextpid s) i (cpus s) (phist s) (hcount s) (hindex s) (krest s).
Definition with_hist (h : list hentry) (c i : Z) (s : PS) : PS :=
  PSt (procs s) (nextpid s) (initproc s) (cpus s) h c i (krest s).

Definition upd (i : nat) (f : proc → proc) (s : PS) : PS := with_procs (alter f i (procs s)) s.
Definition proc_at (i : nat) : M PS proc := gets (λ s, procs s !!! i).

(** A call into the rest of the kernel. *)
Definition kcall {A} (c : M K A) : M PS A := λ s,
  match c (krest s) with
  | Ok (a, k) => Ok (a, with_rest k s)
  | Panic m => Panic m
  | Blocked => Blocked
  | Undef => Undef
  end.

(** [wakeup] *)
Definition wakeup (chan : vptr) (s : PS) : PS := with_procs (wakeup1 chan (procs s)) s.
Definition wakeups (cs : list vptr) : M PS unit := modify (λ s, foldl (λ s c, wakeup c s) s cs).

(** The part of [allocproc] under [ptable.lock].  [nextpid++] on [INT_MAX]
    is signed overflow. *)
Definition alloc_slot : M PS (option nat) := λ s,
  match scan (state_is UNUSED) (procs s) 0 with
  | None => Ok (None, s)
  | Some i =>
      if nextpid s =? INT_MAX then Undef
      else Ok (Some i, with_nextpid (nextpid s + 1)
                         (upd i (set_pid (nextpid s) ∘ set_state EMBRYO) s))
  end.

Definition allocproc : M PS (option nat) :=
  o ← alloc_slot;
  match o with
  | None => mret None
  | Some i =>
      k ← kcall k_kalloc;
      modify (upd i (set_kstack k));;
      if k =? 0 then
        modify (upd i (set_state UNUSED));; mret None
      else
        let tf := k + KSTACKSIZE - sizeof_trapframe in
        let ctx := tf - 4 - sizeof_context in
        modify (upd i (set_frames tf k_trapret ctx (Ctx 0 0 0 0 k_forkret)));;
        mret (Some i)
  end.

(** The string ["initcode"]. *)
Definition str_initcode : list Z := [105; 110; 105; 116; 99; 111; 100; 101; 0].

(** [userinit]; a null [p] is dereferenced. *)
Definition userinit : M PS unit :=
  o ← allocproc;
  match o with
  | None => undef
  | Some i =>
      modify (with_initproc (Some i));;
      d ← kcall k_setupkvm;
      modify (upd i (set_pgdir d));;
      if d =? 0 then panic "userinit: out of memory?" else
      kcall (k_inituvm d);;
      let useg := λ seg, Z.lor (Z.shiftl seg 3) 3 in
      let t := TF 0 0 0 0 0 0 0 0 0 0 (useg 4) (useg 4) 0 0 0 (useg 3) 512 PGSIZE (useg 4) in
      modify (upd i (set_tfv t ∘ set_sz PGSIZE));;
      modify (upd i (λ p, set_name (arr_safestrcpy (p_name p) str_initcode 16) p));;
      c ← kcall k_namei_root;
      modify (upd i (set_cwd c));;
      modify (upd i (set_state RUNNABLE))
  end.

Definition growproc (cur : nat) (n : Z) : M PS Z :=
  p ← proc_at cur;
  let done := λ sz,
    modify (upd cur (set_sz sz));;
    kcall (k_switchuvm (p_kstack p) (p_pgdir p));;
    mret 0 in
  if 0 <? n then
    sz ← kcall (k_allocuvm (p_pgdir p) (p_sz p) (u32 (p_sz p + n)));
    if sz =? 0 then mret (-1) else done sz
  else if n <? 0 then
    sz ← kcall (k_deallocuvm (p_pgdir p) (p_sz p) (u32 (p_sz p + n)));
    if sz =? 0 then mret (-1) else done sz
  else done (p_sz p).

(** [for(i = 0; i < NOFILE; i++) if(curproc->ofile[i]) np->ofile[i] = filedup(...)] *)
Fixpoint dup_files (cur np : nat) (fds : list nat) : M PS unit :=
  match fds with
  | [] => mret tt
  | i :: fds' =>
      p ← proc_at cur;
      match p_ofile p !!! i with
      | None => mret tt
      | Some f =>
          kcall (k_filedup f);;
          modify (upd np (λ q, set_ofile (<[i := Some f]> (p_ofile q)) q))
      end;;
      dup_files cur np fds'
  end.

(** [fork] after [allocproc] gave slot [np]. *)
Definition fork_child (cur np : nat) : M PS Z :=
  p ← proc_at cur;
  d ← kcall (k_copyuvm (p_pgdir p) (p_sz p));
  modify (upd np (set_pgdir d));;
  if d =? 0 then
    q ← proc_at np;
    kcall (k_kfree (p_kstack q));;
    modify (upd np (set_kstack 0));;
    modify (upd np (set_state UNUSED));;
    mret (-1)
  else
    modify (upd np (set_sz (p_sz p)));;
    modify (upd np (set_parent (Some cur)));;
    modify (upd np (set_tfv (set_eax 0 (p_tfv p))));;
    dup_files cur np (seq 0 NOFILE);;
    p ← proc_at cur;
    match p_cwd p with
    | None => undef
    | Some c =>
        kcall (k_idup c);;
        modify (upd np (set_cwd (Some c)));;
        modify (upd np (λ q, set_name (arr_safestrcpy (p_name q) (p_name p) 16) q));;
        q ← proc_at np;
        modify (upd np (set_state RUNNABLE));;
        mret (p_pid q)
    end.

Definition fork (cur : nat) : M PS Z :=
  o ← allocproc;
  match o with
  | None => mret (-1)
  | Some np => fork_child cur np
  end.

(** The first part of [exit]: append the process to the ring of exited
    processes. *)
Definition exit_history (cur : nat) (s : PS) : PS :=
  let p := procs s !!! cur in
  let i := Z.to_nat (hindex s) in
  let e := HEntry (p_pid p) (arr_safestrcpy (h_name (phist s !!! i)) (p_name p) CMD_NAME_MAX)
             (s32 (p_sz p)) in
  with_hist (<[i := e]> (phist s))
    (if hcount s <? MAX_HISTORY then hcount s + 1 else hcount s)
    ((hindex s + 1) mod MAX_HISTORY) s.

(** [for(fd = 0; fd < NOFILE; fd++) if(curproc->ofile[fd]) ...] of [exit]. *)
Fixpoint close_files (cur : nat) (fds : list nat) : M PS unit :=
  match fds with
  | [] => mret tt
  | i :: fds' =>
      p ← proc_at cur;
      match p_ofile p !!! i with
      | None => mret tt
      | Some f =>
          cs ← kcall (k_fileclose f);
          wakeups cs;;
          modify (upd cur (λ q, set_ofile (<[i := None]> (p_ofile q)) q))
      end;;
      close_files cur fds'
  end.

(** [swtch] into the scheduler: the CPU running [cur] gives it up. *)
Definition leave_cpu (cur : nat) (cs : list (option nat)) : list (option nat) :=
  (λ o, if bool_decide (o = Some cur) then None else o) <$> cs.

(** [sched], called with only [ptable.lock] held. *)
Definition sched (cur : nat) : M PS unit := λ s,
  if state_is RUNNING (procs s !!! cur) then Panic "sched running"
  else Ok (tt, with_cpus (leave_cpu cur (cpus s)) s).

(** The end of [exit], under [ptable.lock]. *)
Definition exit_final (cur : nat) : M PS unit :=
  modify (λ s, wakeup (ptr (p_parent (procs s !!! cur))) s);;
  modify (λ s, with_procs (reparent cur (initproc s) (seq 0 NPROC) (procs s)) s);;
  modify (upd cur (set_state ZOMBIE));;
  sched cur.

Definition exit (cur : nat) : M PS unit :=
  init ← gets initproc;
  if bool_decide (init = Some cur) then panic "init exiting" else
  modify (exit_history cur);;
  close_files cur (seq 0 NOFILE);;
  kcall k_begin_op;;
  p ← proc_at cur;
  match p_cwd p with
  | None => undef
  | Some c =>
      cs ← kcall (k_iput c);
      wakeups cs;;
      cs ← kcall k_end_op;
      wakeups cs;;
      modify (upd cur (set_cwd None));;
      exit_final cur
  end.

(** [sleep] up to the switch to the scheduler, and what it does when the
    process runs again. *)
Definition sleep_enter (cur : nat) (chan : vptr) : M PS unit :=
  modify (upd cur (set_chan chan));;
  modify (upd cur (set_state SLEEPING));;
  sched cur.
Definition sleep_leave (cur : nat) (s : PS) : PS := upd cur (set_chan Null) s.

(** The fields [wait] clears when it reaps a child. *)
Definition reap (p : proc) : proc :=
  set_state UNUSED (set_killed 0 (set_name (<[0%nat := 0]> (p_name p))
    (set_parent None (set_pid 0 p)))).

(** One round of the loop of [wait]: [Some r] when it returns [r], [None]
    when it went to sleep. *)
Definition wait_round (cur : nat) : M PS (option Z) :=
  ps ← gets procs;
  let '(havekids, z) := wait_scan cur ps 0 false in
  match z with
  | Some i =>
      p ← proc_at i;
      kcall (k_kfree (p_kstack p));;
      modify (upd i (set_kstack 0));;
      kcall (k_freevm (p_pgdir p));;
      modify (upd i reap);;
      mret (Some (p_pid p))
  | None =>
      if negb havekids || truthy (p_killed (ps !!! cur)) then mret (Some (-1))
      else sleep_enter cur (ProcPtr cur);; mret None
  end.

(** [yield] *)
Definition yield (cur : nat) : M PS unit :=
  modify (upd cur (set_state RUNNABLE));; sched cur.

(** [kill] *)
Definition kill (pid : Z) : M PS Z :=
  ps ← gets procs;
  match scan (λ p, p_pid p =? pid) ps 0 with
  | None => mret (-1)
  | Some i =>
      modify (upd i (set_killed 1));;
      p ← proc_at i;
      (if state_is SLEEPING p then modify (upd i (set_state RUNNABLE)) else mret tt);;
      mret 0
  end.

(** The body of the loop of [scheduler] for slot [i] on CPU [c], up to the
    switch: whether the process was dispatched. *)
Definition dispatch (c i : nat) : M PS bool :=
  p ← proc_at i;
  if negb (state_is RUNNABLE p) then mret false
  else
    modify (λ s, with_cpus (<[c := Some i]> (cpus s)) s);;
    kcall (k_switchuvm (p_kstack p) (p_pgdir p));;
    modify (upd i (set_state RUNNING));;
    mret true.

(** One pass of [scheduler] over the table.  [run i] is what happens from
    the switch to process [i] until it switches back.  Returns the slots
    dispatched, in order. *)
Fixpoint scheduler_pass (run : nat → M PS unit) (c : nat) (is_ : list nat) : M PS (list nat) :=
  match is_ with
  | [] => mret []
  | i :: is' =>
      d ← dispatch c i;
      (if (d : bool) then run i;; modify (λ s, with_cpus (<[c := None]> (cpus s)) s) else mret tt);;
      ran ← scheduler_pass run c is';
      mret (if (d : bool) then i :: ran else ran)
  end.
End ops.

(** ** Interleavings

    [ptable.lock] makes the parts of the operations that touch the table
    atomic; these parts, run by the process of some CPU, are the steps of
    the system.  A slot in state EMBRYO belongs to the process creating it. *)

(** A change to fields that scheduling does not look at. *)
Definition quiet (f : proc → proc) : Prop :=
  ∀ p, p_state (f p) = p_state p ∧ p_pid (f p) = p_pid p ∧ p_parent (f p) = p_parent p ∧
       p_chan (f p) = p_chan p ∧ p_killed (f p) = p_killed p.

Section steps.
Context {K : Type} `{Kernel K}.

Definition on_cpu (s : pst K) (cur : nat) : Prop := ∃ c, cpus s !! c = Some (Some cur).
Definition embryo (s : pst K) (i : nat) (p : proc) : Prop :=
  procs s !! i = Some p ∧ p_state p = EMBRYO.

Inductive pstep : pst K → pst K → Prop :=
| st_alloc s i s' : alloc_slot s = Ok (Some i, s') → pstep s s'
| st_embryo s i p f : embryo s i p → quiet f → pstep s (upd i f s)
| st_abandon s i p : embryo s i p → p_parent p = None → initproc s ≠ Some i →
    pstep s (upd i (set_state UNUSED) s)
| st_setinit s i p : embryo s i p → p_parent p = None → initproc s = None →
    pstep s (with_initproc (Some i) s)
| st_parent s cur i p : on_cpu s cur → embryo s i p → initproc s ≠ Some i →
    pstep s (upd i (set_parent (Some cur)) s)
| st_publish s i p : embryo s i p → (p_parent p ≠ None ∨ initproc s = Some i) →
    pstep s (upd i (set_state RUNNABLE) s)
| st_own s cur f : on_cpu s cur → quiet f → pstep s (upd cur f s)
| st_rest s k : pstep s (with_rest k s)
| st_history s cur : on_cpu s cur → pstep s (exit_history cur s)
| st_exit s cur s' : on_cpu s cur → initproc s ≠ Some cur →
    exit_final cur s = Ok (tt, s') → pstep s s'
| st_sleep s cur chan s' : on_cpu s cur → (∀ i, chan ≠ ProcPtr i) →
    sleep_enter cur chan s = Ok (tt, s') → pstep s s'
| st_unsleep s cur : on_cpu s cur → pstep s (sleep_leave cur s)
| st_wait s cur r s' : on_cpu s cur → wait_round cur s = Ok (r, s') → pstep s s'
| st_wakeup s chan : pstep s (wakeup chan s)
| st_kill s pid r s' : kill pid s = Ok (r, s') → pstep s s'
| st_yield s cur s' : on_cpu s cur → yield cur s = Ok (tt, s') → pstep s s'
| st_dispatch s c i b s' : cpus s !! c = Some None → dispatch c i s = Ok (b, s') → pstep s s'.

(** The kernel before [userinit], with [ncpu] CPUs. *)
Definition boot (ncpu : nat) (k : K) : pst K :=
  PSt (replicate NPROC empty_proc) 1 None (replicate ncpu None)
    (replicate (Z.to_nat MAX_HISTORY) empty_hentry) 0 0 k.

Definition reachable (s : pst K) : Prop := ∃ ncpu k, rtc pstep (boot ncpu k) s.

(** *** The invariant *)

Definition live (p : proc) : Prop := p_state p ≠ UNUSED ∧ p_state p ≠ ZOMBIE.
Definition published (p : proc) : Prop := p_state p ≠ UNUSED ∧ p_state p ≠ EMBRYO.
Definition alive (p : proc) : Prop := published p ∧ p_state p ≠ ZOMBIE.

(** Pids: of the slots in use, positive, below [nextpid], distinct. *)
Record pid_inv (s : pst K) : Prop := {
  pi_next : 0 < nextpid s ≤ INT_MAX;
  pi_range i p : procs s !! i = Some p → p_state p ≠ UNUSED → 0 < p_pid p < nextpid s;
  pi_uniq i j p q : procs s !! i = Some p → procs s !! j = Some q →
    p_state p ≠ UNUSED → p_state q ≠ UNUSED → p_pid p = p_pid q → i = j
}.

(** CPUs: the RUNNING processes are the ones on a CPU, each on one. *)
Record cpu_inv (s : pst K) : Prop := {
  ci_cpu c i : cpus s !! c = Some (Some i) →
    ∃ p, procs s !! i = Some p ∧ p_state p = RUNNING;
  ci_run i p : procs s !! i = Some p → p_state p = RUNNING → on_cpu s i;
  ci_inj c c' i : cpus s !! c = Some (Some i) → cpus s !! c' = Some (Some i) → c = c'
}.

(** Families: parents are alive, free slots have none, and every process but
    init has one, so that an exited process is always reaped by someone. *)
Record family_inv (s : pst K) : Prop := {
  fi_unused i p : procs s !! i = Some p → p_state p = UNUSED → p_parent p = None;
  fi_parent i p j : procs s !! i = Some p → p_parent p = Some j →
    j ≠ i ∧ ∃ q, procs s !! j = Some q ∧ alive q;
  fi_orphan i p : procs s !! i = Some p → published p → initproc s ≠ Some i →
    p_parent p ≠ None;
  fi_init k : initproc s = Some k → ∃ q, procs s !! k = Some q ∧ live q ∧ p_parent q = None;
  fi_boot i p : procs s !! i = Some p → published p ∨ p_parent p ≠ None →
    ∃ k q, initproc s = Some k ∧ procs s !! k = Some q ∧ alive q
}.

(** No process sleeps in [wait] while it has a zombie child. *)
Definition wait_inv (s : pst K) : Prop :=
  ∀ i z j q, procs s !! i = Some z → p_state z = ZOMBIE → p_parent z = Some j →
    procs s !! j = Some q → p_state q = SLEEPING → p_chan q ≠ ProcPtr j.

Record proc_inv (s : pst K) : Prop := {
  inv_len : length (procs s) = NPROC;
  inv_pid : pid_inv s;
  inv_cpu : cpu_inv s;
  inv_family : family_inv s;
  inv_wait : wait_inv s
}.
End steps.
