(* ===== verification/ProcInv.v ===== *)
(** * The process-table invariant

    Every step of [Proc.pstep] preserves [Proc.proc_inv]; the operations of
    [proc.c] are sequences of such steps. *)

From S2P Require Import Prelude CString Proc.

Lemma kcall_Ok {K A} (c : M K A) (s : pst K) a s' : kcall c s = Ok (a, s') → ∃ k, s' = with_rest k s.
Proof. unfold kcall. destruct (c (krest s)) as [[b k]| | |]; [|done..]. intros [= <- <-]. eauto. Qed.

(** Invert the calls of an operation, including those into the rest of the kernel. *)
Ltac kinv :=
  unfold proc_at, wakeups in *; minv;
  repeat match goal with
  | E : kcall _ _ = Ok _ |- _ =>
      let k := fresh "k" in apply kcall_Ok in E as [k E]; subst
  end.

Section inv.
Context {K : Type} `{Kernel K}.
Implicit Types s : pst K.

(** The table of [s'] is the one of [s] with [g j] applied to slot [j]. *)
Definition pw (g : nat → proc → proc) (s s' : pst K) : Prop :=
  ∀ j, procs s' !! j = g j <$> procs s !! j.

(** [f] at slot [i], nothing elsewhere. *)
Definition at_slot (i : nat) (f : proc → proc) (j : nat) (p : proc) : proc :=
  if decide (j = i) then f p else p.

Lemma pw_upd i f s : pw (at_slot i f) s (upd i f s).
Proof.
  intros j. unfold upd, with_procs, at_slot. simpl. destruct (decide (j = i)) as [->|Hne].
  - by rewrite list_lookup_alter_eq.
  - rewrite list_lookup_alter_ne by done. by destruct (procs s !! j).
Qed.

Lemma pw_id s s' : procs s' = procs s → pw (λ _ p, p) s s'.
Proof. intros E j. rewrite E. by destruct (procs s !! j). Qed.

Lemma pw_wakeup ch s : pw (λ _, wake_proc ch) s (wakeup ch s).
Proof. intros j. unfold wakeup, wakeup1. simpl. apply list_lookup_fmap. Qed.

Lemma pw_trans g h s s1 s2 : pw g s s1 → pw h s1 s2 → pw (λ j p, h j (g j p)) s s2.
Proof. intros H1 H2 j. rewrite H2, H1. by destruct (procs s !! j). Qed.

Lemma pw_length g s s' : pw g s s' → length (procs s') = length (procs s).
Proof.
  intros Hp. apply Nat.le_antisymm.
  - apply lookup_ge_None. rewrite Hp. rewrite lookup_ge_None_2; [done|lia].
  - apply lookup_ge_None. specialize (Hp (length (procs s'))).
    rewrite lookup_ge_None_2 in Hp by lia. by destruct (procs s !! _).
Qed.

Lemma pw_inv g s s' j p' : pw g s s' → procs s' !! j = Some p' →
  ∃ p, procs s !! j = Some p ∧ p' = g j p.
Proof.
  intros Hp Hj. rewrite Hp in Hj. destruct (procs s !! j) as [p|]; simplify_eq/=. eauto.
Qed.

Lemma pw_fwd g s s' j p : pw g s s' → procs s !! j = Some p → procs s' !! j = Some (g j p).
Proof. intros Hp Hj. by rewrite Hp, Hj. Qed.

Ltac pw_inv Hp :=
  repeat match goal with
  | H : procs ?s' !! _ = Some ?p |- _ =>
      match type of Hp with pw _ _ s' =>
        let q := fresh "p" in let Hq := fresh "Hl" in
        apply (pw_inv _ _ _ _ _ Hp) in H as (q & Hq & ->)
      end
  end.

(** *** Steps that keep each part of the invariant *)

Lemma pid_pres g s s' :
  pw g s s' → nextpid s' = nextpid s →
  (∀ j p, procs s !! j = Some p → p_state (g j p) ≠ UNUSED →
     p_state p ≠ UNUSED ∧ p_pid (g j p) = p_pid p) →
  pid_inv s → pid_inv s'.
Proof.
  intros Hp Hn Hg [H1 H2 H3]. split.
  - by rewrite Hn.
  - intros i p Hi Hu. pw_inv Hp. rewrite Hn. destruct (Hg _ _ Hl Hu) as [? ->]. eauto.
  - intros i j p q Hi Hj Hu Hv E. pw_inv Hp.
    destruct (Hg _ _ Hl Hv) as [? E1]. destruct (Hg _ _ Hl0 Hu) as [? E2].
    rewrite E1, E2 in E. eauto.
Qed.

Lemma cpu_pres g s s' :
  pw g s s' → cpus s' = cpus s →
  (∀ j p, procs s !! j = Some p → p_state (g j p) = RUNNING ↔ p_state p = RUNNING) →
  cpu_inv s → cpu_inv s'.
Proof.
  intros Hp Hc Hg [H1 H2 H3]. unfold on_cpu in *. split; rewrite ?Hc.
  - intros c i Hi. destruct (H1 _ _ Hi) as (p & Hl & Hr).
    exists (g i p). split; [by eapply pw_fwd|]. by apply Hg.
  - intros i p Hi Hr. pw_inv Hp. unfold on_cpu. rewrite Hc. eapply H2; [done|]. by apply (Hg _ _ Hl).
  - exact H3.
Qed.

Lemma family_pres g s s' :
  pw g s s' → initproc s' = initproc s →
  (∀ j p, procs s !! j = Some p →
     (p_state (g j p) = UNUSED → p_parent (g j p) = None) ∧
     (p_parent (g j p) = p_parent p ∨ p_parent (g j p) = None) ∧
     (alive p → alive (g j p)) ∧ (initproc s = Some j → live p → live (g j p)) ∧
     (published (g j p) → published p ∧ p_parent (g j p) = p_parent p)) →
  family_inv s → family_inv s'.
Proof.
  intros Hp Hi Hg [H1 H2 H3 H4 H5]. split.
  - intros i p Hj Hu. pw_inv Hp. by apply Hg.
  - intros i p j Hj Hpa. pw_inv Hp. destruct (Hg _ _ Hl) as (_ & [E|E] & _); [|congruence].
    rewrite E in Hpa. destruct (H2 _ _ _ Hl Hpa) as (Hne & q & Hq & Hlive).
    split; [done|]. exists (g j q). split; [by eapply pw_fwd|]. by apply Hg.
  - intros i p Hj Hpub Hne. pw_inv Hp. destruct (Hg _ _ Hl) as (_ & _ & _ & _ & Hpb).
    destruct (Hpb Hpub) as [? ->]. rewrite Hi in Hne. eauto.
  - intros k Hk. rewrite Hi in Hk. destruct (H4 _ Hk) as (q & Hq & Hlive & Hpa).
    exists (g k q). split; [by eapply pw_fwd|]. destruct (Hg _ _ Hq) as (_ & [E|E] & _ & Hlv & _);
    rewrite E; auto.
  - intros i p Hj Hor. pw_inv Hp. destruct (Hg _ _ Hl) as (_ & E & _ & _ & Hpb).
    destruct (H5 _ _ Hl) as (k & q & Hk & Hq & Ha).
    { destruct Hor as [Hor|Hor]; [left; by apply Hpb|].
      right. destruct E as [E|E]; [by rewrite <- E|by rewrite E in Hor]. }
    exists k, (g k q). rewrite Hi. split; [done|]. split; [by eapply pw_fwd|]. by apply Hg.
Qed.

Lemma wait_pres g s s' :
  pw g s s' →
  (∀ j p, procs s !! j = Some p →
     (p_state (g j p) = ZOMBIE → p_state p = ZOMBIE ∧ p_parent (g j p) = p_parent p) ∧
     (p_state (g j p) = SLEEPING → p_chan (g j p) = ProcPtr j →
        p_state p = SLEEPING ∧ p_chan p = ProcPtr j)) →
  wait_inv s → wait_inv s'.
Proof.
  intros Hp Hg Hw i z j q Hi Hz Hpa Hj Hsl Hch. pw_inv Hp.
  destruct (Hg _ _ Hl0) as [Hz' _]. destruct (Hz' Hz) as [Hz1 E]. rewrite E in Hpa.
  destruct (Hg _ _ Hl) as [_ Hs']. destruct (Hs' Hsl Hch) as [Hs1 Hc1].
  by eapply (Hw i).
Qed.

(** A change that keeps pids and parents, and states up to waking up. *)
Definition gentle (p p' : proc) : Prop :=
  p_pid p' = p_pid p ∧ p_parent p' = p_parent p ∧
  ((p_state p' = p_state p ∧ (p_state p = SLEEPING → p_chan p' = p_chan p)) ∨
   (p_state p = SLEEPING ∧ p_state p' = RUNNABLE)).

Lemma gentle_inv g s s' :
  pw g s s' → nextpid s' = nextpid s → cpus s' = cpus s → initproc s' = initproc s →
  (∀ j p, procs s !! j = Some p → gentle p (g j p)) →
  proc_inv s → proc_inv s'.
Proof.
  intros Hp Hn Hc Hi Hg [Hlen Hpid Hcpu Hfam Hw]. unfold gentle in Hg. split.
  - by rewrite (pw_length _ _ _ Hp).
  - eapply pid_pres; [done..| |done]. intros j p Hj Hu. destruct (Hg _ _ Hj) as (-> & _ & Hs).
    split; [|done]. intros E. destruct Hs as [[E' _]|[E' _]]; congruence.
  - eapply cpu_pres; [done..| |done]. intros j p Hj. destruct (Hg _ _ Hj) as (_ & _ & Hs).
    destruct Hs as [[E' _]|[E' E'']]; rewrite ?E', ?E''; split; congruence.
  - eapply family_pres; [done..| |done]. intros j p Hj. destruct (Hg _ _ Hj) as (_ & -> & Hs).
    pose proof (fi_unused _ Hfam _ _ Hj). unfold alive, live, published.
    destruct Hs as [[-> _]|[-> ->]]; split_and!; auto; intuition congruence.
  - eapply wait_pres; [done| |done]. intros j p Hj. destruct (Hg _ _ Hj) as (_ & E & Hs).
    destruct Hs as [[E' Hch]|[E' E'']].
    + rewrite E'. split; [done|]. intros Hsl Hc'. rewrite Hch in Hc' by done. done.
    + rewrite E''. split; congruence.
Qed.

Lemma gentle_refl p : gentle p p.
Proof. unfold gentle. auto. Qed.

Lemma gentle_quiet f p : quiet f → gentle p (f p).
Proof. intros Hq. destruct (Hq p) as (? & ? & ? & ? & ?). unfold gentle. auto. Qed.

Lemma gentle_wake ch p : gentle p (wake_proc ch p).
Proof.
  unfold wake_proc, state_is. destruct (bool_decide_reflect (p_state p = SLEEPING)) as [E|E];
    simpl; [|apply gentle_refl].
  case_bool_decide; [|apply gentle_refl]. split; [done|]. split; [done|]. by right.
Qed.

Lemma gentle_at i f p j : (j = i → gentle p (f p)) → gentle p (at_slot i f j p).
Proof. intros Hf. unfold at_slot. case_decide; [auto|apply gentle_refl]. Qed.

Lemma gentle_upd i f s :
  (∀ p, procs s !! i = Some p → gentle p (f p)) → proc_inv s → proc_inv (upd i f s).
Proof.
  intros Hf Hinv. eapply gentle_inv; [apply pw_upd|done..| |done].
  intros j p Hj. apply gentle_at. intros ->. auto.
Qed.

Lemma on_cpu_running s cur : cpu_inv s → on_cpu s cur →
  ∃ p, procs s !! cur = Some p ∧ p_state p = RUNNING.
Proof. intros [H1 _ _] [c Hc]. eauto. Qed.

(** *** Scans of the table *)

Lemma scan_Some cond ps k i : scan cond ps k = Some i →
  (k ≤ i)%nat ∧ ∃ p, ps !! (i - k)%nat = Some p ∧ cond p = true ∧
    ∀ j q, (j < i - k)%nat → ps !! j = Some q → cond q = false.
Proof.
  revert k. induction ps as [|p ps IH]; intros k Hs; simpl in Hs; [done|].
  destruct (cond p) eqn:E.
  - injection Hs as <-. split; [done|]. rewrite Nat.sub_diag. exists p. split_and!; auto. lia.
  - apply IH in Hs as (Hle & q & Hq & Hc & Hb). split; [lia|].
    replace (i - k)%nat with (S (i - S k)) by lia. exists q. split_and!; auto.
    intros [|j] r Hj Hr; simpl in Hr; [congruence|]. apply (Hb j); [lia|done].
Qed.

Lemma scan_0_Some cond ps i : scan cond ps 0 = Some i →
  ∃ p, ps !! i = Some p ∧ cond p = true ∧
    ∀ j q, (j < i)%nat → ps !! j = Some q → cond q = false.
Proof. intros Hs%scan_Some. rewrite Nat.sub_0_r in Hs. by destruct Hs. Qed.

Lemma scan_None cond ps k : scan cond ps k = None → ∀ j q, ps !! j = Some q → cond q = false.
Proof.
  revert k. induction ps as [|p ps IH]; intros k Hs j q Hj; simpl in Hs; [done|].
  destruct (cond p) eqn:E; [done|]. destruct j as [|j]; simpl in Hj; [congruence|]. eauto.
Qed.

Lemma wait_scan_spec cur ps k hk b z : wait_scan cur ps k hk = (b, z) →
  match z with
  | Some i => b = true ∧ (k ≤ i)%nat ∧ ∃ p, ps !! (i - k)%nat = Some p ∧
      p_parent p = Some cur ∧ p_state p = ZOMBIE
  | None => ∀ j p, ps !! j = Some p → p_parent p = Some cur → b = true ∧ p_state p ≠ ZOMBIE
  end.
Proof.
  revert k hk. induction ps as [|p ps IH]; intros k hk Hs; simpl in Hs.
  { injection Hs as <- <-. intros j q Hj. by rewrite lookup_nil in Hj. }
  destruct (bool_decide_reflect (p_parent p = Some cur)) as [E|E]; simpl in Hs.
  - unfold state_is in Hs. destruct (bool_decide_reflect (p_state p = ZOMBIE)) as [Ez|Ez].
    + injection Hs as <- <-. split; [done|]. split; [done|]. rewrite Nat.sub_diag. by exists p.
    + assert (z = None → b = true) as Hb.
      { clear -Hs. revert Hs. generalize (S k). induction ps as [|q ps IH]; intros n Hs -> ; simpl in Hs.
        - by injection Hs as <-.
        - destruct (negb _); [by eapply IH|]. destruct (state_is _ _); [done|]. by eapply IH. }
      apply IH in Hs. destruct z as [i|].
      * destruct Hs as (Hb' & Hle & q & Hq & ?). split; [done|]. split; [lia|].
        exists q. by replace (i - k)%nat with (S (i - S k)) by lia.
      * intros [|j] q Hj Hq; simpl in Hj; [injection Hj as <-; auto|eauto].
  - apply IH in Hs. destruct z as [i|].
    + destruct Hs as (Hb' & Hle & q & Hq & ?). split; [done|]. split; [lia|].
      exists q. by replace (i - k)%nat with (S (i - S k)) by lia.
    + intros [|j] q Hj Hq; simpl in Hj; [injection Hj as <-; done|eauto].
Qed.

(** *** The steps that change the shape of the table *)

Lemma at_same i f p : at_slot i f i p = f p.
Proof. unfold at_slot. by rewrite decide_True. Qed.

Lemma pw_ne i f s s' k : pw (at_slot i f) s s' → k ≠ i → procs s' !! k = procs s !! k.
Proof.
  intros Hp Hk. rewrite Hp. destruct (procs s !! k); [|done]. simpl.
  unfold at_slot. by rewrite decide_False by done.
Qed.

Lemma alloc_inv s i s' : proc_inv s → alloc_slot s = Ok (Some i, s') → proc_inv s'.
Proof.
  intros Hinv Ha. unfold alloc_slot in Ha. destruct (scan _ _ 0) as [i'|] eqn:Es; [|done].
  destruct (Z.eqb_spec (nextpid s) INT_MAX) as [|Hmax]; [done|]. injection Ha as -> <-.
  apply scan_0_Some in Es as (p & Hi & Hu & _). apply bool_decide_eq_true in Hu.
  destruct Hinv as [Hlen [Hn Hr Huq] Hcpu Hfam Hw].
  set (f := set_pid (nextpid s) ∘ set_state EMBRYO). set (s1 := upd i f s).
  assert (pw (at_slot i f) s (with_nextpid (nextpid s + 1) s1)) as Hp by apply pw_upd.
  split.
  - by rewrite (pw_length _ _ _ Hp).
  - split; change (nextpid (with_nextpid (nextpid s + 1) s1)) with (nextpid s + 1).
    + lia.
    + intros j q Hj Hq. pw_inv Hp. unfold at_slot in *. case_decide; [simpl; lia|].
      specialize (Hr _ _ Hl Hq). lia.
    + intros j1 j2 q1 q2 Hj1 Hj2 Hq1 Hq2 E. pw_inv Hp. unfold at_slot in *.
      repeat case_decide; subst; simpl in *; auto.
      * specialize (Hr _ _ Hl0 Hq1). lia.
      * specialize (Hr _ _ Hl Hq2). lia.
      * eauto.
  - eapply cpu_pres; [exact Hp|done| |done]. intros j q Hj. unfold at_slot.
    case_decide; [|done]. subst. simpl. split; [done|]. congruence.
  - eapply family_pres; [exact Hp|done| |done]. intros j q Hj. unfold at_slot.
    pose proof (fi_unused _ Hfam _ _ Hj). case_decide; [|by split_and!; auto].
    subst. assert (q = p) as -> by congruence. unfold alive, live, published. simpl.
    split_and!; auto; intuition congruence.
  - eapply wait_pres; [exact Hp| |done]. intros j q Hj. unfold at_slot. case_decide; [|done].
    simpl. split; done.
Qed.

Lemma abandon_inv s i p : proc_inv s → embryo s i p → p_parent p = None → initproc s ≠ Some i →
  proc_inv (upd i (set_state UNUSED) s).
Proof.
  intros [Hlen Hpid Hcpu Hfam Hw] [Hi He] Hpa Hni.
  pose proof (pw_upd i (set_state UNUSED) s) as Hp. split.
  - by rewrite (pw_length _ _ _ Hp).
  - eapply pid_pres; [exact Hp|done| |done]. intros j q Hj. unfold at_slot. by case_decide.
  - eapply cpu_pres; [exact Hp|done| |done]. intros j q Hj. unfold at_slot.
    case_decide; [|done]. subst. simpl. split; [done|]. congruence.
  - eapply family_pres; [exact Hp|done| |done]. intros j q Hj. unfold at_slot.
    pose proof (fi_unused _ Hfam _ _ Hj). case_decide; [|by split_and!; auto].
    subst. assert (q = p) as -> by congruence. unfold alive, live, published. simpl.
    split_and!; auto; intuition congruence.
  - eapply wait_pres; [exact Hp| |done]. intros j q Hj. unfold at_slot. by case_decide.
Qed.

Lemma setinit_inv s i p : proc_inv s → embryo s i p → p_parent p = None → initproc s = None →
  proc_inv (with_initproc (Some i) s).
Proof.
  intros [Hlen Hpid Hcpu [H1 H2 H3 H4 H5] Hw] [Hi He] Hpa Hni.
  assert (∀ j q, procs s !! j = Some q → published q ∨ p_parent q ≠ None → False) as Hno.
  { intros j q Hj Hq. destruct (H5 _ _ Hj Hq) as (k & ? & Hk & _). congruence. }
  split; [done| | | |done].
  - destruct Hpid as [Hn Hr Huq]. by split.
  - destruct Hcpu as [Hc Hr Hij]. by split.
  - split; [done|done| | |].
    + intros j q Hj Hq. destruct (Hno _ _ Hj). auto.
    + intros k [= <-]. exists p. unfold live. rewrite He. auto.
    + intros j q Hj Hq. destruct (Hno _ _ Hj Hq).
Qed.

Lemma parent_inv s cur i p : proc_inv s → on_cpu s cur → embryo s i p → initproc s ≠ Some i →
  proc_inv (upd i (set_parent (Some cur)) s).
Proof.
  intros [Hlen Hpid Hcpu Hfam Hw] Hon [Hi He] Hni.
  destruct (on_cpu_running _ _ Hcpu Hon) as (pc & Hc & Hcr).
  pose proof (pw_upd i (set_parent (Some cur)) s) as Hp.
  assert (cur ≠ i) as Hne by congruence. split.
  - by rewrite (pw_length _ _ _ Hp).
  - eapply pid_pres; [exact Hp|done| |done]. intros j q Hj. unfold at_slot. by case_decide.
  - eapply cpu_pres; [exact Hp|done| |done]. intros j q Hj. unfold at_slot. by case_decide.
  - destruct Hfam as [H1 H2 H3 H4 H5]. split.
    + intros j q Hj Hu. pw_inv Hp. unfold at_slot in *. case_decide; [|eauto].
      subst. simpl in *. congruence.
    + intros j q k Hj Hk. pw_inv Hp. unfold at_slot in Hk. case_decide.
      * subst. simpl in Hk. injection Hk as <-. split; [done|].
        exists pc. rewrite (pw_ne _ _ _ _ _ Hp) by done. unfold alive, published. rewrite Hcr. auto.
      * destruct (H2 _ _ _ Hl Hk) as (Hd & r & Hr & Ha). split; [done|].
        exists (at_slot i (set_parent (Some cur)) k r). split; [by eapply (pw_fwd _ _ _ _ _ Hp)|].
        unfold at_slot. by case_decide.
    + intros j q Hj Hq Hni'. pw_inv Hp. unfold at_slot in *. case_decide; [done|eauto].
    + intros k Hk. destruct (H4 _ Hk) as (r & Hr & Ha). exists r. split; [|done].
      rewrite (pw_ne _ _ _ _ _ Hp) by (intros ->; done). done.
    + intros j q Hj Hq. destruct (H5 _ _ Hc) as (k & r & Hk & Hr & Ha).
      { left. unfold published. by rewrite Hcr. }
      exists k, r. rewrite (pw_ne _ _ _ _ _ Hp) by (intros ->; done). done.
  - eapply wait_pres; [exact Hp| |done]. intros j q Hj. unfold at_slot. case_decide; [|done].
    subst. simpl. assert (q = p) as -> by congruence. rewrite He. done.
Qed.

Lemma publish_inv s i p : proc_inv s → embryo s i p →
  (p_parent p ≠ None ∨ initproc s = Some i) → proc_inv (upd i (set_state RUNNABLE) s).
Proof.
  intros [Hlen Hpid Hcpu Hfam Hw] [Hi He] Hor.
  pose proof (pw_upd i (set_state RUNNABLE) s) as Hp.
  assert (∀ j q, procs s !! j = Some q → alive q → alive (at_slot i (set_state RUNNABLE) j q)) as Hal.
  { intros j q Hj Ha. unfold at_slot. by case_decide. }
  split.
  - by rewrite (pw_length _ _ _ Hp).
  - eapply pid_pres; [exact Hp|done| |done]. intros j q Hj. unfold at_slot. case_decide; [|done].
    subst. assert (q = p) as -> by congruence. by rewrite He.
  - eapply cpu_pres; [exact Hp|done| |done]. intros j q Hj. unfold at_slot. case_decide; [|done].
    subst. simpl. split; [done|]. congruence.
  - destruct Hfam as [H1 H2 H3 H4 H5]. split.
    + intros j q Hj Hu. pw_inv Hp. unfold at_slot in *. case_decide; [done|eauto].
    + intros j q k Hj Hk. pw_inv Hp.
      assert (p_parent p0 = Some k) as Hk' by (unfold at_slot in Hk; by case_decide).
      destruct (H2 _ _ _ Hl Hk') as (Hd & r & Hr & Ha). split; [done|].
      eexists. split; [by eapply (pw_fwd _ _ _ _ _ Hp)|auto].
    + intros j q Hj Hq Hni. pw_inv Hp. unfold at_slot in *. case_decide; [|eauto].
      subst. simpl. assert (p0 = p) as -> by congruence. destruct Hor; [done|].
      by change (initproc s ≠ Some i) in Hni.
    + intros k Hk. destruct (H4 _ Hk) as (r & Hr & Ha & Hpa). eexists.
      split; [by eapply (pw_fwd _ _ _ _ _ Hp)|]. unfold at_slot. by case_decide.
    + intros j q Hj Hq. pw_inv Hp. unfold at_slot in Hq. case_decide.
      * subst. assert (p0 = p) as -> by congruence. destruct Hor as [Hor|Hor].
        -- destruct (H5 _ _ Hl) as (k & r & Hk & Hr & Ha); [auto|].
           eexists k, _. split; [done|]. split; [by eapply (pw_fwd _ _ _ _ _ Hp)|auto].
        -- eexists i, _. split; [done|]. split; [by eapply (pw_fwd _ _ _ _ _ Hp)|].
           unfold at_slot. by rewrite decide_True.
      * destruct (H5 _ _ Hl Hq) as (k & r & Hk & Hr & Ha).
        eexists k, _. split; [done|]. split; [by eapply (pw_fwd _ _ _ _ _ Hp)|auto].
  - eapply wait_pres; [exact Hp| |done]. intros j q Hj. unfold at_slot. by case_decide.
Qed.

Lemma leave_cpu_lookup cur cs c o :
  leave_cpu cur cs !! c = Some (Some o) ↔ cs !! c = Some (Some o) ∧ o ≠ cur.
Proof.
  unfold leave_cpu. rewrite list_lookup_fmap. destruct (cs !! c) as [[x|]|]; simpl; [|naive_solver..].
  case_bool_decide; naive_solver.
Qed.

(** A running process gives up its CPU and is RUNNING no more. *)
Lemma cpu_leave g cur s s' :
  pw g s s' → cpus s' = leave_cpu cur (cpus s) →
  (∀ j p, procs s !! j = Some p → j ≠ cur → p_state (g j p) = RUNNING ↔ p_state p = RUNNING) →
  (∀ p, procs s !! cur = Some p → p_state (g cur p) ≠ RUNNING) →
  cpu_inv s → cpu_inv s'.
Proof.
  intros Hp Hc Hg Hcur [H1 H2 H3]. split.
  - intros c i Hi. rewrite Hc in Hi. apply leave_cpu_lookup in Hi as [Hi Hne].
    destruct (H1 _ _ Hi) as (p & Hl & Hr). eexists. split; [by eapply pw_fwd|]. by apply Hg.
  - intros i p Hi Hr. pw_inv Hp. destruct (decide (i = cur)) as [->|Hne]; [by destruct (Hcur _ Hl)|].
    apply Hg in Hr; [|done..]. destruct (H2 _ _ Hl Hr) as [c Hic].
    exists c. rewrite Hc. by apply leave_cpu_lookup.
  - intros c c' i. rewrite Hc. intros [Hi _]%leave_cpu_lookup [Hi' _]%leave_cpu_lookup. eauto.
Qed.

(** The running process stops in a state [st] in which it is still alive. *)
Lemma stop_inv f cur s s' :
  proc_inv s → on_cpu s cur → pw (at_slot cur f) s s' →
  nextpid s' = nextpid s → initproc s' = initproc s → cpus s' = leave_cpu cur (cpus s) →
  (∀ p, p_pid (f p) = p_pid p ∧ p_parent (f p) = p_parent p ∧
     (p_state (f p) = RUNNABLE ∨ p_state (f p) = SLEEPING)) →
  (∀ p, procs s !! cur = Some p → p_state (f p) = SLEEPING → p_chan (f p) = ProcPtr cur →
     ∀ i z, procs s !! i = Some z → p_parent z = Some cur → p_state z ≠ ZOMBIE) →
  proc_inv s'.
Proof.
  intros [Hlen Hpid Hcpu Hfam Hw] Hon Hp Hn Hi Hc Hf Hz.
  destruct (on_cpu_running _ _ Hcpu Hon) as (pc & Hpc & Hrun). split.
  - by rewrite (pw_length _ _ _ Hp).
  - eapply pid_pres; [exact Hp|done| |done]. intros j q Hj. unfold at_slot. case_decide; [|done].
    subst. assert (q = pc) as -> by congruence. destruct (Hf pc) as (-> & _ & _). by rewrite Hrun.
  - eapply cpu_leave; [exact Hp|done| | |done].
    + intros j q Hj Hne. unfold at_slot. by rewrite decide_False.
    + intros q Hq. rewrite at_same. destruct (Hf q) as (_ & _ & [->| ->]); done.
  - eapply family_pres; [exact Hp|done| |done]. intros j q Hj. unfold at_slot.
    pose proof (fi_unused _ Hfam _ _ Hj). case_decide; [|by split_and!; auto].
    subst. assert (q = pc) as -> by congruence. destruct (Hf pc) as (_ & -> & Hst).
    unfold alive, live, published. rewrite Hrun.
    destruct Hst as [->| ->]; split_and!; auto; intuition congruence.
  - intros i z j q Hzi Hzs Hzp Hq Hqs Hqc. pw_inv Hp.
    assert (p_state p0 = ZOMBIE ∧ p_parent p0 = Some j) as [Hz1 Hz2].
    { unfold at_slot in Hzs, Hzp. case_decide; [|done]. subst.
      destruct (Hf p0) as (_ & _ & [E|E]); rewrite E in Hzs; done. }
    destruct (decide (j = cur)) as [->|Hne].
    + rewrite at_same in Hqs, Hqc. exact (Hz p Hl Hqs Hqc _ _ Hl0 Hz2 Hz1).
    + unfold at_slot in Hqs, Hqc. rewrite decide_False in Hqs, Hqc by done. exact (Hw _ _ _ _ Hl0 Hz1 Hz2 Hl Hqs Hqc).
Qed.

Lemma sched_Ok cur s s' : sched cur s = Ok (tt, s') →
  s' = with_cpus (leave_cpu cur (cpus s)) s.
Proof. unfold sched. destruct (state_is _ _); [done|]. by intros [= <-]. Qed.

Lemma yield_inv s cur s' : proc_inv s → on_cpu s cur → yield cur s = Ok (tt, s') → proc_inv s'.
Proof.
  intros Hinv Hon Hy. unfold yield in Hy. minv. apply sched_Ok in Hy as ->.
  eapply (stop_inv (set_state RUNNABLE)); [exact Hinv|exact Hon|apply (pw_upd cur)|done..| |].
  - intros p. auto.
  - done.
Qed.

Lemma sleep_enter_inv s cur chan s' : proc_inv s → on_cpu s cur →
  (chan = ProcPtr cur → ∀ i z, procs s !! i = Some z → p_parent z = Some cur → p_state z ≠ ZOMBIE) →
  sleep_enter cur chan s = Ok (tt, s') → proc_inv s'.
Proof.
  intros Hinv Hon Hz Hs. unfold sleep_enter in Hs. minv. apply sched_Ok in Hs as ->.
  eapply (stop_inv (set_state SLEEPING ∘ set_chan chan)); [exact Hinv|exact Hon| |done..| |].
  - intros j. pose proof (pw_upd cur (set_chan chan) s) as H1.
    pose proof (pw_upd cur (set_state SLEEPING) (upd cur (set_chan chan) s)) as H2.
    etransitivity; [exact (pw_trans _ _ _ _ _ H1 H2 j)|].
    destruct (procs s !! j); [|done]. simpl. f_equal.
    unfold at_slot. by case_decide.
  - intros p. auto.
  - intros p Hp _ Hch. exact (Hz Hch).
Qed.

Lemma rest_inv s k : proc_inv s → proc_inv (with_rest k s).
Proof.
  intros Hinv. eapply (gentle_inv _ s); [by apply pw_id|done..| |done]. intros. apply gentle_refl.
Qed.

Lemma reap_inv s i p : proc_inv s → procs s !! i = Some p → p_state p = ZOMBIE →
  proc_inv (upd i reap s).
Proof.
  intros [Hlen Hpid Hcpu Hfam Hw] Hi Hz. pose proof (pw_upd i reap s) as Hp. split.
  - by rewrite (pw_length _ _ _ Hp).
  - eapply pid_pres; [exact Hp|done| |done]. intros j q Hj. unfold at_slot. by case_decide.
  - eapply cpu_pres; [exact Hp|done| |done]. intros j q Hj. unfold at_slot.
    case_decide; [|done]. subst. simpl. split; [done|]. congruence.
  - eapply family_pres; [exact Hp|done| |done]. intros j q Hj. unfold at_slot.
    pose proof (fi_unused _ Hfam _ _ Hj). case_decide; [|by split_and!; auto].
    subst. assert (q = p) as -> by congruence. unfold alive, live, published. simpl.
    split_and!; auto; intuition congruence.
  - eapply wait_pres; [exact Hp| |done]. intros j q Hj. unfold at_slot. by case_decide.
Qed.

Lemma wait_round_inv s cur r s' : proc_inv s → on_cpu s cur →
  wait_round cur s = Ok (r, s') → proc_inv s'.
Proof.
  intros Hinv Hon Hw. unfold wait_round in Hw. kinv.
  destruct (wait_scan cur (procs s) 0 false) as [hk z] eqn:Es. apply wait_scan_spec in Es.
  destruct z as [i|]; kinv.
  - destruct Es as (_ & _ & p & Hi & _ & Hz). rewrite Nat.sub_0_r in Hi.
    pose proof (list_lookup_total_correct _ _ _ Hi) as Ep.
    apply (reap_inv _ i (set_kstack 0 p)); [|by simpl; rewrite list_lookup_alter_eq, Hi|done].
    apply rest_inv, gentle_upd; [|by apply rest_inv]. intros q _. by apply gentle_quiet.
  - destruct (negb hk || _); minv; [done|].
    eapply sleep_enter_inv; [done|done| |done]. intros _ i z' Hi Hpa. by eapply Es.
Qed.

Lemma dispatch_inv s c i b s' : proc_inv s → cpus s !! c = Some None →
  dispatch c i s = Ok (b, s') → proc_inv s'.
Proof.
  intros Hinv Hc Hd. unfold dispatch in Hd. kinv. unfold state_is in Hd.
  destruct (bool_decide_reflect (p_state (procs s !!! i) = RUNNABLE)) as [Er|Er]; simpl in Hd; kinv; [|done].
  assert (∃ p, procs s !! i = Some p ∧ p_state p = RUNNABLE) as (p & Hi & Hr).
  { rewrite list_lookup_total_alt in Er. destruct (procs s !! i); [eauto|]. by cbv in Er. }
  set (s1 := with_rest _ _). destruct Hinv as [Hlen Hpid Hcpu Hfam Hw].
  assert (pw (at_slot i (set_state RUNNING)) s (upd i (set_state RUNNING) s1)) as Hp
    by (intros j; apply (pw_upd i (set_state RUNNING) s1 j)). split.
  - by rewrite (pw_length _ _ _ Hp).
  - eapply pid_pres; [exact Hp|done| |done]. intros j q Hj. unfold at_slot. case_decide; [|done].
    subst. assert (q = p) as -> by congruence. by rewrite Hr.
  - destruct Hcpu as [H1 H2 H3]. split; unfold on_cpu; simpl.
    + intros c' i' Hc'. apply list_lookup_insert_Some in Hc' as [(<- & [= <-] & _)|[Hne Hc']].
      * rewrite list_lookup_alter_eq, Hi. by eexists.
      * destruct (H1 _ _ Hc') as (q & Hq & Hrq).
        eexists. split; [apply (pw_fwd _ _ _ _ _ Hp Hq)|]. unfold at_slot. by case_decide.
    + intros i' q Hq Hrq. change (procs (upd i (set_state RUNNING) s1) !! i' = Some q) in Hq.
      pw_inv Hp. unfold at_slot in Hrq. case_decide.
      * subst. exists c. apply list_lookup_insert_eq. by eapply lookup_lt_Some.
      * destruct (H2 _ _ Hl Hrq) as [c' Hc']. exists c'. rewrite list_lookup_insert_ne; [done|].
        intros ->. congruence.
    + assert (∀ c', cpus s !! c' = Some (Some i) → False) as Hno.
      { intros c' Hc'. destruct (H1 _ _ Hc') as (q & Hq & Hrq). congruence. }
      intros c1 c2 i' [(<- & [= <-] & _)|[Hn1 Hc1]]%list_lookup_insert_Some
        [(<- & E' & _)|[Hn2 Hc2]]%list_lookup_insert_Some; try done; eauto.
      * by destruct (Hno _ Hc2).
      * injection E' as <-. by destruct (Hno _ Hc1).
  - eapply family_pres; [exact Hp|done| |done]. intros j q Hj. unfold at_slot.
    pose proof (fi_unused _ Hfam _ _ Hj). case_decide; [|by split_and!; auto].
    subst. assert (q = p) as -> by congruence. unfold alive, live, published. simpl. rewrite Hr.
    split_and!; auto; intuition congruence.
  - eapply wait_pres; [exact Hp| |done]. intros j q Hj. unfold at_slot. by case_decide.
Qed.

(** *** [exit] *)

Lemma wake_parent ch p : p_parent (wake_proc ch p) = p_parent p ∧ p_pid (wake_proc ch p) = p_pid p.
Proof. unfold wake_proc. by destruct (_ && _). Qed.

Lemma wake_zombie ch p : state_is ZOMBIE (wake_proc ch p) = state_is ZOMBIE p.
Proof.
  unfold wake_proc, state_is. destruct (bool_decide_reflect (p_state p = SLEEPING)) as [E|E]; simpl; [|done].
  destruct (bool_decide (p_chan p = ch)); [|done]. simpl. by rewrite E.
Qed.

Lemma wake_idem ch p : wake_proc ch (wake_proc ch p) = wake_proc ch p.
Proof.
  unfold wake_proc at 2 3. unfold state_is. destruct (bool_decide_reflect (p_state p = SLEEPING)) as [E|E]; simpl.
  - case_bool_decide as Ec; [done|]. unfold wake_proc, state_is.
    rewrite (bool_decide_eq_false_2 _ Ec), andb_false_r. done.
  - unfold wake_proc, state_is. by rewrite (bool_decide_eq_false_2 _ E).
Qed.

(** What the reparenting loop does to one slot; [b] says whether it found a
    zombie child and woke init. *)
Definition adopt (cur : nat) (init : option nat) (is_ : list nat) (b : bool) (j : nat) (p : proc) : proc :=
  let p1 := if bool_decide (j ∈ is_ ∧ p_parent p = Some cur) then set_parent init p else p in
  if b then wake_proc (ptr init) p1 else p1.

Lemma wake_set_parent ch par p : wake_proc ch (set_parent par p) = set_parent par (wake_proc ch p).
Proof. unfold wake_proc, state_is. simpl. by destruct (_ && _). Qed.

Lemma adopt_wake cur init is_ b j p :
  wake_proc (ptr init) (adopt cur init is_ b j p) = adopt cur init is_ true j p.
Proof. unfold adopt. destruct b; [apply wake_idem|done]. Qed.

Lemma adopt_woken cur init is_ b j p :
  adopt cur init is_ b j (wake_proc (ptr init) p) = adopt cur init is_ true j p.
Proof.
  unfold adopt. destruct (wake_parent (ptr init) p) as [-> _].
  case_bool_decide; [rewrite <- wake_set_parent|]; destruct b; auto using wake_idem.
Qed.

(** A slot visited by the loop is no child of [cur] afterwards. *)
Lemma adopt_cons cur init i is_ b j p : init ≠ Some cur →
  adopt cur init is_ b j
    (at_slot i (λ q, if bool_decide (p_parent q = Some cur) then set_parent init q else q) j p) =
  adopt cur init (i :: is_) b j p.
Proof.
  intros Hne. unfold adopt, at_slot. destruct (decide (j = i)) as [->|Hji].
  - destruct (bool_decide_reflect (p_parent p = Some cur)) as [Hp|Hp].
    + rewrite (bool_decide_eq_false_2 (i ∈ is_ ∧ p_parent (set_parent init p) = Some cur)) by (simpl; tauto).
      by rewrite bool_decide_eq_true_2 by (split; [left|done]).
    + rewrite !bool_decide_eq_false_2 by tauto. done.
  - rewrite (bool_decide_ext (j ∈ i :: is_ ∧ p_parent p = Some cur) (j ∈ is_ ∧ p_parent p = Some cur)); [done|].
    set_solver.
Qed.

Lemma reparent_spec cur init is_ ps : init ≠ Some cur →
  (∀ i, i ∈ is_ → (i < length ps)%nat) →
  ∃ b, (∀ j, reparent cur init is_ ps !! j = adopt cur init is_ b j <$> ps !! j) ∧
    (∀ i p, i ∈ is_ → ps !! i = Some p → p_parent p = Some cur → p_state p = ZOMBIE → b = true).
Proof.
  intros Hne. revert ps. induction is_ as [|i is_ IH]; intros ps Hlt.
  { exists false. split; [|set_solver]. intros j. simpl.
    by destruct (ps !! j). }
  destruct (lookup_lt_is_Some_2 ps i) as [p Hi]; [apply Hlt; set_solver|].
  cbn [reparent]. rewrite (list_lookup_total_correct _ _ _ Hi).
  set (mv := λ q, if bool_decide (p_parent q = Some cur) then set_parent init q else q).
  set (ps1 := if bool_decide (p_parent p = Some cur) then alter (set_parent init) i ps else ps).
  assert (∀ j, ps1 !! j = at_slot i mv j <$> ps !! j) as Hps1.
  { intros j. unfold ps1, at_slot, mv. destruct (decide (j = i)) as [->|Hji].
    - rewrite Hi. simpl. case_bool_decide; [by rewrite list_lookup_alter_eq, Hi|done].
    - case_bool_decide; rewrite ?list_lookup_alter_ne by done; by destruct (ps !! j). }
  set (z := bool_decide (p_parent p = Some cur) && state_is ZOMBIE p).
  set (ps2 := if z then wakeup1 (ptr init) ps1 else ps1).
  assert ((if bool_decide (p_parent p = Some cur)
     then if state_is ZOMBIE p then wakeup1 (ptr init) (alter (set_parent init) i ps)
          else alter (set_parent init) i ps
     else ps) = ps2) as ->.
  { unfold ps2, z, ps1. destruct (bool_decide _), (state_is _ _); done. }
  assert (length ps2 = length ps) as Hlen.
  { unfold ps2, ps1, wakeup1. destruct z, (bool_decide _); rewrite ?length_fmap, ?length_alter; done. }
  destruct (IH ps2) as (b & Hb1 & Hb2); [intros k Hk; rewrite Hlen; apply Hlt; set_solver|].
  exists (z || b). split.
  - intros j. rewrite Hb1. unfold ps2. destruct z; simpl.
    + unfold wakeup1. rewrite list_lookup_fmap, Hps1. destruct (ps !! j) as [q|]; [|done].
      simpl. f_equal. rewrite adopt_woken. by apply adopt_cons.
    + rewrite Hps1. destruct (ps !! j) as [q|]; [|done]. simpl. f_equal. by apply adopt_cons.
  - intros k q Hk Hq Hpa Hz. destruct (decide (k = i)) as [->|Hki].
    + assert (q = p) as -> by congruence. unfold z, state_is.
      by rewrite !bool_decide_eq_true_2.
    + destruct z; [done|]. simpl. apply (Hb2 k q); [set_solver| |done..].
      unfold ps2. rewrite Hps1, Hq. simpl. unfold at_slot. by rewrite decide_False.
Qed.

Lemma adopt_facts cur init is_ b j p :
  p_pid (adopt cur init is_ b j p) = p_pid p ∧
  (p_state (adopt cur init is_ b j p) = p_state p ∨
   p_state p = SLEEPING ∧ p_state (adopt cur init is_ b j p) = RUNNABLE) ∧
  p_chan (adopt cur init is_ b j p) = p_chan p ∧
  (p_parent (adopt cur init is_ b j p) = p_parent p ∨
   p_parent p = Some cur ∧ p_parent (adopt cur init is_ b j p) = init).
Proof.
  unfold adopt. set (p1 := if bool_decide _ then _ else _).
  assert (p_pid p1 = p_pid p ∧ p_state p1 = p_state p ∧ p_chan p1 = p_chan p ∧
    (p_parent p1 = p_parent p ∨ p_parent p = Some cur ∧ p_parent p1 = init)) as (E1 & E2 & E3 & E4).
  { unfold p1. case_bool_decide; [|auto]. simpl. naive_solver. }
  clearbody p1. rewrite <- E1, <- E2, <- E3. destruct b; [|auto].
  destruct (wake_parent (ptr init) p1) as [-> ->].
  unfold wake_proc, state_is. destruct (bool_decide_reflect (p_state p1 = SLEEPING)); simpl; [|auto].
  destruct (bool_decide (p_chan p1 = ptr init)); simpl; auto.
Qed.

(** One slot over the critical section of [exit]. *)
Definition exit_slot (is_ : list nat) (cur : nat) (ch : vptr) (init : option nat) (b : bool)
    (j : nat) (p : proc) : proc :=
  at_slot cur (set_state ZOMBIE) j (adopt cur init is_ b j (wake_proc ch p)).

Lemma exit_pw is_ s cur s' : (∀ i, i ∈ is_ ↔ (i < length (procs s))%nat) → initproc s ≠ Some cur →
  let w := wakeup (ptr (p_parent (procs s !!! cur))) s in
  sched cur (upd cur (set_state ZOMBIE)
    (with_procs (reparent cur (initproc w) is_ (procs w)) w)) = Ok (tt, s') →
  ∃ b, pw (exit_slot is_ cur (ptr (p_parent (procs s !!! cur))) (initproc s) b) s s' ∧
    cpus s' = leave_cpu cur (cpus s) ∧ initproc s' = initproc s ∧ nextpid s' = nextpid s ∧
    (∀ i p, procs s !! i = Some p → p_parent p = Some cur → p_state p = ZOMBIE → b = true).
Proof.
  intros Hlen Hni w He. apply sched_Ok in He. unfold w in *. clear w.
  set (ch := ptr (p_parent (procs s !!! cur))) in *.
  destruct (reparent_spec cur (initproc s) is_ (procs (wakeup ch s))) as (b & Hb1 & Hb2); [done| |].
  { intros i Hi%Hlen. unfold wakeup, wakeup1. simpl. by rewrite length_fmap. }
  exists b. subst s'. split_and!; [|done..|].
  - intros j. etransitivity; [apply (pw_upd cur (set_state ZOMBIE) _ j)|].
    cbn [procs with_procs with_cpus]. change (initproc (wakeup ch s)) with (initproc s). rewrite Hb1.
    unfold wakeup, wakeup1. cbn [procs with_procs]. rewrite list_lookup_fmap.
    by destruct (procs s !! j).
  - intros i p Hi Hpa Hz. apply (Hb2 i (wake_proc ch p)).
    + apply Hlen. by eapply lookup_lt_Some.
    + unfold wakeup, wakeup1. simpl. by rewrite list_lookup_fmap, Hi.
    + by destruct (wake_parent ch p) as [-> _].
    + pose proof (wake_zombie ch p) as Ez. unfold state_is in Ez.
      rewrite (bool_decide_eq_true_2 _ Hz) in Ez. by apply bool_decide_eq_true in Ez.
Qed.

Lemma exit_final_pw s cur s' : length (procs s) = NPROC → initproc s ≠ Some cur →
  exit_final cur s = Ok (tt, s') →
  ∃ is_ b, pw (exit_slot is_ cur (ptr (p_parent (procs s !!! cur))) (initproc s) b) s s' ∧
    (∀ i, i ∈ is_ ↔ (i < NPROC)%nat) ∧
    cpus s' = leave_cpu cur (cpus s) ∧ initproc s' = initproc s ∧ nextpid s' = nextpid s ∧
    (∀ i p, procs s !! i = Some p → p_parent p = Some cur → p_state p = ZOMBIE → b = true).
Proof.
  intros Hlen Hni. unfold exit_final.
  assert (∀ i, i ∈ seq 0 NPROC ↔ (i < NPROC)%nat) as Hseq by (intros i; rewrite elem_of_seq; lia).
  generalize dependent (seq 0 NPROC). intros is_ Hseq He. exists is_.
  edestruct (exit_pw is_ s cur s') as (b & ?); [by rewrite Hlen|done|exact He|].
  exists b. tauto.
Qed.

(** What the other slots and the exiting one look like afterwards. *)
Lemma exit_slot_other is_ cur ch init b j p : j ≠ cur →
  let p' := exit_slot is_ cur ch init b j p in
  p_pid p' = p_pid p ∧ p_chan p' = p_chan p ∧
  (p_state p' = p_state p ∨ p_state p = SLEEPING ∧ p_state p' = RUNNABLE) ∧
  (p_parent p' = p_parent p ∨ p_parent p = Some cur ∧ p_parent p' = init) ∧
  (p_state p' = SLEEPING → p_chan p ≠ ch ∧ (b = true → p_chan p ≠ ptr init)).
Proof.
  intros Hj p'. unfold p', exit_slot, at_slot. rewrite decide_False by done.
  destruct (adopt_facts cur init is_ b j (wake_proc ch p)) as (E1 & E2 & E3 & E4).
  destruct (wake_parent ch p) as [Ep Epid]. rewrite Ep in E4. rewrite E1, Epid, E3.
  pose proof (gentle_wake ch p) as (_ & _ & Hg).
  assert (p_chan (wake_proc ch p) = p_chan p) as Ec by (unfold wake_proc; by destruct (_ && _)).
  split_and!; [done..| |done|].
  - destruct E2 as [->|[E2 ->]]; [naive_solver|]. destruct Hg as [[<- _]|[? Hg]]; [auto|congruence].
  - intros Hs. split.
    + intros Hc. destruct E2 as [E2|[E2 E2']]; [|congruence]. rewrite E2 in Hs.
      unfold wake_proc, state_is in Hs. rewrite (bool_decide_eq_true_2 _ Hc), andb_true_r in Hs.
      destruct (bool_decide_reflect (p_state p = SLEEPING)); simpl in Hs; congruence.
    + intros -> Hc. unfold adopt in Hs. set (p1 := if bool_decide _ then _ else _) in Hs.
      assert (p_chan p1 = ptr init) as Hc1 by (unfold p1; case_bool_decide; simpl; congruence).
      unfold wake_proc in Hs. unfold state_is in Hs.
      rewrite (bool_decide_eq_true_2 _ Hc1), andb_true_r in Hs.
      destruct (bool_decide_reflect (p_state p1 = SLEEPING)); simpl in Hs; congruence.
Qed.

Lemma exit_slot_self is_ cur ch init b p : p_parent p ≠ Some cur →
  let p' := exit_slot is_ cur ch init b cur p in
  p_pid p' = p_pid p ∧ p_state p' = ZOMBIE ∧ p_parent p' = p_parent p.
Proof.
  intros Hp p'. unfold p', exit_slot. rewrite at_same.
  destruct (adopt_facts cur init is_ b cur (wake_proc ch p)) as (E1 & _ & _ & E4).
  destruct (wake_parent ch p) as [Ep Epid]. rewrite Ep in E4. simpl. rewrite E1, Epid.
  split_and!; [done..|]. naive_solver.
Qed.

Lemma exit_alive is_ cur ch init b j q : j ≠ cur → alive q → alive (exit_slot is_ cur ch init b j q).
Proof.
  intros Hne Hq. destruct (exit_slot_other is_ cur ch init b j q Hne) as (_ & _ & Hs & _).
  unfold alive, published in *. destruct Hs as [->|[_ ->]]; intuition congruence.
Qed.

Lemma exit_parent is_ cur ch init b j p : j ∈ is_ →
  p_parent (exit_slot is_ cur ch init b j p) =
    if decide (p_parent p = Some cur) then init else p_parent p.
Proof.
  intros Hj. unfold exit_slot, adopt.
  transitivity (p_parent (if bool_decide (j ∈ is_ ∧ p_parent (wake_proc ch p) = Some cur)
    then set_parent init (wake_proc ch p) else wake_proc ch p)).
  - set (p1 := if bool_decide _ then _ else _). clearbody p1.
    destruct (wake_parent (ptr init) p1) as [E _]. unfold at_slot. case_decide; by destruct b.
  - destruct (wake_parent ch p) as [-> _]. case_bool_decide; case_decide; simpl; try tauto.
    by destruct (wake_parent ch p) as [-> _].
Qed.

Lemma exit_family is_ s cur s' pc b : family_inv s →
  procs s !! cur = Some pc → p_state pc = RUNNING → initproc s ≠ Some cur → initproc s' = initproc s →
  (∀ i p, procs s !! i = Some p → i ∈ is_) →
  pw (exit_slot is_ cur (ptr (p_parent pc)) (initproc s) b) s s' → family_inv s'.
Proof.
  intros [H1 H2 H3 H4 H5] Hpc Hrun Hni Hi His Hp. set (ch := ptr (p_parent pc)) in *.
  destruct (H5 _ _ Hpc) as (k & pk & Hk & Hpk & Hak); [left; unfold published; by rewrite Hrun|].
  assert (k ≠ cur) as Hkc by congruence.
  assert (p_parent pc ≠ Some cur) as Hself.
  { intros E. by destruct (H2 _ _ _ Hpc E). }
  destruct (exit_slot_self is_ cur ch (initproc s) b pc Hself) as (_ & Es2 & Es3).
  assert (∃ q, procs s' !! k = Some q ∧ alive q) as Hk'.
  { eexists. split; [eapply pw_fwd; [exact Hp|exact Hpk]|by apply exit_alive]. }
  split; rewrite ?Hi.
  - intros j q Hj Hu. pw_inv Hp. destruct (decide (j = cur)) as [->|Hne]; [congruence|].
    destruct (exit_slot_other is_ cur ch (initproc s) b j p Hne) as (_ & _ & Hs & Hpa & _).
    assert (p_state p = UNUSED) as Hu' by (destruct Hs as [Hs|[Hs Hs']]; congruence).
    specialize (H1 _ _ Hl Hu'). destruct Hpa as [->|[? _]]; congruence.
  - intros j q j' Hj Hpar. pw_inv Hp. rewrite exit_parent in Hpar by eauto. case_decide as Ec.
    + assert (j' = k) as -> by congruence. split; [|done]. intros ->.
      destruct (H4 _ Hk) as (? & ? & _ & ?). congruence.
    + destruct (H2 _ _ _ Hl Hpar) as (? & q & Hq & Ha). split; [done|].
      assert (j' ≠ cur) by congruence.
      eexists. split; [eapply pw_fwd; [exact Hp|exact Hq]|by apply exit_alive].
  - intros j q Hj Hpub Hne. pw_inv Hp. rewrite exit_parent by eauto. case_decide; [congruence|].
    apply (H3 _ _ Hl); [|done]. destruct (decide (j = cur)) as [->|Hjc].
    { assert (p = pc) as -> by congruence. unfold published. by rewrite Hrun. }
    destruct (exit_slot_other is_ cur ch (initproc s) b j p Hjc) as (_ & _ & Hs & _).
    unfold published in *. destruct Hs as [<-|[-> _]]; [done|done].
  - intros k' E. assert (k' = k) as -> by congruence. destruct (H4 _ Hk) as (q & Hq & _ & Hqp).
    assert (q = pk) as -> by congruence. eexists. split; [eapply pw_fwd; [exact Hp|exact Hq]|].
    rewrite exit_parent, Hqp by eauto.
    destruct (exit_alive is_ cur ch (initproc s) b k pk Hkc Hak) as [[? _] ?].
    split; [by split|by case_decide].
  - intros. destruct Hk' as (q' & ? & ?). eauto.
Qed.

Lemma exit_wait is_ s cur s' pc b : wait_inv s → family_inv s →
  procs s !! cur = Some pc → p_state pc = RUNNING → initproc s ≠ Some cur →
  (∀ i p, procs s !! i = Some p → i ∈ is_) →
  (∀ i p, procs s !! i = Some p → p_parent p = Some cur → p_state p = ZOMBIE → b = true) →
  pw (exit_slot is_ cur (ptr (p_parent pc)) (initproc s) b) s s' → wait_inv s'.
Proof.
  intros Hw Hf Hpc Hrun Hni His Hb Hp i z j q Hi Hz Hpar Hj Hsl.
  pw_inv Hp. rewrite exit_parent in Hpar by eauto.
  destruct (decide (j = cur)) as [->|Hjc].
  { assert (p = pc) as -> by congruence.
    destruct (exit_slot_self is_ cur (ptr (p_parent pc)) (initproc s) b pc) as (_ & E & _); [|congruence].
    intros E. by destruct (fi_parent _ Hf _ _ _ Hpc E). }
  destruct (exit_slot_other is_ cur (ptr (p_parent pc)) (initproc s) b j p Hjc) as (_ & -> & Hs & _ & Hc).
  destruct (Hc Hsl) as [Hc1 Hc2]. assert (p_state p = SLEEPING) as Hsp by (destruct Hs as [?|[??]]; congruence).
  destruct (decide (i = cur)) as [->|Hic].
  { assert (p0 = pc) as -> by congruence. case_decide as Ec.
    - by destruct (fi_parent _ Hf _ _ _ Hpc Ec).
    - rewrite Hpar in Hc1. done. }
  destruct (exit_slot_other is_ cur (ptr (p_parent pc)) (initproc s) b i p0 Hic) as (_ & _ & Hs0 & _).
  assert (p_state p0 = ZOMBIE) as Hz0 by (destruct Hs0 as [?|[??]]; congruence).
  case_decide as Ec.
  - rewrite Hpar in Hc2. apply Hc2. eauto.
  - exact (Hw i p0 j p Hl0 Hz0 Hpar Hl Hsp).
Qed.

Lemma exit_final_inv s cur s' : proc_inv s → on_cpu s cur → initproc s ≠ Some cur →
  exit_final cur s = Ok (tt, s') → proc_inv s'.
Proof.
  intros [Hlen Hpid Hcpu Hfam Hw] Hon Hni He.
  destruct (on_cpu_running _ _ Hcpu Hon) as (pc & Hpc & Hrun).
  destruct (exit_final_pw s cur s' Hlen Hni He) as (is_ & b & Hp & His & Hc & Hi & Hn & Hb).
  clear He. rewrite (list_lookup_total_correct _ _ _ Hpc) in Hp.
  assert (∀ i p, procs s !! i = Some p → i ∈ is_) as His'.
  { intros i p Hl. apply His. rewrite <- Hlen. by eapply lookup_lt_Some. }
  assert (p_parent pc ≠ Some cur) as Hself.
  { intros E. by destruct (fi_parent _ Hfam _ _ _ Hpc E). }
  destruct (exit_slot_self is_ cur (ptr (p_parent pc)) (initproc s) b pc Hself) as (Es1 & Es2 & _).
  split; [by rewrite (pw_length _ _ _ Hp)| | |eauto using exit_family|eauto using exit_wait].
  - eapply pid_pres; [exact Hp|done| |done]. intros j q Hj Hu.
    destruct (decide (j = cur)) as [->|Hne].
    { assert (q = pc) as -> by congruence. by rewrite Hrun, Es1. }
    destruct (exit_slot_other is_ cur (ptr (p_parent pc)) (initproc s) b j q Hne) as (E1 & _ & Hs & _).
    split; [|done]. destruct Hs as [Hs|[Hs _]]; congruence.
  - eapply cpu_leave; [exact Hp|done| | |done].
    + intros j q Hj Hne.
      destruct (exit_slot_other is_ cur (ptr (p_parent pc)) (initproc s) b j q Hne) as (_ & _ & Hs & _).
      destruct Hs as [->|[-> ->]]; [done|split; congruence].
    + intros q Hq. assert (q = pc) as -> by congruence. by rewrite Es2.
Qed.

(** [kill] wakes a sleeper at most; the flag it sets is not scheduling state. *)
Lemma kill_cases s pid r s' : kill pid s = Ok (r, s') →
  (r = -1 ∧ s' = s ∧ ∀ i p, procs s !! i = Some p → p_pid p ≠ pid) ∨
  (r = 0 ∧ ∃ i p, procs s !! i = Some p ∧ p_pid p = pid ∧
    s' = upd i (λ q, if state_is SLEEPING q then set_state RUNNABLE (set_killed 1 q)
                     else set_killed 1 q) s).
Proof.
  unfold kill. intros Hk. minv. destruct (scan _ _ 0) as [i|] eqn:Es; minv.
  - right. apply scan_0_Some in Es as (p & Hi & Hp & _). apply Z.eqb_eq in Hp.
    unfold proc_at in *. minv.
    assert (alter (set_killed 1) i (procs s) !!! i = set_killed 1 p) as Ep.
    { apply list_lookup_total_correct. by rewrite list_lookup_alter_eq, Hi. }
    rewrite Ep in *. split; [done|]. exists i, p. split_and!; [done..|].
    change (state_is SLEEPING (set_killed 1 p)) with (state_is SLEEPING p) in *.
    destruct (state_is SLEEPING p) eqn:Esl; minv; unfold upd, with_procs; simpl; f_equal;
      apply list_eq; intros j; destruct (decide (j = i)) as [->|Hne];
      rewrite ?list_lookup_alter_eq, ?list_lookup_alter_ne, ?Hi by done; simpl; by rewrite ?Esl.
  - left. split_and!; [done..|]. intros i p Hi.
    pose proof (scan_None _ _ _ Es _ _ Hi). by apply Z.eqb_neq.
Qed.

Lemma kill_inv s pid r s' : proc_inv s → kill pid s = Ok (r, s') → proc_inv s'.
Proof.
  intros Hinv [(_ & -> & _)|(_ & i & p & _ & _ & ->)]%kill_cases; [done|].
  apply gentle_upd; [|done]. intros q _. unfold gentle, state_is. case_bool_decide; auto.
Qed.

Lemma boot_inv ncpu (k : K) : proc_inv (boot ncpu k).
Proof.
  assert (∀ i p, procs (boot ncpu k) !! i = Some p → p = empty_proc) as Hp
    by (intros i p [-> _]%lookup_replicate; done).
  assert (∀ i o, cpus (boot ncpu k) !! i = Some o → o = None) as Hc
    by (intros i p [-> _]%lookup_replicate; done).
  split; [apply length_replicate| | | |].
  - split; [done| |]; intros i p; [intros ->%Hp|intros q r ->%Hp]; done.
  - split.
    + by intros c i ?%Hc.
    + by intros i p ->%Hp.
    + by intros c c' i ?%Hc.
  - split; [by intros i p ->%Hp|by intros i p j ->%Hp|intros i p ->%Hp|done|intros i p ->%Hp].
    + by intros [? _].
    + by intros [[? _]|?].
  - by intros i z j q ->%Hp.
Qed.

Lemma pstep_inv s s' : proc_inv s → pstep s s' → proc_inv s'.
Proof.
  intros Hinv Hs. destruct Hs.
  - eauto using alloc_inv.
  - apply gentle_upd; [|done]. intros q _. by apply gentle_quiet.
  - by eapply abandon_inv.
  - by eapply setinit_inv.
  - by eapply parent_inv.
  - by eapply publish_inv.
  - apply gentle_upd; [|done]. intros q _. by apply gentle_quiet.
  - by apply rest_inv.
  - eapply (gentle_inv _ s); [by apply pw_id|done..| |done]. intros. apply gentle_refl.
  - eauto using exit_final_inv.
  - eapply sleep_enter_inv; [done..| |done]. naive_solver.
  - destruct (on_cpu_running _ _ (inv_cpu _ Hinv) ltac:(done)) as (pc & Hpc & Hrun).
    apply gentle_upd; [|done]. intros q Hq. assert (q = pc) as -> by congruence.
    unfold gentle. simpl. rewrite Hrun. split_and!; [done..|]. by left.
  - eauto using wait_round_inv.
  - eapply (gentle_inv _ s); [apply pw_wakeup|done..| |done]. intros. apply gentle_wake.
  - eauto using kill_inv.
  - eauto using yield_inv.
  - eauto using dispatch_inv.
Qed.

Lemma steps_inv s s' : proc_inv s → rtc pstep s s' → proc_inv s'.
Proof. intros Hinv Hs. induction Hs; eauto using pstep_inv. Qed.

Lemma reachable_inv s : reachable s → proc_inv s.
Proof. intros (ncpu & k & Hs). eauto using steps_inv, boot_inv. Qed.
End inv.
