(* ===== verification/ProcOps.v ===== *)
(** * What the process operations do

    The life cycle of a process slot under the steps of [Proc.pstep], the
    operations of [proc.c] as sequences of these steps, and their results. *)

From S2P Require Import Prelude CString Proc ProcInv.

(** The arrows of the state diagram of a process. *)
Definition edge (a b : procstate) : bool :=
  match a, b with
  | UNUSED, EMBRYO | EMBRYO, UNUSED | EMBRYO, RUNNABLE | RUNNABLE, RUNNING
  | RUNNING, RUNNABLE | RUNNING, SLEEPING | RUNNING, ZOMBIE | SLEEPING, RUNNABLE
  | ZOMBIE, UNUSED => true
  | _, _ => false
  end.

(** One slot over one step: its state follows an arrow or stays, its pid
    changes only when the slot is taken or freed, and a kill is not forgotten
    before the slot is freed. *)
Record evolves (p p' : proc) : Prop := {
  ev_state : p_state p' = p_state p ∨ edge (p_state p) (p_state p') = true;
  ev_pid : p_pid p' = p_pid p ∨ p_state p = UNUSED ∨ p_state p' = UNUSED;
  ev_killed : p_killed p ≠ 0 → p_killed p' ≠ 0 ∨ p_state p' = UNUSED
}.

Section ops.
Context {K : Type} `{Kernel K}.
Implicit Types s : pst K.

Definition table_evolves s s' : Prop :=
  ∀ i p p', procs s !! i = Some p → procs s' !! i = Some p' → evolves p p'.

Lemma evolves_refl p : evolves p p.
Proof. split; auto. Qed.

Lemma evolves_quiet f p : quiet f → evolves p (f p).
Proof. intros Hq. destruct (Hq p) as (? & ? & ? & ? & Hk). split; rewrite ?Hk; auto. Qed.

Lemma evolves_pw g s s' : pw g s s' → (∀ j p, procs s !! j = Some p → evolves p (g j p)) →
  table_evolves s s'.
Proof. intros Hp Hg i p p' Hi Hi'. rewrite Hp, Hi in Hi'. injection Hi' as <-. auto. Qed.

Lemma evolves_upd i f s : (∀ p, procs s !! i = Some p → evolves p (f p)) → table_evolves s (upd i f s).
Proof.
  intros Hf. eapply evolves_pw; [apply pw_upd|]. intros j p Hj. unfold at_slot.
  case_decide; [subst; auto|apply evolves_refl].
Qed.

Lemma evolves_same s s' : procs s' = procs s → table_evolves s s'.
Proof. intros E. eapply evolves_pw; [by apply pw_id|]. intros. apply evolves_refl. Qed.

(** A change of state along an arrow, with the other fields kept. *)
Lemma evolves_edge p p' : edge (p_state p) (p_state p') = true → p_pid p' = p_pid p →
  p_killed p' = p_killed p → evolves p p'.
Proof. intros He Hp Hk. split; rewrite ?Hk; auto. Qed.

Lemma evolves_wake ch p : evolves p (wake_proc ch p).
Proof.
  unfold wake_proc, state_is. destruct (bool_decide_reflect (p_state p = SLEEPING)) as [E|]; simpl;
    [|apply evolves_refl].
  case_bool_decide; [|apply evolves_refl]. apply evolves_edge; simpl; by rewrite ?E.
Qed.

Lemma exit_slot_killed is_ cur ch init b j p :
  p_killed (exit_slot is_ cur ch init b j p) = p_killed p.
Proof.
  unfold exit_slot, at_slot, adopt, wake_proc.
  destruct (decide (j = cur)), b; repeat destruct (bool_decide _); simpl;
    repeat destruct (_ && _); done.
Qed.

Lemma exit_evolves s cur s' : proc_inv s → on_cpu s cur → initproc s ≠ Some cur →
  exit_final cur s = Ok (tt, s') → table_evolves s s'.
Proof.
  intros [Hlen _ Hcpu Hfam _] Hon Hni He.
  destruct (on_cpu_running _ _ Hcpu Hon) as (pc & Hpc & Hrun).
  destruct (exit_final_pw s cur s' Hlen Hni He) as (is_ & b & Hp & _). clear He.
  eapply evolves_pw; [exact Hp|]. intros j p Hj. destruct (decide (j = cur)) as [->|Hne].
  - assert (p = pc) as -> by congruence.
    destruct (exit_slot_self is_ cur (ptr (p_parent (procs s !!! cur))) (initproc s) b pc)
      as (E1 & E2 & _); [intros E; by destruct (fi_parent _ Hfam _ _ _ Hpc E)|].
    apply evolves_edge; [by rewrite E2, Hrun|done|apply exit_slot_killed].
  - destruct (exit_slot_other is_ cur (ptr (p_parent (procs s !!! cur))) (initproc s) b j p Hne)
      as (E1 & _ & Hs & _). split; [|auto|by rewrite exit_slot_killed; auto].
    destruct Hs as [->|[-> ->]]; auto.
Qed.

(** [sleep], [yield]: the caller leaves the CPU. *)
Lemma stop_evolves f s cur s' : cpu_inv s → on_cpu s cur → procs s' = procs (upd cur f s) →
  (∀ p, p_state p = RUNNING → evolves p (f p)) → table_evolves s s'.
Proof.
  intros Hcpu Hon E Hf. destruct (on_cpu_running _ _ Hcpu Hon) as (pc & Hpc & Hrun).
  assert (table_evolves s (upd cur f s)) as Ht.
  { apply evolves_upd. intros p Hp. apply Hf. congruence. }
  intros i p p' Hi Hi'. rewrite E in Hi'. eauto.
Qed.

Lemma upd_upd i f g s : upd i g (upd i f s) = upd i (g ∘ f) s.
Proof. unfold upd, with_procs. simpl. by rewrite alter_alter. Qed.

(** Updates in the order [with_rest], [with_nextpid], [upd]. *)
Lemma upd_rest i f k s : upd i f (with_rest k s) = with_rest k (upd i f s).
Proof. done. Qed.
Lemma upd_nextpid i f n s : upd i f (with_nextpid n s) = with_nextpid n (upd i f s).
Proof. done. Qed.
Lemma init_rest o k s : with_initproc o (with_rest k s) = with_rest k (with_initproc o s).
Proof. done. Qed.
Lemma rest_rest k k' s : with_rest k (with_rest k' s) = with_rest k s.
Proof. done. Qed.
Lemma compose_l (f g h : proc → proc) : f ∘ (g ∘ h) = f ∘ g ∘ h.
Proof. done. Qed.
Create Rewrite HintDb pst.
#[local] Hint Rewrite @compose_l upd_rest upd_nextpid init_rest rest_rest upd_upd : pst.

Lemma lookup_rest k s i : procs (with_rest k s) !!! i = procs s !!! i.
Proof. done. Qed.
Lemma lookup_upd i f s p : procs s !! i = Some p → procs (upd i f s) !!! i = f p.
Proof. intros Hi. apply list_lookup_total_correct. simpl. by rewrite list_lookup_alter_eq, Hi. Qed.

Lemma alloc_slot_Some s i s' : alloc_slot s = Ok (Some i, s') →
  ∃ p, procs s !! i = Some p ∧ p_state p = UNUSED ∧ nextpid s ≠ INT_MAX ∧
    s' = with_nextpid (nextpid s + 1) (upd i (set_pid (nextpid s) ∘ set_state EMBRYO) s).
Proof.
  unfold alloc_slot. destruct (scan _ _ 0) as [i'|] eqn:Es; [|done].
  destruct (Z.eqb_spec (nextpid s) INT_MAX); [done|]. intros [= -> <-].
  apply scan_0_Some in Es as (p & Hi & Hu & _). apply bool_decide_eq_true in Hu. eauto.
Qed.

(** [wait] either reaps the first zombie child, or returns -1, or sleeps. *)
Lemma wait_round_cases s cur r s' : wait_round cur s = Ok (r, s') →
  (∃ i p k1, procs s !! i = Some p ∧ p_parent p = Some cur ∧ p_state p = ZOMBIE ∧
     r = Some (p_pid p) ∧ s' = with_rest k1 (upd i (reap ∘ set_kstack 0) s)) ∨
  (s' = s ∧ r = Some (-1) ∧
     ((∀ i p, procs s !! i = Some p → p_parent p ≠ Some cur) ∨ p_killed (procs s !!! cur) ≠ 0)) ∨
  (r = None ∧ sleep_enter cur (ProcPtr cur) s = Ok (tt, s') ∧
     p_killed (procs s !!! cur) = 0 ∧
     ∀ i p, procs s !! i = Some p → p_parent p = Some cur → p_state p ≠ ZOMBIE).
Proof.
  intros Hw. unfold wait_round in Hw. kinv.
  destruct (wait_scan cur (procs s) 0 false) as [hk z] eqn:Es. apply wait_scan_spec in Es.
  destruct z as [i|]; kinv.
  - left. destruct Es as (_ & _ & p & Hi & Hpa & Hz). rewrite Nat.sub_0_r in Hi.
    rewrite (list_lookup_total_correct _ _ _ Hi). exists i, p, k. split_and!; [done..|].
    change (with_rest k (upd i reap (upd i (set_kstack 0) s)) =
      with_rest k (upd i (reap ∘ set_kstack 0) s)). by rewrite upd_upd.
  - destruct hk; simpl in Hw; [|minv; right; left; split_and!; [done..|]].
    2: { left. intros i p Hi Hpa. by destruct (Es _ _ Hi Hpa). }
    destruct (truthy _) eqn:Ek; minv.
    + right; left. apply truthy_true in Ek. auto.
    + right; right. apply truthy_false in Ek. split_and!; [done..|]. intros i p Hi Hpa. by eapply Es.
Qed.

Lemma wait_evolves s cur r s' : proc_inv s → on_cpu s cur →
  wait_round cur s = Ok (r, s') → table_evolves s s'.
Proof.
  intros Hinv Hon [(i & p & k & Hi & _ & Hz & _ & ->)|[(-> & _)|(_ & Hs & _)]]%wait_round_cases.
  - intros j q q' Hj Hj'. eapply (evolves_upd i (reap ∘ set_kstack 0) s); [|exact Hj|exact Hj'].
    intros q0 Hq0. assert (q0 = p) as -> by congruence. split; simpl; auto. rewrite Hz. auto.
  - by apply evolves_same.
  - unfold sleep_enter in Hs. minv. apply sched_Ok in Hs as ->.
    eapply (stop_evolves (set_state SLEEPING ∘ set_chan (ProcPtr cur)) s cur);
      [apply Hinv|done|by rewrite <- upd_upd|].
    intros q Hq. apply evolves_edge; simpl; by rewrite ?Hq.
Qed.

Lemma pstep_evolves s s' : proc_inv s → pstep s s' → table_evolves s s'.
Proof.
  intros Hinv Hs. destruct Hs as [s i s' Ha|s i p f [Hi He] Hq|s i p [Hi He]|s i p|s cur i p ? [Hi He]
    |s i p [Hi He]|s cur f ? Hq|s k|s cur|s cur s'|s cur chan s' Hon _ Hs|s cur|s cur r s'|s chan
    |s pid r s' Hk|s cur s' Hon Hs|s c i b s' Hc Hd]; try (apply evolves_same; reflexivity).
  - apply alloc_slot_Some in Ha as (p & Hi & Hu & _ & ->). intros j q q' Hj Hj'.
    eapply (evolves_upd i _ s); [|exact Hj|exact Hj'].
    intros q0 Hq0. assert (q0 = p) as -> by congruence. split; simpl; rewrite ?Hu; auto.
  - apply evolves_upd. intros. by apply evolves_quiet.
  - apply evolves_upd. intros q Hq. assert (q = p) as -> by congruence. split; simpl; rewrite ?He; auto.
  - apply evolves_upd. intros q Hq. split; simpl; auto.
  - apply evolves_upd. intros q Hq. assert (q = p) as -> by congruence.
    apply evolves_edge; simpl; by rewrite ?He.
  - apply evolves_upd. intros. by apply evolves_quiet.
  - eapply exit_evolves; eassumption.
  - unfold sleep_enter in Hs. minv. apply sched_Ok in Hs as ->.
    eapply (stop_evolves (set_state SLEEPING ∘ set_chan chan) s cur);
      [apply Hinv|done|by rewrite <- upd_upd|].
    intros q Hq. apply evolves_edge; simpl; by rewrite ?Hq.
  - apply evolves_upd. intros q Hq. split; simpl; auto.
  - by eapply wait_evolves.
  - eapply evolves_pw; [apply pw_wakeup|]. intros. apply evolves_wake.
  - apply kill_cases in Hk as [(_ & -> & _)|(_ & i & p & _ & _ & ->)]; [by apply evolves_same|].
    apply evolves_upd. intros q _. unfold state_is. case_bool_decide as E; split; simpl; rewrite ?E; auto.
  - unfold yield in Hs. minv. apply sched_Ok in Hs as ->.
    eapply (stop_evolves (set_state RUNNABLE) s cur); [apply Hinv|done..|].
    intros q Hq. apply evolves_edge; simpl; by rewrite ?Hq.
  - unfold dispatch in Hd. kinv. unfold state_is in Hd.
    destruct (bool_decide_reflect (p_state (procs s !!! i) = RUNNABLE)) as [Er|Er]; simpl in Hd; kinv;
      [|by apply evolves_same].
    intros j q q' Hj Hj'. eapply (evolves_upd i (set_state RUNNING) s); [|exact Hj|exact Hj'].
    intros q0 Hq0. rewrite (list_lookup_total_correct _ _ _ Hq0) in Er.
    apply evolves_edge; simpl; by rewrite ?Er.
Qed.

(** *** Creating a process *)

Lemma allocproc_cases s r s' : allocproc s = Ok (r, s') →
  (r = None ∧ s' = s ∧ ∀ i p, procs s !! i = Some p → p_state p ≠ UNUSED) ∨
  (∃ i p k ks, alloc_slot s = Ok (Some i, with_nextpid (nextpid s + 1)
       (upd i (set_pid (nextpid s) ∘ set_state EMBRYO) s)) ∧
     procs s !! i = Some p ∧ p_state p = UNUSED ∧ nextpid s ≠ INT_MAX ∧
     ((r = None ∧ ks = 0 ∧ s' = with_rest k (with_nextpid (nextpid s + 1)
         (upd i (set_state UNUSED ∘ set_kstack 0 ∘ set_pid (nextpid s) ∘ set_state EMBRYO) s))) ∨
      (r = Some i ∧ ks ≠ 0 ∧ s' = with_rest k (with_nextpid (nextpid s + 1)
         (upd i (set_frames (ks + KSTACKSIZE - sizeof_trapframe) k_trapret
                   (ks + KSTACKSIZE - sizeof_trapframe - 4 - sizeof_context) (Ctx 0 0 0 0 k_forkret)
                 ∘ set_kstack ks ∘ set_pid (nextpid s) ∘ set_state EMBRYO) s))))).
Proof.
  intros Ha. unfold allocproc in Ha. minv. destruct a as [i|]; kinv.
  - right. pose proof (alloc_slot_Some _ _ _ E) as (p & Hi & Hu & Hn & ->).
    rename a into ks. exists i, p, k, ks. split_and!; [done..|].
    destruct (Z.eqb_spec ks 0) as [->|Hks]; minv; [left|right]; split_and!; try done;
      by autorewrite with pst.
  - left. unfold alloc_slot in E. destruct (scan _ _ 0) as [i|] eqn:Es; [by destruct (_ =? _)|].
    injection E as <-. split_and!; [done..|]. intros i p Hi Hu.
    pose proof (scan_None _ _ _ Es _ _ Hi) as Hf. unfold state_is in Hf. by apply bool_decide_eq_false in Hf.
Qed.

(** The descriptors after the loop of [fork]: the parent's, and the old
    contents where the parent has none. *)
Definition dup_ofile (fds : list nat) (po qo : list (option nat)) : list (option nat) :=
  foldl (λ o i, match po !!! i with None => o | Some f => <[i := Some f]> o end) qo fds.

Arguments dup_ofile : simpl never.

Lemma lookup_dup_ofile fds po qo i : (i < length qo)%nat →
  dup_ofile fds po qo !! i =
    if decide (i ∈ fds) then match po !!! i with Some f => Some (Some f) | None => qo !! i end
    else qo !! i.
Proof.
  unfold dup_ofile. revert qo. induction fds as [|j fds IH]; intros qo Hi; simpl; [done|].
  rewrite IH by (destruct (po !!! j); by rewrite ?length_insert).
  destruct (decide (j = i)) as [->|Hne].
  - rewrite (decide_True (P := i ∈ i :: fds)) by left.
    destruct (po !!! i); [rewrite list_lookup_insert_eq by done|]; by case_decide.
  - assert ((match po !!! j with Some f => <[j:=Some f]> qo | None => qo end) !! i = qo !! i) as ->
      by (destruct (po !!! j); by rewrite ?list_lookup_insert_ne).
    destruct (decide (i ∈ fds)); [rewrite decide_True by by right|rewrite decide_False by set_solver]; done.
Qed.

Lemma lookup_upd_ne i j f s : j ≠ i → procs (upd i f s) !!! j = procs s !!! j.
Proof. intros. rewrite !list_lookup_total_alt. simpl. by rewrite list_lookup_alter_ne. Qed.

Lemma dup_files_eq cur np fds s s' : cur ≠ np → dup_files cur np fds s = Ok (tt, s') →
  ∃ k, s' = with_rest k (upd np (λ q, set_ofile (dup_ofile fds (p_ofile (procs s !!! cur)) (p_ofile q)) q) s).
Proof.
  intros Hne. revert s. induction fds as [|i fds IH]; intros s Hd; cbn [dup_files] in Hd; minv.
  { exists (krest s'). destruct s'. unfold with_rest, upd, with_procs. simpl. f_equal.
    symmetry. apply list_alter_id. by intros []. }
  unfold proc_at in *. minv. destruct (p_ofile (procs s !!! cur) !!! i) as [f|] eqn:Ef; kinv.
  - apply IH in Hd as [k' ->]. exists k'. rewrite lookup_upd_ne by done. simpl.
    unfold with_rest, upd, with_procs. simpl. rewrite alter_alter. repeat f_equal.
    unfold compose, dup_ofile. simpl. rewrite Ef. done.
  - apply IH in Hd as [k' ->]. exists k'. simpl. unfold dup_ofile. simpl. by rewrite Ef.
Qed.

Lemma dup_files_other cur np fds s s' j : cur ≠ np → j ≠ np → dup_files cur np fds s = Ok (tt, s') →
  procs s' !!! j = procs s !!! j.
Proof. intros Hc Hj [k ->]%dup_files_eq; [|done]. apply (lookup_upd_ne np j _ s Hj). Qed.

(** The child made by a [fork] of [p] in slot [cur]: page directory [d],
    working directory [c]. *)
Definition forked (cur : nat) (d : Z) (c : nat) (p : proc) : proc → proc :=
  set_state RUNNABLE ∘ (λ q, set_name (arr_safestrcpy (p_name q) (p_name p) 16) q) ∘
  set_cwd (Some c) ∘ (λ q, set_ofile (dup_ofile (seq 0 NOFILE) (p_ofile p) (p_ofile q)) q) ∘
  set_tfv (set_eax 0 (p_tfv p)) ∘ set_parent (Some cur) ∘ set_sz (p_sz p) ∘ set_pgdir d.

Lemma fork_child_cases s cur np q r s' : cur ≠ np → procs s !! np = Some q →
  fork_child cur np s = Ok (r, s') →
  ∃ k, (r = -1 ∧ s' = with_rest k (upd np (set_state UNUSED ∘ set_kstack 0 ∘ set_pgdir 0) s)) ∨
    (r = p_pid q ∧ ∃ d c, d ≠ 0 ∧ p_cwd (procs s !!! cur) = Some c ∧
      s' = with_rest k (upd np (forked cur d c (procs s !!! cur)) s)).
Proof.
  intros Hne Hq Hf. unfold fork_child in Hf. kinv.
  set (p := procs s !!! cur) in *. rename a0 into d.
  destruct (Z.eqb_spec d 0) as [->|Hd]; kinv.
  - eexists. left. split; [done|]. by autorewrite with pst.
  - match goal with E : dup_files _ _ _ ?s0 = _ |- _ =>
      assert (procs s0 !!! cur = p) as Ep by (unfold p; by rewrite !lookup_upd_ne by done);
      remember s0 as s1 eqn:Es1;
      pose proof (dup_files_other _ _ _ _ _ cur Hne Hne E) as Ec; apply dup_files_eq in E as [k' ->]; [|done]
    end.
    rewrite Ep in *. rewrite Ec in Hf. destruct (p_cwd p) as [c|] eqn:Ecwd; kinv. eexists. right. split.
    + autorewrite with pst. by rewrite lookup_rest, (lookup_upd _ _ _ _ Hq).
    + exists d, c. split_and!; [done..|]. unfold forked. autorewrite with pst. reflexivity.
Qed.

(** What [fork] does: nothing but using up a pid when it fails, and otherwise
    a copy of the caller in the slot that was free. *)
Lemma fork_cases s cur p r s' : procs s !! cur = Some p → p_state p = RUNNING →
  fork cur s = Ok (r, s') →
  (r = -1 ∧ s' = s) ∨
  ∃ np q k f, alloc_slot s = Ok (Some np, with_nextpid (nextpid s + 1)
       (upd np (set_pid (nextpid s) ∘ set_state EMBRYO) s)) ∧
     procs s !! np = Some q ∧ p_state q = UNUSED ∧ quiet f ∧ (∀ x, p_ofile (f x) = p_ofile x) ∧
     ((r = -1 ∧ s' = with_rest k (with_nextpid (nextpid s + 1)
         (upd np (set_state UNUSED ∘ f ∘ set_pid (nextpid s) ∘ set_state EMBRYO) s))) ∨
      (r = nextpid s ∧ ∃ d c, d ≠ 0 ∧ p_cwd p = Some c ∧
         s' = with_rest k (with_nextpid (nextpid s + 1)
           (upd np (forked cur d c p ∘ f ∘ set_pid (nextpid s) ∘ set_state EMBRYO) s)))).
Proof.
  intros Hp Hrun Hf. unfold fork in Hf. minv.
  apply allocproc_cases in E as [(-> & -> & _)|(np & q & k & ks & Ha & Hq & Hu & Hn & Hr)].
  { kinv. auto. }
  assert (cur ≠ np) as Hne by (intros ->; congruence).
  right. destruct Hr as [(-> & -> & ->)|(-> & Hks & ->)].
  - kinv. exists np, q, k, (set_kstack 0). split_and!; try done. by left.
  - set (fr := set_frames _ _ _ _) in *. set (s1 := with_rest _ _) in Hf.
    destruct (fork_child_cases s1 cur np (fr (set_kstack ks (set_pid (nextpid s) (set_state EMBRYO q)))) r s'
      Hne) as (k1 & [(-> & ->)|(-> & d & c & Hd & Hc & ->)]); [|done| |].
    + unfold s1. simpl. by rewrite list_lookup_alter_eq, Hq.
    + exists np, q, k1, (set_kstack 0 ∘ set_pgdir 0 ∘ fr ∘ set_kstack ks). split_and!; try done.
      left. split; [done|]. unfold s1. by autorewrite with pst.
    + assert (procs s1 !!! cur = p) as E.
      { unfold s1. simpl. rewrite list_lookup_total_alt, list_lookup_alter_ne by done. by rewrite Hp. }
      rewrite E in *. exists np, q, k1, (fr ∘ set_kstack ks). split_and!; try done.
      right. split; [done|]. exists d, c. split_and!; try done.
      unfold s1. by autorewrite with pst.
Qed.

(** *** The operations as sequences of steps *)

Lemma quiet_compose f g : quiet f → quiet g → quiet (f ∘ g).
Proof.
  intros Hf Hg p. destruct (Hf (g p)) as (? & ? & ? & ? & ?), (Hg p) as (? & ? & ? & ? & ?).
  unfold compose. split_and!; congruence.
Qed.

Lemma rtc_once_eq s s1 s2 : pstep s s1 → s1 = s2 → rtc pstep s s2.
Proof. intros Hs <-. by apply rtc_once. Qed.

Lemma embryo_upd s i p f : embryo s i p → p_state (f p) = EMBRYO → embryo (upd i f s) i (f p).
Proof. intros [Hi _] Hf. split; [|done]. simpl. by rewrite list_lookup_alter_eq, Hi. Qed.

(** Taking a free slot and filling it in. *)
Lemma take_steps s i q f s1 : proc_inv s → alloc_slot s = Ok (Some i, s1) →
  procs s !! i = Some q → p_state q = UNUSED → quiet f →
  rtc pstep s (upd i f s1) ∧ initproc (upd i f s1) ≠ Some i ∧
  ∃ p, embryo (upd i f s1) i p ∧ p_parent p = None.
Proof.
  intros Hinv Ha Hq Hu Hf. pose proof (alloc_slot_Some _ _ _ Ha) as (q' & Hq' & _ & _ & E).
  assert (q' = q) as -> by congruence.
  assert (embryo s1 i (set_pid (nextpid s) (set_state EMBRYO q))) as He.
  { subst s1. split; [|done]. simpl. by rewrite list_lookup_alter_eq, Hq. }
  split_and!.
  - eapply rtc_l; [by eapply st_alloc|]. eapply rtc_once, st_embryo; eauto.
  - subst s1. simpl. intros Hi. destruct (fi_init _ (inv_family _ Hinv) _ Hi) as (q0 & ? & [? _] & _). congruence.
  - eexists. split; [apply embryo_upd; [exact He|by destruct (Hf (set_pid (nextpid s) (set_state EMBRYO q))) as [-> _]]|].
    destruct (Hf (set_pid (nextpid s) (set_state EMBRYO q))) as (_ & _ & -> & _). simpl.
    eapply fi_unused; eauto. apply Hinv.
Qed.

Lemma fork_steps s cur r s' : proc_inv s → on_cpu s cur → fork cur s = Ok (r, s') → rtc pstep s s'.
Proof.
  intros Hinv Hon Hf. destruct (on_cpu_running _ _ (inv_cpu _ Hinv) Hon) as (pc & Hpc & Hrun).
  destruct (fork_cases _ _ _ _ _ Hpc Hrun Hf) as
    [(-> & ->)|(np & q & k & f & Ha & Hq & Hu & Hfq & _ & [(_ & ->)|(_ & d & c & _ & _ & ->)])].
  - done.
  - destruct (take_steps _ _ _ _ _ Hinv Ha Hq Hu Hfq) as (Hs & Hi & p & He & Hpa).
    etrans; [exact Hs|].
    eapply rtc_l; [by eapply st_abandon|]. eapply rtc_once_eq; [apply (st_rest _ k)|].
    by autorewrite with pst.
  - set (g := (λ q, set_name (arr_safestrcpy (p_name q) (p_name pc) 16) q) ∘ set_cwd (Some c) ∘
      (λ q, set_ofile (dup_ofile (seq 0 NOFILE) (p_ofile pc) (p_ofile q)) q) ∘
      set_tfv (set_eax 0 (p_tfv pc))).
    assert (quiet g) as Hg by (by intros []).
    destruct (take_steps _ np q (set_sz (p_sz pc) ∘ set_pgdir d ∘ f) _ Hinv Ha Hq Hu) as (Hs & Hi & p & He & Hpa).
    { apply quiet_compose; [by intros []|done]. }
    etrans; [exact Hs|].
    eapply rtc_l; [by apply (st_parent _ cur np p)|].
    apply (embryo_upd _ _ _ (set_parent (Some cur))) in He; [|apply He].
    eapply rtc_l; [by eapply (st_embryo _ np _ g He)|].
    apply (embryo_upd _ _ _ g) in He; [|by destruct (Hg (set_parent (Some cur) p)) as [-> _]; apply He].
    eapply rtc_l; [eapply (st_publish _ np _ He); left|].
    { by destruct (Hg (set_parent (Some cur) p)) as (_ & _ & -> & _). }
    eapply rtc_once_eq; [apply (st_rest _ k)|]. unfold g, forked. autorewrite with pst. reflexivity.
Qed.

Lemma userinit_steps s s' : proc_inv s → initproc s = None →
  userinit s = Ok (tt, s') → rtc pstep s s'.
Proof.
  intros Hinv Hni Hu. unfold userinit in Hu. minv.
  apply allocproc_cases in E as [(-> & -> & _)|(i & q & k & ks & Ha & Hq & Huq & Hn & Hr)]; [done|].
  destruct Hr as [(-> & _)|(-> & Hks & ->)]; [done|]. kinv.
  set (fr := set_frames _ _ _ _) in *.
  destruct (take_steps _ i q (fr ∘ set_kstack ks) _ Hinv Ha Hq Huq) as (Hs & Hi & p & He & Hpa); [by intros []|].
  etrans; [exact Hs|]. destruct (_ =? 0); kinv.
  eapply rtc_l; [by eapply st_setinit|].
  match goal with |- context [upd i (set_cwd ?c) (with_rest _ (upd i ?nm (upd i ?tf (with_rest _ (upd i ?pg _)))))] =>
    set (g := set_cwd c ∘ nm ∘ tf ∘ pg) end.
  assert (quiet g) as Hg by (by intros []).
  match type of He with embryo ?s1 _ _ => assert (embryo (with_initproc (Some i) s1) i p) as He' by exact He end.
  eapply rtc_l; [by eapply (st_embryo _ i p g)|].
  apply (embryo_upd _ _ _ g) in He'; [|by destruct (Hg p) as [-> _]; apply He].
  eapply rtc_l; [eapply (st_publish _ i _ He'); by right|].
  eapply rtc_once_eq; [eapply st_rest|]. unfold g. by autorewrite with pst.
Qed.

(** Steps during which the same processes stay on the CPUs. *)
Record run (s s' : pst K) : Prop := {
  run_steps : rtc pstep s s';
  run_cpus : cpus s' = cpus s;
  run_init : initproc s' = initproc s
}.

Lemma run_refl s : run s s.
Proof. by split. Qed.

Lemma run_trans s1 s2 s3 : run s1 s2 → run s2 s3 → run s1 s3.
Proof. intros [? E1 I1] [? E2 I2]. split; [by etrans|congruence..]. Qed.

Lemma run_on s s' cur : run s s' → on_cpu s cur → on_cpu s' cur.
Proof. intros [_ E _] [c Hc]. exists c. by rewrite E. Qed.

Lemma run_once s s' : pstep s s' → cpus s' = cpus s → initproc s' = initproc s → run s s'.
Proof. intros. split; [by apply rtc_once|done..]. Qed.

Lemma run_kcall {A} (c : M K A) s a s' : kcall c s = Ok (a, s') → run s s'.
Proof. intros [k ->]%kcall_Ok. by apply run_once; [apply st_rest|..]. Qed.

Lemma run_wakeups cs s s' : wakeups cs s = Ok (tt, s') → run s s'.
Proof.
  unfold wakeups. intros Hw. minv. revert s. induction cs as [|c cs IH]; intros s; [apply run_refl|].
  simpl. eapply run_trans; [|apply IH]. by apply run_once; [apply st_wakeup|..].
Qed.

Lemma run_own s cur f : on_cpu s cur → quiet f → run s (upd cur f s).
Proof. intros. by apply run_once; [by apply st_own|..]. Qed.

Lemma run_close cur fds s s' : on_cpu s cur → close_files cur fds s = Ok (tt, s') → run s s'.
Proof.
  revert s. induction fds as [|i fds IH]; intros s Hon Hc; cbn [close_files] in Hc; minv.
  { apply run_refl. }
  unfold proc_at in *. minv. destruct (_ !!! i) as [f|]; minv; [|by apply IH].
  apply run_kcall in E as H1. apply run_wakeups in E1 as H2. pose proof (run_trans _ _ _ H1 H2) as H3.
  pose proof (run_on _ _ _ H3 Hon) as Hon'. eapply run_trans; [exact H3|].
  eapply run_trans; [|refine (IH _ _ Hc); exact Hon']. apply run_own; [done|by intros []].
Qed.

Lemma exit_steps s cur s' : on_cpu s cur → exit cur s = Ok (tt, s') →
  initproc s ≠ Some cur ∧ ∃ s1, run s s1 ∧ exit_final cur s1 = Ok (tt, s').
Proof.
  intros Hon He. unfold exit in He. minv.
  destruct (bool_decide_reflect (initproc s = Some cur)) as [|Hni]; minv. split; [done|].
  unfold proc_at in *. minv. assert (run s (exit_history cur s)) as H1.
  { by apply run_once; [apply st_history|..]. }
  destruct (p_cwd _) as [c|]; minv.
  pose proof (run_close _ _ _ _ (run_on _ _ _ H1 Hon) E0) as H2.
  apply run_kcall in E1 as H3. apply run_kcall in E as H4. apply run_wakeups in E2 as H5.
  apply run_kcall in E3 as H6. apply run_wakeups in E4 as H7.
  eexists. split; [|exact He]. clear He E0 E1 E E2 E3 E4.
  assert (run s s5) as Hr by (do 6 (eapply run_trans; [eassumption|]); assumption).
  eapply run_trans; [exact Hr|].
  apply run_own; [by eapply run_on|by intros []].
Qed.

Lemma growproc_steps s cur n r s' : on_cpu s cur → growproc cur n s = Ok (r, s') → rtc pstep s s'.
Proof.
  intros Hon Hg. unfold growproc, proc_at in Hg. minv.
  assert (∀ sz s1 r1 s2, run s s1 → (modify (upd cur (set_sz sz));;
    kcall (k_switchuvm (p_kstack (procs s !!! cur)) (p_pgdir (procs s !!! cur)));; mret 0) s1 = Ok (r1, s2) →
    run s s2) as Hdone.
  { intros sz s1 r1 s2 Hr Hd. minv. apply run_kcall in E0. eapply run_trans; [exact Hr|].
    eapply run_trans; [|exact E0]. apply run_own; [by eapply run_on|by intros []]. }
  apply run_steps. destruct (0 <? n); [minv|destruct (n <? 0); [minv|]].
  - apply run_kcall in E as Hr. destruct (_ =? 0); [by minv|by eapply Hdone].
  - apply run_kcall in E as Hr. destruct (_ =? 0); [by minv|by eapply Hdone].
  - eapply Hdone; [apply run_refl|exact Hg].
Qed.

(** *** Reachable states *)

Lemma reach_steps s s' : reachable s → rtc pstep s s' → reachable s'.
Proof. intros (n & k & Hs) Hs'. exists n, k. by etrans. Qed.

Lemma reach_step s s' : reachable s → pstep s s' → reachable s'.
Proof. intros Hr Hs. eapply reach_steps; [done|]. by apply rtc_once. Qed.

Lemma reach_boot n k : reachable (boot n k).
Proof. by exists n, k. Qed.

(** C3: in every state the kernel can reach by interleaving the critical
    sections of its processes, the process table is consistent: the pids of
    the slots in use are positive, below [nextpid] and distinct; the RUNNING
    processes are exactly those on a CPU, each on one; parents are alive and
    every process but init has one; and no process is asleep in [wait] while
    it has a zombie child. *)
Theorem proc_table_consistent s : reachable s → proc_inv s.
Proof. apply reachable_inv. Qed.

(** C24: every step moves every slot along the state diagram of a process
    (UNUSED, EMBRYO, RUNNABLE, RUNNING, SLEEPING or ZOMBIE, and back to
    UNUSED), keeps the pid of a slot in use, and does not forget a kill
    before the slot is freed. *)
Theorem proc_lifecycle s s' : reachable s → pstep s s' → table_evolves s s'.
Proof. intros Hr. apply pstep_evolves. by apply reachable_inv. Qed.

(** C17: the operations [userinit], [fork], [exit] and [growproc], run as the
    code composes them, are sequences of the steps the consistency of the
    table is proved for; [exit] ends with its critical section. *)
Theorem proc_operations_are_steps s cur : reachable s →
  (∀ s', initproc s = None → userinit s = Ok (tt, s') → rtc pstep s s') ∧
  (on_cpu s cur → ∀ r s', fork cur s = Ok (r, s') → rtc pstep s s') ∧
  (on_cpu s cur → ∀ s', exit cur s = Ok (tt, s') → rtc pstep s s') ∧
  (on_cpu s cur → ∀ n r s', growproc cur n s = Ok (r, s') → rtc pstep s s').
Proof.
  intros Hr%reachable_inv. split_and!.
  - eauto using userinit_steps.
  - eauto using fork_steps.
  - intros Hon s' He. destruct (exit_steps _ _ _ Hon He) as (Hni & s1 & Hrun & Hf).
    eapply rtc_r; [apply Hrun|]. apply (st_exit s1 cur s'); [by eapply run_on| |exact Hf].
    by rewrite (run_init _ _ Hrun).
  - eauto using growproc_steps.
Qed.

(** C32: a [fork] that succeeds returns a pid no slot in use has, and puts in
    a slot that was free a RUNNABLE copy of the caller: same size, same
    trapframe but for the return value 0, same working directory, the open
    descriptors of the caller, and the caller as parent.  No other slot
    changes. *)
Theorem fork_copies_caller s cur p r s' : reachable s → on_cpu s cur →
  procs s !! cur = Some p → Forall (λ u, length (p_ofile u) = NOFILE) (procs s) →
  fork cur s = Ok (r, s') → r ≠ -1 →
  0 < r ∧ (∀ j u, procs s !! j = Some u → p_state u ≠ UNUSED → p_pid u ≠ r) ∧
  ∃ np u q, procs s !! np = Some u ∧ p_state u = UNUSED ∧ procs s' !! np = Some q ∧
    p_pid q = r ∧ p_state q = RUNNABLE ∧ p_parent q = Some cur ∧ p_sz q = p_sz p ∧
    p_tfv q = set_eax 0 (p_tfv p) ∧ p_cwd q = p_cwd p ∧
    (∀ fd f, p_ofile p !! fd = Some (Some f) → p_ofile q !! fd = Some (Some f)) ∧
    ∀ j, j ≠ np → procs s' !! j = procs s !! j.
Proof.
  intros Hr%reachable_inv Hon Hp Hof Hf Hne.
  destruct (on_cpu_running _ _ (inv_cpu _ Hr) Hon) as (pc & Hpc & Hrun).
  assert (pc = p) as -> by congruence. destruct (inv_pid _ Hr) as [Hn Hrange _].
  destruct (fork_cases _ _ _ _ _ Hp Hrun Hf) as [[]|(np & u & k & f & Ha & Hu & Huu & Hq & Eo & Hres)]; [done|].
  destruct Hres as [[]|(-> & d & c & Hd & Hc & ->)]; [done|].
  split; [lia|]. split; [intros j v Hj Hv; specialize (Hrange _ _ Hj Hv); lia|].
  exists np, u. eexists. split; [done|]. split; [done|].
  split; [simpl; by rewrite list_lookup_alter_eq, Hu|].
  destruct (Hq (set_pid (nextpid s) (set_state EMBRYO u))) as (_ & Epid & _).
  split_and!; try done.
  - intros fd x Hx. unfold forked, compose. cbn [p_ofile set_state set_name set_cwd set_ofile].
    rewrite lookup_dup_ofile.
    + rewrite decide_True.
      * by rewrite (list_lookup_total_correct _ _ _ Hx).
      * apply elem_of_seq. apply lookup_lt_Some in Hx.
        rewrite (Forall_lookup_1 _ _ _ _ Hof Hp) in Hx. lia.
    + cbn [p_ofile set_tfv set_parent set_sz set_pgdir]. rewrite Eo.
      cbn [p_ofile set_pid set_state]. rewrite (Forall_lookup_1 _ _ _ _ Hof Hu).
      apply lookup_lt_Some in Hx. by rewrite (Forall_lookup_1 _ _ _ _ Hof Hp) in Hx.
  - intros j Hj. simpl. by rewrite list_lookup_alter_ne.
Qed.

Lemma wait_scan_zombie cur ps k hk i z : ps !! i = Some z → p_parent z = Some cur → p_state z = ZOMBIE →
  ∃ n, wait_scan cur ps k hk = (true, Some n).
Proof.
  revert i k hk. induction ps as [|p ps IH]; intros [|i] k hk Hi Hp Hz; try done; simpl in *.
  - injection Hi as ->. unfold state_is. rewrite !bool_decide_eq_true_2 by done. simpl. eauto.
  - destruct (bool_decide (p_parent p = Some cur)), (state_is ZOMBIE p); simpl; eauto.
Qed.

(** If the caller of [wait] has a zombie child, [wait] returns at once:
    it gives the pid of a zombie child of the caller, frees its slot
    completely (pid, parent and kill flag are cleared), and touches no other
    slot. *)
Theorem wait_reaps_zombie s cur i z : reachable s → on_cpu s cur →
  (∀ a k, ∃ k', k_kfree a k = Ok (tt, k')) → (∀ d k, ∃ k', k_freevm d k = Ok (tt, k')) →
  procs s !! i = Some z → p_parent z = Some cur → p_state z = ZOMBIE →
  ∃ j c c' s', wait_round cur s = Ok (Some (p_pid c), s') ∧ 0 < p_pid c ∧
    procs s !! j = Some c ∧ p_parent c = Some cur ∧ p_state c = ZOMBIE ∧
    procs s' !! j = Some c' ∧ p_state c' = UNUSED ∧ p_pid c' = 0 ∧ p_parent c' = None ∧ p_killed c' = 0 ∧
    ∀ j', j' ≠ j → procs s' !! j' = procs s !! j'.
Proof.
  intros Hr%reachable_inv Hon Hkf Hfv Hi Hp Hz.
  destruct (wait_scan_zombie cur (procs s) 0 false i z Hi Hp Hz) as [n Hn].
  assert (∃ r s', wait_round cur s = Ok (r, s') ∧ r ≠ Some (-1) ∧ r ≠ None) as (r & s' & Hw & Hr1 & Hr2).
  { unfold wait_round, proc_at. mstep. rewrite Hn. pose proof (wait_scan_spec _ _ _ _ _ _ Hn) as (_ & _ & p & Hpn & _ & Hzp).
    rewrite Nat.sub_0_r in Hpn. rewrite (list_lookup_total_correct _ _ _ Hpn). unfold kcall.
    destruct (Hkf (p_kstack p) (krest s)) as [k1 ->].
    match goal with |- context [k_freevm ?d ?k] => destruct (Hfv d k) as [k2 ->] end.
    do 2 eexists. split; [reflexivity|].
    destruct (pi_range _ (inv_pid _ Hr) _ _ Hpn); [congruence|]. split; [|done]. intros [=]. lia. }
  destruct (wait_round_cases _ _ _ _ Hw) as [(j & c & k1 & Hj & Hpc & Hzc & -> & ->)|[(_ & ? & _)|(? & _)]]; [|done..].
  exists j, c, (reap (set_kstack 0 c)). eexists. split_and!; try done.
  - destruct (pi_range _ (inv_pid _ Hr) _ _ Hj); [congruence|done].
  - simpl. by rewrite list_lookup_alter_eq, Hj.
  - intros j' Hj'. simpl. by rewrite list_lookup_alter_ne.
Qed.

Lemma scan_first cond ps k i p : ps !! i = Some p → cond p = true →
  (∀ j q, (j < i)%nat → ps !! j = Some q → cond q = false) → scan cond ps k = Some (k + i)%nat.
Proof.
  revert k i. induction ps as [|q ps IH]; intros k [|i] Hi Hc Hlt; simplify_eq/=.
  - rewrite Hc. f_equal. lia.
  - rewrite (Hlt 0%nat q) by (done || lia). rewrite (IH (S k) i); [f_equal; lia|done..|].
    intros j q' Hj. apply (Hlt (S j)). lia.
Qed.

(** [kill] does not check that the slot it finds is in use, and freed
    slots have pid 0: [kill(0)] succeeds when the first free slot has pid 0,
    and the next process to be created there is killed from birth, since
    [allocproc] does not reset the flag. *)
Theorem kill_zero_marks_next_process s i u : reachable s → procs s !! i = Some u →
  p_state u = UNUSED → p_pid u = 0 → nextpid s ≠ INT_MAX →
  (∀ j q, (j < i)%nat → procs s !! j = Some q → p_state q ≠ UNUSED) →
  ∃ s1 s2 q, kill 0 s = Ok (0, s1) ∧ alloc_slot s1 = Ok (Some i, s2) ∧
    procs s2 !! i = Some q ∧ p_pid q = nextpid s ∧ p_killed q = 1.
Proof.
  intros Hr%reachable_inv Hi Hu Hpid Hn Hlt.
  assert (scan (λ p, p_pid p =? 0) (procs s) 0 = Some i) as Hs.
  { apply (scan_first _ _ 0 i u); [done|by apply Z.eqb_eq|]. intros j q Hj Hq.
    destruct (pi_range _ (inv_pid _ Hr) _ _ Hq (Hlt _ _ Hj Hq)). apply Z.eqb_neq. lia. }
  exists (upd i (set_killed 1) s). do 2 eexists. split; [|split].
  - unfold kill, proc_at. mstep. rewrite Hs, (lookup_upd _ _ _ _ Hi). unfold state_is.
    rewrite bool_decide_eq_false_2 by (simpl; congruence). done.
  - unfold alloc_slot. rewrite (scan_first (state_is UNUSED) _ 0 i (set_killed 1 u)).
    + change (nextpid (upd i (set_killed 1) s)) with (nextpid s). by rewrite (proj2 (Z.eqb_neq _ _) Hn).
    + simpl. by rewrite list_lookup_alter_eq, Hi.
    + unfold state_is. by apply bool_decide_eq_true_2.
    + intros j q Hj Hq. simpl in Hq. rewrite list_lookup_alter_ne in Hq by lia.
      apply bool_decide_eq_false_2. eauto.
  - simpl. rewrite alter_alter, list_lookup_alter_eq, Hi. done.
Qed.
End ops.

(** ** A run of the system

    A kernel whose allocator hands out page after page and whose other calls
    succeed, and a run with it: boot, init runs, forks, the child runs on a
    second CPU and exits. *)
Module Demo.
#[export] Instance demo_kernel : Kernel Z := {
  k_kalloc := λ k, Ok (k, k + 4096);
  k_kfree := λ _, mret tt;
  k_setupkvm := λ k, Ok (k, k + 4096);
  k_inituvm := λ _, mret tt;
  k_copyuvm := λ _ _ k, Ok (k, k + 4096);
  k_freevm := λ _, mret tt;
  k_allocuvm := λ _ _ n, mret n;
  k_deallocuvm := λ _ _ n, mret n;
  k_switchuvm := λ _ _, mret tt;
  k_filedup := λ _, mret tt;
  k_fileclose := λ _, mret [];
  k_idup := λ _, mret tt;
  k_iput := λ _, mret [];
  k_begin_op := mret tt;
  k_end_op := mret [];
  k_namei_root := mret (Some 0%nat);
  k_forkret := 0;
  k_trapret := 0
}.

Definition after {A} (c : M (pst Z) A) (s : pst Z) : pst Z :=
  match c s with Ok (_, s') => s' | _ => s end.

Definition s0 : pst Z := boot 2 4096.
Definition s1 : pst Z := after userinit s0.
Definition s2 : pst Z := after (dispatch 0 0) s1.
Definition s3 : pst Z := after (fork 0) s2.
Definition s4 : pst Z := after (dispatch 1 1) s3.
Definition s5 : pst Z := after (exit 1) s4.

Lemma reach1 : reachable s1.
Proof.
  eapply reach_steps; [exact (reach_boot 2 4096)|].
  apply (userinit_steps _); [apply boot_inv|done|vm_compute; reflexivity].
Qed.

Lemma reach2 : reachable s2.
Proof.
  eapply reach_step; [exact reach1|].
  apply (st_dispatch _ 0 0 true); vm_compute; reflexivity.
Qed.

Lemma on2 : on_cpu s2 0.
Proof. exists 0%nat. vm_compute. reflexivity. Qed.

Lemma fork2 : fork 0 s2 = Ok (2, s3).
Proof. vm_compute. reflexivity. Qed.

Lemma reach3 : reachable s3.
Proof.
  eapply reach_steps; [exact reach2|].
  apply (fork_steps s2 0 2 s3); [apply reachable_inv, reach2|exact on2|exact fork2].
Qed.

Lemma reach4 : reachable s4.
Proof.
  eapply reach_step; [exact reach3|].
  apply (st_dispatch _ 1 1 true); vm_compute; reflexivity.
Qed.

Lemma on4 : on_cpu s4 1.
Proof. exists 1%nat. vm_compute. reflexivity. Qed.

Lemma step5 : rtc pstep s4 s5 ∧ on_cpu s5 0.
Proof.
  split; [|exists 0%nat; vm_compute; reflexivity].
  destruct (exit_steps s4 1 s5 on4) as (Hni & s' & Hr & He); [vm_compute; reflexivity|].
  eapply rtc_r; [apply Hr|]. apply (st_exit s' 1 s5); [eapply run_on; [exact Hr|exact on4]| |exact He].
  rewrite (run_init _ _ Hr). exact Hni.
Qed.

Lemma reach5 : reachable s5.
Proof. eapply reach_steps; [exact reach4|apply step5]. Qed.

Lemma proc_table_consistent_witness : proc_inv s5.
Proof. apply proc_table_consistent. exact reach5. Defined.

Lemma proc_lifecycle_witness : table_evolves s1 s2.
Proof.
  apply proc_lifecycle; [exact reach1|].
  apply (st_dispatch _ 0 0 true); vm_compute; reflexivity.
Defined.

Lemma proc_operations_are_steps_witness : rtc pstep s4 s5.
Proof.
  destruct (proc_operations_are_steps s4 1 reach4) as (_ & _ & He & _).
  apply He; [exact on4|vm_compute; reflexivity].
Defined.

Lemma fork_copies_caller_witness : ∃ np q, procs s3 !! np = Some q ∧ p_pid q = 2 ∧ p_state q = RUNNABLE.
Proof.
  destruct (fork_copies_caller s2 0 (procs s2 !!! 0%nat) 2 s3 reach2 on2) as (_ & _ & np & u & q & _ & _ & ? & ? & ? & _).
  - vm_compute. reflexivity.
  - vm_compute. repeat constructor.
  - exact fork2.
  - done.
  - eauto.
Defined.

Lemma wait_reaps_zombie_witness : ∃ c s', wait_round 0 s5 = Ok (Some (p_pid c), s') ∧ 0 < p_pid c.
Proof.
  destruct (wait_reaps_zombie s5 0 1 (procs s5 !!! 1%nat) reach5 (proj2 step5)) as (j & c & c' & s' & ? & ? & _);
    [by eexists..|vm_compute; reflexivity|vm_compute; reflexivity|vm_compute; reflexivity|eauto].
Defined.

Lemma kill_zero_marks_next_process_witness : ∃ t1 t2 q, kill 0 s2 = Ok (0, t1) ∧
  alloc_slot t1 = Ok (Some 1%nat, t2) ∧ procs t2 !! 1%nat = Some q ∧ p_killed q = 1.
Proof.
  destruct (kill_zero_marks_next_process s2 1 (procs s2 !!! 1%nat) reach2) as (t1 & t2 & q & ? & ? & ? & _ & ?);
    [vm_compute; reflexivity|done|done|done| |eauto 10].
  intros [|[|j]] q Hj Hq; [|lia..]. vm_compute in Hq. injection Hq as <-. done.
Defined.
End Demo.
