(* ===== verification/History.v ===== *)
(** * The history of exited processes

    [exit] appends the exiting process to a ring of [MAX_HISTORY] entries
    ([process_history], [history_count], [history_index] of [proc.c]).  The
    ring refines a list: it holds the last [MAX_HISTORY] processes that
    exited, in order. *)

From S2P Require Import Prelude CString Proc ProcInv ProcOps.

(** What an entry says: pid, name as a C string, memory size. *)
Definition hview (e : hentry) : Z * list Z * Z := (h_pid e, cut (h_name e), h_mem e).

(** What [exit] records of a process. *)
Definition precord (p : proc) : Z * list Z * Z := (p_pid p, cut (take 15 (p_name p)), s32 (p_sz p)).

(** [int start = (history_count < MAX_HISTORY) ? 0 : history_index;]
    [int index = (start + i) % MAX_HISTORY;] of [sys_gethistory]. *)
Definition hist_slot (count index i : Z) : nat :=
  let start := if count <? MAX_HISTORY then 0 else index in
  Z.to_nat ((start + i) mod MAX_HISTORY).

(** ** Name copies *)

Lemma arr_safestrcpy_cut dst src : length dst = 16%nat → length src = 16%nat →
  cut (arr_safestrcpy dst src CMD_NAME_MAX) = cut (take 15 src).
Proof.
  intros Hd Hs. unfold arr_safestrcpy. rewrite Hd. change (Z.of_nat 16) with 16.
  set (m := λ x, _). change (safestrcpy m 0 16 CMD_NAME_MAX) with (safestrcpy_loop m 0 16 15).
  rewrite <- cstr_cut, safestrcpy_str by lia. rewrite cstr_cut. f_equal.
  apply list_eq. intros i. destruct (decide (i < 15)%nat) as [Hi|Hi].
  - rewrite lookup_bytes by done. rewrite lookup_take_lt by done.
    destruct (lookup_lt_is_Some_2 src i) as [x Hx]; [lia|]. rewrite Hx. f_equal.
    unfold m. rewrite (proj2 (Z.ltb_ge _ _)) by lia.
    replace (Z.to_nat (16 + Z.of_nat i - 16)) with i by lia. by apply list_lookup_total_correct.
  - rewrite !lookup_ge_None_2; [done|rewrite length_take; lia|rewrite length_bytes; lia].
Qed.

Lemma length_arr_safestrcpy dst src n : length (arr_safestrcpy dst src n) = length dst.
Proof. unfold arr_safestrcpy. apply length_bytes. Qed.

(** ** The ring *)

Section history.
Context {K : Type} `{Kernel K}.
Implicit Types (s : pst K) (log : list (Z * list Z * Z)).

(** The state of the ring after the exits of [log]. *)
Record hist_inv s log : Prop := {
  hi_len : length (phist s) = Z.to_nat MAX_HISTORY;
  hi_names : Forall (λ e, length (h_name e) = 16%nat) (phist s);
  hi_count : hcount s = Z.min (Z.of_nat (length log)) MAX_HISTORY;
  hi_index : hindex s = Z.of_nat (length log) mod MAX_HISTORY;
  hi_entry i r : log !! i = Some r → Z.of_nat (length log) ≤ Z.of_nat i + MAX_HISTORY →
    hview <$> phist s !! Z.to_nat (Z.of_nat i mod MAX_HISTORY) = Some r
}.

Lemma boot_hist n (k : K) : hist_inv (boot n k) [].
Proof. split; try done. vm_compute. repeat constructor. Qed.

Lemma exit_hist s log cur : hist_inv s log → length (p_name (procs s !!! cur)) = 16%nat →
  hist_inv (exit_history cur s) (log ++ [precord (procs s !!! cur)]).
Proof.
  intros [Hl Hn Hc Hi He] Hp. set (p := procs s !!! cur) in *.
  assert (MAX_HISTORY = 100) as EM by done. rewrite EM in *.
  pose proof (Z.mod_pos_bound (Z.of_nat (length log)) 100 eq_refl) as Hb.
  assert (∃ e, phist s !! Z.to_nat (hindex s) = Some e) as [e0 He0].
  { apply lookup_lt_is_Some_2. rewrite Hl, Hi. lia. }
  pose proof (Forall_lookup_1 _ _ _ _ Hn He0) as Hn0. simpl in Hn0.
  unfold exit_history. fold p. rewrite (list_lookup_total_correct _ _ _ He0).
  set (e := HEntry _ _ _). assert (hview e = precord p) as Hv.
  { unfold e, hview, precord. simpl. by rewrite arr_safestrcpy_cut. }
  split; simpl; rewrite ?length_app; simpl.
  - by rewrite length_insert, Hl.
  - apply Forall_insert; [done|]. unfold e. simpl. by rewrite length_arr_safestrcpy.
  - rewrite EM, Hc. bcase; lia.
  - rewrite EM, Hi, Zplus_mod_idemp_l. f_equal. lia.
  - rewrite EM. intros i r Hr Hle. destruct (decide (i = length log)) as [->|Hne].
    + rewrite lookup_app_r, Nat.sub_diag in Hr by lia. injection Hr as <-.
      rewrite <- Hi, list_lookup_insert_eq; [by rewrite <- Hv|]. by eapply lookup_lt_Some.
    + assert (i < length log)%nat as Hlt by (apply lookup_lt_Some in Hr; rewrite length_app in Hr; simpl in Hr; lia).
      rewrite lookup_app_l in Hr by done. rewrite list_lookup_insert_ne; [apply He; [done|lia]|].
      rewrite Hi. intros E. apply (f_equal Z.of_nat) in E. rewrite !Z2Nat.id in E by (apply Z.mod_pos_bound; lia).
      pose proof (Z.div_mod (Z.of_nat (length log)) 100). pose proof (Z.div_mod (Z.of_nat i) 100). lia.
Qed.

(** Only the first part of [exit] touches the ring. *)
Definition same_hist s s' : Prop :=
  phist s' = phist s ∧ hcount s' = hcount s ∧ hindex s' = hindex s.

Lemma same_hist_inv s s' log : same_hist s s' → hist_inv s log → hist_inv s' log.
Proof. intros (E1 & E2 & E3) [? ? ? ? ?]. split; rewrite ?E1, ?E2, ?E3; auto. Qed.

Lemma exit_final_hist s cur s' : exit_final cur s = Ok (tt, s') → same_hist s s'.
Proof.
  unfold exit_final. generalize (seq 0 NPROC). intros is_ He. minv.
  apply sched_Ok in He as ->. done.
Qed.

Lemma pstep_hist s s' : pstep s s' → same_hist s s' ∨ ∃ cur, on_cpu s cur ∧ s' = exit_history cur s.
Proof.
  intros Hs. destruct Hs as [s i s' Ha|s i p f|s i p|s i p|s cur i p|s i p|s cur f|s k|s cur Hon|s cur s' _ _ He
    |s cur chan s' _ _ Hs|s cur|s cur r s' _ Hw|s chan|s pid r s' Hk|s cur s' _ Hs|s c i b s' _ Hd];
    try (left; split_and!; reflexivity).
  - apply alloc_slot_Some in Ha as (p & _ & _ & _ & ->). by left.
  - right. eauto.
  - left. exact (exit_final_hist _ _ _ He).
  - unfold sleep_enter in Hs. minv. apply sched_Ok in Hs as ->. by left.
  - apply wait_round_cases in Hw as [(i & p & k & _ & _ & _ & _ & ->)|[(-> & _)|(_ & Hs & _)]]; [by left..|].
    unfold sleep_enter in Hs. minv. apply sched_Ok in Hs as ->. by left.
  - apply kill_cases in Hk as [(_ & -> & _)|(_ & i & p & _ & _ & ->)]; by left.
  - unfold yield in Hs. minv. apply sched_Ok in Hs as ->. by left.
  - unfold dispatch in Hd. kinv. destruct (negb _); kinv; by left.
Qed.

(** Steps of the system with the list of the processes that exited so far. *)
Definition hstep (x y : pst K * list (Z * list Z * Z)) : Prop :=
  pstep x.1 y.1 ∧
  ((same_hist x.1 y.1 ∧ y.2 = x.2) ∨
   ∃ cur, on_cpu x.1 cur ∧ length (p_name (procs x.1 !!! cur)) = 16%nat ∧
     y.1 = exit_history cur x.1 ∧ y.2 = x.2 ++ [precord (procs x.1 !!! cur)]).

Definition htrace s log : Prop := ∃ n k, rtc hstep (boot n k, []) (s, log).

(** Every step extends such a run, adding at most the process that exits. *)
Lemma htrace_step s log s' : htrace s log → pstep s s' →
  (∀ cur, on_cpu s cur → length (p_name (procs s !!! cur)) = 16%nat) →
  htrace s' log ∨ ∃ cur, on_cpu s cur ∧ htrace s' (log ++ [precord (procs s !!! cur)]).
Proof.
  intros (n & k & Ht) Hs Hn. destruct (pstep_hist _ _ Hs) as [Hh|(cur & Hon & ->)].
  - left. exists n, k. eapply rtc_r; [exact Ht|]. split; [exact Hs|]. by left.
  - right. exists cur. split; [done|]. exists n, k. eapply rtc_r; [exact Ht|].
    split; [exact Hs|]. right. exists cur. auto.
Qed.

Lemma htrace_inv s log : htrace s log → hist_inv s log.
Proof.
  intros (n & k & Ht). change (hist_inv (s, log).1 (s, log).2).
  pose proof (boot_hist n k) as Hb. change (hist_inv (boot n k, @nil (Z * list Z * Z)).1 (boot n k, @nil (Z * list Z * Z)).2) in Hb.
  induction Ht as [|x y z [_ Hs] _ IH]; [done|]. apply IH.
  destruct Hs as [[Hh ->]|(cur & _ & Hl & -> & ->)]; eauto using same_hist_inv, exit_hist.
Qed.

(** The entries [sys_gethistory] visits are those of the last exits, oldest
    first. *)
Lemma hist_slot_entry s log i : hist_inv s log → 0 ≤ i < hcount s →
  hview <$> phist s !! hist_slot (hcount s) (hindex s) i =
    log !! Z.to_nat (Z.of_nat (length log) - hcount s + i).
Proof.
  intros [Hl _ Hc Hi He] Hr. assert (MAX_HISTORY = 100) as EM by done.
  unfold hist_slot. rewrite EM in *.
  destruct (lookup_lt_is_Some_2 log (Z.to_nat (Z.of_nat (length log) - hcount s + i))) as [r Hr']; [lia|].
  rewrite Hr', <- (He _ _ Hr') by lia. do 3 f_equal. rewrite Z2Nat.id by lia.
  destruct (Z.ltb_spec (hcount s) 100) as [Hlt|Hge].
  - f_equal. lia.
  - rewrite Hi, Zplus_mod_idemp_l. replace (hcount s) with 100 by lia.
    replace (Z.of_nat (length log) + i) with (Z.of_nat (length log) - 100 + i + 1 * 100) by lia.
    by rewrite Z_mod_plus_full.
Qed.

(** The recorded values fit the fields of an entry. *)
Definition record_ok (r : Z * list Z * Z) : Prop :=
  0 < r.1.1 < 2 ^ 31 ∧ - 2 ^ 31 ≤ r.2 < 2 ^ 31 ∧ (length r.1.2 ≤ 15)%nat.

Lemma length_cut l : (length (cut l) ≤ length l)%nat.
Proof. induction l as [|b l IH]; simpl; [lia|]. destruct (b =? 0); simpl; lia. Qed.

Lemma precord_ok s cur : proc_inv s → on_cpu s cur → record_ok (precord (procs s !!! cur)).
Proof.
  intros Hinv Hon. destruct (on_cpu_running _ _ (inv_cpu _ Hinv) Hon) as (p & Hp & Hr).
  rewrite (list_lookup_total_correct _ _ _ Hp). unfold precord, record_ok. simpl.
  destruct (inv_pid _ Hinv) as [Hn Hrange _]. specialize (Hrange _ _ Hp). rewrite Hr in Hrange.
  unfold INT_MAX in Hn. split_and!; try (specialize (Hrange ltac:(done)); lia); try apply s32_range.
  pose proof (length_cut (take 15 (p_name p))). rewrite length_take in *. lia.
Qed.

Lemma htrace_ok s log : htrace s log → reachable s ∧ Forall record_ok log.
Proof.
  intros (n & k & Ht). assert (∀ x y, rtc hstep x y → reachable x.1 → Forall record_ok x.2 →
    reachable y.1 ∧ Forall record_ok y.2) as Hi.
  { clear. intros x y Ht. induction Ht as [|x y z [Hs Hc] _ IH]; [done|]. intros Hr Hf. apply IH.
    - by eapply reach_step.
    - destruct Hc as [[_ ->]|(cur & Hon & _ & _ & ->)]; [done|]. apply Forall_app. split; [done|].
      constructor; [|done]. apply precord_ok; [by apply reachable_inv|done]. }
  apply (Hi _ _ Ht); [apply reach_boot|constructor].
Qed.

(** While the count is 0 nobody has exited. *)
Lemma no_exits_htrace s : reachable s → hcount s = 0 → htrace s [].
Proof.
  intros (n & k & Hs). assert (0 ≤ hcount s ∧ (hcount s = 0 → htrace s [])) as [_ Hi]; [|exact Hi].
  refine (rtc_ind_r (R := pstep) (λ s, 0 ≤ hcount s ∧ (hcount s = 0 → htrace s [])) (boot n k) _ _ s Hs).
  { split; [done|by exists n, k]. }
  clear s Hs. intros s s' _ Hstep [Hge IH]. destruct (pstep_hist _ _ Hstep) as [Hh|(cur & _ & ->)].
  - pose proof Hh as (_ & -> & _). split; [done|]. intros E. destruct (IH E) as (n' & k' & Ht).
    exists n', k'. eapply rtc_r; [exact Ht|]. split; [exact Hstep|]. by left.
  - unfold exit_history. simpl. destruct (Z.ltb_spec (hcount s) MAX_HISTORY); [lia|].
    unfold MAX_HISTORY in *. lia.
Qed.
End history.
