(* ===== verification/Syscall.v ===== *)
(** * System calls

    Models [syscall.c] (fetching arguments from user memory, the dispatch
    through [syscalls], blocked calls) and [sysproc.c] (the process system
    calls, [gethistory], [block], [unblock]).

    A handler returns [Some r] when the call returns [r], and [None] when it
    went to sleep in the kernel or does not return.  The handlers of
    [sysfile.c] and [exec] are parameters here. *)

From S2P Require Import Prelude CString Layout Proc ProcInv ProcOps History.

Definition MAX_SYSCALLS : Z := 26.
Definition SYS_fork : Z := 1.
Definition SYS_exit : Z := 2.
Definition SYS_wait : Z := 3.
Definition SYS_kill : Z := 6.
Definition SYS_exec : Z := 7.
Definition SYS_getpid : Z := 11.
Definition SYS_sbrk : Z := 12.
Definition SYS_sleep : Z := 13.
Definition SYS_uptime : Z := 14.
Definition SYS_gethistory : Z := 22.
Definition SYS_block : Z := 23.
Definition SYS_unblock : Z := 24.
Definition file_calls : list Z := [4; 5; 7; 8; 9; 10; 15; 16; 17; 18; 19; 20; 21; 25].

(** ** Fetching from user memory

    [um] is the memory of the process, [sz] its size. *)

Definition fetchint (sz : Z) (um : mem) (addr : Z) : option Z :=
  if (sz <=? addr) || (sz <? u32 (addr + 4)) then None else Some (s32 (load32 um addr)).

(** The loop of [fetchstr] over the [n] bytes from [p] to the end. *)
Fixpoint scan_nul (um : mem) (p : Z) (n : nat) (len : Z) : option Z :=
  match n with
  | O => None
  | S n' => if um p =? 0 then Some len else scan_nul um (p + 1) n' (len + 1)
  end.

Definition fetchstr (sz : Z) (um : mem) (addr : Z) : option (Z * Z) :=
  if sz <=? addr then None
  else pair addr <$> scan_nul um addr (Z.to_nat (sz - addr)) 0.

(** [strcmp]; the fuel bounds the search for the end of [p]. *)
Fixpoint strcmp (fuel : nat) (m : mem) (p q : Z) : option Z :=
  match fuel with
  | O => None
  | S f => if truthy (m p) && (m p =? m q) then strcmp f m (p + 1) (q + 1)
           else Some (u8 (m p) - u8 (m q))
  end.

(** [safestrcpy] of a kernel array into user memory: the array is put behind
    the 32-bit address space for the copy. *)
Definition copyout_str (um : mem) (dst : Z) (src : list Z) (n : Z) : mem :=
  let m : mem := λ x, if x <? 2 ^ 32 then um x else src !!! Z.to_nat (x - 2 ^ 32) in
  λ x, if x <? 2 ^ 32 then safestrcpy m dst (2 ^ 32) n x else um x.

(** ** The system calls *)

(** The state the handlers work on; [umem i] is the memory of process [i]. *)
Record ksys (K : Type) := KSys {
  kps : pst K;
  umem : nat → mem;
  blocked : list Z;
  ticks : Z
}.
Arguments KSys {K}. Arguments kps {K}. Arguments umem {K}. Arguments blocked {K}. Arguments ticks {K}.

Section syscalls.
Context {K : Type} `{Kernel K}.
Abbreviation KS := (ksys K).

Definition set_kps (p : pst K) (s : KS) : KS := KSys p (umem s) (blocked s) (ticks s).
Definition set_umem (cur : nat) (m : mem) (s : KS) : KS :=
  KSys (kps s) (λ i, if decide (i = cur) then m else umem s i) (blocked s) (ticks s).
Definition set_blocked (b : list Z) (s : KS) : KS := KSys (kps s) (umem s) b (ticks s).

(** A call into [proc.c]. *)
Definition pcall {A} (c : M (pst K) A) : M KS A := λ s,
  match c (kps s) with
  | Ok (a, p) => Ok (a, set_kps p s)
  | Panic m => Panic m
  | Blocked => Blocked
  | Undef => Undef
  end.

Definition curproc (cur : nat) : M KS proc := gets (λ s, procs (kps s) !!! cur).
Definition curmem (cur : nat) : M KS mem := gets (λ s, umem s cur).

Definition argint (cur : nat) (n : Z) : M KS (option Z) :=
  p ← curproc cur; um ← curmem cur;
  mret (fetchint (p_sz p) um (u32 (tf_esp (p_tfv p) + 4 + 4 * n))).

Definition argptr (cur : nat) (n size : Z) : M KS (option Z) :=
  p ← curproc cur;
  o ← argint cur n;
  match o with
  | None => mret None
  | Some i =>
      if (size <? 0) || (p_sz p <=? u32 i) || (p_sz p <? u32 (u32 i + size)) then mret None
      else mret (Some (u32 i))
  end.

Definition argstr (cur : nat) (n : Z) : M KS (option (Z * Z)) :=
  p ← curproc cur; um ← curmem cur;
  o ← argint cur n;
  match o with
  | None => mret None
  | Some addr => mret (fetchstr (p_sz p) um (u32 addr))
  end.

(** A handler that starts by fetching an int. *)
Definition with_int (cur : nat) (n : Z) (k : Z → M KS (option Z)) : M KS (option Z) :=
  o ← argint cur n;
  match o with None => mret (Some (-1)) | Some v => k v end.

(** The memory of the child [fork] made, a copy of the caller's. *)
Definition copy_umem (cur : nat) (pid : Z) (s : KS) : KS :=
  match scan (λ p, p_pid p =? pid) (procs (kps s)) 0 with
  | Some i => set_umem i (umem s cur) s
  | None => s
  end.
Definition sys_fork (cur : nat) : M KS (option Z) :=
  r ← pcall (fork cur);
  (if 0 <? r then modify (copy_umem cur r) else mret tt);;
  mret (Some r).
Definition sys_exit (cur : nat) : M KS (option Z) := pcall (exit cur);; mret None.
Definition sys_wait (cur : nat) : M KS (option Z) := pcall (wait_round cur).
Definition sys_kill (cur : nat) : M KS (option Z) :=
  with_int cur 0 (λ pid, r ← pcall (kill pid); mret (Some r)).
Definition sys_getpid (cur : nat) : M KS (option Z) :=
  p ← curproc cur; mret (Some (p_pid p)).

Definition sys_sbrk (cur : nat) : M KS (option Z) :=
  with_int cur 0 (λ n,
    p ← curproc cur;
    let addr := s32 (p_sz p) in
    r ← pcall (growproc cur n);
    mret (Some (if r <? 0 then -1 else addr))).

(** [&ticks] as a sleep channel. *)
Definition ticks_chan : vptr := ObjPtr 1.

(** One round of the loop of [sys_sleep]; the comparison is unsigned. *)
Definition sleep_round (cur : nat) (ticks0 n : Z) : M KS (option Z) :=
  t ← gets ticks;
  if u32 (t - ticks0) <? u32 n then
    p ← curproc cur;
    if truthy (p_killed p) then mret (Some (-1))
    else pcall (sleep_enter cur ticks_chan);; mret None
  else mret (Some 0).

Definition sys_sleep (cur : nat) : M KS (option Z) :=
  with_int cur 0 (λ n, ticks0 ← gets ticks; sleep_round cur ticks0 n).

Definition sys_uptime (cur : nat) : M KS (option Z) :=
  t ← gets ticks; mret (Some (s32 t)).

(** [sizeof(struct history_entry)]: an int, 16 characters, an int. *)
Definition sizeof_hentry : Z := 24.

(** [hist_buf[i] = process_history[index]], field by field. *)
Definition put_hentry (um : mem) (a : Z) (e : hentry) : mem :=
  let m1 := store32 um a (u32 (h_pid e)) in
  let m2 := copyout_str m1 (a + 4) (h_name e) CMD_NAME_MAX in
  store32 m2 (a + 20) (u32 (h_mem e)).

(** The loop of [sys_gethistory], for [i] from [i] on, [n] times. *)
Fixpoint copy_history (h : list hentry) (count index buf : Z) (um : mem) (i : Z) (n : nat) : mem :=
  match n with
  | O => um
  | S n' =>
      let e := h !!! hist_slot count index i in
      copy_history h count index buf (put_hentry um (buf + sizeof_hentry * i) e) (i + 1) n'
  end.

(** Kernel code stores [n] bytes at the user address [a].  The pages of the
    process end at [PGROUNDUP(sz)].  A store beyond them faults in the kernel,
    where [trap] panics; from [KERNBASE] on it would go to the kernel. *)
Definition user_store (cur : nat) (a n : Z) : M KS unit :=
  p ← curproc cur;
  let limit := PGROUNDUP (p_sz p) in
  if (n <=? 0) || (a + n <=? limit) then mret tt
  else if limit <? KERNBASE then panic "trap" else undef.

Definition sys_gethistory (cur : nat) : M KS (option Z) :=
  b ← argptr cur 0 sizeof_hentry;
  match b with
  | None => mret (Some (-1))
  | Some buf =>
      with_int cur 1 (λ max_entries,
        p ← gets kps;
        let copy_count := if hcount p <? max_entries then hcount p else max_entries in
        user_store cur buf (sizeof_hentry * copy_count);;
        um ← curmem cur;
        modify (set_umem cur
          (copy_history (phist p) (hcount p) (hindex p) buf um 0 (Z.to_nat copy_count)));;
        mret (Some copy_count))
  end.

Definition sys_block (cur : nat) : M KS (option Z) :=
  with_int cur 0 (λ syscall_id,
    if (syscall_id <? 0) || (MAX_SYSCALLS <=? syscall_id) then mret (Some (-1))
    else if (syscall_id =? SYS_fork) || (syscall_id =? SYS_exit) || (syscall_id =? SYS_unblock)
    then mret (Some (-1))
    else
      modify (λ s, set_blocked (<[Z.to_nat syscall_id := 1]> (blocked s)) s);;
      mret (Some 0)).

Definition sys_unblock (cur : nat) : M KS (option Z) :=
  with_int cur 0 (λ syscall_id,
    if (syscall_id <? 0) || (MAX_SYSCALLS <=? syscall_id) then mret (Some (-1))
    else
      modify (λ s, set_blocked (<[Z.to_nat syscall_id := 0]> (blocked s)) s);;
      mret (Some 0)).

(** [curproc->tf->eax = v] *)
Definition put_eax (cur : nat) (v : Z) : M KS unit :=
  modify (λ s, set_kps (upd cur (λ p, set_tfv (set_eax (u32 v) (p_tfv p)) p) (kps s)) s).

(** The table [syscalls]; [file_call num] is the handler of [sysfile.c]. *)
Definition syscalls (file_call : Z → nat → M KS (option Z)) (num : Z) : option (nat → M KS (option Z)) :=
  if num =? SYS_fork then Some sys_fork
  else if num =? SYS_exit then Some sys_exit
  else if num =? SYS_wait then Some sys_wait
  else if num =? SYS_kill then Some sys_kill
  else if num =? SYS_getpid then Some sys_getpid
  else if num =? SYS_sbrk then Some sys_sbrk
  else if num =? SYS_sleep then Some sys_sleep
  else if num =? SYS_uptime then Some sys_uptime
  else if num =? SYS_gethistory then Some sys_gethistory
  else if num =? SYS_block then Some sys_block
  else if num =? SYS_unblock then Some sys_unblock
  else if bool_decide (num ∈ file_calls) then Some (file_call num)
  else None.

(** [syscall]: the result in [eax], unless the handler is asleep. *)
Definition syscall (file_call : Z → nat → M KS (option Z)) (cur : nat) : M KS unit :=
  p ← curproc cur;
  let num := s32 (tf_eax (p_tfv p)) in
  match (if (0 <? num) && (num <? MAX_SYSCALLS) then syscalls file_call num else None) with
  | Some f =>
      b ← gets blocked;
      if truthy (b !!! Z.to_nat num) && negb (num =? SYS_exec) then put_eax cur (-1)
      else
        r ← f cur;
        match r with
        | Some v => put_eax cur v
        | None => mret tt
        end
  | None => put_eax cur (-1)
  end.

(** ** Arguments *)

Lemma argint_eq cur n s :
  argint cur n s = Ok (fetchint (p_sz (procs (kps s) !!! cur)) (umem s cur)
    (u32 (tf_esp (p_tfv (procs (kps s) !!! cur)) + 4 + 4 * n)), s).
Proof. done. Qed.

(** The [n]th argument word of process [cur]. *)
Definition arg_word (cur : nat) (n : Z) (s : KS) : option Z :=
  fetchint (p_sz (procs (kps s) !!! cur)) (umem s cur)
    (u32 (tf_esp (p_tfv (procs (kps s) !!! cur)) + 4 + 4 * n)).

Lemma with_int_eq cur n k s :
  with_int cur n k s = match arg_word cur n s with None => Ok (Some (-1), s) | Some v => k v s end.
Proof.
  unfold with_int, arg_word. rewrite (bind_ok _ _ _ _ _ (argint_eq cur n s)). by destruct (fetchint _ _ _).
Qed.

Lemma fetchint_range sz um a v : fetchint sz um a = Some v → - 2 ^ 31 ≤ v < 2 ^ 31.
Proof. unfold fetchint. destruct (_ || _); [done|]. intros [= <-]. apply s32_range. Qed.

Lemma scan_nul_spec um p n l0 len : scan_nul um p n l0 = Some len ↔
  l0 ≤ len < l0 + Z.of_nat n ∧ um (p + (len - l0)) = 0 ∧ ∀ i, 0 ≤ i < len - l0 → um (p + i) ≠ 0.
Proof.
  revert p l0. induction n as [|n IH]; intros p l0; cbn [scan_nul]; [split; [done|lia]|].
  destruct (Z.eqb_spec (um p) 0) as [E|E].
  - split.
    + intros [= <-]. rewrite Z.sub_diag, Z.add_0_r. split_and!; [lia..|done|lia].
    + intros (Hr & _ & Hnz). destruct (Z.eq_dec len l0) as [->|]; [done|].
      destruct (Hnz 0); [lia|]. by rewrite Z.add_0_r.
  - rewrite IH. replace (p + 1 + (len - (l0 + 1))) with (p + (len - l0)) by lia. split.
    + intros (Hr & Hz & Hnz). split_and!; [lia..|done|]. intros i Hi.
      destruct (Z.eq_dec i 0) as [->|]; [by rewrite Z.add_0_r|].
      replace (p + i) with (p + 1 + (i - 1)) by lia. apply Hnz. lia.
    + intros (Hr & Hz & Hnz). destruct (Z.eq_dec len l0) as [->|].
      { rewrite Z.sub_diag, Z.add_0_r in Hz. done. }
      split_and!; [lia..|done|]. intros i Hi. replace (p + 1 + i) with (p + (i + 1)) by lia. apply Hnz. lia.
Qed.

(** [argptr] accepts exactly the blocks that lie in the memory of the
    process: for a process of at most 2 GB, and the [n]th argument word [i],
    it returns the address [i] if and only if [size] is not negative, the
    address is below the size of the process and the block ends within it; and
    it changes nothing. *)
Theorem argptr_checks cur n size (s : KS) i a s' :
  let sz := p_sz (procs (kps s) !!! cur) in
  0 ≤ sz ≤ 2 ^ 31 → size < 2 ^ 31 → argint cur n s = Ok (Some i, s) →
  argptr cur n size s = Ok (Some a, s') ↔
    s' = s ∧ a = u32 i ∧ 0 ≤ size ∧ a < sz ∧ a + size ≤ sz.
Proof.
  intros sz Hsz Hsize Hi. unfold argptr, curproc. mstep. rewrite Hi. fold sz.
  pose proof (u32_range i) as Hr.
  destruct ((size <? 0) || (sz <=? u32 i) || (sz <? u32 (u32 i + size))) eqn:E.
  - split; [done|]. intros (_ & -> & H1 & H2 & H3). exfalso. revert E.
    rewrite (u32_small (u32 i + size)) by lia. bcase; simpl; lia || done.
  - apply orb_false_elim in E as [[E1 E2]%orb_false_elim E3].
    apply Z.ltb_ge in E1, E3. apply Z.leb_gt in E2. rewrite u32_small in E3 by lia.
    split; [intros [= <- <-]; lia || (split_and!; [done..|lia|lia|lia])|by intros (-> & -> & _)].
Qed.

(** [fetchstr] accepts exactly the NUL-terminated strings that end within
    the memory of the process, and returns the length. *)
Theorem fetchstr_spec sz um addr p len : 0 ≤ addr →
  fetchstr sz um addr = Some (p, len) ↔
    p = addr ∧ 0 ≤ len ∧ addr + len < sz ∧ um (addr + len) = 0 ∧
    ∀ i, 0 ≤ i < len → um (addr + i) ≠ 0.
Proof.
  intros Ha. unfold fetchstr. destruct (Z.leb_spec sz addr) as [Hs|Hs]; [split; [done|lia]|].
  destruct (scan_nul um addr _ 0) as [l|] eqn:E; simpl.
  - apply scan_nul_spec in E as (Hr & Hz & Hnz). rewrite Z.sub_0_r in *. split.
    + intros [= <- <-]. split_and!; [done|lia|lia|done..].
    + intros (-> & Hl & Hlt & Hz' & Hnz'). f_equal. f_equal.
      destruct (Z.lt_trichotomy l len) as [Hlt'|[->|Hgt]]; [|done|].
      * destruct (Hnz' l); [lia|done].
      * destruct (Hnz len); [lia|done].
  - split; [done|]. intros (-> & Hl & Hlt & Hz & Hnz).
    assert (scan_nul um addr (Z.to_nat (sz - addr)) 0 = Some len) as E'; [|congruence].
    apply scan_nul_spec. rewrite Z.sub_0_r. split_and!; [lia..|done|done].
Qed.

(** ** Blocked system calls *)

Lemma pcall_Ok {A} (c : M (pst K) A) s a s' : pcall c s = Ok (a, s') →
  ∃ p, c (kps s) = Ok (a, p) ∧ s' = set_kps p s.
Proof. unfold pcall. destruct (c (kps s)) as [[b p]| | |]; [|done..]. intros [= <- <-]. eauto. Qed.

(** [c] leaves the blocked set alone. *)
Definition keeps_blocked {A} (c : M KS A) : Prop :=
  ∀ s a s', c s = Ok (a, s') → blocked s' = blocked s.

Lemma keeps_ret {A} (a : A) : keeps_blocked (mret a).
Proof. intros s b s' [= _ <-]. done. Qed.
Lemma keeps_gets {A} (f : KS → A) : keeps_blocked (gets f).
Proof. intros s b s' [= _ <-]. done. Qed.
Lemma keeps_bind {A B} (c : M KS A) (k : A → M KS B) :
  keeps_blocked c → (∀ a, keeps_blocked (k a)) → keeps_blocked (c ≫= k).
Proof. intros Hc Hk s b s' (a & s1 & H1 & H2)%bind_inv. etrans; [eapply Hk|eapply Hc]; done. Qed.
Lemma keeps_curproc cur : keeps_blocked (curproc cur).
Proof. apply keeps_gets. Qed.
Lemma keeps_pcall {A} (c : M (pst K) A) : keeps_blocked (pcall c).
Proof. by intros s b s' (p & _ & ->)%pcall_Ok. Qed.
Lemma keeps_put_eax cur v : keeps_blocked (put_eax cur v).
Proof. by intros s b s' [= _ <-]. Qed.
Lemma keeps_copy_umem cur pid : keeps_blocked (modify (copy_umem cur pid)).
Proof. intros s b s' [= _ <-]. unfold copy_umem. by destruct (scan _ _ _). Qed.
Lemma keeps_if {A} (b : bool) (c d : M KS A) :
  keeps_blocked c → keeps_blocked d → keeps_blocked (if b then c else d).
Proof. by destruct b. Qed.
Lemma keeps_argint cur n : keeps_blocked (argint cur n).
Proof. by intros s b s' [= _ <-]. Qed.
Lemma keeps_with_int cur n k : (∀ v, keeps_blocked (k v)) → keeps_blocked (with_int cur n k).
Proof.
  intros Hk. apply keeps_bind; [apply keeps_argint|]. intros [v|]; [apply Hk|apply keeps_ret].
Qed.
Create HintDb keeps.
#[local] Hint Resolve keeps_ret keeps_gets keeps_bind keeps_curproc keeps_pcall keeps_put_eax keeps_if keeps_with_int keeps_copy_umem : keeps.

Lemma keeps_argptr cur n size : keeps_blocked (argptr cur n size).
Proof.
  apply keeps_bind; [apply keeps_gets|]. intros p. apply keeps_bind; [apply keeps_argint|].
  intros [i|]; auto with keeps.
Qed.

Lemma keeps_user_store cur a n : keeps_blocked (user_store cur a n).
Proof.
  apply keeps_bind; [apply keeps_gets|]. intros p. apply keeps_if; [apply keeps_ret|].
  destruct (_ <? _); by intros s b s'.
Qed.
Lemma keeps_gethistory cur : keeps_blocked (sys_gethistory cur).
Proof.
  apply keeps_bind; [apply keeps_argptr|]. intros [b|]; [|apply keeps_ret].
  apply keeps_with_int. intros v. apply keeps_bind; [apply keeps_gets|]. intros p.
  apply keeps_bind; [apply keeps_user_store|]. intros _.
  apply keeps_bind; [apply keeps_gets|]. intros um. apply keeps_bind; [|auto with keeps].
  by intros s a s' [= _ <-].
Qed.

(** The calls that must stay available are not blocked. *)
Definition critical : list Z := [SYS_fork; SYS_exit; SYS_unblock].
Record block_inv (s : KS) : Prop := {
  bi_len : length (blocked s) = Z.to_nat MAX_SYSCALLS;
  bi_free n : n ∈ critical → blocked s !! Z.to_nat n = Some 0
}.

Lemma block_inv_boot s : blocked s = replicate (Z.to_nat MAX_SYSCALLS) 0 → block_inv s.
Proof.
  intros Hb. split; rewrite Hb; [done|]. intros m Hm. unfold critical in Hm.
  apply lookup_replicate_2. unfold SYS_fork, SYS_exit, SYS_unblock in Hm. set_solver by (vm_compute; lia).
Qed.
Lemma block_inv_same s s' : blocked s' = blocked s → block_inv s → block_inv s'.
Proof. intros E [H1 H2]. by split; rewrite E. Qed.

Lemma sys_block_inv cur s r s' : block_inv s → sys_block cur s = Ok (r, s') → block_inv s'.
Proof.
  intros [Hl Hf] Hb. unfold sys_block in Hb. rewrite with_int_eq in Hb.
  destruct (arg_word cur 0 s) as [v|]; [|by minv].
  destruct (_ || _) eqn:E1 in Hb; [by minv|]. destruct (_ || _) eqn:E2 in Hb; [by minv|]. minv.
  apply orb_false_elim in E1 as [E0 E1], E2 as [[E2 E3]%orb_false_elim E4].
  split; simpl; [by rewrite length_insert|]. intros n Hn. rewrite list_lookup_insert_ne; [auto|].
  apply Z.eqb_neq in E2, E3, E4. apply Z.ltb_ge in E0. intros E.
  assert (0 ≤ n) by (unfold critical, SYS_fork, SYS_exit, SYS_unblock in Hn; set_solver by lia).
  assert (v = n) as -> by lia. unfold critical in Hn. set_solver.
Qed.

Lemma sys_unblock_inv cur s r s' : block_inv s → sys_unblock cur s = Ok (r, s') → block_inv s'.
Proof.
  intros [Hl Hf] Hb. unfold sys_unblock in Hb. rewrite with_int_eq in Hb.
  destruct (arg_word cur 0 s) as [v|]; [|by minv]. destruct (_ || _) in Hb; [by minv|]. minv.
  split; simpl; [by rewrite length_insert|]. intros n Hn.
  destruct (decide (Z.to_nat v = Z.to_nat n)) as [E|E]; [|rewrite list_lookup_insert_ne; auto].
  rewrite E, list_lookup_insert_eq; [done|]. by eapply lookup_lt_Some, Hf.
Qed.

Section dispatch.
Context (file_call : Z → nat → M KS (option Z)).
(** The calls of [sysfile.c] do not touch [blocked_syscalls]; shown in
    [Blocked.v]. *)
Hypothesis file_call_blocked : ∀ num cur, keeps_blocked (file_call num cur).

Lemma handler_inv num f cur s r s' : syscalls file_call num = Some f → block_inv s →
  f cur s = Ok (r, s') → block_inv s'.
Proof.
  intros Hf Hi Hr. unfold syscalls in Hf.
  repeat match type of Hf with
  | (if _ then Some sys_block else _) = _ => destruct (num =? SYS_block); [injection Hf as <-; by eapply sys_block_inv|]
  | (if _ then Some sys_unblock else _) = _ =>
      destruct (num =? SYS_unblock); [injection Hf as <-; by eapply sys_unblock_inv|]
  | (if ?b then Some ?h else _) = _ =>
      destruct b; [assert (keeps_blocked (h cur)) as Hk;
        [|injection Hf as <-; eapply block_inv_same; [eapply Hk, Hr|done]]|]
  end; try done; unfold sys_fork, sys_exit, sys_wait, sys_kill, sys_getpid, sys_sbrk, sys_sleep, sleep_round, sys_uptime;
    try apply keeps_gethistory; try apply keeps_with_int;
    repeat (apply keeps_bind || intros || apply keeps_if || auto with keeps); try done.
Qed.

Lemma syscall_inv cur s s' : block_inv s → syscall file_call cur s = Ok (tt, s') → block_inv s'.
Proof.
  intros Hi Hs. unfold syscall, curproc in Hs. minv.
  match type of Hs with match ?x with _ => _ end _ = _ => destruct x as [f|] eqn:Ef end; minv.
  - destruct (truthy _ && _).
    + eapply block_inv_same; [eapply keeps_put_eax, Hs|done].
    + apply bind_inv in Hs as (r & s2 & Hr & Hs). assert (block_inv s2) as Hi2.
      { destruct (_ && _) in Ef; [|done]. by eapply handler_inv. }
      destruct r; [eapply block_inv_same; [eapply keeps_put_eax, Hs|done]|by minv].
  - eapply block_inv_same; [eapply keeps_put_eax, Hs|done].
Qed.

(** A blocked system call other than [exec] is refused: the process gets
    -1, and nothing else changes, whatever the call would have done. *)
Theorem blocked_call_refused cur s num :
  num = s32 (tf_eax (p_tfv (procs (kps s) !!! cur))) →
  0 < num < MAX_SYSCALLS → num ≠ SYS_exec → blocked s !!! Z.to_nat num ≠ 0 →
  syscall file_call cur s = Ok (tt, set_kps
    (upd cur (λ p, set_tfv (set_eax (2 ^ 32 - 1) (p_tfv p)) p) (kps s)) s).
Proof.
  intros En Hr Hx Hb. unfold syscall, curproc. mstep. rewrite <- En.
  rewrite (proj2 (Z.ltb_lt 0 num)), (proj2 (Z.ltb_lt num MAX_SYSCALLS)) by lia. cbn [andb].
  destruct (syscalls file_call num); [|done]. mstep.
  by rewrite (proj2 (truthy_true _)), (proj2 (Z.eqb_neq num SYS_exec)) by done.
Qed.
End dispatch.

(** [unblock] undoes [block]: for a number in range that is not critical,
    [block] succeeds and marks exactly that call, and [unblock] of the same
    number then leaves every other entry as before and that one free. *)
Theorem unblock_undoes_block cur s n : block_inv s → arg_word cur 0 s = Some n →
  0 ≤ n < MAX_SYSCALLS → n ∉ critical →
  ∃ s1 s2, sys_block cur s = Ok (Some 0, s1) ∧ blocked s1 = <[Z.to_nat n := 1]> (blocked s) ∧
    blocked s1 !! Z.to_nat n = Some 1 ∧ sys_unblock cur s1 = Ok (Some 0, s2) ∧
    blocked s2 = <[Z.to_nat n := 0]> (blocked s) ∧ kps s2 = kps s ∧ umem s2 = umem s.
Proof.
  intros [Hl _] Ha Hr Hc. do 2 eexists. split; [|split; [|split; [|split]]].
  - unfold sys_block. rewrite with_int_eq, Ha.
    rewrite (proj2 (Z.ltb_ge n 0)), (proj2 (Z.leb_gt MAX_SYSCALLS n)) by lia. simpl.
    unfold critical in Hc.
    rewrite !(proj2 (Z.eqb_neq n _)) by set_solver. reflexivity.
  - done.
  - apply list_lookup_insert_eq. rewrite Hl. lia.
  - unfold sys_unblock. rewrite with_int_eq. unfold arg_word in *. simpl. rewrite Ha.
    rewrite (proj2 (Z.ltb_ge n 0)), (proj2 (Z.leb_gt MAX_SYSCALLS n)) by lia. reflexivity.
  - simpl. split; [|done]. apply list_insert_insert_eq.
Qed.
End syscalls.

(** ** The history in user memory *)

(** The [struct history_entry] at address [a]. *)
Definition entry_at (um : mem) (a : Z) : Z * list Z * Z :=
  (s32 (load32 um a), cstr um (a + 4) 16, s32 (load32 um (a + 20))).

Lemma copyout_str_frame um dst src x : ¬ (dst ≤ x < dst + 16) → copyout_str um dst src CMD_NAME_MAX x = um x.
Proof.
  intros Hx. unfold copyout_str. destruct (Z.ltb_spec x (2 ^ 32)); [|done].
  change (safestrcpy ?m dst (2 ^ 32) CMD_NAME_MAX) with (safestrcpy_loop m dst (2 ^ 32) 15).
  rewrite safestrcpy_frame by lia. by rewrite (proj2 (Z.ltb_lt _ _)).
Qed.

Lemma copyout_str_cstr um dst src : dst + 16 ≤ 2 ^ 32 → length src = 16%nat →
  cstr (copyout_str um dst src CMD_NAME_MAX) dst 16 = cut (take 15 src).
Proof.
  intros Hd Hs. unfold copyout_str. set (m := λ x, if x <? 2 ^ 32 then um x else _).
  change (safestrcpy m dst (2 ^ 32) CMD_NAME_MAX) with (safestrcpy_loop m dst (2 ^ 32) 15).
  transitivity (cstr (safestrcpy_loop m dst (2 ^ 32) 15) dst 16).
  { apply cstr_ext. intros x Hx. by rewrite (proj2 (Z.ltb_lt _ _)) by lia. }
  rewrite safestrcpy_str by lia. rewrite cstr_cut. f_equal.
  apply list_eq. intros i. destruct (decide (i < 15)%nat) as [Hi|Hi].
  - rewrite lookup_bytes by done. rewrite lookup_take_lt by done.
    destruct (lookup_lt_is_Some_2 src i) as [x Hx]; [lia|]. rewrite Hx. f_equal.
    unfold m. rewrite (proj2 (Z.ltb_ge _ _)) by lia.
    replace (Z.to_nat (2 ^ 32 + Z.of_nat i - 2 ^ 32)) with i by lia. by apply list_lookup_total_correct.
  - rewrite !lookup_ge_None_2; [done|rewrite length_take; lia|rewrite length_bytes; lia].
Qed.

Lemma cut_take n l : (length (cut l) ≤ n)%nat → cut (take n l) = cut l.
Proof.
  revert n. induction l as [|b l IH]; intros n Hn; [by rewrite take_nil|]. destruct n as [|n]; simpl in *.
  - destruct (b =? 0); [done|]. simpl in Hn. lia.
  - destruct (b =? 0); [done|]. f_equal. apply IH. simpl in Hn. lia.
Qed.

(** An entry as it is found in the ring. *)
Definition hentry_ok (e : hentry) : Prop :=
  - 2 ^ 31 ≤ h_pid e < 2 ^ 31 ∧ - 2 ^ 31 ≤ h_mem e < 2 ^ 31 ∧
  length (h_name e) = 16%nat ∧ (length (cut (h_name e)) ≤ 15)%nat.

Lemma put_hentry_frame um a e x : ¬ (a ≤ x < a + 24) → put_hentry um a e x = um x.
Proof.
  intros Hx. unfold put_hentry. rewrite store32_other by lia. rewrite copyout_str_frame by lia.
  apply store32_other. lia.
Qed.

Lemma put_hentry_view um a e : a + 24 ≤ 2 ^ 32 → hentry_ok e → entry_at (put_hentry um a e) a = hview e.
Proof.
  intros Ha (Hp & Hm & Hl & Hc). unfold entry_at, put_hentry, hview. f_equal; [f_equal|].
  - erewrite load32_ext; [|intros x Hx; rewrite store32_other, copyout_str_frame by lia; reflexivity].
    rewrite load_store32_same, u32_u32, s32_u32. by apply s32_small.
  - rewrite <- (cut_take 15) by done. rewrite <- (copyout_str_cstr (store32 um a (u32 (h_pid e))) (a + 4)) by lia.
    apply cstr_ext. intros x Hx. apply store32_other. lia.
  - rewrite load_store32_same, u32_u32, s32_u32. by apply s32_small.
Qed.

Lemma copy_history_frame h count index buf um i n x :
  ¬ (buf + sizeof_hentry * i ≤ x < buf + sizeof_hentry * (i + Z.of_nat n)) →
  copy_history h count index buf um i n x = um x.
Proof.
  unfold sizeof_hentry. revert um i. induction n as [|n IH]; intros um i Hx; cbn [copy_history]; [done|].
  rewrite IH by lia. apply put_hentry_frame. unfold sizeof_hentry. lia.
Qed.

Lemma entry_at_ext um um' a : (∀ x, a ≤ x < a + 24 → um x = um' x) → entry_at um a = entry_at um' a.
Proof.
  intros Hx. unfold entry_at. f_equal; [f_equal|].
  - f_equal. apply load32_ext. intros. apply Hx. lia.
  - apply cstr_ext. intros. apply Hx. lia.
  - f_equal. apply load32_ext. intros. apply Hx. lia.
Qed.

Lemma copy_history_entries h count index buf um i n :
  buf + sizeof_hentry * (i + Z.of_nat n) ≤ 2 ^ 32 →
  (∀ j, i ≤ j < i + Z.of_nat n → hentry_ok (h !!! hist_slot count index j)) →
  ∀ j, i ≤ j < i + Z.of_nat n →
    entry_at (copy_history h count index buf um i n) (buf + sizeof_hentry * j) =
      hview (h !!! hist_slot count index j).
Proof.
  revert um i. induction n as [|n IH]; intros um i Hb Hok j Hj; [lia|]. cbn [copy_history].
  destruct (Z.eq_dec j i) as [->|Hne].
  - erewrite entry_at_ext.
    2: { intros x Hx. apply copy_history_frame. unfold sizeof_hentry in *. lia. }
    apply put_hentry_view; [unfold sizeof_hentry in *; lia|]. apply Hok. lia.
  - apply IH; [unfold sizeof_hentry in *; lia| |lia]. intros j' Hj'. apply Hok. lia.
Qed.

Section gethistory.
Context {K : Type} `{Kernel K}.

(** The entries of the ring that hold recorded exits are well formed. *)
Lemma ring_entry (s : pst K) log i r : hist_inv s log → Forall record_ok log → 0 ≤ i < hcount s →
  log !! Z.to_nat (Z.of_nat (length log) - hcount s + i) = Some r →
  hentry_ok (phist s !!! hist_slot (hcount s) (hindex s) i) ∧
  hview (phist s !!! hist_slot (hcount s) (hindex s) i) = r.
Proof.
  intros Hh Hf Hi Hr. pose proof (hist_slot_entry _ _ _ Hh Hi) as E. rewrite Hr in E.
  destruct (phist s !! hist_slot _ _ _) as [e|] eqn:Ee; [|done]. injection E as E.
  rewrite (list_lookup_total_correct _ _ _ Ee). split; [|done].
  pose proof (Forall_lookup_1 _ _ _ _ Hf Hr) as (H1 & H2 & H3). subst r. simpl in *.
  split_and!; [lia..|exact (Forall_lookup_1 _ _ _ _ (hi_names _ _ Hh) Ee)|done].
Qed.

(** The result of a call with valid arguments. *)
Lemma gethistory_eq cur (s : ksys K) buf max : argptr cur 0 sizeof_hentry s = Ok (Some buf, s) →
  arg_word cur 1 s = Some max →
  let p := kps s in let c := Z.min (hcount p) max in
  sys_gethistory cur s = (user_store cur buf (sizeof_hentry * c);; modify (λ s, set_umem cur
    (copy_history (phist p) (hcount p) (hindex p) buf (umem s cur) 0 (Z.to_nat c)) s);; mret (Some c)) s.
Proof.
  intros Hb Hm p c. unfold sys_gethistory. rewrite (bind_ok _ _ _ _ _ Hb), with_int_eq, Hm.
  rewrite (bind_ok (gets _) _ _ _ _ eq_refl). cbv zeta. fold p.
  replace (if hcount p <? max then hcount p else max) with c by (unfold c; bcase; lia).
  unfold mbind, M_bind. by destruct (user_store _ _ _ s) as [[[] s1]| | |].
Qed.

Lemma user_store_fits cur a n (s : ksys K) : let sz := p_sz (procs (kps s) !!! cur) in
  0 ≤ sz ≤ KERNBASE → a + n ≤ sz → user_store cur a n s = Ok (tt, s).
Proof.
  intros sz Hsz Ha. unfold user_store, curproc. rewrite (bind_ok (gets _) _ _ _ _ eq_refl). fold sz. cbv zeta.
  pose proof (PGROUNDUP_bounds sz ltac:(unfold KERNBASE, PGSIZE in *; lia)) as [Hb _].
  by rewrite (proj2 (Z.leb_le (a + n) _)), orb_true_r by lia.
Qed.

(** The first [c] of the exits kept are copied, if there is room for them. *)
Lemma gethistory_spec cur (s : ksys K) log buf max : htrace (kps s) log →
  argptr cur 0 sizeof_hentry s = Ok (Some buf, s) → arg_word cur 1 s = Some max → 0 ≤ max →
  let sz := p_sz (procs (kps s) !!! cur) in
  let n := Z.min (Z.of_nat (length log)) MAX_HISTORY in
  let c := Z.min n max in
  0 ≤ sz ≤ KERNBASE → buf + sizeof_hentry * c ≤ sz →
  ∃ s', sys_gethistory cur s = Ok (Some c, s') ∧
    (∀ i, 0 ≤ i < c → log !! Z.to_nat (Z.of_nat (length log) - n + i) =
       Some (entry_at (umem s' cur) (buf + sizeof_hentry * i))) ∧
    (∀ x, ¬ (buf ≤ x < buf + sizeof_hentry * c) → umem s' cur x = umem s cur x) ∧
    kps s' = kps s ∧ blocked s' = blocked s.
Proof.
  intros Ht Hb Hm Hpos sz n c Hsz Hfit. pose proof (htrace_inv _ _ Ht) as Hh.
  destruct (htrace_ok _ _ Ht) as [_ Hf]. pose proof (hi_count _ _ Hh) as Hc. fold n in Hc.
  eexists. split.
  { rewrite (gethistory_eq cur s buf max Hb Hm), Hc. fold c. rewrite (bind_ok _ _ _ _ _ (user_store_fits cur buf _ s Hsz Hfit)). reflexivity. }
  simpl. rewrite decide_True by done.
  assert (∀ i, 0 ≤ i < c → ∃ r, log !! Z.to_nat (Z.of_nat (length log) - n + i) = Some r) as Hex.
  { intros i Hi. apply lookup_lt_is_Some_2. lia. }
  split_and!; [..|done|done].
  - intros i Hi. destruct (Hex i Hi) as [r Hr]. rewrite Hr. f_equal. rewrite <- Hc in *.
    rewrite copy_history_entries; [..|lia].
    + symmetry. eapply ring_entry; [done..|lia|done].
    + unfold sizeof_hentry, KERNBASE in *. lia.
    + intros j Hj. destruct (Hex j) as [r' Hr']; [lia|]. eapply ring_entry; [done..|lia|done].
  - intros x Hx. apply copy_history_frame. unfold sizeof_hentry in *. lia.
Qed.

(** C33: a program that asks [gethistory] for at least as many entries as are
    kept, with a buffer for them inside its memory, gets them all: the call
    returns the number of exits recorded (at most 100) and puts the last
    exits into the buffer, oldest first, each with pid, name and size of the
    process; it writes nothing else. *)
Theorem gethistory_returns_kept_exits cur (s : ksys K) log buf max : htrace (kps s) log →
  argptr cur 0 sizeof_hentry s = Ok (Some buf, s) → arg_word cur 1 s = Some max →
  let sz := p_sz (procs (kps s) !!! cur) in
  let n := Z.min (Z.of_nat (length log)) MAX_HISTORY in
  n ≤ max → 0 ≤ sz ≤ KERNBASE → buf + sizeof_hentry * n ≤ sz →
  ∃ s', sys_gethistory cur s = Ok (Some n, s') ∧
    (∀ i, 0 ≤ i < n → log !! Z.to_nat (Z.of_nat (length log) - n + i) =
       Some (entry_at (umem s' cur) (buf + sizeof_hentry * i))) ∧
    (∀ x, ¬ (buf ≤ x < buf + sizeof_hentry * n) → umem s' cur x = umem s cur x) ∧
    kps s' = kps s ∧ blocked s' = blocked s.
Proof.
  intros Ht Hb Hm sz n Hmax Hsz Hfit. assert (0 ≤ n) by (unfold n, MAX_HISTORY; lia).
  pose proof (gethistory_spec cur s log buf max Ht Hb Hm) as H1. cbv zeta in H1. fold n sz in H1.
  rewrite Z.min_l in H1 by done. apply H1; lia || done.
Qed.

(** A comment in the code says that only the most recent [max_entries] are
    returned.  Asked for one entry when more are kept, [gethistory] returns the
    oldest. *)
Theorem gethistory_returns_oldest cur (s : ksys K) log buf : htrace (kps s) log →
  argptr cur 0 sizeof_hentry s = Ok (Some buf, s) → arg_word cur 1 s = Some 1 →
  let sz := p_sz (procs (kps s) !!! cur) in
  (0 < length log)%nat → 0 ≤ sz ≤ KERNBASE → buf + sizeof_hentry ≤ sz →
  ∃ s', sys_gethistory cur s = Ok (Some 1, s') ∧
    log !! (length log - Z.to_nat MAX_HISTORY)%nat = Some (entry_at (umem s' cur) buf).
Proof.
  intros Ht Hb Hm sz Hlen Hsz Hfit.
  pose proof (gethistory_spec cur s log buf 1 Ht Hb Hm ltac:(lia)) as H1. cbv zeta in H1. fold sz in H1.
  rewrite (Z.min_r _ 1) in H1 by (unfold MAX_HISTORY; lia). destruct (H1 Hsz ltac:(lia)) as (s' & E & He & _).
  exists s'. split; [done|]. specialize (He 0 ltac:(lia)). replace (buf + sizeof_hentry * 0) with buf in He by lia.
  rewrite <- He. f_equal. unfold MAX_HISTORY. lia.
Qed.

(** [gethistory] checks the buffer for one entry only.  A program whose buffer
    of one entry is the end of its memory, and that asks for two, makes the
    kernel store outside the program's pages, and panic. *)
Theorem gethistory_panics cur (s : ksys K) log buf max : htrace (kps s) log →
  argptr cur 0 sizeof_hentry s = Ok (Some buf, s) → arg_word cur 1 s = Some max →
  let sz := p_sz (procs (kps s) !!! cur) in
  0 ≤ sz < KERNBASE → PGROUNDUP sz = sz → buf + sizeof_hentry = sz → 2 ≤ max → (2 ≤ length log)%nat →
  sys_gethistory cur s = Panic "trap".
Proof.
  intros Ht Hb Hm sz Hsz Hal Hbuf Hmax Hlen. rewrite (gethistory_eq cur s buf max Hb Hm).
  pose proof (hi_count _ _ (htrace_inv _ _ Ht)) as Hc. rewrite Hc. set (c := Z.min _ _).
  assert (2 ≤ c) as Hc2 by (unfold c, MAX_HISTORY; lia).
  assert (user_store cur buf (sizeof_hentry * c) s = Panic "trap") as E; [|unfold mbind, M_bind; by rewrite E].
  unfold user_store, curproc. rewrite (bind_ok (gets _) _ _ _ _ eq_refl). fold sz. cbv zeta. rewrite Hal. unfold sizeof_hentry in *.
  rewrite (proj2 (Z.leb_gt (24 * c) 0)), (proj2 (Z.leb_gt (buf + 24 * c) sz)), (proj2 (Z.ltb_lt sz KERNBASE)) by lia. done.
Qed.
End gethistory.

(** ** A run with two exits *)

Module SysDemo.
Import Demo.

(** A process of 4096 bytes with its stack pointer at 0, the words 4072
    and 2 as arguments, and [eax] the number of a call. *)
Definition user (eax : Z) (p : proc) : proc :=
  set_sz 4096 (set_tfv (TF 0 0 0 0 0 0 0 eax 0 0 0 0 0 0 0 0 0 0 0) p).
Definition args (a b : Z) : mem := store32 (store32 (λ _, 0) 4 a) 8 b.

Definition t0 : pst Z := upd 1 (user SYS_getpid) s4.
Definition t1 : pst Z := exit_history 1 t0.
Definition t2 : pst Z := exit_history 0 t1.
Definition sys (p : pst Z) (a b : Z) : ksys Z := KSys p (λ _, args a b) (replicate 26 0) 0.

Lemma on_t0 : on_cpu t0 1 ∧ on_cpu t1 0.
Proof. split; [exists 1%nat|exists 0%nat]; vm_compute; reflexivity. Qed.

Lemma htrace_t0 : htrace t0 [].
Proof.
  apply no_exits_htrace; [|vm_compute; reflexivity]. eapply reach_step; [exact reach4|].
  apply st_own; [exact on4|by intros []].
Qed.

Lemma htrace_t2 : htrace t2 [precord (procs t0 !!! 1%nat); precord (procs t1 !!! 0%nat)].
Proof.
  destruct on_t0 as [H1 H0]. destruct htrace_t0 as (n & k & Ht). exists n, k.
  apply rtc_r with (t1, [precord (procs t0 !!! 1%nat)]); [apply rtc_r with (t0, []); [exact Ht|]|]; split.
  - apply (st_history t0 1 H1).
  - right. exists 1%nat. split; [exact H1|]. split; [vm_compute; reflexivity|]. split; reflexivity.
  - apply (st_history t1 0 H0).
  - right. exists 0%nat. split; [exact H0|]. split; [vm_compute; reflexivity|]. split; reflexivity.
Qed.

Lemma argptr_checks_witness :
  argptr 1 0 24 (sys t0 4072 2) = Ok (Some 4072, sys t0 4072 2).
Proof.
  apply (argptr_checks 1 0 24 (sys t0 4072 2) 4072 4072 (sys t0 4072 2)).
  - vm_compute. split; discriminate.
  - done.
  - vm_compute. reflexivity.
  - vm_compute. split_and!; done.
Defined.

Lemma fetchstr_spec_witness : fetchstr 4096 (store (λ _, 65) 12 0) 10 = Some (10, 2).
Proof.
  apply fetchstr_spec; [done|]. split_and!; try done. intros i Hi. unfold store. bcase; lia.
Defined.

Lemma blocked_call_refused_witness : ∃ s', syscall (λ _ _, mret (Some 0)) 1
  (set_blocked (replicate 26 1) (sys t0 0 0)) = Ok (tt, s').
Proof.
  eexists. apply (blocked_call_refused (λ _ _, mret (Some 0)) 1 _ SYS_getpid); vm_compute; done.
Defined.

Lemma unblock_undoes_block_witness : ∃ s1, sys_block 1 (sys t0 16 0) = Ok (Some 0, s1) ∧
  blocked s1 !! 16%nat = Some 1.
Proof.
  destruct (unblock_undoes_block 1 (sys t0 16 0) 16) as (s1 & s2 & ? & _ & ? & _).
  - split; [done|]. intros n Hn. unfold critical in Hn. simpl.
    apply (lookup_replicate_2 26 0). unfold SYS_fork, SYS_exit, SYS_unblock in Hn. set_solver by lia.
  - vm_compute. reflexivity.
  - done.
  - unfold critical, SYS_fork, SYS_exit, SYS_unblock. set_solver by lia.
  - eauto.
Defined.

Lemma gethistory_returns_kept_exits_witness : ∃ s', sys_gethistory 1 (sys t2 64 5) = Ok (Some 2, s') ∧
  entry_at (umem s' 1%nat) 64 = precord (procs t0 !!! 1%nat).
Proof.
  destruct (gethistory_returns_kept_exits 1 (sys t2 64 5) _ 64 5 htrace_t2) as (s' & E & He & _);
    [vm_compute; reflexivity|vm_compute; reflexivity|done|vm_compute; split; discriminate|vm_compute; discriminate|].
  exists s'. split; [exact E|]. specialize (He 0 ltac:(cbn [length]; unfold MAX_HISTORY; lia)). symmetry. exact (Some_inj _ _ He).
Defined.

Lemma gethistory_panics_witness : sys_gethistory 1 (sys t2 4072 2) = Panic "trap".
Proof.
  apply (gethistory_panics 1 (sys t2 4072 2) _ 4072 2 htrace_t2);
    [vm_compute; reflexivity|vm_compute; reflexivity|vm_compute; split; [discriminate|reflexivity]|vm_compute; reflexivity|vm_compute; reflexivity|done|simpl; lia].
Defined.
End SysDemo.
