(* ===== verification/Block.v ===== *)
(** * Disk blocks as their clients see them

    The contract of the buffer cache ([bio.c]) towards the log and the file
    system.  A block has contents on disk ([bdisk]) and current contents
    ([bbuf]); [bread] locks a block, [bwrite] writes a locked block to disk,
    [brelse] releases it, and setting [B_DIRTY] keeps modified contents from
    being dropped.  A block is its own handle, since the cache has at most one
    buffer per block.

    The contract is strict where the cache would behave erratically:
    releasing a block that was modified and neither written nor pinned is
    [Undef], because the modification is lost or not depending on eviction.
    [Bio.v] proves that the cache implements it. *)

From S2P Require Import Prelude.

Definition BSIZE : Z := 512.
Abbreviation block := (list Z).

(** Update of a function at one point. *)
Definition fset {A} (f : Z → A) (b : Z) (x : A) : Z → A := λ c, if c =? b then x else f c.

Lemma fset_same {A} (f : Z → A) b x : fset f b x b = x.
Proof. unfold fset. by rewrite Z.eqb_refl. Qed.
Lemma fset_other {A} (f : Z → A) b c x : c ≠ b → fset f b x c = f c.
Proof. intros Hne. unfold fset. by apply Z.eqb_neq in Hne as ->. Qed.

Record blk := Blk {
  bdisk : Z → block;
  bbuf : Z → block;
  bdirty : Z → bool;
  bheld : list Z;
  bcount : Z;                        (* blocks on the disk *)
  wtrace : list (Z * block)          (* writes to the disk so far *)
}.

Definition with_held (l : list Z) (s : blk) : blk :=
  Blk (bdisk s) (bbuf s) (bdirty s) l (bcount s) (wtrace s).

(** The state at boot: nothing modified or locked. *)
Definition blk_boot (d : Z → block) (n : Z) : blk := Blk d d (λ _, false) [] n [].

(** [bread(dev, b)] *)
Definition bread (b : Z) : M blk Z := λ s,
  if bool_decide (b ∈ bheld s) then Blocked
  else if (b <? 0) || (bcount s <=? b) then Panic "iderw: block out of range"
  else Ok (b, with_held (b :: bheld s) s).

(** [b->data], of a locked block. *)
Definition bdata (b : Z) : M blk block := λ s,
  if bool_decide (b ∈ bheld s) then Ok (bbuf s b, s) else Undef.
Definition set_bdata (b : Z) (d : block) : M blk unit := λ s,
  if bool_decide (b ∈ bheld s) then
    Ok (tt, Blk (bdisk s) (fset (bbuf s) b d) (bdirty s) (bheld s) (bcount s) (wtrace s))
  else Undef.

(** [b->flags |= B_DIRTY] *)
Definition set_bdirty (b : Z) : M blk unit := λ s,
  if bool_decide (b ∈ bheld s) then
    Ok (tt, Blk (bdisk s) (bbuf s) (fset (bdirty s) b true) (bheld s) (bcount s) (wtrace s))
  else Undef.

(** [bwrite(b)] *)
Definition bwrite (b : Z) : M blk unit := λ s,
  if bool_decide (b ∈ bheld s) then
    Ok (tt, Blk (fset (bdisk s) b (bbuf s b)) (bbuf s) (fset (bdirty s) b false) (bheld s) (bcount s)
              (wtrace s ++ [(b, bbuf s b)]))
  else Panic "bwrite".

(** [brelse(b)] *)
Definition brelse (b : Z) : M blk unit := λ s,
  if negb (bool_decide (b ∈ bheld s)) then Panic "brelse"
  else if negb (bdirty s b) && negb (bool_decide (bbuf s b = bdisk s b)) then Undef
  else Ok (tt, with_held (filter (λ c, c ≠ b) (bheld s)) s).

(** Contents that are not on disk are locked or pinned. *)
Record blk_ok (s : blk) : Prop := {
  bo_held : NoDup (bheld s);
  bo_range b : b ∈ bheld s → 0 ≤ b < bcount s;
  bo_clean b : bdirty s b = false → b ∉ bheld s → bbuf s b = bdisk s b
}.

(** ** Results of the operations *)

Lemma bread_inv b s r s' : bread b s = Ok (r, s') →
  r = b ∧ (b ∉ bheld s) ∧ 0 ≤ b < bcount s ∧ s' = with_held (b :: bheld s) s.
Proof.
  unfold bread. destruct (bool_decide_reflect (b ∈ bheld s)); [done|].
  destruct (Z.ltb_spec b 0), (Z.leb_spec (bcount s) b); try done. intros [= <- <-]. auto.
Qed.

Lemma set_bdata_inv b d s s' : set_bdata b d s = Ok (tt, s') → b ∈ bheld s ∧
  s' = Blk (bdisk s) (fset (bbuf s) b d) (bdirty s) (bheld s) (bcount s) (wtrace s).
Proof. unfold set_bdata. case_bool_decide; [|done]. by intros [= <-]. Qed.

Lemma set_bdirty_inv b s s' : set_bdirty b s = Ok (tt, s') → b ∈ bheld s ∧
  s' = Blk (bdisk s) (bbuf s) (fset (bdirty s) b true) (bheld s) (bcount s) (wtrace s).
Proof. unfold set_bdirty. case_bool_decide; [|done]. by intros [= <-]. Qed.

Lemma bwrite_inv b s s' : bwrite b s = Ok (tt, s') → b ∈ bheld s ∧
  s' = Blk (fset (bdisk s) b (bbuf s b)) (bbuf s) (fset (bdirty s) b false) (bheld s) (bcount s)
         (wtrace s ++ [(b, bbuf s b)]).
Proof. unfold bwrite. case_bool_decide; [|done]. by intros [= <-]. Qed.

Lemma brelse_inv b s s' : brelse b s = Ok (tt, s') → b ∈ bheld s ∧
  (bdirty s b = true ∨ bbuf s b = bdisk s b) ∧ s' = with_held (filter (λ c, c ≠ b) (bheld s)) s.
Proof.
  unfold brelse. case_bool_decide; [|done]. simpl. destruct (bdirty s b); simpl; [intros [= <-]; auto|].
  case_bool_decide; [|done]. intros [= <-]. auto.
Qed.

(** The operations succeed on blocks that are (not) held. *)
Lemma bread_eq b s : b ∉ bheld s → 0 ≤ b < bcount s → bread b s = Ok (b, with_held (b :: bheld s) s).
Proof.
  intros Hn Hr. unfold bread. rewrite bool_decide_eq_false_2 by done.
  by rewrite (proj2 (Z.ltb_ge b 0)), (proj2 (Z.leb_gt (bcount s) b)) by lia.
Qed.
Lemma bdata_eq b s : b ∈ bheld s → bdata b s = Ok (bbuf s b, s).
Proof. intros Hb. unfold bdata. by rewrite bool_decide_eq_true_2. Qed.
Lemma set_bdata_eq b d s : b ∈ bheld s → set_bdata b d s =
  Ok (tt, Blk (bdisk s) (fset (bbuf s) b d) (bdirty s) (bheld s) (bcount s) (wtrace s)).
Proof. intros Hb. unfold set_bdata. by rewrite bool_decide_eq_true_2. Qed.
Lemma set_bdirty_eq b s : b ∈ bheld s → set_bdirty b s =
  Ok (tt, Blk (bdisk s) (bbuf s) (fset (bdirty s) b true) (bheld s) (bcount s) (wtrace s)).
Proof. intros Hb. unfold set_bdirty. by rewrite bool_decide_eq_true_2. Qed.
Lemma bwrite_eq b s : b ∈ bheld s → bwrite b s =
  Ok (tt, Blk (fset (bdisk s) b (bbuf s b)) (bbuf s) (fset (bdirty s) b false) (bheld s) (bcount s)
            (wtrace s ++ [(b, bbuf s b)])).
Proof. intros Hb. unfold bwrite. by rewrite bool_decide_eq_true_2. Qed.
Lemma brelse_eq b s : b ∈ bheld s → bdirty s b = true ∨ bbuf s b = bdisk s b →
  brelse b s = Ok (tt, with_held (filter (λ c, c ≠ b) (bheld s)) s).
Proof.
  intros Hb Hd. unfold brelse. rewrite (bool_decide_eq_true_2 (b ∈ bheld s)) by done. simpl.
  destruct Hd as [-> | ->]; [done|]. by rewrite bool_decide_eq_true_2, andb_false_r.
Qed.

Lemma bread_blk_ok b s r s' : blk_ok s → bread b s = Ok (r, s') → blk_ok s'.
Proof.
  intros [H1 H2 H3] (-> & Hn & Hr & ->)%bread_inv. split; simpl.
  - by constructor.
  - intros c [->|Hc]%elem_of_cons; auto.
  - intros c Hc Hh. apply H3; [done|]. set_solver.
Qed.

Lemma set_bdata_blk_ok b d s s' : blk_ok s → set_bdata b d s = Ok (tt, s') → blk_ok s'.
Proof.
  intros [H1 H2 H3] (Hb & ->)%set_bdata_inv. split; simpl; [done..|].
  intros c Hc Hh. rewrite fset_other by set_solver. auto.
Qed.

Lemma set_bdirty_blk_ok b s s' : blk_ok s → set_bdirty b s = Ok (tt, s') → blk_ok s'.
Proof.
  intros [H1 H2 H3] (Hb & ->)%set_bdirty_inv. split; simpl; [done..|].
  intros c Hc Hh. apply H3; [|done]. rewrite fset_other in Hc by set_solver. done.
Qed.

Lemma bwrite_blk_ok b s s' : blk_ok s → bwrite b s = Ok (tt, s') → blk_ok s'.
Proof.
  intros [H1 H2 H3] (Hb & ->)%bwrite_inv. split; simpl; [done..|].
  intros c Hc Hh. assert (c ≠ b) by set_solver. rewrite fset_other by done.
  rewrite fset_other in Hc by done. auto.
Qed.

Lemma brelse_blk_ok b s s' : blk_ok s → brelse b s = Ok (tt, s') → blk_ok s'.
Proof.
  intros [H1 H2 H3] (Hb & Hd & ->)%brelse_inv. split; simpl.
  - by apply NoDup_filter.
  - intros c [_ Hc]%list_elem_of_filter. auto.
  - intros c Hc Hh. destruct (decide (c = b)) as [->|Hne]; [destruct Hd; congruence|].
    apply H3; [done|]. intros Hin. apply Hh. by apply list_elem_of_filter.
Qed.

(** ** Integers in block contents *)

(** The little-endian 32-bit word at offset [o]. *)
Definition get32 (d : block) (o : nat) : Z := load32 (λ i, d !!! Z.to_nat i) (Z.of_nat o).
Definition put32 (d : block) (o : nat) (v : Z) : block :=
  <[(o + 3)%nat := u8 (v / 2 ^ 24)]> (<[(o + 2)%nat := u8 (v / 2 ^ 16)]>
    (<[(o + 1)%nat := u8 (v / 2 ^ 8)]> (<[o := u8 v]> d))).

(** The little-endian 16-bit word at offset [o]. *)
Definition get16 (d : block) (o : nat) : Z := d !!! o + 2 ^ 8 * d !!! (o + 1)%nat.
Definition put16 (d : block) (o : nat) (v : Z) : block := <[(o + 1)%nat := u8 (v / 2 ^ 8)]> (<[o := u8 v]> d).

Lemma length_put32 d o v : length (put32 d o v) = length d.
Proof. unfold put32. by rewrite !length_insert. Qed.

Lemma lookup_put32_other d o v i : ¬ (o ≤ i < o + 4)%nat → put32 d o v !!! i = d !!! i.
Proof. intros Hi. unfold put32. rewrite !list_lookup_total_insert_ne by lia. done. Qed.

Lemma get32_unfold d o : get32 d o =
  d !!! o + 2 ^ 8 * d !!! (o + 1)%nat + 2 ^ 16 * d !!! (o + 2)%nat + 2 ^ 24 * d !!! (o + 3)%nat.
Proof.
  unfold get32, load32. replace (Z.to_nat (Z.of_nat o)) with o by lia.
  replace (Z.to_nat (Z.of_nat o + 1)) with (o + 1)%nat by lia.
  replace (Z.to_nat (Z.of_nat o + 2)) with (o + 2)%nat by lia.
  by replace (Z.to_nat (Z.of_nat o + 3)) with (o + 3)%nat by lia.
Qed.

Lemma get_put32_same d o v : (o + 4 ≤ length d)%nat → get32 (put32 d o v) o = u32 v.
Proof.
  intros Hl. rewrite get32_unfold. unfold put32.
  rewrite list_lookup_total_insert_eq by (rewrite !length_insert; lia).
  rewrite (list_lookup_total_insert_ne _ (o + 3)) by lia.
  rewrite (list_lookup_total_insert_ne _ (o + 2)), (list_lookup_total_insert_ne _ (o + 1)) by lia.
  rewrite list_lookup_total_insert_eq by lia.
  rewrite (list_lookup_total_insert_ne _ (o + 3)), (list_lookup_total_insert_ne _ (o + 2)) by lia.
  rewrite list_lookup_total_insert_eq by (rewrite !length_insert; lia).
  rewrite (list_lookup_total_insert_ne _ (o + 3)) by lia.
  rewrite list_lookup_total_insert_eq by (rewrite !length_insert; lia).
  unfold u8, u32. Z.div_mod_to_equations. lia.
Qed.

Lemma get_put32_other d o o' v : ¬ (o ≤ o' + 3 ∧ o' ≤ o + 3)%nat → get32 (put32 d o v) o' = get32 d o'.
Proof. intros Ho. rewrite !get32_unfold, !lookup_put32_other by lia. done. Qed.

Lemma length_put16 d o v : length (put16 d o v) = length d.
Proof. unfold put16. by rewrite !length_insert. Qed.

Lemma lookup_put16_other d o v i : ¬ (o ≤ i < o + 2)%nat → put16 d o v !!! i = d !!! i.
Proof. intros Hi. unfold put16. rewrite !list_lookup_total_insert_ne by lia. done. Qed.

Lemma get_put16_same d o v : (o + 2 ≤ length d)%nat → get16 (put16 d o v) o = u16 v.
Proof.
  intros Hl. unfold get16, put16. rewrite list_lookup_total_insert_eq by (rewrite !length_insert; lia).
  rewrite list_lookup_total_insert_ne by lia. rewrite list_lookup_total_insert_eq by lia.
  unfold u8, u16. Z.div_mod_to_equations. lia.
Qed.

Lemma get16_ext d d' o : (∀ i, (o ≤ i < o + 2)%nat → d !!! i = d' !!! i) → get16 d o = get16 d' o.
Proof. intros H. unfold get16. rewrite !H by lia. done. Qed.
Lemma get32_ext d d' o : (∀ i, (o ≤ i < o + 4)%nat → d !!! i = d' !!! i) → get32 d o = get32 d' o.
Proof. intros H. rewrite !get32_unfold, !H by lia. done. Qed.
