(* ===== verification/Bio.v ===== *)
(** * The buffer cache

    Models [bio.c] over the in-memory disk of [memide.c]: [NBUF] buffers on a
    doubly linked list in order of use, found by [bget] from the front and
    recycled from the back.  The theorems show that the pointer structure stays
    a list of all buffers and that the cache implements the contract of
    [Block.v]: what is read is what was last stored, a pinned or locked buffer
    is never recycled, and the only failure is a read when every buffer is
    taken by a locked or pinned block. *)

From S2P Require Import Prelude Block.

Definition NBUF : nat := 30.
Definition B_VALID : Z := 2.
Definition B_DIRTY : Z := 4.

(** [struct buf].  [b_lk] is the sleep lock, held by the running process.
    [prev] and [next] are indices into the array; [NBUF] is [bcache.head]. *)
Record buf := Buf {
  b_flags : Z;
  b_dev : Z;
  b_blockno : Z;
  b_lk : bool;
  b_refcnt : Z;
  b_prev : nat;
  b_next : nat;
  b_data : block
}.
Definition zero_block : block := replicate (Z.to_nat BSIZE) 0.
Definition zero_buf : buf := Buf 0 0 0 false 0 0 0 zero_block.
Global Instance buf_inhabited : Inhabited buf := populate zero_buf.

Definition HEAD : nat := NBUF.

(** [bcache], with the disk of [memide.c]; [btrace] records the disk writes. *)
Record bst := BSt {
  bufs : list buf;
  memdisk : Z → block;
  disksize : Z;
  btrace : list (Z * block)
}.

Definition set_prev (p : nat) (b : buf) : buf :=
  Buf (b_flags b) (b_dev b) (b_blockno b) (b_lk b) (b_refcnt b) p (b_next b) (b_data b).
Definition set_next (n : nat) (b : buf) : buf :=
  Buf (b_flags b) (b_dev b) (b_blockno b) (b_lk b) (b_refcnt b) (b_prev b) n (b_data b).
Definition set_flags (f : Z) (b : buf) : buf :=
  Buf f (b_dev b) (b_blockno b) (b_lk b) (b_refcnt b) (b_prev b) (b_next b) (b_data b).
Definition set_lk (l : bool) (b : buf) : buf :=
  Buf (b_flags b) (b_dev b) (b_blockno b) l (b_refcnt b) (b_prev b) (b_next b) (b_data b).
Definition set_refcnt (r : Z) (b : buf) : buf :=
  Buf (b_flags b) (b_dev b) (b_blockno b) (b_lk b) r (b_prev b) (b_next b) (b_data b).
Definition set_data (d : block) (b : buf) : buf :=
  Buf (b_flags b) (b_dev b) (b_blockno b) (b_lk b) (b_refcnt b) (b_prev b) (b_next b) d.
(** [b->dev = dev; b->blockno = blockno; b->flags = 0; b->refcnt = 1;] *)
Definition recycle (dev blockno : Z) (b : buf) : buf :=
  Buf 0 dev blockno (b_lk b) 1 (b_prev b) (b_next b) (b_data b).

Definition with_bufs (bs : list buf) (s : bst) : bst := BSt bs (memdisk s) (disksize s) (btrace s).
Definition updb (i : nat) (f : buf → buf) (s : bst) : bst := with_bufs (alter f i (bufs s)) s.
Definition buf_at (s : bst) (i : nat) : buf := bufs s !!! i.

(** [b->next = bcache.head.next; b->prev = &bcache.head;
     bcache.head.next->prev = b; bcache.head.next = b;] *)
Definition insert_front (i : nat) (s : bst) : bst :=
  let s1 := updb i (set_next (b_next (buf_at s HEAD))) s in
  let s2 := updb i (set_prev HEAD) s1 in
  let s3 := updb (b_next (buf_at s2 HEAD)) (set_prev i) s2 in
  updb HEAD (set_next i) s3.

(** [b->next->prev = b->prev; b->prev->next = b->next;] *)
Definition unlink (i : nat) (s : bst) : bst :=
  let s1 := updb (b_next (buf_at s i)) (set_prev (b_prev (buf_at s i))) s in
  updb (b_prev (buf_at s1 i)) (set_next (b_next (buf_at s1 i))) s1.

(** [binit] *)
Definition binit (s : bst) : bst :=
  let s1 := updb HEAD (set_prev HEAD) s in
  let s2 := updb HEAD (set_next HEAD) s1 in
  foldl (λ s i, insert_front i (updb i (set_lk false) s)) s2 (seq 0 NBUF).

(** A walk along [step] pointers from [i] until [bcache.head], looking for a
    buffer that satisfies [cond]. *)
Fixpoint walk (fuel : nat) (s : bst) (step : buf → nat) (cond : buf → bool) (i : nat) : option (option nat) :=
  match fuel with
  | O => None
  | S f =>
      if decide (i = HEAD) then Some None
      else if cond (buf_at s i) then Some (Some i)
      else walk f s step cond (step (buf_at s i))
  end.

(** [acquiresleep] of an uncontended lock; a held lock makes the caller wait. *)
Definition acquiresleep (i : nat) : M bst unit := λ s,
  if b_lk (buf_at s i) then Blocked else Ok (tt, updb i (set_lk true) s).

Definition bget (dev blockno : Z) : M bst nat := λ s,
  match walk (S NBUF) s b_next (λ b, (b_dev b =? dev) && (b_blockno b =? blockno)) (b_next (buf_at s HEAD)) with
  | None => Undef
  | Some (Some i) =>
      (modify (updb i (λ b, set_refcnt (b_refcnt b + 1) b));; acquiresleep i;; mret i) s
  | Some None =>
      match walk (S NBUF) s b_prev
              (λ b, (b_refcnt b =? 0) && (Z.land (b_flags b) B_DIRTY =? 0)) (b_prev (buf_at s HEAD)) with
      | None => Undef
      | Some (Some i) => (modify (updb i (recycle dev blockno));; acquiresleep i;; mret i) s
      | Some None => Panic "bget: no buffers"
      end
  end.

(** [iderw] of [memide.c]. *)
Definition iderw (i : nat) : M bst unit := λ s,
  let b := buf_at s i in
  if negb (b_lk b) then Panic "iderw: buf not locked"
  else if Z.land (b_flags b) (Z.lor B_VALID B_DIRTY) =? B_VALID then Panic "iderw: nothing to do"
  else if negb (b_dev b =? 1) then Panic "iderw: request not for disk 1"
  else if disksize s <=? b_blockno b then Panic "iderw: block out of range"
  else if truthy (Z.land (b_flags b) B_DIRTY) then
    let s1 := BSt (bufs s) (fset (memdisk s) (b_blockno b) (b_data b)) (disksize s)
                (btrace s ++ [(b_blockno b, b_data b)]) in
    Ok (tt, updb i (set_flags (Z.lor (Z.land (b_flags b) (Z.lnot B_DIRTY)) B_VALID)) s1)
  else
    Ok (tt, updb i (λ b', set_flags (Z.lor (b_flags b) B_VALID) (set_data (memdisk s (b_blockno b)) b')) s).

Definition c_bread (dev blockno : Z) : M bst nat :=
  i ← bget dev blockno;
  b ← gets (λ s, buf_at s i);
  (if Z.land (b_flags b) B_VALID =? 0 then iderw i else mret tt);;
  mret i.

Definition c_bwrite (i : nat) : M bst unit :=
  b ← gets (λ s, buf_at s i);
  if negb (b_lk b) then panic "bwrite"
  else modify (updb i (set_flags (Z.lor (b_flags b) B_DIRTY)));; iderw i.

(** [brelse]; [refcnt] is an unsigned int. *)
Definition c_brelse (i : nat) : M bst unit :=
  b ← gets (λ s, buf_at s i);
  if negb (b_lk b) then panic "brelse"
  else
    modify (updb i (set_lk false));;
    modify (updb i (λ b, set_refcnt (u32 (b_refcnt b - 1)) b));;
    b ← gets (λ s, buf_at s i);
    if b_refcnt b =? 0 then modify (insert_front i ∘ unlink i) else mret tt.

(** [b->data] and [b->flags |= B_DIRTY], as the clients do them. *)
Definition c_bdata (i : nat) : M bst block := gets (λ s, b_data (buf_at s i)).
Definition c_set_bdata (i : nat) (d : block) : M bst unit := modify (updb i (set_data d)).
Definition c_set_bdirty (i : nat) : M bst unit :=
  modify (updb i (λ b, set_flags (Z.lor (b_flags b) B_DIRTY) b)).

(** ** The list of buffers *)

(** Along [L], [f] leads from every element to the next one. *)
Fixpoint chain (f : nat → nat) (L : list nat) : Prop :=
  match L with
  | x :: ((y :: _) as r) => f x = y ∧ chain f r
  | _ => True
  end.

Definition nset (f : nat → nat) (i v : nat) : nat → nat := λ j, if decide (j = i) then v else f j.

Lemma chain_app f L1 x L2 : chain f (L1 ++ x :: L2) ↔ chain f (L1 ++ [x]) ∧ chain f (x :: L2).
Proof.
  induction L1 as [|y L1 IH]; [simpl; tauto|]. destruct L1 as [|z L1]; simpl in *; tauto.
Qed.

Lemma chain_ext f g L c : (∀ i, i ∈ L → f i = g i) → chain f (L ++ [c]) → chain g (L ++ [c]).
Proof.
  induction L as [|x L IH]; intros Hfg Hc; [done|].
  assert (chain g (L ++ [c])) as Hg.
  { apply IH; [set_solver|]. destruct L; simpl in *; tauto. }
  destruct L as [|y L]; simpl in *; (split; [rewrite <- Hfg by set_solver; apply Hc|done]).
Qed.

(** Taking out [i] between [a] and [c]. *)
Lemma chain_remove f A a i c C z : chain f (A ++ a :: i :: c :: C) → A ++ a :: i :: c :: C = z ++ [HEAD] →
  NoDup z → chain (nset f a c) (A ++ a :: c :: C).
Proof.
  intros Hc Hz Hnd. apply chain_app in Hc as [Hc1 Hc2]. change (f a = i ∧ f i = c ∧ chain f (c :: C)) in Hc2. destruct Hc2 as (Ei & Ec & Hc2).
  assert (∃ D, c :: C = D ++ [HEAD] ∧ z = A ++ a :: i :: D) as (D & HD & ->).
  { destruct (exists_last (l := c :: C)) as (D & h & E); [done|]. rewrite E in Hz.
    assert ((A ++ a :: i :: D) ++ [h] = z ++ [HEAD]) as Hz' by (by rewrite <- Hz, <- (assoc_L app)).
    apply app_inj_tail in Hz' as [<- ->]. by exists D. }
  apply NoDup_app in Hnd as (_ & Hd & Hnd). apply NoDup_cons in Hnd as [Ha Hnd].
  apply chain_app. split.
  - eapply chain_ext; [|exact Hc1]. intros j Hj. unfold nset. rewrite decide_False; [done|].
    intros ->. apply (Hd a Hj). by left.
  - change (nset f a c a = c ∧ chain (nset f a c) (c :: C)). split; [unfold nset; by rewrite decide_True|].
    rewrite HD in *. eapply chain_ext; [|exact Hc2]. intros j Hj. unfold nset. rewrite decide_False; [done|].
    intros ->. apply Ha. by right.
Qed.

(** Putting a new [b] between [a] and [c]. *)
Lemma chain_insert f A a b c C z : chain f (A ++ a :: c :: C) → A ++ a :: c :: C = z ++ [HEAD] →
  NoDup z → b ∉ z → chain (nset (nset f b c) a b) (A ++ a :: b :: c :: C).
Proof.
  intros Hc Hz Hnd Hb. apply chain_app in Hc as [Hc1 Hc2]. change (f a = c ∧ chain f (c :: C)) in Hc2. destruct Hc2 as (Ec & Hc2).
  assert (∃ D, c :: C = D ++ [HEAD] ∧ z = A ++ a :: D) as (D & HD & ->).
  { destruct (exists_last (l := c :: C)) as (D & h & E); [done|]. rewrite E in Hz.
    assert ((A ++ a :: D) ++ [h] = z ++ [HEAD]) as Hz' by (by rewrite <- Hz, <- (assoc_L app)).
    apply app_inj_tail in Hz' as [<- ->]. by exists D. }
  apply NoDup_app in Hnd as (_ & Hd & Hnd). apply NoDup_cons in Hnd as [Ha Hnd].
  assert (∀ j, j ∈ A ++ D → nset (nset f b c) a b j = f j) as Hj.
  { intros j Hj. unfold nset. rewrite !decide_False; [done|set_solver|].
    intros ->. apply elem_of_app in Hj as [Hj|Hj]; [|done]. apply (Hd a Hj). by left. }
  assert (a ≠ b) by set_solver.
  apply chain_app. split.
  - eapply chain_ext; [|exact Hc1]. intros j Hj'. symmetry. apply Hj. set_solver.
  - change (nset (nset f b c) a b a = b ∧ nset (nset f b c) a b b = c ∧ chain (nset (nset f b c) a b) (c :: C)).
    split; [unfold nset; by rewrite decide_True|]. split.
    + unfold nset. rewrite decide_False, decide_True by done. done.
    + rewrite HD in *. eapply chain_ext; [|exact Hc2]. intros j Hj'. symmetry. apply Hj. set_solver.
Qed.

Definition nx (s : bst) (i : nat) : nat := b_next (buf_at s i).
Definition pv (s : bst) (i : nat) : nat := b_prev (buf_at s i).

(** The buffers, most recently used first. *)
Record dll (s : bst) (l : list nat) : Prop := {
  dl_len : length (bufs s) = S NBUF;
  dl_perm : l ≡ₚ seq 0 NBUF;
  dl_next : chain (nx s) ((HEAD :: l) ++ [HEAD]);
  dl_prev : chain (pv s) ((HEAD :: rev l) ++ [HEAD])
}.

Lemma dll_nodup s l : dll s l → NoDup (HEAD :: l) ∧ NoDup (HEAD :: rev l).
Proof.
  intros [_ Hp _ _]. assert (HEAD ∉ l) as Hh.
  { rewrite Hp. rewrite elem_of_seq. unfold HEAD. lia. }
  assert (NoDup l) as Hn by (rewrite Hp; apply NoDup_seq).
  split; constructor; try done.
  - by rewrite list_elem_of_In, <- in_rev, <- list_elem_of_In.
  - by rewrite <- Permutation_rev.
Qed.

Lemma dll_lt s l i : dll s l → i ∈ (HEAD :: l) → (i < length (bufs s))%nat.
Proof.
  intros [Hl Hp _ _] Hi. rewrite Hl. apply elem_of_cons in Hi as [->|Hi]; [unfold HEAD; lia|].
  rewrite Hp, elem_of_seq in Hi. unfold NBUF in *. lia.
Qed.

(** Access after an update. *)
Lemma buf_at_updb s i f j : (i < length (bufs s))%nat →
  buf_at (updb i f s) j = if decide (j = i) then f (buf_at s i) else buf_at s j.
Proof.
  intros Hi. unfold buf_at, updb, with_bufs. simpl. rewrite !list_lookup_total_alt.
  case_decide as E.
  - subst. rewrite list_lookup_alter_eq. by destruct (lookup_lt_is_Some_2 _ _ Hi) as [x ->].
  - by rewrite list_lookup_alter_ne.
Qed.

Lemma length_updb s i f : length (bufs (updb i f s)) = length (bufs s).
Proof. apply length_alter. Qed.

(** The cached data of a buffer, apart from its place on the list. *)
Definition payload (b : buf) : Z * Z * Z * bool * Z * block :=
  (b_flags b, b_dev b, b_blockno b, b_lk b, b_refcnt b, b_data b).

Lemma rev_ring l : rev ((HEAD :: l) ++ [HEAD]) = (HEAD :: rev l) ++ [HEAD].
Proof. by rewrite rev_app_distr. Qed.

Lemma unlink_spec s l1 i l2 : dll s (l1 ++ i :: l2) →
  let s' := unlink i s in
  length (bufs s') = S NBUF ∧
  chain (nx s') ((HEAD :: l1 ++ l2) ++ [HEAD]) ∧ chain (pv s') ((HEAD :: rev (l1 ++ l2)) ++ [HEAD]) ∧
  (∀ j, payload (buf_at s' j) = payload (buf_at s j)) ∧ memdisk s' = memdisk s ∧ disksize s' = disksize s ∧
  btrace s' = btrace s.
Proof.
  intros Hd s'. destruct (dll_nodup _ _ Hd) as [Hn1 Hn2]. pose proof (λ j, dll_lt _ _ j Hd) as Hlt.
  destruct Hd as [Hl Hp Hc1 Hc2].
  destruct (exists_last (l := HEAD :: l1)) as (A & a & EA); [done|].
  assert (∃ c C, l2 ++ [HEAD] = c :: C) as (c & C & EC) by (destruct l2; eauto).
  assert ((HEAD :: l1 ++ i :: l2) ++ [HEAD] = A ++ a :: i :: c :: C) as E1.
  { rewrite app_comm_cons, EA, <- !(assoc_L app). simpl. by rewrite EC. }
  assert ((HEAD :: rev (l1 ++ i :: l2)) ++ [HEAD] = rev C ++ c :: i :: a :: rev A) as E2.
  { rewrite <- rev_ring, E1, rev_app_distr. simpl. by rewrite <- !(assoc_L app). }
  assert (nx s a = i ∧ nx s i = c) as [Ea Ei].
  { rewrite E1 in Hc1. apply chain_app in Hc1 as [_ Hc1]. simpl in Hc1. tauto. }
  assert (pv s c = i ∧ pv s i = a) as [Ec Ei'].
  { rewrite E2 in Hc2. apply chain_app in Hc2 as [_ Hc2]. simpl in Hc2. tauto. }
  assert (i ≠ HEAD ∧ (i ∉ l1) ∧ (i ∉ l2)) as (Hih & Hi1 & Hi2).
  { apply NoDup_cons in Hn1 as [Hh Hn1]. apply NoDup_app in Hn1 as (_ & Hx & Hn1).
    apply NoDup_cons in Hn1 as [? _]. set_solver. }
  assert (a ∈ (HEAD :: l1)) as Ha by (rewrite EA; set_solver).
  assert (c ∈ l2 ++ [HEAD]) as Hcc by (rewrite EC; set_solver).
  assert (i ≠ a ∧ i ≠ c) as [Hia Hic] by (clear -Hih Hi1 Hi2 Ha Hcc; set_solver).
  assert (i < length (bufs s) ∧ a < length (bufs s) ∧ c < length (bufs s))%nat as (Li & La & Lc)
    by (split_and!; apply Hlt; clear -Ha Hcc; set_solver).
  assert (∀ j, buf_at s' j = (if decide (j = a) then set_next c else id)
    ((if decide (j = c) then set_prev a else id) (buf_at s j))) as Hs'.
  { intros j. unfold s', unlink. fold (nx s i) (pv s i). rewrite Ei, Ei'.
    set (s1 := updb c (set_prev a) s). assert (buf_at s1 i = buf_at s i) as E.
    { unfold s1. rewrite buf_at_updb by done. by rewrite decide_False. }
    rewrite E. fold (nx s i) (pv s i). rewrite Ei, Ei'. rewrite buf_at_updb by (unfold s1; by rewrite length_updb).
    unfold s1. rewrite !buf_at_updb by done. clear. repeat case_decide; unfold id; try done; congruence. }
  split_and!; try done.
  - unfold s', unlink. by rewrite !length_updb.
  - assert ((HEAD :: l1 ++ l2) ++ [HEAD] = A ++ a :: c :: C) as E3.
    { rewrite app_comm_cons, EA, <- !(assoc_L app). simpl. by rewrite EC. }
    eapply (chain_ext (nset (nx s) a c)).
    + intros j Hj. unfold nset, nx. rewrite Hs'. destruct (decide (j = a)), (decide (j = c)); done.
    + rewrite E3. eapply chain_remove; [by rewrite <- E1|by rewrite <- E1|done].
  - assert ((HEAD :: rev (l1 ++ l2)) ++ [HEAD] = rev C ++ c :: a :: rev A) as E3.
    { rewrite <- rev_ring, app_comm_cons, EA, <- !(assoc_L app). simpl. rewrite EC, rev_app_distr. simpl.
      by rewrite <- !(assoc_L app). }
    eapply (chain_ext (nset (pv s) c a)).
    + intros j Hj. unfold nset, pv. rewrite Hs'. destruct (decide (j = a)), (decide (j = c)); done.
    + rewrite E3. eapply chain_remove; [by rewrite <- E2|by rewrite <- E2|done].
  - intros j. rewrite Hs'. by destruct (decide (j = a)), (decide (j = c)).
Qed.

Lemma insert_front_spec s l i : length (bufs s) = S NBUF → NoDup (HEAD :: l) →
  (∀ j, j ∈ l → (j < NBUF)%nat) → (i < NBUF)%nat → i ∉ l →
  chain (nx s) ((HEAD :: l) ++ [HEAD]) → chain (pv s) ((HEAD :: rev l) ++ [HEAD]) →
  let s' := insert_front i s in
  length (bufs s') = S NBUF ∧
  chain (nx s') ((HEAD :: i :: l) ++ [HEAD]) ∧ chain (pv s') ((HEAD :: rev (i :: l)) ++ [HEAD]) ∧
  (∀ j, payload (buf_at s' j) = payload (buf_at s j)) ∧ memdisk s' = memdisk s ∧ disksize s' = disksize s ∧
  btrace s' = btrace s.
Proof.
  intros Hl Hnd Hlt Hi Hil Hc1 Hc2 s'.
  assert (∃ c C, l ++ [HEAD] = c :: C) as (c & C & EC) by (destruct l; eauto).
  assert (i ≠ HEAD) as Hih by (unfold HEAD; lia).
  assert (c ∈ (l ++ [HEAD])) as Hcc by (rewrite EC; by left).
  assert (i ≠ c) as Hic by (intros ->; clear -Hcc Hil Hih; set_solver).
  assert (nx s HEAD = c) as Eh.
  { change ((HEAD :: l) ++ [HEAD]) with (HEAD :: (l ++ [HEAD])) in Hc1. rewrite EC in Hc1. apply Hc1. }
  assert (i < length (bufs s) ∧ HEAD < length (bufs s) ∧ c < length (bufs s))%nat as (Li & Lh & Lc).
  { rewrite Hl. unfold HEAD. split_and!; [lia..|].
    apply elem_of_app in Hcc as [Hcc%Hlt|Hcc%list_elem_of_singleton]; [lia|]. rewrite Hcc. unfold HEAD. lia. }
  assert (∀ j, buf_at s' j = (if decide (j = HEAD) then set_next i else id)
    ((if decide (j = c) then set_prev i else id)
      ((if decide (j = i) then set_prev HEAD ∘ set_next c else id) (buf_at s j)))) as Hs'.
  { intros j. unfold s', insert_front. fold (nx s HEAD). rewrite Eh.
    set (s2 := updb i (set_prev HEAD) (updb i (set_next c) s)).
    assert (∀ j, buf_at s2 j = (if decide (j = i) then set_prev HEAD ∘ set_next c else id) (buf_at s j)) as E2.
    { intros k. unfold s2. rewrite !buf_at_updb by (by rewrite ?length_updb). clear.
      repeat case_decide; unfold id, compose; subst; try done; by rewrite decide_True. }
    rewrite (E2 HEAD), decide_False by done. unfold id at 1. fold (nx s HEAD). rewrite Eh.
    rewrite !buf_at_updb by (unfold s2; by rewrite ?length_updb). rewrite !E2. clear.
    repeat case_decide; unfold id, compose; try done; congruence. }
  split_and!; try done.
  - unfold s', insert_front. by rewrite !length_updb.
  - apply (chain_ext (nset (nset (nx s) i c) HEAD i) _ (HEAD :: i :: l)).
    + intros j _. unfold nset, nx. rewrite Hs'. clear. repeat case_decide; done.
    + change ((HEAD :: i :: l) ++ [HEAD]) with ([] ++ HEAD :: i :: (l ++ [HEAD])). rewrite EC.
      apply (chain_insert _ [] HEAD i c C (HEAD :: l)).
      * change (chain (nx s) (HEAD :: (c :: C))). by rewrite <- EC.
      * change (HEAD :: (c :: C) = HEAD :: (l ++ [HEAD])). by rewrite <- EC.
      * done.
      * intros [?|?]%elem_of_cons; done.
  - apply (chain_ext (nset (nset (pv s) i HEAD) c i) _ (HEAD :: rev (i :: l))).
    + intros j _. unfold nset, pv. rewrite Hs'. clear -Hic. repeat case_decide; simpl; congruence.
    + rewrite <- rev_ring in *. change ((HEAD :: i :: l) ++ [HEAD]) with (HEAD :: i :: (l ++ [HEAD])).
      change ((HEAD :: l) ++ [HEAD]) with (HEAD :: (l ++ [HEAD])) in Hc2. rewrite EC in *. simpl in *.
      rewrite <- !(assoc_L app) in *. simpl in *.
      apply (chain_insert _ (rev C) c i HEAD [] (HEAD :: rev l)); try done.
      * rewrite <- rev_ring. change ((HEAD :: l) ++ [HEAD]) with (HEAD :: (l ++ [HEAD])). rewrite EC. simpl.
        by rewrite <- !(assoc_L app).
      * apply NoDup_cons in Hnd as [Hh Hnd]. constructor.
        -- by rewrite list_elem_of_In, <- in_rev, <- list_elem_of_In.
        -- by rewrite <- Permutation_rev.
      * rewrite elem_of_cons, list_elem_of_In, <- in_rev, <- list_elem_of_In. intros [?|?]; done.
  - intros j. rewrite Hs'. clear. repeat case_decide; done.
Qed.

(** A walk along the list finds the first buffer that satisfies the condition. *)
Lemma walk_chain fuel s step cond x l : (length l < fuel)%nat → HEAD ∉ l →
  chain (λ i, step (buf_at s i)) (x :: l ++ [HEAD]) →
  (walk fuel s step cond (step (buf_at s x)) = Some None ∧
     Forall (λ i, cond (buf_at s i) = false) l) ∨
  ∃ l1 i l2, l = l1 ++ i :: l2 ∧ Forall (λ i, cond (buf_at s i) = false) l1 ∧
    cond (buf_at s i) = true ∧ walk fuel s step cond (step (buf_at s x)) = Some (Some i).
Proof.
  revert x l. induction fuel as [|f IH]; intros x l Hf Hh Hc; [lia|]. destruct l as [|y l].
  - left. destruct Hc as [-> _]. split; [done|constructor].
  - destruct Hc as [E Hc]. rewrite E. apply not_elem_of_cons in Hh as [Hhy Hh]. cbn [walk].
    rewrite decide_False by done. destruct (cond (buf_at s y)) eqn:Ey.
    + right. exists [], y, l. by split_and!; [|constructor|..].
    + destruct (IH y l) as [[Hw Hall]|(l1 & i & l2 & -> & Hall & Hi & Hw)]; [simpl in Hf; lia|done..| |].
      * left. split; [done|]. by constructor.
      * right. exists (y :: l1), i, l2. split_and!; try done. by constructor.
Qed.

Lemma walk_next s l cond : dll s l →
  (walk (S NBUF) s b_next cond (b_next (buf_at s HEAD)) = Some None ∧ Forall (λ i, cond (buf_at s i) = false) l) ∨
  ∃ l1 i l2, l = l1 ++ i :: l2 ∧ Forall (λ i, cond (buf_at s i) = false) l1 ∧
    cond (buf_at s i) = true ∧ walk (S NBUF) s b_next cond (b_next (buf_at s HEAD)) = Some (Some i).
Proof.
  intros Hd. destruct (dll_nodup _ _ Hd) as [Hn _]. destruct Hd as [_ Hp Hc _].
  apply NoDup_cons in Hn as [Hh _].
  apply (walk_chain (S NBUF) s b_next cond HEAD l); [|done|exact Hc].
  rewrite Hp, length_seq. lia.
Qed.

Lemma walk_prev s l cond : dll s l →
  (walk (S NBUF) s b_prev cond (b_prev (buf_at s HEAD)) = Some None ∧ Forall (λ i, cond (buf_at s i) = false) l) ∨
  ∃ l1 i l2, l = l1 ++ i :: l2 ∧ Forall (λ i, cond (buf_at s i) = false) l2 ∧
    cond (buf_at s i) = true ∧ walk (S NBUF) s b_prev cond (b_prev (buf_at s HEAD)) = Some (Some i).
Proof.
  intros Hd. destruct (dll_nodup _ _ Hd) as [_ Hn]. destruct Hd as [_ Hp _ Hc].
  apply NoDup_cons in Hn as [Hh _].
  destruct (walk_chain (S NBUF) s b_prev cond HEAD (rev l)) as [[Hw Hall]|(l1 & i & l2 & E & Hall & Hi & Hw)];
    [rewrite length_rev, Hp, length_seq; lia|done|exact Hc| |].
  - left. split; [done|]. by rewrite Permutation_rev.
  - right. exists (rev l2), i, (rev l1). split_and!; try done.
    + rewrite <- (rev_involutive l), E, rev_app_distr. simpl. by rewrite <- (assoc_L app).
    + by rewrite <- Permutation_rev.
Qed.

(** ** The cache implements the block layer *)

(** Buffer [i] is the one for block [b]. *)
Definition caches (s : bst) (i : nat) (b : Z) : Prop :=
  (i < NBUF)%nat ∧ b_dev (buf_at s i) = 1 ∧ b_blockno (buf_at s i) = b.

Definition VD : Z := Z.lor B_VALID B_DIRTY.

Record brel (s : bst) (a : blk) : Prop := {
  br_dll : ∃ l, dll s l;
  br_disk b : memdisk s b = bdisk a b;
  br_size : disksize s = bcount a;
  br_trace : btrace s = wtrace a;
  br_uniq i j b : caches s i b → caches s j b → i = j;
  br_used i : (i < NBUF)%nat → b_dev (buf_at s i) = 1 →
    b_flags (buf_at s i) = B_VALID ∨ b_flags (buf_at s i) = VD;
  br_free i : (i < NBUF)%nat → b_dev (buf_at s i) ≠ 1 → b_lk (buf_at s i) = false ∧ b_flags (buf_at s i) = 0;
  br_ref i : (i < NBUF)%nat → b_refcnt (buf_at s i) = if b_lk (buf_at s i) then 1 else 0;
  br_data i b : caches s i b → b_data (buf_at s i) = bbuf a b;
  br_dirty b : bdirty a b = true ↔ ∃ i, caches s i b ∧ b_flags (buf_at s i) = VD;
  br_held b : b ∈ bheld a ↔ ∃ i, caches s i b ∧ b_lk (buf_at s i) = true;
  br_ok : blk_ok a
}.

(** A step that gives buffer [i] the contents of block [b] and leaves the
    others alone. *)
Record change (s : bst) (a : blk) (s' : bst) (a' : blk) (i : nat) (b : Z) : Prop := {
  ch_lt : (i < NBUF)%nat;
  ch_other j : j ≠ i → payload (buf_at s' j) = payload (buf_at s j);
  ch_dll : ∃ l, dll s' l;
  ch_dev : b_dev (buf_at s' i) = 1;
  ch_block : b_blockno (buf_at s' i) = b;
  ch_flags : b_flags (buf_at s' i) = B_VALID ∨ b_flags (buf_at s' i) = VD;
  ch_ref : b_refcnt (buf_at s' i) = if b_lk (buf_at s' i) then 1 else 0;
  ch_from : caches s i b ∨
    (∀ j, ¬ caches s j b) ∧ b_lk (buf_at s i) = false ∧ b_flags (buf_at s i) ≠ VD;
  ch_disk c : memdisk s' c = bdisk a' c;
  ch_size : disksize s' = bcount a';
  ch_trace : btrace s' = wtrace a';
  ch_buf c : c ≠ b → bbuf a' c = bbuf a c ∧ bdirty a' c = bdirty a c ∧ (c ∈ bheld a' ↔ c ∈ bheld a);
  ch_data : b_data (buf_at s' i) = bbuf a' b;
  ch_dirty : bdirty a' b = true ↔ b_flags (buf_at s' i) = VD;
  ch_held : b ∈ bheld a' ↔ b_lk (buf_at s' i) = true;
  ch_ok : blk_ok a'
}.

Lemma payload_eq b b' : payload b = payload b' → b_flags b = b_flags b' ∧ b_dev b = b_dev b' ∧
  b_blockno b = b_blockno b' ∧ b_lk b = b_lk b' ∧ b_refcnt b = b_refcnt b' ∧ b_data b = b_data b'.
Proof. unfold payload. intros [= -> -> -> -> -> ->]. done. Qed.

Lemma brel_change s a s' a' i b : brel s a → change s a s' a' i b → brel s' a'.
Proof.
  intros [Rd Rk Rs Rt Ru Rus Rf Rr Rda Rdi Rh Rok]
    [Hlt Hoth Hdll Hdev Hblk Hfl Href Hfrom Hdisk Hsize Htr Hbuf Hdata Hdirty Hheld Hok].
  assert (∀ j c, j ≠ i → caches s' j c ↔ caches s j c) as Hcj.
  { intros j c Hj. destruct (payload_eq _ _ (Hoth j Hj)) as (_ & E1 & E2 & _). unfold caches. by rewrite E1, E2. }
  assert (∀ c, caches s' i c ↔ c = b) as Hci.
  { intros c. unfold caches. rewrite Hdev, Hblk. naive_solver. }
  assert (∀ j c, j ≠ i → caches s j c → c ≠ b) as Hnb.
  { intros j c Hj Hc ->. destruct Hfrom as [Hi|[Hno _]]; [by apply Hj; eapply Ru|by eapply Hno]. }
  assert (∀ c, c ≠ b → caches s i c → b_lk (buf_at s i) = false ∧ b_flags (buf_at s i) ≠ VD) as Hold.
  { intros c Hc Hi. destruct Hfrom as [Hi'|[_ ?]]; [|done]. destruct Hc.
    destruct Hi as (_ & _ & <-), Hi' as (_ & _ & <-). done. }
  split; try done.
  - intros j k c Hj Hk. destruct (decide (j = i)) as [->|Hji], (decide (k = i)) as [->|Hki]; [done|..].
    + apply Hci in Hj as ->. apply Hcj in Hk; [|done]. by destruct (Hnb _ _ Hki Hk).
    + apply Hci in Hk as ->. apply Hcj in Hj; [|done]. by destruct (Hnb _ _ Hji Hj).
    + apply Hcj in Hj, Hk; [|done..]. by eapply Ru.
  - intros j Hj. destruct (decide (j = i)) as [->|Hji]; [done|].
    destruct (payload_eq _ _ (Hoth j Hji)) as (-> & -> & _). auto.
  - intros j Hj. destruct (decide (j = i)) as [->|Hji]; [done|].
    destruct (payload_eq _ _ (Hoth j Hji)) as (-> & -> & _ & -> & _). auto.
  - intros j Hj. destruct (decide (j = i)) as [->|Hji]; [done|].
    destruct (payload_eq _ _ (Hoth j Hji)) as (_ & _ & _ & -> & -> & _). auto.
  - intros j c Hc. destruct (decide (j = i)) as [->|Hji]; [by apply Hci in Hc as ->|].
    apply Hcj in Hc; [|done]. destruct (payload_eq _ _ (Hoth j Hji)) as (_ & _ & _ & _ & _ & ->).
    destruct (Hbuf c) as [-> _]; [by eapply Hnb|]. auto.
  - intros c. destruct (decide (c = b)) as [->|Hc].
    + rewrite Hdirty. split; [intros; exists i; by rewrite Hci|].
      intros (j & Hj & Ej). destruct (decide (j = i)) as [->|Hji]; [done|].
      apply Hcj in Hj; [|done]. by destruct (Hnb _ _ Hji Hj).
    + destruct (Hbuf c Hc) as (_ & -> & _). rewrite Rdi. split; intros (j & Hj & Ej).
      * assert (j ≠ i) as Hji by (intros ->; by destruct (Hold c Hc Hj)).
        exists j. rewrite Hcj by done. by destruct (payload_eq _ _ (Hoth j Hji)) as (-> & _).
      * assert (j ≠ i) as Hji by (intros ->; by apply Hc, Hci).
        exists j. apply Hcj in Hj; [|done]. by destruct (payload_eq _ _ (Hoth j Hji)) as (<- & _).
  - intros c. destruct (decide (c = b)) as [->|Hc].
    + rewrite Hheld. split; [intros; exists i; by rewrite Hci|].
      intros (j & Hj & Ej). destruct (decide (j = i)) as [->|Hji]; [done|].
      apply Hcj in Hj; [|done]. by destruct (Hnb _ _ Hji Hj).
    + destruct (Hbuf c Hc) as (_ & _ & ->). rewrite Rh. split; intros (j & Hj & Ej).
      * assert (j ≠ i) as Hji by (intros ->; destruct (Hold c Hc Hj); congruence).
        exists j. rewrite Hcj by done. by destruct (payload_eq _ _ (Hoth j Hji)) as (_ & _ & _ & -> & _).
      * assert (j ≠ i) as Hji by (intros ->; by apply Hc, Hci).
        exists j. apply Hcj in Hj; [|done]. by destruct (payload_eq _ _ (Hoth j Hji)) as (_ & _ & _ & <- & _).
Qed.

(** [b] is locked in buffer [i]. *)
Definition handle (s : bst) (i : nat) (b : Z) : Prop := caches s i b ∧ b_lk (buf_at s i) = true.

Lemma dll_links s s' l : dll s l → length (bufs s') = length (bufs s) →
  (∀ j, nx s' j = nx s j ∧ pv s' j = pv s j) → dll s' l.
Proof.
  intros [Hl Hp Hn Hv] El Hj. split; [by rewrite El|done|..].
  - eapply chain_ext; [|exact Hn]. intros j _. symmetry. apply Hj.
  - eapply chain_ext; [|exact Hv]. intros j _. symmetry. apply Hj.
Qed.

(** An update of buffer [i] that keeps its links. *)
Lemma dll_updb s l i f : dll s l → (i < NBUF)%nat →
  (∀ b, b_next (f b) = b_next b ∧ b_prev (f b) = b_prev b) → dll (updb i f s) l.
Proof.
  intros Hd Hi Hf. eapply dll_links; [exact Hd|apply length_updb|]. intros j. unfold nx, pv.
  rewrite buf_at_updb by (rewrite (dl_len _ _ Hd); lia). case_decide; [subst; apply Hf|done].
Qed.

Lemma updb_updb i f g s : updb i g (updb i f s) = updb i (g ∘ f) s.
Proof. unfold updb, with_bufs. simpl. by rewrite alter_alter. Qed.

Lemma brel_len s a : brel s a → length (bufs s) = S NBUF.
Proof. intros [[l Hd] _ _ _ _ _ _ _ _ _ _ _]. apply Hd. Qed.

Lemma buf_at_with s d n t i : buf_at (BSt (bufs s) d n t) i = buf_at s i.
Proof. done. Qed.

(** Changing the buffer of a locked block in place. *)
Lemma brel_locked s a i b f a' d n t :
  brel s a → handle s i b → (∀ x, b_next (f x) = b_next x ∧ b_prev (f x) = b_prev x) →
  (∀ x, b_dev (f x) = b_dev x ∧ b_blockno (f x) = b_blockno x ∧ b_lk (f x) = b_lk x ∧ b_refcnt (f x) = b_refcnt x) →
  b_flags (f (buf_at s i)) = B_VALID ∨ b_flags (f (buf_at s i)) = VD →
  (∀ c, d c = bdisk a' c) → n = bcount a' → t = wtrace a' →
  (∀ c, c ≠ b → bbuf a' c = bbuf a c ∧ bdirty a' c = bdirty a c) → bheld a' = bheld a →
  b_data (f (buf_at s i)) = bbuf a' b → (bdirty a' b = true ↔ b_flags (f (buf_at s i)) = VD) → blk_ok a' →
  let s' := updb i f (BSt (bufs s) d n t) in brel s' a' ∧ ∀ j c, handle s' j c ↔ handle s j c.
Proof.
  intros HR [Hc Hlk] Hlink Hkeep Hfl Hd Hn Ht Hoth Hheld Hdata Hdirty Hok s'.
  pose proof (brel_len _ _ HR) as Hlen. pose proof Hc as (Hi & Hdev & Hb).
  assert (∀ j, buf_at s' j = if decide (j = i) then f (buf_at s i) else buf_at s j) as Hs'.
  { intros j. unfold s'. rewrite buf_at_updb by (simpl; rewrite Hlen; lia). done. }
  destruct (Hkeep (buf_at s i)) as (K1 & K2 & K3 & K4). split.
  - apply (brel_change s a s' a' i b HR). split; try done; rewrite ?Hs', ?decide_True by done; try done.
    + intros j Hj. by rewrite Hs', decide_False.
    + destruct (br_dll _ _ HR) as [l Hl]. exists l. apply dll_updb; [|done..].
      eapply dll_links; [exact Hl|done..].
    + by rewrite K1.
    + by rewrite K2.
    + rewrite K3, K4. by apply HR.
    + by left.
    + intros c Hcb. destruct (Hoth c Hcb) as [-> ->]. by rewrite Hheld.
    + rewrite Hheld, K3, Hlk. split; [done|]. intros _. apply (br_held _ _ HR). by exists i.
  - intros j c. unfold handle, caches. rewrite Hs'. case_decide; [subst; by rewrite K1, K2, K3|done].
Qed.

Lemma sim_set_bdata s a i b d a' : brel s a → handle s i b → set_bdata b d a = Ok (tt, a') →
  ∃ s', c_set_bdata i d s = Ok (tt, s') ∧ brel s' a' ∧ ∀ j c, handle s' j c ↔ handle s j c.
Proof.
  intros HR Hh Ha. pose proof (set_bdata_blk_ok _ _ _ _ (br_ok _ _ HR) Ha) as Hok.
  apply set_bdata_inv in Ha as [_ ->]. eexists. split; [done|].
  destruct Hh as [Hc Hlk]. pose proof Hc as (Hi & Hdev & Hb).
  replace (updb i (set_data d) s) with (updb i (set_data d) (BSt (bufs s) (memdisk s) (disksize s) (btrace s)))
    by (by destruct s).
  apply (brel_locked s a i b); try done; simpl.
  - by apply (br_used _ _ HR).
  - apply HR.
  - apply HR.
  - apply HR.
  - intros c Hcb. by rewrite fset_other.
  - by rewrite fset_same.
  - rewrite (br_dirty _ _ HR). split; [|intros; by exists i].
    intros (j & Hj & E). by rewrite (br_uniq _ _ HR _ _ _ Hc Hj).
Qed.

Lemma sim_bdata s a i b d a' : brel s a → handle s i b → bdata b a = Ok (d, a') →
  c_bdata i s = Ok (d, s) ∧ a' = a.
Proof.
  intros HR [Hc _]. unfold bdata. case_bool_decide; [|done]. intros [= <- <-].
  unfold c_bdata, gets. by rewrite (br_data _ _ HR _ _ Hc).
Qed.

Lemma flags_or_dirty f : f = B_VALID ∨ f = VD → Z.lor f B_DIRTY = VD.
Proof. by intros [->| ->]. Qed.

Lemma sim_set_bdirty s a i b a' : brel s a → handle s i b → set_bdirty b a = Ok (tt, a') →
  ∃ s', c_set_bdirty i s = Ok (tt, s') ∧ brel s' a' ∧ ∀ j c, handle s' j c ↔ handle s j c.
Proof.
  intros HR Hh Ha. pose proof (set_bdirty_blk_ok _ _ _ (br_ok _ _ HR) Ha) as Hok.
  apply set_bdirty_inv in Ha as [_ ->]. eexists. split; [done|].
  destruct Hh as [Hc Hlk]. pose proof Hc as (Hi & Hdev & Hb).
  pose proof (flags_or_dirty _ (br_used _ _ HR _ Hi Hdev)) as Hfl.
  set (f := λ b, set_flags _ _). 
  replace (updb i f s) with (updb i f (BSt (bufs s) (memdisk s) (disksize s) (btrace s))) by (by destruct s).
  apply (brel_locked s a i b); try done; simpl.
  - by right.
  - apply HR.
  - apply HR.
  - apply HR.
  - intros c Hcb. by rewrite fset_other.
  - by apply HR.
  - by rewrite fset_same, Hfl.
Qed.

Lemma sim_bwrite s a i b a' : brel s a → handle s i b → bwrite b a = Ok (tt, a') →
  ∃ s', c_bwrite i s = Ok (tt, s') ∧ brel s' a' ∧ ∀ j c, handle s' j c ↔ handle s j c.
Proof.
  intros HR Hh Ha. pose proof (bwrite_blk_ok _ _ _ (br_ok _ _ HR) Ha) as Hok.
  apply bwrite_inv in Ha as [Hin ->]. pose proof (bo_range _ (br_ok _ _ HR) _ Hin) as Hrange.
  pose proof Hh as [Hc Hlk]. pose proof Hc as (Hi & Hdev & Hb).
  pose proof (flags_or_dirty _ (br_used _ _ HR _ Hi Hdev)) as Hfl.
  pose proof (brel_len _ _ HR) as Hlen. pose proof (br_data _ _ HR _ _ Hc) as Hdata.
  exists (updb i (set_flags B_VALID) (BSt (bufs s) (fset (memdisk s) b (bbuf a b)) (disksize s)
    (btrace s ++ [(b, bbuf a b)]))).
  split.
  - unfold c_bwrite. mstep. rewrite Hlk. simpl. rewrite Hfl. unfold iderw.
    rewrite buf_at_updb by (rewrite Hlen; lia). rewrite decide_True by done. simpl.
    rewrite Hlk, Hdev. simpl. rewrite Hb, Hdata.
    rewrite (proj2 (Z.leb_gt (disksize s) b)) by (rewrite (br_size _ _ HR); lia).
    unfold updb, with_bufs. simpl. by rewrite alter_alter.
  - apply (brel_locked s a i b); try done; simpl.
    + by left.
    + intros c. unfold fset. destruct (c =? b); [done|apply HR].
    + apply HR.
    + by rewrite (br_trace _ _ HR).
    + intros c Hcb. by rewrite fset_other.
    + by rewrite fset_same.
Qed.

Lemma elem_rem {A} (l1 l2 : list A) i : NoDup (l1 ++ i :: l2) → i ∉ l1 ++ l2.
Proof.
  intros (_ & Hd & Hn)%NoDup_app. apply NoDup_cons in Hn as [Hn _].
  intros [Hi|Hi]%elem_of_app; [|done]. apply (Hd i Hi). by left.
Qed.

Lemma elem_mid {A} (l1 l2 : list A) i : i ∈ l1 ++ i :: l2.
Proof. apply elem_of_app. right. by left. Qed.

(** [brelse] moves the buffer to the front. *)
Lemma dll_to_front s l1 i l2 : dll s (l1 ++ i :: l2) →
  let s' := insert_front i (unlink i s) in
  dll s' (i :: l1 ++ l2) ∧ (∀ j, payload (buf_at s' j) = payload (buf_at s j)) ∧
  memdisk s' = memdisk s ∧ disksize s' = disksize s ∧ btrace s' = btrace s.
Proof.
  intros Hd. destruct (unlink_spec s l1 i l2 Hd) as (U1 & U2 & U3 & U4 & U5 & U6 & U7).
  destruct (dll_nodup _ _ Hd) as [Hn _]. apply NoDup_cons in Hn as [Hh Hn].
  pose proof (dl_perm _ _ Hd) as Hp.
  assert (∀ j, j ∈ l1 ++ i :: l2 → (j < NBUF)%nat) as Hlt.
  { intros j Hj. rewrite Hp, elem_of_seq in Hj. lia. }
  destruct (insert_front_spec (unlink i s) (l1 ++ l2) i) as (I1 & I2 & I3 & I4 & I5 & I6 & I7); try done.
  - constructor; [set_solver|]. apply NoDup_app in Hn as (? & Hd' & [? ?]%NoDup_cons).
    apply NoDup_app. split_and!; [done|set_solver|done].
  - intros j Hj. apply Hlt. set_solver.
  - apply Hlt. set_solver.
  - by apply elem_rem.
  - split_and!; [|intros j; by rewrite I4, U4|congruence..].
    split; [done| |done|done]. rewrite <- Hp. by rewrite Permutation_middle.
Qed.

Lemma sim_brelse s a i b a' : brel s a → handle s i b → brelse b a = Ok (tt, a') →
  ∃ s', c_brelse i s = Ok (tt, s') ∧ brel s' a' ∧ ∀ j c, c ≠ b → handle s j c → handle s' j c.
Proof.
  intros HR Hh Ha. pose proof (brelse_blk_ok _ _ _ (br_ok _ _ HR) Ha) as Hok.
  apply brelse_inv in Ha as (Hin & Hcl & ->).
  pose proof Hh as [Hc Hlk]. pose proof Hc as (Hi & Hdev & Hb).
  pose proof (brel_len _ _ HR) as Hlen. pose proof (br_ref _ _ HR _ Hi) as Href. rewrite Hlk in Href.
  destruct (br_dll _ _ HR) as [l Hl].
  set (s1 := updb i ((λ b, set_refcnt (u32 (b_refcnt b - 1)) b) ∘ set_lk false) s).
  assert (∀ j, buf_at s1 j = if decide (j = i) then set_refcnt 0 (set_lk false (buf_at s i)) else buf_at s j) as Hs1.
  { intros j. unfold s1. rewrite buf_at_updb by (rewrite Hlen; lia). case_decide; [|done].
    unfold compose. simpl. by rewrite Href. }
  assert (dll s1 l) as Hl1 by (by apply dll_updb).
  assert (i ∈ l) as Hil by (rewrite (dl_perm _ _ Hl), elem_of_seq; lia).
  apply list_elem_of_split in Hil as (l1 & l2 & ->).
  destruct (dll_to_front s1 l1 i l2 Hl1) as (D1 & D2 & D3 & D4 & D5).
  set (s2 := insert_front i (unlink i s1)) in *. exists s2. split; [|split].
  - unfold c_brelse. mstep. rewrite Hlk. simpl. rewrite updb_updb. fold s1.
    rewrite Hs1, decide_True by done. done.
  - assert (payload (buf_at s2 i) = payload (set_refcnt 0 (set_lk false (buf_at s i)))) as Ei.
    { rewrite D2, Hs1. by rewrite decide_True. }
    apply payload_eq in Ei as (E1 & E2 & E3 & E4 & E5 & E6). simpl in *.
    apply (brel_change s a s2 _ i b HR). split; simpl; try done.
    + intros j Hj. by rewrite D2, Hs1, decide_False.
    + eauto.
    + by rewrite E2.
    + by rewrite E3.
    + rewrite E1. by apply (br_used _ _ HR).
    + by rewrite E4, E5.
    + by left.
    + intros c. apply (br_disk _ _ HR).
    + apply (br_size _ _ HR).
    + apply (br_trace _ _ HR).
    + intros c Hcb. split_and!; [done..|]. rewrite list_elem_of_filter. tauto.
    + rewrite E6. by apply HR.
    + rewrite E1, (br_dirty _ _ HR). split; [|intros; by exists i].
      intros (j & Hj & E). by rewrite (br_uniq _ _ HR _ _ _ Hc Hj).
    + rewrite E4, list_elem_of_filter. split; [tauto|done].
  - intros j c Hcb [Hj Hlj]. assert (j ≠ i) as Hji.
    { intros ->. destruct Hj as (_ & _ & E). congruence. }
    assert (payload (buf_at s2 j) = payload (buf_at s j)) as Ej by (by rewrite D2, Hs1, decide_False).
    apply payload_eq in Ej as (_ & E2 & E3 & E4 & _). unfold handle, caches. by rewrite E2, E3, E4.
Qed.

(** The two outcomes of a lookup. *)
Lemma lookup_hit s a l b : brel s a → dll s l →
  let w := walk (S NBUF) s b_next (λ x, (b_dev x =? 1) && (b_blockno x =? b)) (b_next (buf_at s HEAD)) in
  (w = Some None ∧ ∀ i, ¬ caches s i b) ∨ (∃ i, w = Some (Some i) ∧ caches s i b).
Proof.
  intros HR Hd w. pose proof (dl_perm _ _ Hd) as Hp.
  destruct (walk_next s l (λ x, (b_dev x =? 1) && (b_blockno x =? b)) Hd)
    as [[Hw Hall]|(l1 & i & l2 & -> & _ & Hi & Hw)].
  - left. split; [exact Hw|]. intros i (Hi & Hdev & Hb).
    assert (i ∈ l) as Hil by (rewrite Hp, elem_of_seq; lia).
    eapply Forall_forall in Hall; [|exact Hil]. simpl in Hall. rewrite Hdev, Hb, !Z.eqb_refl in Hall. done.
  - right. exists i. split; [exact Hw|]. apply andb_true_iff in Hi as [H1%Z.eqb_eq H2%Z.eqb_eq].
    pose proof (elem_mid l1 l2 i) as Hil. rewrite Hp, elem_of_seq in Hil.
    split_and!; [lia|done..].
Qed.

Lemma sim_bread_hit s a b i a' : brel s a → caches s i b → bread b a = Ok (b, a') →
  walk (S NBUF) s b_next (λ x, (b_dev x =? 1) && (b_blockno x =? b)) (b_next (buf_at s HEAD)) = Some (Some i) →
  ∃ s', c_bread 1 b s = Ok (i, s') ∧ brel s' a' ∧ handle s' i b ∧ ∀ j c, handle s j c → handle s' j c.
Proof.
  intros HR Hc Ha Hw. pose proof (bread_blk_ok _ _ _ _ (br_ok _ _ HR) Ha) as Hok.
  apply bread_inv in Ha as (_ & Hnh & Hrange & ->). pose proof Hc as (Hi & Hdev & Hb).
  pose proof (brel_len _ _ HR) as Hlen.
  assert (b_lk (buf_at s i) = false) as Hlk.
  { destruct (b_lk (buf_at s i)) eqn:E; [|done]. destruct Hnh. apply (br_held _ _ HR). by exists i. }
  pose proof (br_ref _ _ HR _ Hi) as Href. rewrite Hlk in Href.
  set (f := set_lk true ∘ (λ x, set_refcnt (b_refcnt x + 1) x)).
  assert (∀ j, buf_at (updb i f s) j = if decide (j = i) then f (buf_at s i) else buf_at s j) as Hs'.
  { intros j. apply buf_at_updb. rewrite Hlen. lia. }
  pose proof (br_used _ _ HR _ Hi Hdev) as Hfl.
  exists (updb i f s). split; [|split; [|split]].
  - unfold c_bread, bget. mstep. rewrite Hw. unfold acquiresleep. mstep.
    rewrite buf_at_updb by (rewrite Hlen; lia). rewrite decide_True by done. simpl. rewrite Hlk, updb_updb.
    fold f. rewrite Hs', decide_True by done. unfold f. simpl. by destruct Hfl as [->| ->].
  - apply (brel_change s a _ _ i b HR). split; simpl; rewrite ?Hs', ?decide_True by done; try done.
    + intros j Hj. by rewrite Hs', decide_False.
    + destruct (br_dll _ _ HR) as [l Hl]. exists l. by apply dll_updb.
    + unfold f. simpl. by rewrite Href.
    + by left.
    + apply HR.
    + apply HR.
    + apply HR.
    + intros c Hcb. rewrite elem_of_cons. split_and!; [done..|tauto].
    + by apply (br_data _ _ HR).
    + rewrite (br_dirty _ _ HR). split; [|intros; by exists i].
      intros (j & Hj & E). by rewrite (br_uniq _ _ HR _ _ _ Hc Hj).
    + split; [done|by left].
  - split; [|by rewrite Hs', decide_True]. unfold caches. by rewrite Hs', decide_True.
  - intros j c [Hj Hlj]. assert (j ≠ i) by congruence. unfold handle, caches. by rewrite Hs', decide_False.
Qed.

Lemma sim_bread_miss s a b i a' : brel s a → (∀ j, ¬ caches s j b) → bread b a = Ok (b, a') →
  (i < NBUF)%nat → b_refcnt (buf_at s i) = 0 → Z.land (b_flags (buf_at s i)) B_DIRTY = 0 →
  walk (S NBUF) s b_next (λ x, (b_dev x =? 1) && (b_blockno x =? b)) (b_next (buf_at s HEAD)) = Some None →
  walk (S NBUF) s b_prev (λ x, (b_refcnt x =? 0) && (Z.land (b_flags x) B_DIRTY =? 0)) (b_prev (buf_at s HEAD))
    = Some (Some i) →
  ∃ s', c_bread 1 b s = Ok (i, s') ∧ brel s' a' ∧ handle s' i b ∧ ∀ j c, handle s j c → handle s' j c.
Proof.
  intros HR Hno Ha Hi Hr0 Hd0 Hw1 Hw2. pose proof (bread_blk_ok _ _ _ _ (br_ok _ _ HR) Ha) as Hok.
  apply bread_inv in Ha as (_ & Hnh & Hrange & ->). pose proof (brel_len _ _ HR) as Hlen.
  assert (b_lk (buf_at s i) = false) as Hlk.
  { pose proof (br_ref _ _ HR _ Hi) as E. rewrite Hr0 in E. by destruct (b_lk (buf_at s i)). }
  assert (bdirty a b = false) as Hnd.
  { destruct (bdirty a b) eqn:E; [|done]. apply (br_dirty _ _ HR) in E as (j & Hj & _). by destruct (Hno j). }
  pose proof (bo_clean _ (br_ok _ _ HR) b Hnd Hnh) as Hclean.
  set (f := (λ x, set_flags B_VALID (set_data (bdisk a b) x)) ∘ (set_lk true ∘ recycle 1 b)).
  assert (∀ j, buf_at (updb i f s) j = if decide (j = i) then f (buf_at s i) else buf_at s j) as Hs'.
  { intros j. apply buf_at_updb. rewrite Hlen. lia. }
  exists (updb i f s). split; [|split; [|split]].
  - unfold c_bread, bget. mstep. rewrite Hw1, Hw2. unfold acquiresleep. mstep.
    rewrite buf_at_updb by (rewrite Hlen; lia). rewrite decide_True by done. simpl. rewrite Hlk, updb_updb.
    rewrite buf_at_updb by (rewrite Hlen; lia). rewrite decide_True by done. simpl.
    unfold iderw. rewrite buf_at_updb by (rewrite Hlen; lia). rewrite decide_True by done. simpl.
    rewrite (proj2 (Z.leb_gt (disksize s) b)) by (rewrite (br_size _ _ HR); lia).
    rewrite (br_disk _ _ HR). by rewrite updb_updb.
  - apply (brel_change s a _ _ i b HR). split; simpl; rewrite ?Hs', ?decide_True by done; try done.
    + intros j Hj. by rewrite Hs', decide_False.
    + destruct (br_dll _ _ HR) as [l Hl]. exists l. by apply dll_updb.
    + by left.
    + right. split_and!; [done..|]. intros E. by rewrite E in Hd0.
    + apply HR.
    + apply HR.
    + apply HR.
    + intros c Hcb. rewrite elem_of_cons. split_and!; [done..|tauto].
    + by rewrite Hnd.
    + split; [done|by left].
  - split; [|by rewrite Hs', decide_True]. unfold caches. by rewrite Hs', decide_True.
  - intros j c [Hj Hlj]. assert (j ≠ i) by congruence. unfold handle, caches. by rewrite Hs', decide_False.
Qed.

(** All buffers are taken, by locked or pinned blocks other than [b]. *)
Definition full (a : blk) (b : Z) : Prop :=
  ∃ L, NoDup L ∧ length L = NBUF ∧ (b ∉ L) ∧ ∀ c, c ∈ L → c ∈ bheld a ∨ bdirty a c = true.

Lemma no_free_full s a b : brel s a → (∀ j, ¬ caches s j b) →
  (∀ i, (i < NBUF)%nat → (b_refcnt (buf_at s i) =? 0) && (Z.land (b_flags (buf_at s i)) B_DIRTY =? 0) = false) → full a b.
Proof.
  intros HR Hno Hall. assert (∀ i, (i < NBUF)%nat → caches s i (b_blockno (buf_at s i))) as Hc.
  { intros i Hi. split; [done|]. split; [|done]. destruct (decide (b_dev (buf_at s i) = 1)) as [|Hd]; [done|].
    specialize (Hall i Hi). destruct (br_free _ _ HR i Hi Hd) as [Hk Hf].
    rewrite (br_ref _ _ HR i Hi), Hk, Hf in Hall. done. }
  exists ((λ i, b_blockno (buf_at s i)) <$> seq 0 NBUF). split_and!.
  - apply NoDup_fmap_2_strong; [|apply NoDup_seq]. intros i j Hi%elem_of_seq Hj%elem_of_seq E.
    apply (br_uniq _ _ HR i j (b_blockno (buf_at s i))); [apply Hc; lia|]. rewrite E. apply Hc. lia.
  - by rewrite length_fmap, length_seq.
  - intros (i & E & Hi%elem_of_seq)%list_elem_of_fmap. apply (Hno i). rewrite E. apply Hc. lia.
  - intros c (i & -> & Hi%elem_of_seq)%list_elem_of_fmap. assert (i < NBUF)%nat as Hlt by lia.
    specialize (Hall i Hlt). rewrite (br_ref _ _ HR i Hlt) in Hall. rewrite (br_held _ _ HR), (br_dirty _ _ HR).
    destruct (b_lk (buf_at s i)) eqn:Ek; [left; exists i; auto|right; exists i; split; [auto|]].
    destruct (br_used _ _ HR i Hlt) as [E|E]; [apply Hc, Hlt|by rewrite E in Hall|done].
Qed.

Lemma sim_bread s a b a' : brel s a → bread b a = Ok (b, a') →
  (c_bread 1 b s = Panic "bget: no buffers" ∧ full a b) ∨
  ∃ i s', c_bread 1 b s = Ok (i, s') ∧ brel s' a' ∧ handle s' i b ∧ ∀ j c, handle s j c → handle s' j c.
Proof.
  intros HR Ha. destruct (br_dll _ _ HR) as [l Hl].
  destruct (lookup_hit s a l b HR Hl) as [[Hw Hno]|(i & Hw & Hc)].
  - destruct (walk_prev s l (λ x, (b_refcnt x =? 0) && (Z.land (b_flags x) B_DIRTY =? 0)) Hl)
      as [[Hw2 Hall]|(l1 & i & l2 & -> & _ & Hi & Hw2)].
    + left. split; [unfold c_bread, bget; mstep; by rewrite Hw, Hw2|].
      apply (no_free_full s); [done|done|]. intros i Hi. rewrite Forall_forall in Hall. apply (Hall i).
      rewrite (dl_perm _ _ Hl), elem_of_seq. lia.
    + right. exists i. apply andb_true_iff in Hi as [H1%Z.eqb_eq H2%Z.eqb_eq].
      pose proof (elem_mid l1 l2 i) as Hil. rewrite (dl_perm _ _ Hl), elem_of_seq in Hil.
      eapply sim_bread_miss; try done. lia.
  - right. exists i. by eapply sim_bread_hit.
Qed.

(** ** Clients of the cache

    A sequential client that locks, reads, changes, pins, writes and releases
    blocks, run against the contract and against the cache. *)

Inductive bop :=
| ORead (b : Z)                (* bread *)
| OData (b : Z)                (* look at b->data *)
| OSet (b : Z) (d : block)     (* store into b->data *)
| ODirty (b : Z)               (* b->flags |= B_DIRTY *)
| OWrite (b : Z)               (* bwrite *)
| ORelse (b : Z).              (* brelse *)

(** The data a client sees. *)
Definition a_op (o : bop) : M blk (list block) :=
  match o with
  | ORead b => bread b;; mret []
  | OData b => d ← bdata b; mret [d]
  | OSet b d => set_bdata b d;; mret []
  | ODirty b => set_bdirty b;; mret []
  | OWrite b => bwrite b;; mret []
  | ORelse b => brelse b;; mret []
  end.

(** [h b] is the pointer the client got for block [b]. *)
Definition c_op (o : bop) (x : bst * (Z → nat)) : outcome (list block * (bst * (Z → nat))) :=
  let run {A} (c : M bst A) (k : A → list block * (Z → nat)) :=
    match c x.1 with
    | Ok (a, s') => Ok ((k a).1, (s', (k a).2))
    | Panic m => Panic m
    | Blocked => Blocked
    | Undef => Undef
    end in
  let h := x.2 in
  match o with
  | ORead b => run (c_bread 1 b) (λ i, ([], fset h b i))
  | OData b => run (c_bdata (h b)) (λ d, ([d], h))
  | OSet b d => run (c_set_bdata (h b) d) (λ _, ([], h))
  | ODirty b => run (c_set_bdirty (h b)) (λ _, ([], h))
  | OWrite b => run (c_bwrite (h b)) (λ _, ([], h))
  | ORelse b => run (c_brelse (h b)) (λ _, ([], h))
  end.

Fixpoint a_ops (os : list bop) : M blk (list block) :=
  match os with
  | [] => mret []
  | o :: os' => d ← a_op o; ds ← a_ops os'; mret (d ++ ds)
  end.

Fixpoint c_ops (os : list bop) : M (bst * (Z → nat)) (list block) :=
  match os with
  | [] => mret []
  | o :: os' => d ← c_op o; ds ← c_ops os'; mret (d ++ ds)
  end.

(** The client's pointers are those of the blocks it holds. *)
Definition client (s : bst) (a : blk) (h : Z → nat) : Prop :=
  brel s a ∧ ∀ b, b ∈ bheld a → handle s (h b) b.

Lemma sim_op o s a h d a' : client s a h → a_op o a = Ok (d, a') →
  (∃ b, o = ORead b ∧ c_op o (s, h) = Panic "bget: no buffers" ∧ full a b) ∨
  ∃ s' h', c_op o (s, h) = Ok (d, (s', h')) ∧ client s' a' h'.
Proof.
  intros [HR Hh] Ha. destruct o as [b|b|b d'|b|b|b]; unfold a_op in Ha; minv; unfold c_op; cbv zeta; cbn [fst snd].
  - pose proof (bread_inv _ _ _ _ E) as (-> & Hnb & _ & ->).
    destruct (sim_bread _ _ _ _ HR E) as [[-> Hfull]|(i & s' & -> & HR' & Hi & Hmono)]; [by left; exists b|right].
    do 2 eexists. split; [done|]. split; [done|]. simpl. intros c Hc.
    destruct (decide (c = b)) as [->|Hne]; [by rewrite fset_same|]. rewrite fset_other by done.
    apply elem_of_cons in Hc as [?|Hc]; [done|]. auto.
  - assert (b ∈ bheld a) as Hb by (unfold bdata in E; by case_bool_decide).
    destruct (sim_bdata _ _ _ _ _ _ HR (Hh _ Hb) E) as [-> ->]. right. by do 2 eexists.
  - pose proof (set_bdata_inv _ _ _ _ E) as (Hb & Ea).
    destruct (sim_set_bdata _ _ _ _ _ _ HR (Hh _ Hb) E) as (s' & -> & HR' & Hk). right.
    do 2 eexists. split; [done|]. split; [done|]. intros c Hc. apply Hk, Hh. by rewrite Ea in Hc.
  - pose proof (set_bdirty_inv _ _ _ E) as (Hb & Ea).
    destruct (sim_set_bdirty _ _ _ _ _ HR (Hh _ Hb) E) as (s' & -> & HR' & Hk). right.
    do 2 eexists. split; [done|]. split; [done|]. intros c Hc. apply Hk, Hh. by rewrite Ea in Hc.
  - pose proof (bwrite_inv _ _ _ E) as (Hb & Ea).
    destruct (sim_bwrite _ _ _ _ _ HR (Hh _ Hb) E) as (s' & -> & HR' & Hk). right.
    do 2 eexists. split; [done|]. split; [done|]. intros c Hc. apply Hk, Hh. by rewrite Ea in Hc.
  - pose proof (brelse_inv _ _ _ E) as (Hb & _ & Ea).
    destruct (sim_brelse _ _ _ _ _ HR (Hh _ Hb) E) as (s' & -> & HR' & Hk). right.
    do 2 eexists. split; [done|]. split; [done|]. intros c Hc. rewrite Ea in Hc. simpl in Hc.
    apply list_elem_of_filter in Hc as [Hcb Hc]. apply Hk; auto.
Qed.

(** The client has come to a read when all buffers are taken. *)
Definition out_of_buffers (os : list bop) (a : blk) : Prop :=
  ∃ os1 b os2 ds1 a1, os = os1 ++ ORead b :: os2 ∧ a_ops os1 a = Ok (ds1, a1) ∧ full a1 b.

Lemma out_of_buffers_cons o os a d a1 : a_op o a = Ok (d, a1) → out_of_buffers os a1 → out_of_buffers (o :: os) a.
Proof.
  intros E (os1 & b & os2 & ds & a2 & -> & E2 & Hf). exists (o :: os1), b, os2, (d ++ ds), a2. split; [done|]. split; [|done].
  cbn [a_ops]. by rewrite (bind_ok _ _ _ _ _ E), (bind_ok _ _ _ _ _ E2).
Qed.

Lemma sim_ops os s a h ds a' : client s a h → a_ops os a = Ok (ds, a') →
  (c_ops os (s, h) = Panic "bget: no buffers" ∧ out_of_buffers os a) ∨
  ∃ s' h', c_ops os (s, h) = Ok (ds, (s', h')) ∧ client s' a' h'.
Proof.
  revert s a h ds. induction os as [|o os IH]; intros s a h ds Hc Ha; cbn [a_ops c_ops] in *; minv.
  { right. eauto. }
  destruct (sim_op _ _ _ _ _ _ Hc E) as [(b & -> & E1 & Hf)|(t1 & h1 & E1 & Hc1)].
  { left. split; [unfold mbind, M_bind; by rewrite E1|]. by exists [], b, os, [], a. }
  destruct (IH _ _ _ _ Hc1 E0) as [[E2 Ho]|(t2 & h2 & E2 & Hc2)].
  - left. split; [rewrite (bind_ok _ _ _ _ _ E1); unfold mbind, M_bind; by rewrite E2|]. by eapply out_of_buffers_cons.
  - right. do 2 eexists. split; [|exact Hc2]. by rewrite (bind_ok _ _ _ _ _ E1), (bind_ok _ _ _ _ _ E2).
Qed.

(** A client that never has [NBUF] blocks locked or pinned gets its buffers. *)
Lemma full_held a b : full a b → (∀ c, bdirty a c = false) → (NBUF ≤ length (bheld a))%nat.
Proof.
  intros (L & Hnd & <- & _ & HL) Hd. apply submseteq_length, NoDup_submseteq; [done|].
  intros c Hc. destruct (HL c Hc) as [|E]; [done|]. by rewrite Hd in E.
Qed.

(** The cache after [binit]. *)
Definition bio_boot (d : Z → block) (n : Z) : bst := binit (BSt (replicate (S NBUF) zero_buf) d n []).

Lemma binit_rest d n :
  memdisk (bio_boot d n) = d ∧ disksize (bio_boot d n) = n ∧ btrace (bio_boot d n) = [].
Proof. vm_compute. tauto. Qed.

Lemma binit_dll d n : dll (bio_boot d n) (rev (seq 0 NBUF)).
Proof.
  split.
  - vm_compute. reflexivity.
  - by rewrite <- Permutation_rev.
  - vm_compute. tauto.
  - vm_compute. tauto.
Qed.

Lemma binit_buf d n i : (i < NBUF)%nat → let b := buf_at (bio_boot d n) i in
  b_flags b = 0 ∧ b_dev b = 0 ∧ b_lk b = false ∧ b_refcnt b = 0.
Proof.
  intros Hi. assert (Forall (λ i, let b := buf_at (bio_boot d n) i in
    (b_flags b, b_dev b, b_lk b, b_refcnt b) = (0, 0, false, 0)) (seq 0 NBUF)) as Hall.
  { vm_compute. repeat constructor. }
  eapply Forall_forall in Hall; [|apply elem_of_seq; split; [apply Nat.le_0_l|exact Hi]].
  cbv zeta in *. generalize dependent (buf_at (bio_boot d n) i). intros b Hall.
  injection Hall as -> -> -> ->. done.
Qed.

#[local] Opaque bio_boot.

Lemma client_boot d n h : client (bio_boot d n) (blk_boot d n) h.
Proof.
  assert (∀ i b, ¬ caches (bio_boot d n) i b) as Hno.
  { intros i b (Hi & Hd & _). destruct (binit_buf d n i Hi) as (_ & E & _). congruence. }
  destruct (binit_rest d n) as (E1 & E2 & E3).
  split; [|by intros b ?%not_elem_of_nil]. split.
  - exists (rev (seq 0 NBUF)). apply binit_dll.
  - intros b. by rewrite E1.
  - by rewrite E2.
  - by rewrite E3.
  - intros i j b Hi. by destruct (Hno i b).
  - intros i Hi Hd. destruct (binit_buf d n i Hi) as (_ & E & _). congruence.
  - intros i Hi _. by destruct (binit_buf d n i Hi) as (-> & _ & -> & _).
  - intros i Hi. by destruct (binit_buf d n i Hi) as (_ & _ & -> & ->).
  - intros i b Hi. by destruct (Hno i b).
  - intros b. split; [done|]. intros (i & Hi & _). by destruct (Hno i b).
  - intros b. split; [by intros ?%not_elem_of_nil|]. intros (i & Hi & _). by destruct (Hno i b).
  - by split; simpl; [constructor|intros b ?%not_elem_of_nil|].
Qed.

(** C9: the buffer cache implements the contract of [Block.v]: a client that
    stays within the contract sees from the cache, started by [binit], exactly
    the data the contract prescribes, and leaves the disk with the same
    contents written in the same order.  The one other outcome is the panic for
    lack of buffers, and it comes only when the client reads a block while
    [NBUF] other blocks are locked or pinned. *)
Theorem bcache_implements_blocks d n h os ds a' :
  a_ops os (blk_boot d n) = Ok (ds, a') →
  (c_ops os (bio_boot d n, h) = Panic "bget: no buffers" ∧ out_of_buffers os (blk_boot d n)) ∨
  ∃ s' h', c_ops os (bio_boot d n, h) = Ok (ds, (s', h')) ∧
    (∀ b, memdisk s' b = bdisk a' b) ∧ btrace s' = wtrace a'.
Proof.
  intros Ha. destruct (sim_ops _ _ _ _ _ _ (client_boot d n h) Ha) as [?|(s' & h' & E & HR & _)]; [by left|right].
  exists s', h'. split; [done|]. split; [apply HR|apply HR].
Qed.

(** [bget] of a block that is not cached takes the least recently used
    buffer that is neither referenced nor dirty: with the buffers on the list
    in the order [l] (most recently used first), every buffer behind the one
    taken is in use; and [brelse] of the last reference moves a buffer to the
    front and keeps the order of the others. *)
Theorem bcache_is_lru s a l b : brel s a → dll s l → (∀ j, ¬ caches s j b) →
  (∃ j, j ∈ l ∧ b_refcnt (buf_at s j) = 0 ∧ b_flags (buf_at s j) ≠ VD) →
  (∃ i s' l1 l2, bget 1 b s = Ok (i, s') ∧ l = l1 ++ i :: l2 ∧ caches s' i b ∧
     b_refcnt (buf_at s i) = 0 ∧ b_flags (buf_at s i) ≠ VD ∧
     Forall (λ j, b_refcnt (buf_at s j) ≠ 0 ∨ b_flags (buf_at s j) = VD) l2) ∧
  (∀ l1 i l2, l = l1 ++ i :: l2 → dll (insert_front i (unlink i s)) (i :: l1 ++ l2)).
Proof.
  intros HR Hl Hno (j0 & Hj0 & Hr0 & Hf0). pose proof (brel_len _ _ HR) as Hlen.
  assert (∀ j, j ∈ l → (j < NBUF)%nat) as Hlt.
  { intros j Hj. rewrite (dl_perm _ _ Hl), elem_of_seq in Hj. lia. }
  assert (∀ j, j ∈ l → (Z.land (b_flags (buf_at s j)) B_DIRTY =? 0) = negb (b_flags (buf_at s j) =? VD)) as Hfl.
  { intros j Hj. destruct (decide (b_dev (buf_at s j) = 1)) as [Hd|Hd].
    - by destruct (br_used _ _ HR j (Hlt _ Hj) Hd) as [->| ->].
    - destruct (br_free _ _ HR j (Hlt _ Hj) Hd) as [_ ->]. done. }
  split.
  - destruct (lookup_hit s a l b HR Hl) as [[Hw _]|(i & _ & Hc)]; [|by destruct (Hno i)].
    destruct (walk_prev s l (λ x, (b_refcnt x =? 0) && (Z.land (b_flags x) B_DIRTY =? 0)) Hl)
      as [[_ Hall]|(l1 & i & l2 & -> & Hall & Hi & Hw2)].
    { eapply Forall_forall in Hall; [|exact Hj0]. simpl in Hall. rewrite Hr0, Hfl in Hall by done.
      apply Z.eqb_neq in Hf0. rewrite Hf0 in Hall. done. }
    apply andb_true_iff in Hi as [H1%Z.eqb_eq H2]. rewrite Hfl in H2 by apply elem_mid.
    apply negb_true_iff, Z.eqb_neq in H2. pose proof (Hlt i (elem_mid _ _ _)) as Hi.
    pose proof (br_ref _ _ HR i Hi) as Hlk. rewrite H1 in Hlk.
    eexists i, _, l1, l2. split_and!; try done.
    + unfold bget. rewrite Hw, Hw2. unfold acquiresleep. mstep. rewrite buf_at_updb by (rewrite Hlen; lia).
      rewrite decide_True by done. simpl. by destruct (b_lk (buf_at s i)).
    + unfold caches. rewrite updb_updb, buf_at_updb by (rewrite Hlen; lia). rewrite decide_True by done. done.
    + eapply Forall_impl; [|intros j Hj; exact Hj]. apply Forall_forall. intros j Hj.
      eapply Forall_forall in Hall; [|exact Hj]. simpl in Hall. rewrite Hfl in Hall by (apply elem_of_app; right; by right).
      apply andb_false_iff in Hall as [?%Z.eqb_neq|?%negb_false_iff%Z.eqb_eq]; auto.
  - intros l1 i l2 ->. by apply dll_to_front.
Qed.

(** A client that reads block 7, changes and writes it, and reads it again. *)
Definition demo_ops (d : block) : list bop :=
  [ORead 7; OData 7; OSet 7 d; OWrite 7; ORelse 7; ORead 7; OData 7; ORelse 7].

(** At no point are more than a block locked or any pinned. *)
Lemma demo_buffers : ¬ out_of_buffers (demo_ops [1; 2]) (blk_boot (λ b, [b]) 100).
Proof.
  intros (os1 & b & os2 & ds & a & E & Ha & Hf). unfold demo_ops in E.
  assert ((∀ c, bdirty a c = false) ∧ (length (bheld a) ≤ 1)%nat) as [Hd Hl].
  { destruct os1 as [|? [|? [|? [|? [|? [|? os3]]]]]]; cbn [app] in E; simplify_eq;
      try (cbn in Ha; injection Ha as <- <-; split; [|simpl; lia]; intros c; simpl; unfold fset; by destruct (c =? 7)).
    by destruct os3 as [|? [|? [|? ?]]]. }
  pose proof (full_held _ _ Hf Hd). unfold NBUF in *. lia.
Qed.

Lemma bcache_implements_blocks_witness :
  ∃ s' h', c_ops (demo_ops [1; 2]) (bio_boot (λ b, [b]) 100, λ _, 0%nat) = Ok ([[7]; [1; 2]], (s', h')) ∧
    btrace s' = [(7, [1; 2])].
Proof.
  assert (∃ a', a_ops (demo_ops [1; 2]) (blk_boot (λ b, [b]) 100) = Ok ([[7]; [1; 2]], a') ∧
    wtrace a' = [(7, [1; 2])]) as (a' & Ha & Ht) by (eexists; split; reflexivity).
  destruct (bcache_implements_blocks (λ b, [b]) 100 (λ _, 0%nat) _ _ _ Ha) as [[_ Ho]|(s' & h' & ? & _ & Hb)];
    [by destruct demo_buffers|exists s', h'; split; [done|congruence]].
Defined.

Lemma bcache_is_lru_witness : ∃ i s', bget 1 7 (bio_boot (λ b, [b]) 100) = Ok (i, s') ∧ caches s' i 7.
Proof.
  destruct (client_boot (λ b, [b]) 100 (λ _, 0%nat)) as [HR _].
  destruct (bcache_is_lru (bio_boot (λ b, [b]) 100) _ (rev (seq 0 NBUF)) 7 HR (binit_dll _ _))
    as [(i & s' & l1 & l2 & ? & _ & ? & _) _]; [| |eauto].
  - intros j (Hj & Hd & _). destruct (binit_buf (λ b, [b]) 100 j Hj) as (_ & E & _). congruence.
  - exists 0%nat. split; [by apply list_elem_of_In, in_rev; rewrite rev_involutive; left|].
    destruct (binit_buf (λ b, [b]) 100 0 ltac:(unfold NBUF; lia)) as (-> & _ & _ & ->). done.
Defined.
