(* ===== verification/Log.v ===== *)
(** * The log

    Models [log.c]: system calls bracketed by [begin_op] and [end_op] modify
    blocks in the cache and register them with [log_write]; the last [end_op]
    commits them: copies to the log area, the header with their block numbers,
    copies to their homes, and an empty header.  [recover_from_log] replays a
    committed log at boot.

    The theorems: whatever write a crash comes after, recovery (itself
    crashed any number of times) leaves the disk with none of the updates or
    with all of them; and the reservation rule of [begin_op] keeps operations
    within the log. *)

From S2P Require Import Prelude Block.

Definition MAXOPBLOCKS : Z := 10.
Definition LOGSIZE : Z := MAXOPBLOCKS * 3.

(** [struct log]; [lh_n] and [lh_block] are the header in memory. *)
Record lst := LSt {
  lblk : blk;
  lstart : Z;
  lsize : Z;
  outstanding : Z;
  committing : bool;
  lh_n : Z;
  lh_block : list Z
}.

Definition set_lblk (b : blk) (s : lst) : lst :=
  LSt b (lstart s) (lsize s) (outstanding s) (committing s) (lh_n s) (lh_block s).
Definition set_lh (n : Z) (bs : list Z) (s : lst) : lst :=
  LSt (lblk s) (lstart s) (lsize s) (outstanding s) (committing s) n bs.
Definition set_outstanding (o : Z) (s : lst) : lst :=
  LSt (lblk s) (lstart s) (lsize s) o (committing s) (lh_n s) (lh_block s).
Definition set_committing (c : bool) (s : lst) : lst :=
  LSt (lblk s) (lstart s) (lsize s) (outstanding s) c (lh_n s) (lh_block s).

(** A call into the block layer. *)
Definition lcall {A} (c : M blk A) : M lst A := λ s,
  match c (lblk s) with
  | Ok (a, b) => Ok (a, set_lblk b s)
  | Panic m => Panic m
  | Blocked => Blocked
  | Undef => Undef
  end.

(** [memmove(to->data, from->data, BSIZE)] *)
Definition copy_block (to from : Z) : M blk unit := d ← bdata from; set_bdata to d.

(** The body of the loop of [install_trans] for one block. *)
Definition install_one (log home : Z) : M blk unit :=
  lbuf ← bread log;
  dbuf ← bread home;
  copy_block dbuf lbuf;;
  bwrite dbuf;;
  brelse lbuf;;
  brelse dbuf.

(** The body of the loop of [write_log]. *)
Definition write_log_one (log home : Z) : M blk unit :=
  to ← bread log;
  from ← bread home;
  copy_block to from;;
  bwrite to;;
  brelse from;;
  brelse to.

(** [for (tail = tail0; tail < log.lh.n; tail++)] over the given tails. *)
Fixpoint for_tails (body : Z → Z → M blk unit) (tails : list nat) : M lst unit :=
  match tails with
  | [] => mret tt
  | t :: ts =>
      start ← gets lstart;
      home ← gets (λ s, lh_block s !!! t);
      lcall (body (start + Z.of_nat t + 1) home);;
      for_tails body ts
  end.

Definition install_trans : M lst unit :=
  n ← gets lh_n; for_tails install_one (seq 0 (Z.to_nat n)).
Definition write_log : M lst unit :=
  n ← gets lh_n; for_tails write_log_one (seq 0 (Z.to_nat n)).

(** The header block: [int n; int block[LOGSIZE];] *)
Definition hdr_n (d : block) : Z := s32 (get32 d 0).
Definition hdr_block (d : block) (i : nat) : Z := s32 (get32 d (4 + 4 * i)).
Fixpoint put_blocks (d : block) (bs : list Z) (is_ : list nat) : block :=
  match is_ with
  | [] => d
  | i :: is' => put_blocks (put32 d (4 + 4 * i) (u32 (bs !!! i))) bs is'
  end.

(** [read_head]; more than [LOGSIZE] entries overrun the array in memory. *)
Definition read_head : M lst unit :=
  start ← gets lstart;
  buf ← lcall (bread start);
  d ← lcall (bdata buf);
  let n := hdr_n d in
  if LOGSIZE <? n then undef else
  bs ← gets lh_block;
  modify (set_lh n (foldl (λ bs i, <[i := hdr_block d i]> bs) bs (seq 0 (Z.to_nat n))));;
  lcall (brelse buf).

Definition write_head : M lst unit :=
  start ← gets lstart;
  buf ← lcall (bread start);
  d ← lcall (bdata buf);
  n ← gets lh_n;
  bs ← gets lh_block;
  lcall (set_bdata buf (put_blocks (put32 d 0 (u32 n)) bs (seq 0 (Z.to_nat n))));;
  lcall (bwrite buf);;
  lcall (brelse buf).

(** [log.lh.n = 0;] *)
Definition clear_n : M lst unit := modify (λ s, set_lh 0 (lh_block s) s).

Definition recover_from_log : M lst unit :=
  read_head;; install_trans;; clear_n;; write_head.

Definition commit : M lst unit :=
  n ← gets lh_n;
  if 0 <? n then write_log;; write_head;; install_trans;; clear_n;; write_head
  else mret tt.

(** [begin_op]; [Blocked] where it sleeps on [&log]. *)
Definition begin_op : M lst unit := λ s,
  if committing s then Blocked
  else if LOGSIZE <? lh_n s + (outstanding s + 1) * MAXOPBLOCKS then Blocked
  else Ok (tt, set_outstanding (outstanding s + 1) s).

Definition end_op : M lst unit :=
  modify (λ s, set_outstanding (outstanding s - 1) s);;
  c ← gets committing;
  if (c : bool) then panic "log.committing" else
  o ← gets outstanding;
  if o =? 0 then
    modify (set_committing true);;
    commit;;
    modify (set_committing false)
  else mret tt.

(** The first index below [n] that holds [b], or [n]. *)
Fixpoint absorb (bs : list Z) (b : Z) (i n : nat) : nat :=
  match n with
  | O => i
  | S n' => if bs !!! i =? b then i else absorb bs b (S i) n'
  end.

Definition log_write (b : Z) : M lst unit := λ s,
  if (LOGSIZE <=? lh_n s) || (lsize s - 1 <=? lh_n s) then Panic "too big a transaction"
  else if outstanding s <? 1 then Panic "log_write outside of trans"
  else
    let i := absorb (lh_block s) b 0 (Z.to_nat (lh_n s)) in
    lcall (set_bdirty b)
      (set_lh (if (i =? Z.to_nat (lh_n s))%nat then lh_n s + 1 else lh_n s) (<[i := b]> (lh_block s)) s).

(** [readsb] and [initlog]: [nlog] and [logstart] are the words at 12 and 16
    of block 1. *)
Definition sb_nlog (d : block) : Z := get32 d 12.
Definition sb_logstart (d : block) : Z := get32 d 16.
Definition readsb : M blk block :=
  bp ← bread 1; d ← bdata bp; brelse bp;; mret d.
Definition initlog : M lst unit :=
  d ← lcall readsb;
  modify (λ s, LSt (lblk s) (s32 (sb_logstart d)) (s32 (sb_nlog d)) (outstanding s) (committing s)
                 (lh_n s) (lh_block s));;
  recover_from_log.

(** ** Disk writes *)

(** The disk after the writes [ws]. *)
Definition aw (d : Z → block) (ws : list (Z * block)) : Z → block :=
  foldl (λ d w, fset d w.1 w.2) d ws.

Lemma aw_app d ws1 ws2 : aw d (ws1 ++ ws2) = aw (aw d ws1) ws2.
Proof. apply foldl_app. Qed.

Lemma aw_other d ws b : b ∉ ws.*1 → aw d ws b = d b.
Proof.
  revert d. induction ws as [|w ws IH]; intros d Hb; [done|]. simpl in *.
  apply not_elem_of_cons in Hb as [Hw Hb]. unfold aw in *. simpl. rewrite IH by done. by apply fset_other.
Qed.

Lemma aw_same d d' ws b : b ∈ ws.*1 → aw d ws b = aw d' ws b.
Proof.
  revert d d'. induction ws as [|w ws IH]; intros d d' Hb; [by apply not_elem_of_nil in Hb|].
  unfold aw in *. simpl in *. destruct (decide (b ∈ ws.*1)) as [Hin|Hnin]; [by apply IH|].
  apply elem_of_cons in Hb as [->|?]; [|done].
  change (aw (fset d w.1 w.2) ws w.1 = aw (fset d' w.1 w.2) ws w.1).
  rewrite !aw_other by done. by rewrite !fset_same.
Qed.

Lemma aw_ext d d' ws b : d b = d' b → aw d ws b = aw d' ws b.
Proof.
  intros E. destruct (decide (b ∈ ws.*1)); [by apply aw_same|]. by rewrite !aw_other.
Qed.

(** Redoing a prefix changes nothing in the end. *)
Lemma aw_redo d ws j b : aw (aw d (take j ws)) ws b = aw d ws b.
Proof.
  destruct (decide (b ∈ ws.*1)) as [Hin|Hnin]; [by apply aw_same|].
  rewrite !aw_other; try done. intros Hb. apply Hnin.
  apply list_elem_of_fmap in Hb as (w & -> & Hw). apply list_elem_of_fmap. exists w. split; [done|].
  by eapply elem_of_take in Hw as (? & ? & _); eapply list_elem_of_lookup_2.
Qed.

Lemma aw_in d ws b x : NoDup ws.*1 → (b, x) ∈ ws → aw d ws b = x.
Proof.
  revert d. induction ws as [|w ws IH]; intros d Hn Hb; [by apply not_elem_of_nil in Hb|].
  apply NoDup_cons in Hn as [Hw Hn]. apply elem_of_cons in Hb as [<-|Hb].
  - change (aw (fset d b x) ws b = x). rewrite aw_other by done. apply fset_same.
  - unfold aw. simpl. by apply IH.
Qed.

(** Writes of the contents that [f] gives. *)
Lemma aw_fun_id {A} d (f : Z → block) (g : A → Z) l b : f b = d b →
  aw d ((λ t, (g t, f (g t))) <$> l) b = f b.
Proof.
  revert d. induction l as [|t l IH]; intros d Hb; [done|].
  unfold aw in *. simpl. apply IH. unfold fset. bcase; [congruence|done].
Qed.
Lemma aw_fun {A} d (f : Z → block) (g : A → Z) l b : b ∈ g <$> l →
  aw d ((λ t, (g t, f (g t))) <$> l) b = f b.
Proof.
  intros Hb. rewrite (aw_same d f); [by apply aw_fun_id|]. by rewrite <- list_fmap_compose.
Qed.

(** One block written to disk through the cache. *)
Definition wr (s : blk) (w : Z * block) : blk :=
  Blk (fset (bdisk s) w.1 w.2) (fset (bbuf s) w.1 w.2) (fset (bdirty s) w.1 false) (bheld s) (bcount s)
    (wtrace s ++ [w]).
Definition wrs (s : blk) (ws : list (Z * block)) : blk := foldl wr s ws.

Lemma wrs_disk s ws : bdisk (wrs s ws) = aw (bdisk s) ws ∧ bbuf (wrs s ws) = aw (bbuf s) ws ∧
  bheld (wrs s ws) = bheld s ∧ bcount (wrs s ws) = bcount s ∧ wtrace (wrs s ws) = wtrace s ++ ws.
Proof.
  revert s. induction ws as [|w ws IH]; intros s; simpl; [by rewrite app_nil_r|].
  destruct (IH (wr s w)) as (-> & -> & -> & -> & ->). simpl. by rewrite <- (assoc_L app).
Qed.

Lemma wrs_clean s ws b : b ∈ ws.*1 ∨ bdirty s b = false → bdirty (wrs s ws) b = false.
Proof.
  revert s. induction ws as [|w ws IH]; intros s Hb.
  { by destruct Hb as [[]%not_elem_of_nil|?]. }
  apply (IH (wr s w)). simpl. destruct (decide (b = w.1)) as [->|Hne]; [right; apply fset_same|].
  rewrite fset_other by done. destruct Hb as [[?|?]%elem_of_cons|?]; [done|by left|by right].
Qed.

Lemma wrs_dirty s ws b : b ∉ ws.*1 → bdirty (wrs s ws) b = bdirty s b.
Proof.
  revert s. induction ws as [|w ws IH]; intros s Hb; [done|].
  apply not_elem_of_cons in Hb as [Hw Hb]. etrans; [by apply (IH (wr s w))|]. by apply fset_other.
Qed.

Lemma wr_ok s w : blk_ok s → blk_ok (wr s w).
Proof.
  intros [H1 H2 H3]. split; simpl; [done..|]. intros b Hd Hh.
  destruct (decide (b = w.1)) as [->|Hne]; [by rewrite !fset_same|].
  rewrite fset_other in Hd by done. rewrite !fset_other by done. auto.
Qed.

Lemma wrs_ok s ws : blk_ok s → blk_ok (wrs s ws).
Proof. revert s. induction ws as [|w ws IH]; intros s Hs; simpl; auto using wr_ok. Qed.

(** What is in the buffer of a block nobody holds may be released. *)
Definition in_range (s : blk) (b : Z) : Prop := 0 ≤ b < bcount s.

(** Run block operations on blocks whose lock state is known. *)
Ltac bsolve := simpl; first
  [ assumption
  | solve [unfold in_range in *; simpl in *; lia]
  | solve [rewrite ?elem_of_cons, ?elem_of_nil; intuition congruence] ].
Ltac bstep :=
  match goal with
  | |- @mbind _ _ _ _ _ (bread ?b) ?s = _ => rewrite (bind_ok _ _ _ _ _ (bread_eq b s ltac:(bsolve) ltac:(bsolve)))
  | |- @mbind _ _ _ _ _ (bdata ?b) ?s = _ => rewrite (bind_ok _ _ _ _ _ (bdata_eq b s ltac:(bsolve)))
  | |- @mbind _ _ _ _ _ (set_bdata ?b ?d) ?s = _ => rewrite (bind_ok _ _ _ _ _ (set_bdata_eq b d s ltac:(bsolve)))
  | |- @mbind _ _ _ _ _ (bwrite ?b) ?s = _ => rewrite (bind_ok _ _ _ _ _ (bwrite_eq b s ltac:(bsolve)))
  end.

Lemma bind_assoc {S A B C} (c : M S A) (k : A → M S B) (h : B → M S C) s :
  ((c ≫= k) ≫= h) s = (c ≫= λ a, k a ≫= h) s.
Proof. unfold mbind, M_bind. by destruct (c s) as [[a s']| | |]. Qed.

Ltac bcbn := cbn [bdisk bbuf bdirty bheld bcount wtrace with_held fst snd].
Ltac lcbn := cbn [lblk set_lblk set_lh set_outstanding set_committing lstart lsize outstanding committing lh_n lh_block]; bcbn.

Lemma filter_two {A} `{EqDecision A} (x y : A) : x ≠ y → filter (λ c, c ≠ y) [x; y] = [x].
Proof. intros Hne. by rewrite filter_cons_True, filter_cons_False by auto. Qed.
Lemma filter_fst {A} `{EqDecision A} (x y : A) : x ≠ y → filter (λ c, c ≠ x) [x; y] = [y].
Proof. intros Hne. by rewrite filter_cons_False, filter_cons_True by auto. Qed.
Lemma filter_one {A} `{EqDecision A} (x : A) : filter (λ c, c ≠ x) [x] = [].
Proof. by rewrite filter_cons_False by auto. Qed.

Lemma clean_or_dirty s b : blk_ok s → bheld s = [] → bdirty s b = true ∨ bbuf s b = bdisk s b.
Proof.
  intros Hok Hh. destruct (bdirty s b) eqn:E; [by left|right]. apply Hok; [done|].
  rewrite Hh. apply not_elem_of_nil.
Qed.

Lemma install_one_eq s log home : blk_ok s → bheld s = [] → log ≠ home → in_range s log → in_range s home →
  install_one log home s = Ok (tt, wr s (home, bbuf s log)).
Proof.
  intros Hok Hh Hne Hl Hm. unfold install_one, copy_block.
  rewrite (bind_ok _ _ _ _ _ (bread_eq log s ltac:(rewrite Hh; apply not_elem_of_nil) Hl)). rewrite Hh.
  bstep. rewrite bind_assoc. bstep. bstep. bstep. bcbn. rewrite fset_same.
  erewrite bind_ok; [|apply brelse_eq; [bsolve|]; bcbn; rewrite !fset_other by done; by apply clean_or_dirty].
  bcbn. rewrite filter_two by done.
  rewrite brelse_eq; [|bsolve|right; bcbn; by rewrite !fset_same]. bcbn.
  rewrite filter_one. unfold wr, with_held. simpl. by rewrite Hh.
Qed.

Lemma write_log_one_eq s log home : blk_ok s → bheld s = [] → log ≠ home → in_range s log → in_range s home →
  write_log_one log home s = Ok (tt, wr s (log, bbuf s home)).
Proof.
  intros Hok Hh Hne Hl Hm. unfold write_log_one, copy_block.
  rewrite (bind_ok _ _ _ _ _ (bread_eq log s ltac:(rewrite Hh; apply not_elem_of_nil) Hl)). rewrite Hh.
  bstep. rewrite bind_assoc. bstep. bstep. bstep. bcbn. rewrite fset_same.
  erewrite bind_ok; [|apply brelse_eq; [bsolve|]; bcbn; rewrite !fset_other by done; by apply clean_or_dirty].
  bcbn. rewrite filter_fst by done.
  rewrite brelse_eq; [|bsolve|right; bcbn; by rewrite !fset_same]. bcbn.
  rewrite filter_one. unfold wr, with_held. simpl. by rewrite Hh.
Qed.

Lemma lcall_eq {A} (c : M blk A) s a b : c (lblk s) = Ok (a, b) → lcall c s = Ok (a, set_lblk b s).
Proof. intros E. unfold lcall. by rewrite E. Qed.

(** A loop of [log.c] is a sequence of writes, each copying [src t] to [dst t]. *)
Lemma for_tails_eq body (dst src : nat → Z) ts s :
  (∀ b t, blk_ok b → bheld b = [] → bcount b = bcount (lblk s) → t ∈ ts →
     body (lstart s + Z.of_nat t + 1) (lh_block s !!! t) b = Ok (tt, wr b (dst t, bbuf b (src t)))) →
  (∀ t t', t ∈ ts → t' ∈ ts → dst t ≠ src t') →
  blk_ok (lblk s) → bheld (lblk s) = [] →
  for_tails body ts s = Ok (tt, set_lblk (wrs (lblk s) ((λ t, (dst t, bbuf (lblk s) (src t))) <$> ts)) s).
Proof.
  revert s. induction ts as [|t ts IH]; intros s Hb Hd Hok Hh; cbn [for_tails].
  { by destruct s. }
  mstep. rewrite (lcall_eq _ _ _ _ (Hb (lblk s) t Hok Hh eq_refl ltac:(by left))).
  set (b1 := wr _ _). rewrite (IH (set_lblk b1 s)).
  - match goal with |- Ok (_, set_lblk (wrs _ ?l) _) = _ =>
      assert (l = (λ t, (dst t, bbuf (lblk s) (src t))) <$> ts) as -> end; [|done].
    apply list_fmap_ext. intros i t' Ht'. simpl. rewrite fset_other; [done|].
    apply not_eq_sym, Hd; [by left|]. right. by eapply list_elem_of_lookup_2.
  - simpl. intros b t' H1 H2 H3 H4. apply Hb; try done. by right.
  - intros t1 t2 H1 H2. apply Hd; by right.
  - by apply wr_ok.
  - done.
Qed.

(** Blocks outside of the log. *)
Definition home (start size b : Z) : Prop := b < start ∨ start + size ≤ b.

(** The log area is on the disk and the first [n] entries of the header are
    blocks outside of it. *)
Record log_fits (start size count : Z) (n : Z) (blk_of : nat → Z) : Prop := {
  lf_start : 0 ≤ start;
  lf_end : start + size ≤ count;
  lf_size : 1 ≤ size;
  lf_n : 0 ≤ n ≤ LOGSIZE;
  lf_room : n ≤ size - 1;
  lf_home i : (Z.of_nat i < n) → home start size (blk_of i) ∧ 0 ≤ blk_of i < count
}.

Lemma install_trans_eq s : blk_ok (lblk s) → bheld (lblk s) = [] →
  log_fits (lstart s) (lsize s) (bcount (lblk s)) (lh_n s) (λ i, lh_block s !!! i) →
  install_trans s = Ok (tt, set_lblk (wrs (lblk s)
    ((λ t, (lh_block s !!! t, bbuf (lblk s) (lstart s + Z.of_nat t + 1))) <$> seq 0 (Z.to_nat (lh_n s)))) s).
Proof.
  intros Hok Hh [F1 F2 F3 F4 F5 F6]. unfold install_trans. mstep.
  apply (for_tails_eq install_one (λ t, lh_block s !!! t) (λ t, lstart s + Z.of_nat t + 1)); try done.
  - intros b t Hb1 Hb2 Hb3 [_ Ht]%elem_of_seq. destruct (F6 t) as [Hhome Hr]; [lia|]. unfold home in Hhome.
    apply install_one_eq; try done; unfold in_range; rewrite ?Hb3; lia.
  - intros t t' [_ Ht]%elem_of_seq [_ Ht']%elem_of_seq. destruct (F6 t) as [Hhome _]; [lia|]. unfold home in Hhome. lia.
Qed.

Lemma write_log_eq s : blk_ok (lblk s) → bheld (lblk s) = [] →
  log_fits (lstart s) (lsize s) (bcount (lblk s)) (lh_n s) (λ i, lh_block s !!! i) →
  write_log s = Ok (tt, set_lblk (wrs (lblk s)
    ((λ t, (lstart s + Z.of_nat t + 1, bbuf (lblk s) (lh_block s !!! t))) <$> seq 0 (Z.to_nat (lh_n s)))) s).
Proof.
  intros Hok Hh [F1 F2 F3 F4 F5 F6]. unfold write_log. mstep.
  apply (for_tails_eq write_log_one (λ t, lstart s + Z.of_nat t + 1) (λ t, lh_block s !!! t)); try done.
  - intros b t Hb1 Hb2 Hb3 [_ Ht]%elem_of_seq. destruct (F6 t) as [Hhome Hr]; [lia|]. unfold home in Hhome.
    apply write_log_one_eq; try done; unfold in_range; rewrite ?Hb3; lia.
  - intros t t' [_ Ht]%elem_of_seq [_ Ht']%elem_of_seq. destruct (F6 t') as [Hhome _]; [lia|]. unfold home in Hhome. lia.
Qed.

(** The header block [write_head] writes, over old contents [d]. *)
Definition mk_head (d : block) (n : Z) (bs : list Z) : block :=
  put_blocks (put32 d 0 (u32 n)) bs (seq 0 (Z.to_nat n)).

Lemma write_head_eq s : blk_ok (lblk s) → bheld (lblk s) = [] → 0 ≤ lstart s < bcount (lblk s) →
  write_head s = Ok (tt, set_lblk (wr (lblk s)
    (lstart s, mk_head (bbuf (lblk s) (lstart s)) (lh_n s) (lh_block s))) s).
Proof.
  intros Hok Hh Hr. unfold write_head. mstep.
  rewrite (lcall_eq _ _ _ _ (bread_eq (lstart s) (lblk s) ltac:(rewrite Hh; apply not_elem_of_nil) Hr)).
  erewrite lcall_eq by (apply bdata_eq; by left). lcbn.
  erewrite lcall_eq by (apply set_bdata_eq; by left). lcbn.
  erewrite lcall_eq by (apply bwrite_eq; by left). lcbn.
  erewrite lcall_eq by (apply brelse_eq; [by left|right; lcbn; by rewrite !fset_same]).
  lcbn. rewrite Hh, fset_same, filter_one. unfold wr. simpl. by rewrite Hh.
Qed.

(** ** The header block *)

Lemma length_put_blocks d bs is_ : length (put_blocks d bs is_) = length d.
Proof. revert d. induction is_ as [|i is_ IH]; intros d; simpl; [done|]. by rewrite IH, length_put32. Qed.

Lemma length_mk_head d n bs : length (mk_head d n bs) = length d.
Proof. unfold mk_head. by rewrite length_put_blocks, length_put32. Qed.

Lemma get_put_blocks_other d bs is_ o : (∀ i, i ∈ is_ → 4 + 4 * i ≠ o)%nat → (∃ q, o = 4 * q)%nat →
  get32 (put_blocks d bs is_) o = get32 d o.
Proof.
  revert d. induction is_ as [|i is_ IH]; intros d Hi Ho; [done|]. simpl.
  rewrite IH by (try done; intros j Hj; apply Hi; by right).
  apply get_put32_other. specialize (Hi i ltac:(by left)). destruct Ho. lia.
Qed.

Lemma get_put_blocks_same d bs is_ i : i ∈ is_ → (8 + 4 * i ≤ length d)%nat →
  get32 (put_blocks d bs is_) (4 + 4 * i) = u32 (bs !!! i).
Proof.
  revert d. induction is_ as [|j is_ IH]; intros d Hi Hl; [by apply not_elem_of_nil in Hi|]. cbn [put_blocks].
  destruct (decide (i ∈ is_)) as [Hin|Hnin]; [apply IH; [done|by rewrite length_put32]|].
  apply elem_of_cons in Hi as [->|?]; [|done].
  rewrite get_put_blocks_other; [|intros i Hi E; apply Hnin; by replace j with i by lia|by exists (S j); lia].
  rewrite get_put32_same by lia. apply u32_u32.
Qed.

Lemma hdr_n_mk d n bs : length d = 512%nat → 0 ≤ n ≤ LOGSIZE → hdr_n (mk_head d n bs) = n.
Proof.
  intros Hl Hn. unfold LOGSIZE, MAXOPBLOCKS in Hn. unfold hdr_n, mk_head.
  rewrite get_put_blocks_other by (first [lia | by exists 0%nat]).
  rewrite get_put32_same by lia. autorewrite with xv6. apply s32_small. lia.
Qed.

Lemma hdr_block_mk d n bs i : length d = 512%nat → 0 ≤ n ≤ LOGSIZE → Z.of_nat i < n →
  0 ≤ bs !!! i < 2 ^ 31 → hdr_block (mk_head d n bs) i = bs !!! i.
Proof.
  intros Hl Hn Hi Hb. unfold LOGSIZE, MAXOPBLOCKS in Hn. unfold hdr_block, mk_head.
  rewrite get_put_blocks_same; [|apply elem_of_seq; lia|rewrite length_put32; lia].
  autorewrite with xv6. apply s32_small. lia.
Qed.

(** ** Recovery *)

(** The writes that replaying the log of disk [d] makes, and the disk after
    them: what the log promises to whoever reads the disk after recovery. *)
Definition replay (start : Z) (d : Z → block) : list (Z * block) :=
  (λ t, (hdr_block (d start) t, d (start + Z.of_nat t + 1))) <$> seq 0 (Z.to_nat (hdr_n (d start))).
Definition view (start : Z) (d : Z → block) : Z → block := aw d (replay start d).

(** A disk whose log header is well formed. *)
Record disk_ok (start size count : Z) (d : Z → block) : Prop := {
  do_len : length (d start) = 512%nat;
  do_fits : log_fits start size count (hdr_n (d start)) (hdr_block (d start))
}.

(** All the writes of a recovery. *)
Definition recovery (start : Z) (d : Z → block) : list (Z * block) :=
  replay start d ++ [(start, put32 (d start) 0 0)].

Lemma lookup_foldl_insert (f : nat → Z) bs n t : (t < n)%nat → (n ≤ length bs)%nat →
  foldl (λ bs i, <[i := f i]> bs) bs (seq 0 n) !!! t = f t.
Proof.
  intros Ht Hn. revert bs Hn. induction n as [|n IH]; intros bs Hn; [lia|].
  rewrite seq_S, foldl_app. simpl. destruct (decide (t = n)) as [->|Hne].
  - apply list_lookup_total_insert_eq. clear -Hn.
    assert (∀ l, length (foldl (λ bs i, <[i := f i]> bs) bs l) = length bs) as ->; [|lia].
    intros l. induction l as [|i l IH] using rev_ind; [done|]. by rewrite foldl_app; simpl; rewrite length_insert.
  - rewrite list_lookup_total_insert_ne by done. apply IH; lia.
Qed.

Lemma read_head_eq s : blk_ok (lblk s) → bheld (lblk s) = [] → 0 ≤ lstart s < bcount (lblk s) →
  let h := bbuf (lblk s) (lstart s) in hdr_n h ≤ LOGSIZE →
  read_head s = Ok (tt, set_lh (hdr_n h)
    (foldl (λ bs i, <[i := hdr_block h i]> bs) (lh_block s) (seq 0 (Z.to_nat (hdr_n h)))) s).
Proof.
  intros Hok Hh Hr h Hn. unfold read_head. mstep.
  rewrite (lcall_eq _ _ _ _ (bread_eq (lstart s) (lblk s) ltac:(rewrite Hh; apply not_elem_of_nil) Hr)).
  erewrite lcall_eq by (apply bdata_eq; by left). lcbn. fold h.
  destruct (Z.ltb_spec LOGSIZE (hdr_n h)); [lia|].
  erewrite lcall_eq by (apply brelse_eq; [by left|lcbn; by apply (clean_or_dirty (lblk s))]).
  lcbn. rewrite Hh, filter_one. do 2 f_equal. unfold set_lblk, set_lh, with_held. simpl. f_equal.
  destruct (lblk s). simpl in *. by rewrite Hh.
Qed.

Lemma replay_home start size count d b : log_fits start size count (hdr_n (d start)) (hdr_block (d start)) →
  b ∈ (replay start d).*1 → home start size b ∧ 0 ≤ b < count.
Proof.
  intros F Hb. unfold replay in Hb. rewrite <- list_fmap_compose in Hb.
  apply list_elem_of_fmap in Hb as (t & -> & [_ Ht]%elem_of_seq). apply F. simpl in Ht. pose proof (lf_n _ _ _ _ _ F). lia.
Qed.

Lemma recover_eq s : blk_ok (lblk s) → bheld (lblk s) = [] → length (lh_block s) = 30%nat →
  disk_ok (lstart s) (lsize s) (bcount (lblk s)) (bbuf (lblk s)) →
  ∃ bs, recover_from_log s = Ok (tt, LSt (wrs (lblk s) (recovery (lstart s) (bbuf (lblk s))))
    (lstart s) (lsize s) (outstanding s) (committing s) 0 bs).
Proof.
  intros Hok Hh Hl [Hlen F]. pose proof F as F'. destruct F' as [F1 F2 F3 F4 F5 F6].
  unfold recover_from_log. rewrite (bind_ok _ _ _ _ _ (read_head_eq s Hok Hh ltac:(lia) ltac:(lia))).
  set (h := bbuf (lblk s) (lstart s)) in *. set (bs := foldl _ _ _).
  assert (∀ t, (Z.of_nat t < hdr_n h) → bs !!! t = hdr_block h t) as Hbs.
  { intros t Ht. apply (lookup_foldl_insert (hdr_block h)); [lia|]. rewrite Hl. unfold LOGSIZE, MAXOPBLOCKS in F4. lia. }
  erewrite bind_ok; [|apply install_trans_eq; try done; simpl; split; try done;
    intros i Hi; rewrite Hbs by done; by apply F6].
  cbn [lblk set_lh lstart lh_n lh_block].
  assert (((λ t, (bs !!! t, bbuf (lblk s) (lstart s + Z.of_nat t + 1))) <$> seq 0 (Z.to_nat (hdr_n h)))
    = replay (lstart s) (bbuf (lblk s))) as ->.
  { apply list_fmap_ext. intros i t Ht. apply lookup_seq in Ht as [-> Ht]. fold h in Ht. rewrite Hbs by lia. done. }
  set (b1 := wrs _ _). unfold clear_n. mstep.
  destruct (wrs_disk (lblk s) (replay (lstart s) (bbuf (lblk s)))) as (D1 & D2 & D3 & D4 & D5).
  rewrite write_head_eq; cbn [lblk set_lh lstart lh_n lh_block set_lblk];
    [|by apply wrs_ok|by unfold b1; rewrite D3|unfold b1; rewrite D4; lia].
  exists bs. unfold recovery, wrs. rewrite foldl_app. unfold set_lblk at 1. lcbn. unfold b1 at 2. rewrite D2.
  rewrite aw_other; [done|]. intros Hin. destruct (replay_home _ _ _ _ _ F Hin) as [Hq _].
  unfold home in Hq. lia.
Qed.

Lemma elem_take {A} (x : A) k l : x ∈ take k l → x ∈ l.
Proof. intros (i & Hi & _)%elem_of_take. by eapply list_elem_of_lookup_2. Qed.

(** Replaying part of the log leaves the log itself alone. *)
Lemma aw_replay_log start size count d k b : disk_ok start size count d → ¬ home start size b →
  aw d (take k (replay start d)) b = d b.
Proof.
  intros [_ F] Hb. apply aw_other. intros Hin. apply Hb. rewrite fmap_take in Hin.
  by eapply (replay_home start size count d), elem_take.
Qed.

Lemma replay_ext start d d' : d start = d' start →
  (∀ t, Z.of_nat t < hdr_n (d start) → d (start + Z.of_nat t + 1) = d' (start + Z.of_nat t + 1)) →
  replay start d = replay start d'.
Proof.
  intros E1 E2. unfold replay. rewrite <- E1. apply list_fmap_ext. intros i t Ht.
  apply lookup_seq in Ht as [-> Ht]. by rewrite E2 by lia.
Qed.

Lemma replay_prefix start size count d k : disk_ok start size count d →
  replay start (aw d (take k (replay start d))) = replay start d.
Proof.
  intros Hd. pose proof Hd as [_ [F1 F2 F3 F4 F5 F6]]. symmetry. apply replay_ext.
  - symmetry. eapply aw_replay_log; [done|]. unfold home. lia.
  - intros t Ht. symmetry. eapply aw_replay_log; [done|]. unfold home. lia.
Qed.

Lemma empty_log start size count d : 0 ≤ start → 1 ≤ size → start + size ≤ count →
  length (d start) = 512%nat → hdr_n (d start) = 0 → disk_ok start size count d ∧ view start d = d.
Proof.
  intros H1 H2 H3 H4 H5. split; [split; [done|]; split; rewrite ?H5; unfold LOGSIZE, MAXOPBLOCKS; lia|].
  unfold view, replay. by rewrite H5.
Qed.

Lemma hdr_n_zero d : length d = 512%nat → hdr_n (put32 d 0 0) = 0.
Proof. intros Hl. apply (hdr_n_mk d 0 []); [done|]. by unfold LOGSIZE, MAXOPBLOCKS. Qed.

(** After any number of the writes of a recovery, the log still promises the
    same contents. *)
Lemma recovery_prefix start size count d k : disk_ok start size count d →
  let d1 := aw d (take k (recovery start d)) in
  disk_ok start size count d1 ∧ ∀ b, b ≠ start → view start d1 b = view start d b.
Proof.
  intros Hd d1. pose proof Hd as [Hl [F1 F2 F3 F4 F5 F6]]. unfold recovery in d1.
  assert (¬ home start size start) as Hns by (unfold home; lia).
  destruct (Nat.le_gt_cases k (length (replay start d))) as [Hk|Hk].
  - unfold d1. rewrite take_app_le by done. split.
    + pose proof (aw_replay_log _ _ _ _ k _ Hd Hns) as E. split; rewrite E; by destruct Hd.
    + intros b _. unfold view. rewrite (replay_prefix start size count) by done. apply aw_redo.
  - unfold d1. rewrite take_ge by (rewrite length_app; simpl; lia). rewrite aw_app. simpl.
    pose proof (aw_replay_log _ _ _ _ (length (replay start d)) _ Hd Hns) as E. rewrite firstn_all in E.
    destruct (empty_log start size count (fset (aw d (replay start d)) start (put32 (d start) 0 0)))
      as [Hok Hv]; rewrite ?fset_same; try done; rewrite ?length_put32; [done|by apply hdr_n_zero|].
    split; [done|]. intros b Hb. etrans; [exact (f_equal (λ f, f b) Hv)|]. by apply fset_other.
Qed.

(** ** Commit *)

(** A transaction about to commit: nothing is locked, the blocks modified in
    memory are among those in the header in memory, and the log on disk is
    empty. *)
Record log_ready (s : lst) : Prop := {
  lr_ok : blk_ok (lblk s);
  lr_held : bheld (lblk s) = [];
  lr_fits : log_fits (lstart s) (lsize s) (bcount (lblk s)) (lh_n s) (λ i, lh_block s !!! i);
  lr_count : bcount (lblk s) ≤ 2 ^ 31;
  lr_dirty b : bdirty (lblk s) b = true → ∃ i, Z.of_nat i < lh_n s ∧ lh_block s !!! i = b;
  lr_len : length (bdisk (lblk s) (lstart s)) = 512%nat;
  lr_empty : hdr_n (bdisk (lblk s) (lstart s)) = 0
}.

(** The writes of [write_log] and of the first [write_head]: up to the last
    of them the log on disk is empty. *)
Definition log_copies (s : lst) : list (Z * block) :=
  (λ t, (lstart s + Z.of_nat t + 1, bbuf (lblk s) (lh_block s !!! t))) <$> seq 0 (Z.to_nat (lh_n s)).
Definition log_head (s : lst) : block := mk_head (bdisk (lblk s) (lstart s)) (lh_n s) (lh_block s).
Definition log_fill (s : lst) : list (Z * block) := log_copies s ++ [(lstart s, log_head s)].
Definition commit_writes (s : lst) : list (Z * block) :=
  log_fill s ++ recovery (lstart s) (aw (bdisk (lblk s)) (log_fill s)).

Lemma log_copies_area s b : b ∈ (log_copies s).*1 ↔ ∃ t, Z.of_nat t < lh_n s ∧ b = lstart s + Z.of_nat t + 1.
Proof.
  unfold log_copies. rewrite <- list_fmap_compose, list_elem_of_fmap. simpl. split.
  - intros (t & -> & [_ Ht]%elem_of_seq). exists t. split; [lia|done].
  - intros (t & Ht & ->). exists t. split; [done|]. apply elem_of_seq. lia.
Qed.

Lemma log_fill_start d s : aw d (log_fill s) (lstart s) = log_head s.
Proof. unfold log_fill. rewrite aw_app. apply fset_same. Qed.

Lemma log_fill_block d s t : Z.of_nat t < lh_n s →
  aw d (log_fill s) (lstart s + Z.of_nat t + 1) = bbuf (lblk s) (lh_block s !!! t).
Proof.
  intros Ht. unfold log_fill. rewrite aw_app. simpl. rewrite fset_other by lia. apply aw_in.
  - unfold log_copies. rewrite <- list_fmap_compose. apply NoDup_fmap_2_strong; [|apply NoDup_seq].
    intros x y _ _. simpl. lia.
  - apply list_elem_of_fmap. exists t. split; [done|]. apply elem_of_seq. lia.
Qed.

Lemma log_fill_area s b : log_ready s → b ∈ (log_fill s).*1 → ¬ home (lstart s) (lsize s) b.
Proof.
  intros [_ _ [F1 F2 F3 F4 F5 F6] _ _ _ _] Hb. unfold log_fill in Hb. rewrite fmap_app, elem_of_app in Hb.
  unfold home. destruct Hb as [(t & Ht & ->)%log_copies_area| ->%list_elem_of_singleton]; simpl; lia.
Qed.

Lemma log_ready_buf s b : log_ready s → ¬ home (lstart s) (lsize s) b → bbuf (lblk s) b = bdisk (lblk s) b.
Proof.
  intros [Hok Hh F _ Hd _ _] Hb. destruct (clean_or_dirty (lblk s) b Hok Hh) as [E|]; [|done].
  destruct (Hd b E) as (i & Hi & <-). destruct Hb. by apply F.
Qed.

Lemma log_fill_replay s : log_ready s → replay (lstart s) (aw (bdisk (lblk s)) (log_fill s)) =
  (λ t, (lh_block s !!! t, bbuf (lblk s) (lh_block s !!! t))) <$> seq 0 (Z.to_nat (lh_n s)).
Proof.
  intros Hr. pose proof Hr as [_ _ F Hc _ Hlen _]. pose proof F as [F1 F2 F3 F4 F5 F6].
  unfold replay. rewrite log_fill_start. unfold log_head at 2. rewrite hdr_n_mk by done.
  apply list_fmap_ext. intros i t Ht. apply lookup_seq in Ht as [-> Ht]. simpl. f_equal.
  - unfold log_head. apply hdr_block_mk; [done..|lia|]. destruct (F6 i); lia.
  - apply log_fill_block. lia.
Qed.

Lemma log_fill_ok s : log_ready s →
  disk_ok (lstart s) (lsize s) (bcount (lblk s)) (aw (bdisk (lblk s)) (log_fill s)).
Proof.
  intros Hr. pose proof Hr as [_ _ F Hc _ Hlen _]. pose proof F as [F1 F2 F3 F4 F5 F6].
  split; rewrite log_fill_start; [by unfold log_head; rewrite length_mk_head|].
  unfold log_head. split; rewrite ?hdr_n_mk by done; try done.
  intros i Hi. rewrite hdr_block_mk; [by apply F6|done..|]. destruct (F6 i Hi). lia.
Qed.

(** A committed log promises the contents in memory. *)
Lemma log_fill_view s b : log_ready s → home (lstart s) (lsize s) b →
  view (lstart s) (aw (bdisk (lblk s)) (log_fill s)) b = bbuf (lblk s) b.
Proof.
  intros Hr Hb. unfold view. rewrite log_fill_replay by done.
  assert (aw (bdisk (lblk s)) (log_fill s) b = bdisk (lblk s) b) as E.
  { apply aw_other. intros Hin. by eapply log_fill_area. }
  destruct (clean_or_dirty (lblk s) b (lr_ok _ Hr) (lr_held _ Hr)) as [Hd|Hd].
  - destruct (lr_dirty _ Hr b Hd) as (i & Hi & <-).
    generalize (aw (bdisk (lblk s)) (log_fill s)). intros d. apply (aw_fun _ (bbuf (lblk s)) (λ t, lh_block s !!! t)).
    apply list_elem_of_fmap. exists i. split; [done|]. apply elem_of_seq. lia.
  - rewrite <- E in Hd. by apply (aw_fun_id _ (bbuf (lblk s)) (λ t, lh_block s !!! t)).
Qed.

Lemma commit_eq s : log_ready s → 0 < lh_n s →
  commit s = Ok (tt, LSt (wrs (lblk s) (commit_writes s)) (lstart s) (lsize s) (outstanding s) (committing s)
    0 (lh_block s)).
Proof.
  intros Hr Hn. pose proof Hr as [Hok Hh F _ _ _ _]. pose proof F as [F1 F2 F3 F4 F5 F6].
  assert (¬ home (lstart s) (lsize s) (lstart s)) as Hns by (unfold home; lia).
  unfold commit. mstep. rewrite (proj2 (Z.ltb_lt 0 (lh_n s))) by done.
  rewrite write_log_eq by done. fold (log_copies s).
  destruct (wrs_disk (lblk s) (log_copies s)) as (D1 & D2 & D3 & D4 & _).
  rewrite write_head_eq; lcbn; [|by apply wrs_ok|by rewrite D3|rewrite D4; lia].
  rewrite D2, aw_other by (rewrite log_copies_area; intros (t & Ht & E); lia).
  rewrite (log_ready_buf s (lstart s)) by done. fold (log_head s).
  assert (wr (wrs (lblk s) (log_copies s)) (lstart s, log_head s) = wrs (lblk s) (log_fill s)) as ->.
  { unfold log_fill, wrs. by rewrite foldl_app. }
  destruct (wrs_disk (lblk s) (log_fill s)) as (E1 & E2 & E3 & E4 & _).
  rewrite install_trans_eq; lcbn; [|by apply wrs_ok|by rewrite E3|by rewrite E4].
  assert (((λ t, (lh_block s !!! t, bbuf (wrs (lblk s) (log_fill s)) (lstart s + Z.of_nat t + 1))) <$>
    seq 0 (Z.to_nat (lh_n s))) = replay (lstart s) (aw (bdisk (lblk s)) (log_fill s))) as ->.
  { rewrite log_fill_replay by done. apply list_fmap_ext. intros i t Ht. apply lookup_seq in Ht as [-> Ht].
    f_equal. rewrite E2. apply log_fill_block. lia. }
  set (r := replay _ _). destruct (wrs_disk (wrs (lblk s) (log_fill s)) r) as (G1 & G2 & G3 & G4 & _).
  unfold clear_n. mstep. rewrite write_head_eq; lcbn;
    [|by do 2 apply wrs_ok|by rewrite G3, E3|rewrite G4, E4; lia].
  rewrite G2, aw_other, E2, log_fill_start; [|intros [Hq _]%(replay_home _ _ _ _ _ (do_fits _ _ _ _ (log_fill_ok s Hr)));
    done].
  unfold commit_writes, recovery. fold r. rewrite log_fill_start. unfold wrs. rewrite !foldl_app. done.
Qed.

(** ** Crashes *)

(** The log at boot, over disk [d]. *)
Definition log_boot (start size count : Z) (d : Z → block) : lst :=
  LSt (blk_boot d count) start size 0 false 0 (replicate 30 0).

(** A recovery that is cut after [k] writes, and any number of them. *)
Definition crash_recover (start size count : Z) (k : nat) (d : Z → block) : option (Z → block) :=
  match recover_from_log (log_boot start size count d) with
  | Ok (_, s) => Some (aw d (take k (wtrace (lblk s))))
  | _ => None
  end.
Fixpoint crash_recovers (start size count : Z) (ks : list nat) (d : Z → block) : option (Z → block) :=
  match ks with
  | [] => Some d
  | k :: ks' => crash_recover start size count k d ≫= crash_recovers start size count ks'
  end.

(** The disk that is there after recoveries cut at [ks] and one that is not. *)
Definition recovered (start size count : Z) (ks : list nat) (d : Z → block) : option (Z → block) :=
  d' ← crash_recovers start size count ks d;
  match recover_from_log (log_boot start size count d') with
  | Ok (_, s) => Some (bdisk (lblk s))
  | _ => None
  end.

Lemma recover_boot start size count d : disk_ok start size count d →
  ∃ s, recover_from_log (log_boot start size count d) = Ok (tt, s) ∧
    wtrace (lblk s) = recovery start d ∧ bdisk (lblk s) = aw d (recovery start d).
Proof.
  intros Hd. destruct (recover_eq (log_boot start size count d)) as [bs E]; try done.
  { split; simpl; [apply NoDup_nil_2|by intros b ?%not_elem_of_nil|done]. }
  eexists. split; [exact E|]. simpl. destruct (wrs_disk (blk_boot d count) (recovery start d)) as (-> & _ & _ & _ & ->).
  done.
Qed.

Lemma recovered_view start size count ks d : disk_ok start size count d →
  ∃ d', recovered start size count ks d = Some d' ∧ ∀ b, b ≠ start → d' b = view start d b.
Proof.
  unfold recovered. revert d. induction ks as [|k ks IH]; intros d Hd.
  - simpl. destruct (recover_boot _ _ _ _ Hd) as (s & -> & _ & ->). eexists. split; [done|].
    intros b Hb. unfold recovery. rewrite aw_app. by apply fset_other.
  - simpl. unfold crash_recover. destruct (recover_boot _ _ _ _ Hd) as (s & -> & -> & _). simpl.
    destruct (recovery_prefix _ _ _ _ k Hd) as [Hd1 Hv]. destruct (IH _ Hd1) as (d' & E & Hd').
    exists d'. split; [exact E|]. intros b Hb. rewrite Hd' by done. by apply Hv.
Qed.

(** The disk after [k] of the writes of a commit promises the old contents
    of every block up to the write of the header, and the new ones from
    there on. *)
Lemma commit_prefix s k : log_ready s →
  let d := aw (bdisk (lblk s)) (take k (commit_writes s)) in
  disk_ok (lstart s) (lsize s) (bcount (lblk s)) d ∧
  ∀ b, home (lstart s) (lsize s) b →
    view (lstart s) d b = if (k <=? Z.to_nat (lh_n s))%nat then bdisk (lblk s) b else bbuf (lblk s) b.
Proof.
  intros Hr d. pose proof Hr as [_ _ [F1 F2 F3 F4 F5 F6] _ _ Hlen He].
  assert (length (log_copies s) = Z.to_nat (lh_n s)) as Hlc by (unfold log_copies; by rewrite length_fmap, length_seq).
  assert (∀ b, home (lstart s) (lsize s) b → b ≠ lstart s) as Hhs by (unfold home; lia).
  unfold commit_writes in d. destruct (Nat.leb_spec k (Z.to_nat (lh_n s))) as [Hk|Hk].
  - unfold log_fill in d. unfold d. rewrite <- (assoc_L app), take_app_le by lia.
    assert (∀ b, b ∉ (log_copies s).*1 → aw (bdisk (lblk s)) (take k (log_copies s)) b = bdisk (lblk s) b) as E.
    { intros b Hb. apply aw_other. rewrite fmap_take. by intros ?%elem_take. }
    assert (aw (bdisk (lblk s)) (take k (log_copies s)) (lstart s) = bdisk (lblk s) (lstart s)) as Es.
    { apply E. rewrite log_copies_area. intros (t & Ht & ?). lia. }
    destruct (empty_log (lstart s) (lsize s) (bcount (lblk s)) (aw (bdisk (lblk s)) (take k (log_copies s))))
      as [Hok Hv]; rewrite ?Es; try done.
    split; [done|]. intros b Hb. rewrite Hv. apply E. rewrite log_copies_area. unfold home in Hb. intros (t & Ht & ?). lia.
  - unfold d. rewrite take_app_ge by (unfold log_fill; rewrite length_app; simpl; lia). rewrite aw_app.
    destruct (recovery_prefix _ _ _ _ (k - length (log_fill s)) (log_fill_ok s Hr)) as [Hd1 Hv].
    split; [done|]. intros b Hb. rewrite Hv by auto. by apply log_fill_view.
Qed.

(** ** Transactions *)

Lemma absorb_spec bs b i n : let r := absorb bs b i n in
  (i ≤ r ≤ i + n ∧ (∀ j, i ≤ j < r → bs !!! j ≠ b))%nat ∧ ((r < i + n)%nat → bs !!! r = b).
Proof.
  revert i. induction n as [|n IH]; intros i; simpl; [split; [split; [lia|]|]; intros; lia|].
  destruct (Z.eqb_spec (bs !!! i) b) as [E|E]; [split; [split; [lia|intros; lia]|done]|].
  destruct (IH (S i)) as [[H1 H2] H3]. split; [split; [lia|]|intros; apply H3; lia].
  intros j Hj. destruct (decide (j = i)) as [->|]; [done|]. apply H2. lia.
Qed.

(** The blocks in the header in memory. *)
Definition logged (s : lst) : list Z := take (Z.to_nat (lh_n s)) (lh_block s).

(** The header after [log_write(b)]: [b] is appended unless it is there
    already (log absorption). *)
Definition logged_with (b : Z) (l : list Z) : list Z := if decide (b ∈ l) then l else l ++ [b].

(** What [log_write] needs to go through. *)
Record log_room (s : lst) : Prop := {
  lm_n : 0 ≤ lh_n s;
  lm_len : length (lh_block s) = 30%nat;
  lm_log : lh_n s < LOGSIZE;
  lm_size : lh_n s < lsize s - 1;
  lm_op : 1 ≤ outstanding s
}.

Lemma logged_lookup s (i : nat) : Z.of_nat i < lh_n s → (i < length (lh_block s))%nat → logged s !! i = Some (lh_block s !!! i).
Proof.
  intros Hi Hl. unfold logged. rewrite lookup_take_lt by lia. by rewrite list_lookup_lookup_total_lt.
Qed.

Lemma length_logged s : (Z.to_nat (lh_n s) ≤ length (lh_block s))%nat → length (logged s) = Z.to_nat (lh_n s).
Proof. intros Hl. unfold logged. rewrite length_take. lia. Qed.

Lemma elem_logged s b : (Z.to_nat (lh_n s) ≤ length (lh_block s))%nat →
  b ∈ logged s ↔ ∃ i, Z.of_nat i < lh_n s ∧ lh_block s !!! i = b.
Proof.
  intros Hl. split.
  - intros (i & Hi)%list_elem_of_lookup. pose proof (lookup_lt_Some _ _ _ Hi) as Hlt. rewrite length_logged in Hlt by done.
    exists i. rewrite logged_lookup in Hi by lia. split; [lia|congruence].
  - intros (i & Hi & <-). eapply list_elem_of_lookup_2. apply logged_lookup; lia.
Qed.

Lemma log_write_eq b s : log_room s → b ∈ bheld (lblk s) →
  ∃ n bs, log_write b s = Ok (tt, LSt (Blk (bdisk (lblk s)) (bbuf (lblk s)) (fset (bdirty (lblk s)) b true)
      (bheld (lblk s)) (bcount (lblk s)) (wtrace (lblk s)))
      (lstart s) (lsize s) (outstanding s) (committing s) n bs) ∧
    length bs = 30%nat ∧ 0 ≤ n ≤ lh_n s + 1 ∧ take (Z.to_nat n) bs = logged_with b (logged s).
Proof.
  intros [H1 H2 H3 H4 H5] Hb. unfold LOGSIZE, MAXOPBLOCKS in H3. unfold log_write.
  destruct (Z.leb_spec LOGSIZE (lh_n s)) as [Hq|_]; [unfold LOGSIZE, MAXOPBLOCKS in Hq; lia|].
  destruct (Z.leb_spec (lsize s - 1) (lh_n s)); [lia|]. destruct (Z.ltb_spec (outstanding s) 1); [lia|].
  cbn [orb]. pose proof (absorb_spec (lh_block s) b 0 (Z.to_nat (lh_n s))) as HA.
  set (i := absorb _ _ _ _) in *. cbv zeta in HA. destruct HA as [[A1 A2] A3].
  erewrite lcall_eq by (lcbn; by apply set_bdirty_eq). eexists _, _. split; [reflexivity|].
  lcbn. rewrite length_insert. split; [done|]. unfold logged_with, logged.
  destruct (Nat.eqb_spec i (Z.to_nat (lh_n s))) as [E|E].
  - split; [lia|]. rewrite decide_False.
    + rewrite E. replace (Z.to_nat (lh_n s + 1)) with (S (Z.to_nat (lh_n s))) by lia.
      rewrite take_S_r with (x := b) by (apply list_lookup_insert_eq; lia). by rewrite take_insert_ge by lia.
    + intros (j & Hj & <-)%(elem_logged s); [|lia]. apply (A2 j); [lia|done].
  - split; [lia|]. assert (i < Z.to_nat (lh_n s))%nat as Hi by lia. specialize (A3 Hi).
    rewrite decide_True by (apply (elem_logged s); [lia|]; exists i; split; [lia|done]).
    rewrite list_insert_id; [done|]. rewrite list_lookup_lookup_total_lt by lia. by rewrite A3.
Qed.

(** The log between transactions. *)
Record quiet (s : lst) : Prop := {
  q_ready : log_ready s;
  q_n : lh_n s = 0;
  q_out : outstanding s = 0;
  q_comm : committing s = false;
  q_len : length (lh_block s) = 30%nat
}.

Lemma recovery_done start size count d : disk_ok start size count d →
  length (aw d (recovery start d) start) = 512%nat ∧ hdr_n (aw d (recovery start d) start) = 0 ∧
  ∀ b, b ≠ start → aw d (recovery start d) b = view start d b.
Proof.
  intros [Hl _]. unfold recovery. rewrite aw_app. simpl. rewrite fset_same, length_put32.
  split; [done|]. split; [by apply hdr_n_zero|]. intros b Hb. by rewrite fset_other.
Qed.

Lemma commit_clean s b : log_ready s → bdirty (wrs (lblk s) (commit_writes s)) b = false.
Proof.
  intros Hr. apply wrs_clean. destruct (bdirty (lblk s) b) eqn:E; [left|by right].
  destruct (lr_dirty _ Hr b E) as (i & Hi & <-). unfold commit_writes, recovery.
  rewrite !fmap_app, !elem_of_app. right; left. rewrite log_fill_replay by done.
  rewrite <- list_fmap_compose. apply list_elem_of_fmap. exists i. split; [done|]. apply elem_of_seq. lia.
Qed.

Lemma commit_done s o c : log_ready s → o = 0 → c = false → length (lh_block s) = 30%nat →
  quiet (LSt (wrs (lblk s) (commit_writes s)) (lstart s) (lsize s) o c 0 (lh_block s)) ∧
  ∀ b, home (lstart s) (lsize s) b → bdisk (wrs (lblk s) (commit_writes s)) b = bbuf (lblk s) b.
Proof.
  intros Hr Ho Hc Hl. destruct (wrs_disk (lblk s) (commit_writes s)) as (D1 & _ & D3 & D4 & _).
  pose proof (log_fill_ok s Hr) as Hf. destruct (recovery_done _ _ _ _ Hf) as (R1 & R2 & R3).
  pose proof Hr as [Hok Hh [F1 F2 F3 F4 F5 F6] Hcnt _ _ _].
  rewrite (aw_app _ (log_fill s) (recovery _ _) : aw _ (commit_writes s) = _) in D1. split.
  - split; try done. split; lcbn; rewrite ?D1, ?D3, ?D4; try done.
    + by apply wrs_ok.
    + split; try done; lcbn; intros; lia.
    + intros b Hb. by rewrite commit_clean in Hb.
  - intros b Hb. rewrite D1, R3 by (unfold home in Hb; lia). by apply log_fill_view.
Qed.

(** A file system operation that sets the contents of some blocks. *)
Definition update (w : Z * block) : M lst unit :=
  bp ← lcall (bread w.1);
  lcall (set_bdata bp w.2);;
  log_write bp;;
  lcall (brelse bp).
Fixpoint updates (ws : list (Z * block)) : M lst unit :=
  match ws with
  | [] => mret tt
  | w :: ws' => update w;; updates ws'
  end.
Definition transaction (ws : list (Z * block)) : M lst unit := begin_op;; updates ws;; end_op.

(** The state [s] inside of such an operation that began in [s0] and has made
    the updates [us]. *)
Record in_tx (s0 : lst) (us : list (Z * block)) (s : lst) : Prop := {
  tx_ok : blk_ok (lblk s);
  tx_held : bheld (lblk s) = [];
  tx_disk : bdisk (lblk s) = bdisk (lblk s0);
  tx_count : bcount (lblk s) = bcount (lblk s0);
  tx_trace : wtrace (lblk s) = wtrace (lblk s0);
  tx_start : lstart s = lstart s0;
  tx_size : lsize s = lsize s0;
  tx_out : outstanding s = 1;
  tx_comm : committing s = false;
  tx_buf b : bbuf (lblk s) b = aw (bdisk (lblk s0)) us b;
  tx_len : length (lh_block s) = 30%nat;
  tx_n : 0 ≤ lh_n s ≤ Z.of_nat (length us);
  tx_logged b : b ∈ logged s ↔ b ∈ us.*1;
  tx_dirty b : bdirty (lblk s) b = true → b ∈ us.*1
}.

Lemma begin_op_tx s : quiet s → ∃ s', begin_op s = Ok (tt, s') ∧ in_tx s [] s'.
Proof.
  intros [[Hok Hh F Hc Hd Hl He] Hn Ho Hm Hlb]. unfold begin_op. rewrite Hm, Hn, Ho. simpl. eexists. split; [done|].
  split; lcbn; try done.
  - intros b. destruct (clean_or_dirty (lblk s) b Hok Hh) as [E|E]; [|done].
    destruct (Hd b E) as (i & Hi & _). lia.
  - rewrite Hn. simpl. lia.
  - unfold logged. lcbn. by rewrite Hn.
  - intros b (i & Hi & _)%Hd. lia.
Qed.

Lemma elem_logged_with b c l : c ∈ logged_with b l ↔ c = b ∨ c ∈ l.
Proof.
  unfold logged_with. destruct (decide (b ∈ l)) as [Hb|Hb].
  - split; [by right|]. by intros [->|?].
  - rewrite elem_of_app, list_elem_of_singleton. tauto.
Qed.

Lemma update_tx s0 us w s : in_tx s0 us s → (length us < 10)%nat → MAXOPBLOCKS ≤ lsize s0 - 1 →
  0 ≤ w.1 < bcount (lblk s0) → ∃ s', update w s = Ok (tt, s') ∧ in_tx s0 (us ++ [w]) s'.
Proof.
  intros [T1 T2 T3 T4 T5 T6 T7 T8 T9 T10 T11 T12 T13 T14] Hl Hs Hw. unfold MAXOPBLOCKS in Hs.
  unfold update. rewrite (bind_ok _ _ _ _ _ (lcall_eq _ _ _ _ (bread_eq w.1 (lblk s)
    ltac:(rewrite T2; apply not_elem_of_nil) ltac:(rewrite T4; done)))).
  erewrite bind_ok by (apply lcall_eq, set_bdata_eq; by left). lcbn.
  set (s1 := set_lblk _ _). destruct (log_write_eq w.1 s1) as (n & bs & E & B1 & B2 & B3).
  { split; unfold s1; lcbn; unfold LOGSIZE, MAXOPBLOCKS; lia. }
  { by left. }
  rewrite (bind_ok _ _ _ _ _ E). erewrite lcall_eq by (apply brelse_eq; [by left|left; lcbn; apply fset_same]).
  eexists. split; [done|]. unfold s1 in *. lcbn. rewrite T2, filter_one.
  assert (∀ c, c ∈ take (Z.to_nat n) bs ↔ c ∈ (us ++ [w]).*1) as Hin.
  { intros c. rewrite B3, elem_logged_with, fmap_app, elem_of_app, <- T13. simpl.
    rewrite list_elem_of_singleton. unfold logged. simpl. tauto. }
  split; lcbn; try done.
  - split; lcbn; [apply NoDup_nil_2|by intros b ?%not_elem_of_nil|]. intros b Hb _.
    destruct (decide (b = w.1)) as [->|Hne]; [by rewrite fset_same in Hb|].
    rewrite fset_other in Hb by done. rewrite fset_other by done. apply T1; [done|]. rewrite T2. apply not_elem_of_nil.
  - intros b. rewrite aw_app. simpl. unfold fset. bcase; [done|apply T10].
  - rewrite length_app. simpl. simpl in B2. lia.
  - intros b. destruct (decide (b = w.1)) as [->|Hne].
    + intros _. rewrite fmap_app, elem_of_app. right. by left.
    + rewrite fset_other by done. intros ?%T14. rewrite fmap_app, elem_of_app. by left.
Qed.

Lemma updates_tx s0 us ws s : in_tx s0 us s → (length us + length ws ≤ 10)%nat → MAXOPBLOCKS ≤ lsize s0 - 1 →
  (∀ w, w ∈ ws → 0 ≤ w.1 < bcount (lblk s0)) → ∃ s', updates ws s = Ok (tt, s') ∧ in_tx s0 (us ++ ws) s'.
Proof.
  revert us s. induction ws as [|w ws IH]; intros us s Ht Hl Hs Hw.
  { exists s. rewrite app_nil_r. done. }
  simpl in Hl. destruct (update_tx s0 us w s) as (s1 & E & Ht1); [done|lia|done|apply Hw; by left|].
  cbn [updates]. rewrite (bind_ok _ _ _ _ _ E). replace (us ++ w :: ws) with ((us ++ [w]) ++ ws) by by rewrite <- (assoc_L app).
  apply IH; [done|rewrite length_app; simpl; lia|done|]. intros w' Hw'. apply Hw. by right.
Qed.

Lemma tx_ready s0 us s o c : quiet s0 → in_tx s0 us s → (length us ≤ 10)%nat → MAXOPBLOCKS ≤ lsize s0 - 1 →
  (∀ w, w ∈ us → home (lstart s0) (lsize s0) w.1 ∧ 0 ≤ w.1 < bcount (lblk s0)) →
  log_ready (LSt (lblk s) (lstart s) (lsize s) o c (lh_n s) (lh_block s)).
Proof.
  intros [[_ _ [F1 F2 F3 F4 F5 F6] Hc _ Hlen He] _ _ _ _] [T1 T2 T3 T4 T5 T6 T7 T8 T9 T10 T11 T12 T13 T14] Hl Hs Hw.
  unfold MAXOPBLOCKS in Hs. assert (∀ b, b ∈ logged s ↔ ∃ i, Z.of_nat i < lh_n s ∧ lh_block s !!! i = b) as Hlg.
  { intros b. apply elem_logged. lia. }
  split; lcbn; rewrite ?T3, ?T4, ?T6, ?T7; try done.
  - split; unfold LOGSIZE, MAXOPBLOCKS; try lia. intros i Hi.
    assert (lh_block s !!! i ∈ us.*1) as Hin by (apply T13, Hlg; by exists i).
    apply list_elem_of_fmap in Hin as (w & -> & Hin). by apply Hw.
  - intros b Hb. by apply Hlg, T13, T14.
Qed.

Lemma end_op_commit s s' : outstanding s = 1 → committing s = false →
  commit (LSt (lblk s) (lstart s) (lsize s) 0 true (lh_n s) (lh_block s)) = Ok (tt, s') →
  end_op s = Ok (tt, set_committing false s').
Proof.
  intros Ho Hc E. destruct s as [b st sz o c n bs]. simpl in *. subst. unfold end_op. revert E.
  generalize commit. intros f E. mstep. lcbn. change (1 - 1 =? 0) with true. cbn iota beta.
  unfold set_outstanding, set_committing at 1. cbn. change (1 - 1) with 0. by rewrite E.
Qed.

Lemma tx_logs_some s0 us s : in_tx s0 us s → us ≠ [] → 0 < lh_n s.
Proof.
  intros T Hne. destruct us as [|w us]; [done|]. assert (w.1 ∈ logged s) as Hin by (apply T; by left).
  unfold logged in Hin. destruct (decide (lh_n s ≤ 0)); [|lia].
  replace (Z.to_nat (lh_n s)) with 0%nat in Hin by lia. by apply not_elem_of_nil in Hin.
Qed.

(** An operation that updated nothing. *)
Lemma end_op_nothing s s2 : quiet s → in_tx s [] s2 → MAXOPBLOCKS ≤ lsize s - 1 →
  ∃ s', end_op s2 = Ok (tt, s') ∧ quiet s' ∧ lblk s' = lblk s2.
Proof.
  intros Hq T Hs. pose proof (tx_n _ _ _ T) as Hn. simpl in Hn. assert (lh_n s2 = 0) as En by lia.
  erewrite end_op_commit; [|apply T|apply T|unfold commit; mstep; by rewrite En].
  eexists. split; [done|]. split; [|done]. split; lcbn; try done; [|apply T].
  assert (∀ w : Z * block, w ∈ [] → home (lstart s) (lsize s) w.1 ∧ 0 ≤ w.1 < bcount (lblk s)) as Hw
    by (intros w []%not_elem_of_nil).
  pose proof (tx_ready s [] s2 0 false Hq T ltac:(simpl; lia) Hs Hw) as Hr. by rewrite En in Hr.
Qed.

(** Where the log stands after [k] of the writes between [s] and [s']. *)
Definition disk_at (s s' : lst) (k : nat) : Z → block :=
  aw (bdisk (lblk s)) (take k (drop (length (wtrace (lblk s))) (wtrace (lblk s')))).

(** C1: Crash atomicity of a transaction.  An operation of at most
    [MAXOPBLOCKS] block updates, run from [begin_op] to [end_op] on an idle
    log, returns, leaves its updates on disk and the log idle.  Whatever
    number [k] of its disk writes were made before a crash, and however many
    recoveries are themselves cut short ([ks]), the recovery that completes
    leaves every block outside of the log with its old contents if the crash
    came before the commit point [c], and with all of the updates otherwise. *)
Theorem transaction_atomic s ws : quiet s → (length ws ≤ 10)%nat → MAXOPBLOCKS ≤ lsize s - 1 →
  (∀ w, w ∈ ws → home (lstart s) (lsize s) w.1 ∧ 0 ≤ w.1 < bcount (lblk s)) →
  ∃ s', transaction ws s = Ok (tt, s') ∧ quiet s' ∧
    (∀ b, home (lstart s) (lsize s) b → bdisk (lblk s') b = aw (bdisk (lblk s)) ws b) ∧
    ∃ c, (ws = [] ∨ c < length (wtrace (lblk s')) - length (wtrace (lblk s)))%nat ∧
    ∀ k ks, ∃ d, recovered (lstart s) (lsize s) (bcount (lblk s)) ks (disk_at s s' k) = Some d ∧
      ∀ b, home (lstart s) (lsize s) b →
        d b = if (k <=? c)%nat then bdisk (lblk s) b else aw (bdisk (lblk s)) ws b.
Proof.
  intros Hq Hl Hs Hw. destruct (begin_op_tx s Hq) as (s1 & E1 & T1).
  destruct (updates_tx s [] ws s1 T1) as (s2 & E2 & T2); [done..|intros; by apply Hw|]. simpl in T2.
  pose proof (tx_ready s ws s2 0 true Hq T2 Hl Hs Hw) as Hr.
  unfold transaction. rewrite (bind_ok _ _ _ _ _ E1), (bind_ok _ _ _ _ _ E2).
  pose proof T2 as [_ _ X1 X2 X3 X4 X5 X6 X7 X8 X9 X10 X11 _].
  destruct (decide (ws = [])) as [->|Hne].
  - destruct (end_op_nothing s s2 Hq T2 Hs) as (s' & -> & Hq' & Hb'). exists s'. rewrite Hb'.
    split; [done|]. split; [done|]. split; [intros b _; by rewrite <- X1|].
    exists 0%nat. split; [by left|]. intros k ks. pose proof (q_ready _ Hq) as [_ _ [F1 F2 F3 _ _ _] _ _ Hlen He].
    destruct (empty_log _ _ _ _ F1 F3 F2 Hlen He) as [Hd Hv].
    assert (disk_at s s' k = bdisk (lblk s)) as ->.
    { unfold disk_at. by rewrite Hb', X3, drop_all, take_nil. }
    destruct (recovered_view _ _ _ ks _ Hd) as (d & Hd' & E). exists d. split; [done|].
    intros b Hb. rewrite E, Hv by (unfold home in Hb; lia). by destruct (k <=? 0)%nat.
  - pose proof (tx_logs_some s ws s2 T2 Hne).
    erewrite end_op_commit; [|done..|apply commit_eq; [done|simpl; lia]]. set (s3 := LSt _ _ _ _ _ _ _) in *.
    destruct (commit_done s3 0 false Hr eq_refl eq_refl X9) as [Hq' Hb'].
    destruct (wrs_disk (lblk s3) (commit_writes s3)) as (_ & _ & _ & _ & Ht).
    assert (∀ b, bbuf (lblk s3) b = aw (bdisk (lblk s)) ws b) as Hbuf by done.
    eexists. split; [done|]. split; [done|]. lcbn. rewrite <- X2, <- X4, <- X5. split.
    + intros b Hb. rewrite <- Hbuf. by apply Hb'.
    + rewrite Ht. unfold s3 at 1. lcbn. exists (Z.to_nat (lh_n s2)). split.
      { right. rewrite X3, length_app. unfold commit_writes, log_fill, log_copies. simpl.
        rewrite !length_app, length_fmap, length_seq. simpl. lia. }
      intros k ks. unfold disk_at. lcbn. rewrite Ht. change (wtrace (lblk s3)) with (wtrace (lblk s2)).
      rewrite X3, drop_app_length, <- X1.
      destruct (commit_prefix s3 k Hr) as [Hd Hv]. destruct (recovered_view _ _ _ ks _ Hd) as (d & Hd' & E).
      exists d. split; [done|]. intros b Hb. rewrite E by (unfold home in Hb; unfold MAXOPBLOCKS in Hs; simpl; lia). rewrite Hv by done.
      destruct (_ <=? _)%nat; [done|by rewrite Hbuf, X1].
Qed.

(** ** Reservation of log space *)

(** Calls that change nothing of the log but [lh_n], and that only to 0. *)
Definition keeps_log {A} (c : M lst A) : Prop := ∀ s a s', c s = Ok (a, s') →
  lstart s' = lstart s ∧ lsize s' = lsize s ∧ outstanding s' = outstanding s ∧
  committing s' = committing s ∧ lh_block s' = lh_block s ∧ (lh_n s' = lh_n s ∨ lh_n s' = 0).

Lemma log_keeps_lcall {A} (c : M blk A) : keeps_log (lcall c).
Proof.
  intros s a s'. unfold lcall. destruct (c (lblk s)) as [[a' b']| | |]; try done. intros [= <- <-]. simpl. tauto.
Qed.
Lemma log_keeps_ret {A} (a : A) : keeps_log (mret a).
Proof. intros s a' s' [= <- <-]. tauto. Qed.
Lemma log_keeps_gets {A} (f : lst → A) : keeps_log (gets f).
Proof. intros s a' s' [= <- <-]. tauto. Qed.
Lemma log_keeps_clear : keeps_log clear_n.
Proof. intros s a' s' [= <- <-]. simpl. tauto. Qed.
Lemma log_keeps_bind {A B} (c : M lst A) (k : A → M lst B) :
  keeps_log c → (∀ a, keeps_log (k a)) → keeps_log (c ≫= k).
Proof.
  intros Hc Hk s b s' H. apply bind_inv in H as (a & s1 & E1 & E2).
  destruct (Hc _ _ _ E1) as (? & ? & ? & ? & ? & ?), (Hk _ _ _ _ E2) as (? & ? & ? & ? & ? & ?).
  repeat split; try congruence. intuition congruence.
Qed.
Lemma log_keeps_for_tails body ts : keeps_log (for_tails body ts).
Proof.
  induction ts as [|t ts IH]; [apply log_keeps_ret|].
  repeat (apply log_keeps_bind; [first [apply log_keeps_gets | apply log_keeps_lcall]|intros ?]). exact IH.
Qed.
Lemma log_keeps_write_head : keeps_log write_head.
Proof.
  unfold write_head. repeat first
    [ apply log_keeps_gets | apply log_keeps_lcall | apply log_keeps_bind; [|intros ?] ].
Qed.
Lemma log_keeps_commit : keeps_log commit.
Proof.
  apply log_keeps_bind; [apply log_keeps_gets|intros n]. destruct (0 <? n); [|apply log_keeps_ret].
  unfold write_log, install_trans. repeat first
    [ apply log_keeps_gets | apply log_keeps_clear | apply log_keeps_write_head | apply log_keeps_for_tails
    | apply log_keeps_bind; [|intros ?] ].
Qed.
#[export] Hint Resolve log_keeps_commit log_keeps_write_head log_keeps_for_tails : xv6.

(** Operations as the log sees them: the list holds, for each outstanding
    one, the number of blocks it has added to the log.  An operation adds at
    most [MAXOPBLOCKS]; between its calls to the log, the cache changes in
    any way. *)
Inductive rop :=
| RBegin
| RWrite (i : nat) (b : Z)
| REnd (i : nat)
| RCache (b : blk).

Definition rstep (o : rop) (x y : lst * list Z) : Prop :=
  match o with
  | RBegin => begin_op x.1 = Ok (tt, y.1) ∧ y.2 = x.2 ++ [0]
  | RWrite i b => ∃ c, x.2 !! i = Some c ∧ c < MAXOPBLOCKS ∧ log_write b x.1 = Ok (tt, y.1) ∧
      y.2 = <[i := c + (lh_n y.1 - lh_n x.1)]> x.2
  | REnd i => (i < length x.2)%nat ∧ end_op x.1 = Ok (tt, y.1) ∧ y.2 = delete i x.2
  | RCache b => y = (set_lblk b x.1, x.2)
  end.
Definition rsteps : lst * list Z → lst * list Z → Prop := rtc (λ x y, ∃ o, rstep o x y).

(** What outstanding operations may still add. *)
Definition reserved (cs : list Z) : Z := foldr (λ c r, (MAXOPBLOCKS - c) + r) 0 cs.

Record rinv (size : Z) (x : lst * list Z) : Prop := {
  ri_size : lsize x.1 = size;
  ri_out : outstanding x.1 = Z.of_nat (length x.2);
  ri_counts c : c ∈ x.2 → 0 ≤ c ≤ MAXOPBLOCKS;
  ri_n : 0 ≤ lh_n x.1;
  ri_len : length (lh_block x.1) = 30%nat;
  ri_room : lh_n x.1 + reserved x.2 ≤ LOGSIZE
}.

Lemma reserved_app cs cs' : reserved (cs ++ cs') = reserved cs + reserved cs'.
Proof. induction cs as [|c cs IH]; simpl; [done|]. unfold reserved in *. simpl. lia. Qed.

Lemma reserved_split cs i c : cs !! i = Some c →
  reserved cs = reserved (delete i cs) + (MAXOPBLOCKS - c).
Proof.
  intros Hi. rewrite <- (take_drop_middle _ _ _ Hi) at 1. rewrite delete_take_drop, !reserved_app. simpl. lia.
Qed.

Lemma reserved_insert cs i c c' : cs !! i = Some c → reserved (<[i := c']> cs) = reserved cs + (c - c').
Proof.
  intros Hi. pose proof (lookup_lt_Some _ _ _ Hi). rewrite (reserved_split _ _ _ Hi), delete_take_drop.
  rewrite insert_take_drop by done. rewrite !reserved_app. simpl. lia.
Qed.

Lemma reserved_nonneg cs : (∀ c, c ∈ cs → 0 ≤ c ≤ MAXOPBLOCKS) → 0 ≤ reserved cs.
Proof.
  induction cs as [|c cs IH]; intros Hc; simpl; [done|]. pose proof (Hc c ltac:(by left)).
  specialize (IH (λ c' H, Hc c' ltac:(by right))). unfold reserved in *. simpl. lia.
Qed.

Lemma reserved_le cs : (∀ c, c ∈ cs → 0 ≤ c ≤ MAXOPBLOCKS) → reserved cs ≤ Z.of_nat (length cs) * MAXOPBLOCKS.
Proof.
  induction cs as [|c cs IH]; intros Hc; [done|]. pose proof (Hc c ltac:(by left)).
  specialize (IH (λ c' H, Hc c' ltac:(by right))). unfold reserved in *. simpl length. cbn [foldr]. lia.
Qed.

Lemma elem_delete {A} (x : A) (i : nat) (l : list A) : x ∈ delete i l → x ∈ l.
Proof.
  rewrite delete_take_drop. intros [?|?]%elem_of_app; [by eapply elem_take|].
  rewrite <- (take_drop (S i) l), elem_of_app. by right.
Qed.

Lemma log_write_inv b s s' : log_write b s = Ok (tt, s') →
  lsize s' = lsize s ∧ outstanding s' = outstanding s ∧ length (lh_block s') = length (lh_block s) ∧
  (lh_n s' = lh_n s ∨ lh_n s' = lh_n s + 1).
Proof.
  unfold log_write. destruct ((LOGSIZE <=? lh_n s) || (lsize s - 1 <=? lh_n s)); [done|].
  destruct (outstanding s <? 1); [done|]. intros E. pose proof (log_keeps_lcall _ _ _ _ E) as (_ & -> & -> & _ & -> & Hn).
  simpl in *. rewrite length_insert. repeat split. destruct (_ =? _)%nat; simpl in Hn.
  all: unfold lcall in E; destruct (set_bdirty b _) as [[? ?]| | |]; try done; injection E as _ <-; simpl; auto.
Qed.

Lemma end_op_inv s s' : end_op s = Ok (tt, s') →
  lsize s' = lsize s ∧ outstanding s' = outstanding s - 1 ∧ lh_block s' = lh_block s ∧
  (lh_n s' = lh_n s ∨ lh_n s' = 0).
Proof.
  unfold end_op. pose proof log_keeps_commit as Hk. revert Hk. generalize commit. intros f Hk H. minv. cbn in H.
  destruct (committing s); [done|]. minv. destruct (_ =? 0); minv; [|simpl; auto].
  apply Hk in E0. simpl in *. tauto.
Qed.

Lemma rstep_inv size o x y : rinv size x → rstep o x y → rinv size y.
Proof.
  destruct x as [s cs], y as [s' cs']. intros [I1 I2 I3 I4 I5 I6] H. simpl in *.
  destruct o as [|i b|i|b]; simpl in H.
  - destruct H as [E ->]. unfold begin_op in E. destruct (committing s); [done|].
    destruct (Z.ltb_spec LOGSIZE (lh_n s + (outstanding s + 1) * MAXOPBLOCKS)); [done|]. injection E as <-.
    pose proof (reserved_le cs I3). split; simpl; try done.
    + rewrite length_app. simpl. lia.
    + intros c [Hc| ->%list_elem_of_singleton]%elem_of_app; [auto|]. by unfold MAXOPBLOCKS.
    + rewrite reserved_app. simpl. lia.
  - destruct H as (c & Hc & Hlt & (E1 & E2 & E3 & E4)%log_write_inv & ->).
    pose proof (I3 c ltac:(by eapply list_elem_of_lookup_2)).
    split; simpl; rewrite ?length_insert; try congruence; [|lia|rewrite (reserved_insert _ _ c) by done; lia].
    intros c' Hc'. apply list_elem_of_lookup in Hc' as [j Hj].
    destruct (decide (i = j)) as [<-|Hne].
    + rewrite list_lookup_insert_eq in Hj by (by eapply lookup_lt_Some). injection Hj as <-. lia.
    + rewrite list_lookup_insert_ne in Hj by done. by eapply I3, list_elem_of_lookup_2.
  - destruct H as (Hi & (E1 & E2 & E3 & E4)%end_op_inv & ->). apply lookup_lt_is_Some_2 in Hi as [c Hc].
    pose proof (I3 c ltac:(by eapply list_elem_of_lookup_2)). pose proof (reserved_split _ _ _ Hc).
    assert (∀ c, c ∈ delete i cs → c ∈ cs) as Hin.
    { intros c'. apply elem_delete. }
    pose proof (reserved_nonneg (delete i cs) (λ c H, I3 c (Hin c H))).
    split; simpl; [congruence| |auto|lia|congruence|lia].
    rewrite length_delete by (by eexists). pose proof (lookup_lt_Some _ _ _ Hc). lia.
  - injection H as -> ->. by split.
Qed.


(** ** An empty file system image *)

Module LogDemo.

Definition disk : Z → block := λ _, replicate 512 0.
Definition ones : block := replicate 512 1.

Lemma boot_quiet size : 1 ≤ size ≤ 100 → quiet (log_boot 2 size 1000 disk).
Proof.
  intros Hs. split; try done. split; try done; simpl.
  - split; simpl; [apply NoDup_nil_2|by intros b ?%not_elem_of_nil|done].
  - split; unfold LOGSIZE, MAXOPBLOCKS; simpl; lia.
Qed.

Lemma transaction_atomic_witness :
  ∃ s', transaction [(500, ones); (501, ones)] (log_boot 2 30 1000 disk) = Ok (tt, s') ∧
    bdisk (lblk s') 501 = ones ∧
    ∃ d, recovered 2 30 1000 [1%nat] (disk_at (log_boot 2 30 1000 disk) s' 4) = Some d.
Proof.
  destruct (transaction_atomic (log_boot 2 30 1000 disk) [(500, ones); (501, ones)]) as (s' & E & _ & Hb & c & _ & Hd).
  - apply boot_quiet. lia.
  - simpl. lia.
  - unfold MAXOPBLOCKS. simpl. lia.
  - intros w Hw. unfold home. simpl.
    repeat (apply elem_of_cons in Hw as [->|Hw]; [simpl; lia|]). by apply not_elem_of_nil in Hw.
  - exists s'. split; [exact E|]. split.
    + rewrite Hb; [reflexivity|]. right. simpl. lia.
    + destruct (Hd 4%nat [1%nat]) as (d & Ed & _). by exists d.
Defined.


(** Three operations of [MAXOPBLOCKS] blocks each, all of which [begin_op]
    admits. *)
Definition thirty : list (Z * block) := (λ i, (500 + Z.of_nat i, ones)) <$> seq 0 30.
Definition three_ops : M lst unit := begin_op;; begin_op;; begin_op;; updates thirty.

(** The log that [mkfs] makes is one block short.  It has [LOGSIZE]
    blocks including the header, so three operations that [begin_op] admits
    together and that stay within [MAXOPBLOCKS] each run into the panic of
    [log_write]; with one more block they do not. *)
Theorem log_one_block_short :
  three_ops (log_boot 2 LOGSIZE 1000 disk) = Panic "too big a transaction" ∧
  ∃ s', three_ops (log_boot 2 (LOGSIZE + 1) 1000 disk) = Ok (tt, s') ∧ lh_n s' = LOGSIZE.
Proof. split; [vm_compute; reflexivity|]. eexists. split; [vm_compute; reflexivity|reflexivity]. Qed.

End LogDemo.
