(* ===== verification/Fs.v ===== *)
(** * The file system: blocks, inodes, directories, paths

    Models [fs.c]: the free bitmap, inodes on disk and in the inode cache,
    their contents, directories and path names.  The code runs inside
    transactions, on the log of [Log.v] and the blocks of [Block.v].

    An inode pointer is an index of the cache array, a path is the list of
    its characters without the final NUL, and the kernel memory that [readi]
    fills and [writei] reads is a list of bytes.  There is one disk, so the
    device number of an inode takes no part in reading blocks. *)

From S2P Require Import Prelude CString Block Log.

Definition NINODE : nat := 50.
Definition NDEV : Z := 10.
Definition ROOTDEV : Z := 1.
Definition ROOTINO : Z := 1.
Definition NDIRECT : Z := 12.
Definition NINDIRECT : Z := BSIZE / 4.
Definition MAXFILE : Z := NDIRECT + NINDIRECT.
Definition IPB : Z := BSIZE / 128.
Definition BPB : Z := BSIZE * 8.
Definition DIRSIZ : Z := 14.
Definition T_DIR : Z := 1.
Definition T_FILE : Z := 2.
Definition T_DEV : Z := 3.

Record superblock := SB {
  sb_size : Z;
  sb_nblocks : Z;
  sb_ninodes : Z;
  sb_logs : Z;
  sb_logst : Z;
  sb_inodestart : Z;
  sb_bmapstart : Z
}.

Definition IBLOCK (i : Z) (sb : superblock) : Z := u32 (i / IPB + sb_inodestart sb).
Definition BBLOCK (b : Z) (sb : superblock) : Z := u32 (b / BPB + sb_bmapstart sb).

(** [struct inode]; [i_lock] is whether the sleep lock is held. *)
Record inode := Inode {
  i_dev : Z;
  i_inum : Z;
  i_ref : Z;
  i_lock : bool;
  i_valid : bool;
  i_type : Z;
  i_major : Z;
  i_minor : Z;
  i_nlink : Z;
  i_size : Z;
  i_addrs : list Z;
  i_mode : Z
}.

Definition zero_inode : inode := Inode 0 0 0 false false 0 0 0 0 0 (replicate 13 0) 0.
Global Instance inode_inhabited : Inhabited inode := populate zero_inode.

Definition set_ref (r : Z) (p : inode) : inode :=
  Inode (i_dev p) (i_inum p) r (i_lock p) (i_valid p) (i_type p) (i_major p) (i_minor p) (i_nlink p)
    (i_size p) (i_addrs p) (i_mode p).
Definition set_ilock (l : bool) (p : inode) : inode :=
  Inode (i_dev p) (i_inum p) (i_ref p) l (i_valid p) (i_type p) (i_major p) (i_minor p) (i_nlink p)
    (i_size p) (i_addrs p) (i_mode p).
Definition set_valid (v : bool) (p : inode) : inode :=
  Inode (i_dev p) (i_inum p) (i_ref p) (i_lock p) v (i_type p) (i_major p) (i_minor p) (i_nlink p)
    (i_size p) (i_addrs p) (i_mode p).
Definition set_type (t : Z) (p : inode) : inode :=
  Inode (i_dev p) (i_inum p) (i_ref p) (i_lock p) (i_valid p) t (i_major p) (i_minor p) (i_nlink p)
    (i_size p) (i_addrs p) (i_mode p).
Definition set_size (n : Z) (p : inode) : inode :=
  Inode (i_dev p) (i_inum p) (i_ref p) (i_lock p) (i_valid p) (i_type p) (i_major p) (i_minor p) (i_nlink p)
    n (i_addrs p) (i_mode p).
Definition set_addrs (a : list Z) (p : inode) : inode :=
  Inode (i_dev p) (i_inum p) (i_ref p) (i_lock p) (i_valid p) (i_type p) (i_major p) (i_minor p) (i_nlink p)
    (i_size p) a (i_mode p).
Definition set_addr (k : nat) (a : Z) (p : inode) : inode := set_addrs (<[k := a]> (i_addrs p)) p.

(** [struct dinode] at offset [o] of a block: four shorts, the size, 13
    addresses, the mode, 15 words of padding. *)
Fixpoint get_addrs (d : block) (o : nat) (n : nat) : list Z :=
  match n with
  | O => []
  | S n' => get32 d o :: get_addrs d (o + 4) n'
  end.
Fixpoint put_addrs (d : block) (o : nat) (a : list Z) : block :=
  match a with
  | [] => d
  | x :: a' => put_addrs (put32 d o x) (o + 4) a'
  end.

Definition load_dinode (d : block) (o : nat) (p : inode) : inode :=
  Inode (i_dev p) (i_inum p) (i_ref p) (i_lock p) (i_valid p)
    (s16 (get16 d o)) (s16 (get16 d (o + 2))) (s16 (get16 d (o + 4))) (s16 (get16 d (o + 6)))
    (get32 d (o + 8)) (get_addrs d (o + 12) 13) (s32 (get32 d (o + 64))).
Definition store_dinode (d : block) (o : nat) (p : inode) : block :=
  let d := put16 d o (i_type p) in
  let d := put16 d (o + 2) (i_major p) in
  let d := put16 d (o + 4) (i_minor p) in
  let d := put16 d (o + 6) (i_nlink p) in
  let d := put32 d (o + 8) (i_size p) in
  let d := put_addrs d (o + 12) (i_addrs p) in
  put32 d (o + 64) (i_mode p).

(** Offset of inode [inum] in its block. *)
Definition dino (inum : Z) : nat := Z.to_nat (128 * (inum mod IPB)).

(** ** State *)

Record fss := FS {
  flog : lst;
  sb : superblock;
  icache : list inode
}.

Definition with_flog (l : lst) (s : fss) : fss := FS l (sb s) (icache s).
Definition upd_ino (i : nat) (f : inode → inode) (s : fss) : fss := FS (flog s) (sb s) (alter f i (icache s)).
Definition ino (s : fss) (i : nat) : inode := icache s !!! i.

(** A call into the log. *)
Definition fcall {A} (c : M lst A) : M fss A := λ s,
  match c (flog s) with
  | Ok (a, l) => Ok (a, with_flog l s)
  | Panic m => Panic m
  | Blocked => Blocked
  | Undef => Undef
  end.

Definition fbread (b : Z) : M fss Z := fcall (lcall (bread b)).
Definition fbdata (b : Z) : M fss block := fcall (lcall (bdata b)).
Definition fset_bdata (b : Z) (d : block) : M fss unit := fcall (lcall (set_bdata b d)).
Definition flog_write (b : Z) : M fss unit := fcall (log_write b).
Definition fbrelse (b : Z) : M fss unit := fcall (lcall (brelse b)).

(** ** Blocks *)

(** [iinit]: reads the superblock. *)
Definition sb_of (d : block) : superblock :=
  SB (get32 d 0) (get32 d 4) (get32 d 8) (get32 d 12) (get32 d 16) (get32 d 20) (get32 d 24).
Definition iinit : M fss unit :=
  d ← fcall (lcall readsb); modify (λ s, FS (flog s) (sb_of d) (icache s)).

Definition bzero (bno : Z) : M fss unit :=
  bp ← fbread bno;
  fset_bdata bp (replicate (Z.to_nat BSIZE) 0);;
  flog_write bp;;
  fbrelse bp.

(** The byte and the mask of bit [bi] of a bitmap block. *)
Definition bit_byte (bi : nat) : nat := (bi / 8)%nat.
Definition bit_mask (bi : nat) : Z := 2 ^ Z.of_nat (bi mod 8).
Definition bit_clear (d : block) (bi : nat) : bool := Z.land (d !!! bit_byte bi) (bit_mask bi) =? 0.
Definition set_bit (d : block) (bi : nat) : block :=
  <[bit_byte bi := Z.lor (d !!! bit_byte bi) (bit_mask bi)]> d.
Definition reset_bit (d : block) (bi : nat) : block :=
  <[bit_byte bi := Z.land (d !!! bit_byte bi) (Z.lnot (bit_mask bi))]> d.

(** The inner loop of [balloc]: the first clear bit among [bis]. *)
Fixpoint free_bit (d : block) (bis : list nat) : option nat :=
  match bis with
  | [] => None
  | bi :: bis' => if bit_clear d bi then Some bi else free_bit d bis'
  end.

(** One round of the outer loop, for the bitmap block of blocks from [b]. *)
Definition balloc_round (b : Z) : M fss (option Z) :=
  sb ← gets sb;
  bp ← fbread (BBLOCK b sb);
  d ← fbdata bp;
  match free_bit d (seq 0 (Z.to_nat (Z.min BPB (sb_size sb - b)))) with
  | Some bi =>
      fset_bdata bp (set_bit d bi);;
      flog_write bp;;
      fbrelse bp;;
      bzero (b + Z.of_nat bi);;
      mret (Some (b + Z.of_nat bi))
  | None => fbrelse bp;; mret None
  end.
Fixpoint balloc_loop (bs : list Z) : M fss Z :=
  match bs with
  | [] => panic "balloc: out of blocks"
  | b :: bs' =>
      r ← balloc_round b;
      match r with
      | Some a => mret a
      | None => balloc_loop bs'
      end
  end.
(** [for (b = 0; b < sb.size; b += BPB)] *)
Definition bitmap_firsts (size : Z) : list Z :=
  (λ k, Z.of_nat k * BPB) <$> seq 0 (Z.to_nat ((size + BPB - 1) / BPB)).
Definition balloc : M fss Z :=
  sb ← gets sb; balloc_loop (bitmap_firsts (sb_size sb)).

Definition bfree (b : Z) : M fss unit :=
  sb ← gets sb;
  bp ← fbread (BBLOCK b sb);
  d ← fbdata bp;
  let bi := Z.to_nat (b mod BPB) in
  if bit_clear d bi then panic "freeing free block" else
  fset_bdata bp (reset_bit d bi);;
  flog_write bp;;
  fbrelse bp.

(** ** The inode cache *)

(** The first index at which [f] holds. *)
Fixpoint find_index {A} (f : A → bool) (l : list A) : option nat :=
  match l with
  | [] => None
  | x :: l' => if f x then Some O else S <$> find_index f l'
  end.

Definition iget (dev inum : Z) : M fss nat := λ s,
  match find_index (λ p, (0 <? i_ref p) && (i_dev p =? dev) && (i_inum p =? inum)) (icache s) with
  | Some i => Ok (i, upd_ino i (λ p, set_ref (i_ref p + 1) p) s)
  | None =>
      match find_index (λ p, i_ref p =? 0) (icache s) with
      | None => Panic "iget: no inodes"
      | Some i =>
          Ok (i, upd_ino i (λ p, Inode dev inum 1 (i_lock p) false (i_type p) (i_major p) (i_minor p)
                              (i_nlink p) (i_size p) (i_addrs p) (i_mode p)) s)
      end
  end.

Definition idup (i : nat) : M fss nat :=
  modify (upd_ino i (λ p, set_ref (i_ref p + 1) p));; mret i.

(** One round of the loop of [ialloc]. *)
Definition ialloc_round (dev type : Z) (inum : Z) : M fss (option nat) :=
  sb ← gets sb;
  bp ← fbread (IBLOCK inum sb);
  d ← fbdata bp;
  let o := dino inum in
  if s16 (get16 d o) =? 0 then
    fset_bdata bp (put16 (list_inserts o (replicate 128 0) d) o type);;
    flog_write bp;;
    fbrelse bp;;
    i ← iget dev inum;
    mret (Some i)
  else fbrelse bp;; mret None.
Fixpoint ialloc_loop (dev type : Z) (inums : list nat) : M fss nat :=
  match inums with
  | [] => panic "ialloc: no inodes"
  | n :: ns =>
      r ← ialloc_round dev type (Z.of_nat n);
      match r with
      | Some i => mret i
      | None => ialloc_loop dev type ns
      end
  end.
Definition ialloc (dev type : Z) : M fss nat :=
  sb ← gets sb; ialloc_loop dev type (seq 1 (Z.to_nat (sb_ninodes sb) - 1)).

Definition iupdate (i : nat) : M fss unit :=
  sb ← gets sb;
  p ← gets (λ s, ino s i);
  bp ← fbread (IBLOCK (i_inum p) sb);
  d ← fbdata bp;
  fset_bdata bp (store_dinode d (dino (i_inum p)) p);;
  flog_write bp;;
  fbrelse bp.

(** [acquiresleep(&ip->lock)] *)
Definition ilock_acquire (i : nat) : M fss unit := λ s,
  if i_lock (ino s i) then Blocked else Ok (tt, upd_ino i (set_ilock true) s).

Definition ilock (i : nat) : M fss unit :=
  p ← gets (λ s, ino s i);
  if i_ref p <? 1 then panic "ilock" else
  ilock_acquire i;;
  if i_valid p then mret tt else
  sb ← gets sb;
  bp ← fbread (IBLOCK (i_inum p) sb);
  d ← fbdata bp;
  modify (upd_ino i (load_dinode d (dino (i_inum p))));;
  fbrelse bp;;
  modify (upd_ino i (set_valid true));;
  q ← gets (λ s, ino s i);
  if i_type q =? 0 then panic "ilock: no type" else mret tt.

Definition iunlock (i : nat) : M fss unit :=
  p ← gets (λ s, ino s i);
  if negb (i_lock p) || (i_ref p <? 1) then panic "iunlock" else
  modify (upd_ino i (set_ilock false)).

(** ** Inode contents *)

(** [itrunc]: the direct blocks, then the blocks the indirect block lists,
    then the indirect block. *)
Definition itrunc_direct (i : nat) (k : nat) : M fss unit :=
  a ← gets (λ s, i_addrs (ino s i) !!! k);
  if a =? 0 then mret tt else
  bfree a;; modify (upd_ino i (set_addr k 0)).
Definition itrunc_entry (bp : Z) (j : nat) : M fss unit :=
  a ← fbdata bp;
  if get32 a (4 * j) =? 0 then mret tt else bfree (get32 a (4 * j)).
Definition itrunc (i : nat) : M fss unit :=
  mfor (seq 0 (Z.to_nat NDIRECT)) (itrunc_direct i);;
  a ← gets (λ s, i_addrs (ino s i) !!! Z.to_nat NDIRECT);
  (if a =? 0 then mret tt else
   bp ← fbread a;
   mfor (seq 0 (Z.to_nat NINDIRECT)) (itrunc_entry bp);;
   fbrelse bp;;
   bfree a;;
   modify (upd_ino i (set_addr (Z.to_nat NDIRECT) 0)));;
  modify (upd_ino i (set_size 0));;
  iupdate i.

Definition iput (i : nat) : M fss unit :=
  ilock_acquire i;;
  p ← gets (λ s, ino s i);
  (if i_valid p && (i_nlink p =? 0) && (i_ref p =? 1) then
     itrunc i;;
     modify (upd_ino i (set_type 0));;
     iupdate i;;
     modify (upd_ino i (set_valid false))
   else mret tt);;
  modify (upd_ino i (set_ilock false));;
  modify (upd_ino i (λ p, set_ref (i_ref p - 1) p)).

Definition iunlockput (i : nat) : M fss unit := iunlock i;; iput i.

(** [bmap] with its two cases as definitions of their own. *)
Definition bmap_addr (i : nat) (k : nat) : M fss Z :=
  a ← gets (λ s, i_addrs (ino s i) !!! k);
  if a =? 0 then b ← balloc; modify (upd_ino i (set_addr k b));; mret b
  else mret a.
Definition bmap_entry (addr : Z) (bn : nat) : M fss Z :=
  bp ← fbread addr;
  a ← fbdata bp;
  let addr := get32 a (4 * bn) in
  if addr =? 0 then
    b ← balloc;
    a' ← fbdata bp;
    fset_bdata bp (put32 a' (4 * bn) b);;
    flog_write bp;;
    fbrelse bp;;
    mret b
  else fbrelse bp;; mret addr.
Definition bmap (i : nat) (bn : Z) : M fss Z :=
  if bn <? NDIRECT then bmap_addr i (Z.to_nat bn)
  else if bn - NDIRECT <? NINDIRECT then
    addr ← bmap_addr i (Z.to_nat NDIRECT);
    bmap_entry addr (Z.to_nat (bn - NDIRECT))
  else panic "bmap: out of range".

Record stat := Stat {
  st_type : Z;
  st_dev : Z;
  st_ino : Z;
  st_nlink : Z;
  st_size : Z
}.
Definition stati (i : nat) : M fss stat :=
  p ← gets (λ s, ino s i);
  mret (Stat (i_type p) (s32 (i_dev p)) (i_inum p) (i_nlink p) (i_size p)).

(** The table of device functions, filled in by the drivers. *)
Record devsw := Devsw {
  dev_read : option (nat → Z → M fss (Z * list Z));
  dev_write : option (nat → list Z → Z → M fss Z)
}.

Section contents.
Context (devs : Z → devsw).

(** The loop of [readi]: the bytes copied to [dst]. *)
Fixpoint readi_loop (fuel : nat) (i : nat) (off n tot : Z) : M fss (list Z) :=
  if n <=? tot then mret [] else
  match fuel with
  | O => undef
  | S fuel' =>
      addr ← bmap i (off / BSIZE);
      bp ← fbread addr;
      let m := Z.min (n - tot) (BSIZE - off mod BSIZE) in
      d ← fbdata bp;
      fbrelse bp;;
      rest ← readi_loop fuel' i (u32 (off + m)) n (tot + m);
      mret (take (Z.to_nat m) (drop (Z.to_nat (off mod BSIZE)) d) ++ rest)
  end.

Definition readi (i : nat) (off n : Z) : M fss (Z * list Z) :=
  p ← gets (λ s, ino s i);
  if i_type p =? T_DEV then
    if (i_major p <? 0) || (NDEV <=? i_major p) then mret (-1, []) else
    match dev_read (devs (i_major p)) with
    | None => mret (-1, [])
    | Some f => f i (s32 n)
    end
  else if (i_size p <? off) || (u32 (off + n) <? off) then mret (-1, [])
  else
    let n := if i_size p <? u32 (off + n) then u32 (i_size p - off) else n in
    bs ← readi_loop (Z.to_nat n) i off n 0;
    mret (s32 n, bs).

(** The loop of [writei]; returns the final [off]. *)
Fixpoint writei_loop (fuel : nat) (i : nat) (src : list Z) (off n tot : Z) : M fss Z :=
  if n <=? tot then mret off else
  match fuel with
  | O => undef
  | S fuel' =>
      addr ← bmap i (off / BSIZE);
      bp ← fbread addr;
      let m := Z.min (n - tot) (BSIZE - off mod BSIZE) in
      d ← fbdata bp;
      fset_bdata bp (list_inserts (Z.to_nat (off mod BSIZE)) (take (Z.to_nat m) src) d);;
      flog_write bp;;
      fbrelse bp;;
      writei_loop fuel' i (drop (Z.to_nat m) src) (u32 (off + m)) n (tot + m)
  end.

Definition writei (i : nat) (src : list Z) (off n : Z) : M fss Z :=
  p ← gets (λ s, ino s i);
  if i_type p =? T_DEV then
    if (i_major p <? 0) || (NDEV <=? i_major p) then mret (-1) else
    match dev_write (devs (i_major p)) with
    | None => mret (-1)
    | Some f => f i src (s32 n)
    end
  else if (i_size p <? off) || (u32 (off + n) <? off) then mret (-1)
  else if MAXFILE * BSIZE <? u32 (off + n) then mret (-1)
  else
    off' ← writei_loop (Z.to_nat n) i src off n 0;
    size ← gets (λ s, i_size (ino s i));
    (if (0 <? n) && (size <? off') then modify (upd_ino i (set_size off'));; iupdate i else mret tt);;
    mret (s32 n).

(** ** Directories *)

(** [strncmp(s, t, DIRSIZ)] on the characters of two names. *)
Fixpoint namecmp_loop (n : nat) (s t : list Z) : Z :=
  match n with
  | O => 0
  | S n' =>
      if truthy (s !!! O) && (s !!! O =? t !!! O) then namecmp_loop n' (drop 1 s) (drop 1 t)
      else s !!! O - t !!! O
  end.
Definition namecmp (s t : list Z) : Z := namecmp_loop (Z.to_nat DIRSIZ) s t.

(** [struct dirent] in memory: the inode number, then the name. *)
Definition de_inum (de : list Z) : Z := get16 de 0.
Definition de_name (de : list Z) : list Z := drop 2 de.

(** [strncpy(de.name, name, DIRSIZ)] *)
Definition de_pad (name : list Z) : list Z :=
  let c := cut (take (Z.to_nat DIRSIZ) name) in c ++ replicate (Z.to_nat DIRSIZ - length c) 0.
Definition dirent (inum : Z) (name : list Z) : list Z := put16 [0; 0] 0 inum ++ de_pad name.

Fixpoint dirlookup_loop (fuel : nat) (dp : nat) (name : list Z) (off : Z) : M fss (option (nat * Z)) :=
  size ← gets (λ s, i_size (ino s dp));
  if size <=? off then mret None else
  match fuel with
  | O => undef
  | S fuel' =>
      r ← readi dp off 16;
      if negb (r.1 =? 16) then panic "dirlookup read" else
      let de := r.2 in
      if de_inum de =? 0 then dirlookup_loop fuel' dp name (u32 (off + 16))
      else if namecmp name (de_name de) =? 0 then
        dev ← gets (λ s, i_dev (ino s dp));
        ip ← iget dev (de_inum de);
        mret (Some (ip, off))
      else dirlookup_loop fuel' dp name (u32 (off + 16))
  end.
Definition dir_fuel (size : Z) : nat := Z.to_nat (size / 16 + 1).
Definition dirlookup (dp : nat) (name : list Z) : M fss (option (nat * Z)) :=
  p ← gets (λ s, ino s dp);
  if negb (i_type p =? T_DIR) then panic "dirlookup not DIR" else
  dirlookup_loop (dir_fuel (i_size p)) dp name 0.

(** The loop of [dirlink] that looks for an empty entry. *)
Fixpoint dirlink_loop (fuel : nat) (dp : nat) (off : Z) : M fss Z :=
  size ← gets (λ s, i_size (ino s dp));
  if size <=? off then mret off else
  match fuel with
  | O => undef
  | S fuel' =>
      r ← readi dp off 16;
      if negb (r.1 =? 16) then panic "dirlink read" else
      if de_inum r.2 =? 0 then mret off else dirlink_loop fuel' dp (off + 16)
  end.
Definition dirlink (dp : nat) (name : list Z) (inum : Z) : M fss Z :=
  r ← dirlookup dp name;
  match r with
  | Some (ip, _) => iput ip;; mret (-1)
  | None =>
      size ← gets (λ s, i_size (ino s dp));
      off ← dirlink_loop (dir_fuel size) dp 0;
      w ← writei dp (dirent inum name) off 16;
      if negb (w =? 16) then panic "dirlink" else mret 0
  end.

(** ** Paths *)

Definition slash : Z := 47.

(** Passing over slashes. *)
Fixpoint skip_slashes (path : list Z) : list Z :=
  match path with
  | c :: path' => if c =? slash then skip_slashes path' else path
  | [] => []
  end.
(** Passing over everything but slashes: what is passed over and what is
    left. *)
Fixpoint take_elem (path : list Z) : list Z * list Z :=
  match path with
  | c :: path' => if c =? slash then ([], path) else let '(e, r) := take_elem path' in (c :: e, r)
  | [] => ([], [])
  end.

(** [skipelem(path, name)]: the rest of the path and the buffer [name], or
    [None] where the code returns 0. *)
Definition skipelem (path name : list Z) : option (list Z * list Z) :=
  let path := skip_slashes path in
  match path with
  | [] => None
  | _ =>
      let '(s, path) := take_elem path in
      let name :=
        if (Z.to_nat DIRSIZ <=? length s)%nat then list_inserts 0 (take (Z.to_nat DIRSIZ) s) name
        else list_inserts 0 (s ++ [0]) name in
      Some (skip_slashes path, name)
  end.

(** The loop of [namex]; [inl ip] leaves it with [ip], [inr r] returns. *)
Fixpoint namex_loop (fuel : nat) (nameiparent : bool) (ip : nat) (path name : list Z) :
    M fss ((nat + option nat) * list Z) :=
  match skipelem path name with
  | None => mret (inl ip, name)
  | Some (path, name) =>
      match fuel with
      | O => undef
      | S fuel' =>
          ilock ip;;
          type ← gets (λ s, i_type (ino s ip));
          if negb (type =? T_DIR) then iunlockput ip;; mret (inr None, name)
          else if nameiparent && bool_decide (path = []) then iunlock ip;; mret (inr (Some ip), name)
          else
            r ← dirlookup ip name;
            match r with
            | None => iunlockput ip;; mret (inr None, name)
            | Some (next, _) => iunlockput ip;; namex_loop fuel' nameiparent next path name
            end
      end
  end.

(** [namex]; [cwd] is the current directory of the process. *)
Definition namex (cwd : nat) (path : list Z) (nameiparent : bool) (name : list Z) :
    M fss (option nat * list Z) :=
  ip ← (if bool_decide (head path = Some slash) then iget ROOTDEV ROOTINO else idup cwd);
  r ← namex_loop (length path) nameiparent ip path name;
  match r with
  | (inr q, name) => mret (q, name)
  | (inl ip, name) =>
      if nameiparent then iput ip;; mret (None, name)
      else mret (Some ip, name)
  end.

Definition namei (cwd : nat) (path : list Z) : M fss (option nat) :=
  r ← namex cwd path false (replicate (Z.to_nat DIRSIZ) 0); mret r.1.
Definition nameiparent (cwd : nat) (path : list Z) (name : list Z) : M fss (option nat * list Z) :=
  namex cwd path true name.

End contents.
