(* ===== verification/FsBlock.v ===== *)
(** * Block updates and the free bitmap

    Equations for the block operations inside a transaction, and the
    correctness of [balloc] and [bfree] of [Fs.v]. *)

From S2P Require Import Prelude CString Block Log Fs.

(** ** Block operations inside a transaction *)

Definition fblk (s : fss) : blk := lblk (flog s).
(** Current contents of block [b]. *)
Definition cont (s : fss) (b : Z) : block := bbuf (fblk s) b.
Definition held (s : fss) : list Z := bheld (fblk s).
Definition nblocks (s : fss) : Z := bcount (fblk s).

(** The log takes [k] more blocks. *)
Record fs_ok (k : Z) (s : fss) : Prop := {
  fo_blk : blk_ok (fblk s);
  fo_out : 1 ≤ outstanding (flog s);
  fo_len : length (lh_block (flog s)) = 30%nat;
  fo_n : 0 ≤ lh_n (flog s);
  fo_log : lh_n (flog s) + k ≤ LOGSIZE;
  fo_size : lh_n (flog s) + k ≤ lsize (flog s) - 1
}.

Definition fhold (b : Z) (s : fss) : fss :=
  with_flog (set_lblk (with_held (b :: held s) (fblk s)) (flog s)) s.

(** Block [b] set to [d] and logged. *)
Definition lput (b : Z) (d : block) (l : lst) : lst :=
  let i := absorb (lh_block l) b 0 (Z.to_nat (lh_n l)) in
  LSt (Blk (bdisk (lblk l)) (fset (bbuf (lblk l)) b d) (fset (bdirty (lblk l)) b true) (bheld (lblk l))
         (bcount (lblk l)) (wtrace (lblk l)))
    (lstart l) (lsize l) (outstanding l) (committing l)
    (if (i =? Z.to_nat (lh_n l))%nat then lh_n l + 1 else lh_n l) (<[i := b]> (lh_block l)).
Definition fput (b : Z) (d : block) (s : fss) : fss := with_flog (lput b d (flog s)) s.

Lemma filter_held b (l : list Z) : b ∉ l → filter (λ c, c ≠ b) (b :: l) = l.
Proof.
  intros Hb. rewrite filter_cons_False by auto. clear -Hb. induction l as [|c l IH]; [done|].
  apply not_elem_of_cons in Hb as [Hc Hb]. rewrite filter_cons_True by done. by rewrite IH.
Qed.

Lemma fcall_eq {A} (c : M lst A) s a l : c (flog s) = Ok (a, l) → fcall c s = Ok (a, with_flog l s).
Proof. intros E. unfold fcall. by rewrite E. Qed.

Lemma fbread_eq b s : b ∉ held s → 0 ≤ b < nblocks s → fbread b s = Ok (b, fhold b s).
Proof. intros Hb Hr. apply fcall_eq, lcall_eq. by apply bread_eq. Qed.

Lemma fbdata_eq b s : b ∈ held s → fbdata b s = Ok (cont s b, s).
Proof.
  intros Hb. unfold fbdata. erewrite fcall_eq by (apply lcall_eq; by apply bdata_eq).
  by destruct s as [[] ? ?].
Qed.

Lemma fbrelse_eq b s k : fs_ok k s → b ∉ held s → fbrelse b (fhold b s) = Ok (tt, s).
Proof.
  intros [Hok _ _ _ _ _] Hb. unfold fbrelse. erewrite fcall_eq; [|apply lcall_eq, brelse_eq].
  - unfold fhold, held, fblk in *. lcbn. cbn [with_flog flog sb icache lblk set_lblk bheld with_held].
    rewrite filter_held by done. destruct s as [[[] ? ? ? ? ? ?] ? ?]. done.
  - by left.
  - simpl. destruct (bdirty (fblk s) b) eqn:E; [by left|right]. by apply Hok.
Qed.

Lemma lput_write b d l : b ∈ bheld (lblk l) → lh_n l < LOGSIZE → lh_n l < lsize l - 1 → 1 ≤ outstanding l →
  (lcall (set_bdata b d);; log_write b) l = Ok (tt, lput b d l).
Proof.
  intros Hb H1 H2 H3. erewrite bind_ok by (apply lcall_eq; by apply set_bdata_eq).
  unfold log_write. lcbn. destruct (Z.leb_spec LOGSIZE (lh_n l)); [lia|].
  destruct (Z.leb_spec (lsize l - 1) (lh_n l)); [lia|]. destruct (Z.ltb_spec (outstanding l) 1); [lia|]. cbn [orb].
  erewrite lcall_eq; [reflexivity|]. lcbn. by apply set_bdirty_eq.
Qed.

(** Setting, logging and releasing a locked block. *)
Lemma fwrite_eq {A} b d s (k : M fss A) j : fs_ok j s → 1 ≤ j → b ∉ held s →
  (fset_bdata b d;; (flog_write b;; (fbrelse b;; k))) (fhold b s) = k (fput b d s).
Proof.
  intros Hok Hj Hb. pose proof Hok as [Hblk Ho Hlen Hn Hl Hs].
  pose proof (lput_write b d (flog (fhold b s)) ltac:(by left) ltac:(simpl; lia) ltac:(simpl; lia) ltac:(done)) as E.
  unfold fset_bdata, flog_write. apply bind_inv in E as ([] & l1 & E1 & E2).
  rewrite (bind_ok _ _ _ _ _ (fcall_eq _ _ _ _ E1)).
  rewrite (bind_ok _ _ _ _ _ (fcall_eq (log_write b) (with_flog l1 (fhold b s)) _ _ E2)).
  assert (∀ s1, s1 = fhold b (fput b d s) → fbrelse b s1 = Ok (tt, fput b d s)) as Hrel.
  { intros s1 ->. unfold fbrelse. erewrite fcall_eq; [|apply lcall_eq, brelse_eq; [by left|left; apply fset_same]].
    unfold fhold, fput, held, fblk in *. cbn [with_flog flog sb icache lblk set_lblk bheld with_held lput].
    rewrite filter_held by done. done. }
  by rewrite (bind_ok _ _ _ _ _ (Hrel _ eq_refl)).
Qed.

Lemma fwrite_eq' b d s j : fs_ok j s → 1 ≤ j → b ∉ held s →
  (fset_bdata b d;; (flog_write b;; fbrelse b)) (fhold b s) = Ok (tt, fput b d s).
Proof.
  intros Hok Hj Hb. etrans; [|exact (fwrite_eq b d s (mret tt) j Hok Hj Hb)].
  unfold mbind, M_bind. destruct (fset_bdata b d _) as [[]| | |]; try done. destruct (flog_write b _) as [[]| | |]; try done.
  destruct (fbrelse b _) as [[[]]| | |]; done.
Qed.

Lemma fput_ok b d s k : fs_ok (k + 1) s → 0 ≤ k → fs_ok k (fput b d s).
Proof.
  intros [Hok Ho Hlen Hn Hl Hs] Hk. split; simpl; try done.
  - destruct Hok as [H1 H2 H3]. split; simpl; [done..|]. intros c Hc Hh.
    destruct (decide (c = b)) as [->|Hne]; [by rewrite fset_same in Hc|].
    rewrite fset_other in Hc by done. rewrite fset_other by done. auto.
  - by rewrite length_insert.
  - destruct (_ =? _)%nat; lia.
  - destruct (_ =? _)%nat; lia.
  - destruct (_ =? _)%nat; lia.
Qed.

Lemma fs_ok_le j k s : fs_ok k s → j ≤ k → fs_ok j s.
Proof. intros [H1 H2 H3 H4 H5 H6] Hj. split; try done; lia. Qed.

Lemma fhold_ok b s k : fs_ok k s → b ∉ held s → 0 ≤ b < nblocks s → fs_ok k (fhold b s).
Proof.
  intros [Hok Ho Hlen Hn Hl Hs] Hb Hr. split; simpl; try done.
  eapply bread_blk_ok; [exact Hok|]. by apply bread_eq.
Qed.

(** Contents and bookkeeping after an update. *)
Lemma cont_fput b d s : cont (fput b d s) = fset (cont s) b d.
Proof. done. Qed.
Lemma cont_fput_same b d s : cont (fput b d s) b = d.
Proof. apply fset_same. Qed.
Lemma cont_fput_other b c d s : c ≠ b → cont (fput b d s) c = cont s c.
Proof. intros Hne. by apply (fset_other (bbuf (fblk s))). Qed.
Lemma fhold_fput b c d s : fput b d (fhold c s) = fhold c (fput b d s).
Proof. done. Qed.

(** ** The bitmap *)

Lemma bit_clear_testbit d bi : bit_clear d bi = negb (Z.testbit (d !!! bit_byte bi) (Z.of_nat (bi mod 8))).
Proof. apply land_pow2_eqb. lia. Qed.

Lemma bit_byte_eq (bi bj : nat) : bit_byte bi = bit_byte bj → (bi mod 8 = bj mod 8)%nat → bi = bj.
Proof.
  unfold bit_byte. intros H1 H2. rewrite (Nat.div_mod_eq bi 8), (Nat.div_mod_eq bj 8). congruence.
Qed.

Lemma bit_clear_set d bi bj : (bit_byte bi < length d)%nat →
  bit_clear (set_bit d bi) bj = if decide (bi = bj) then false else bit_clear d bj.
Proof.
  intros Hl. rewrite !bit_clear_testbit. unfold set_bit, bit_mask.
  destruct (decide (bit_byte bi = bit_byte bj)) as [E|E].
  - rewrite E, list_lookup_total_insert_eq by (by rewrite <- E). rewrite Z.lor_spec, Z.pow2_bits_eqb by lia.
    destruct (decide (bi = bj)) as [->|Hne]; [by rewrite Z.eqb_refl, orb_true_r|].
    destruct (Z.eqb_spec (Z.of_nat (bi mod 8)) (Z.of_nat (bj mod 8))) as [Em|_]; [|by rewrite orb_false_r].
    destruct Hne. apply bit_byte_eq; [done|lia].
  - rewrite list_lookup_total_insert_ne by done. by destruct (decide (bi = bj)) as [->|].
Qed.

Lemma bit_clear_reset d bi bj : (bit_byte bi < length d)%nat →
  bit_clear (reset_bit d bi) bj = if decide (bi = bj) then true else bit_clear d bj.
Proof.
  intros Hl. rewrite !bit_clear_testbit. unfold reset_bit, bit_mask.
  destruct (decide (bit_byte bi = bit_byte bj)) as [E|E].
  - rewrite E, list_lookup_total_insert_eq by (by rewrite <- E).
    rewrite Z.land_spec, Z.lnot_spec, Z.pow2_bits_eqb by lia.
    destruct (decide (bi = bj)) as [->|Hne]; [by rewrite Z.eqb_refl, andb_false_r|].
    destruct (Z.eqb_spec (Z.of_nat (bi mod 8)) (Z.of_nat (bj mod 8))) as [Em|_]; [|by rewrite andb_true_r].
    destruct Hne. apply bit_byte_eq; [done|lia].
  - rewrite list_lookup_total_insert_ne by done. by destruct (decide (bi = bj)) as [->|].
Qed.

Lemma free_bit_spec d bis : match free_bit d bis with
  | Some bi => bit_clear d bi = true ∧ ∃ l1 l2, bis = l1 ++ bi :: l2 ∧ ∀ bj, bj ∈ l1 → bit_clear d bj = false
  | None => ∀ bj, bj ∈ bis → bit_clear d bj = false
  end.
Proof.
  induction bis as [|bi bis IH]; simpl; [by intros bj ?%not_elem_of_nil|].
  destruct (bit_clear d bi) eqn:E.
  - split; [done|]. exists [], bis. split; [done|]. by intros bj ?%not_elem_of_nil.
  - destruct (free_bit d bis) as [bj|].
    + destruct IH as (Hc & l1 & l2 & -> & Hl). split; [done|]. exists (bi :: l1), l2. split; [done|].
      intros b [->|?]%elem_of_cons; auto.
    + intros bj [->|?]%elem_of_cons; auto.
Qed.

(** Block [b] is marked in use. *)
Definition used (s : fss) (b : Z) : bool :=
  negb (bit_clear (cont s (BBLOCK b (sb s))) (Z.to_nat (b mod BPB))).

(** The first block after the bitmap. *)
Definition data_start (g : superblock) : Z := sb_bmapstart g + (sb_size g + BPB - 1) / BPB.

(** A file system image as [mkfs] lays it out: boot block, superblock, log,
    inodes, bitmap, data. *)
Record geom (g : superblock) (count : Z) : Prop := {
  g_size : 0 ≤ sb_size g ≤ count;
  g_count : count ≤ 2 ^ 31;
  g_inodes : 0 ≤ sb_ninodes g;
  g_istart : 2 ≤ sb_inodestart g;
  g_bstart : sb_inodestart g + (sb_ninodes g - 1) / IPB < sb_bmapstart g;
  g_data : data_start g ≤ sb_size g
}.

(** The state inside a transaction: the log takes [k] more blocks, all blocks
    have [BSIZE] bytes, the blocks before the data are marked in use, and
    only data blocks in use are locked. *)
Record fs_inv (k : Z) (s : fss) : Prop := {
  fi_ok : fs_ok k s;
  fi_geom : geom (sb s) (nblocks s);
  fi_len b : length (cont s b) = 512%nat;
  fi_meta b : 0 ≤ b < data_start (sb s) → used s b = true;
  fi_held b : b ∈ held s → data_start (sb s) ≤ b < sb_size (sb s) ∧ used s b = true
}.

Ltac geo := unfold data_start, IPB, BPB, BSIZE in *; change (512 * 8) with 4096 in *; change (512 / 128) with 4 in *.

Lemma BBLOCK_eq g count b : geom g count → 0 ≤ b < sb_size g →
  BBLOCK b g = b / BPB + sb_bmapstart g ∧ sb_bmapstart g ≤ BBLOCK b g < data_start g.
Proof.
  intros [G1 G2 G3 G4 G5 G6] Hb. unfold BBLOCK. geo.
  rewrite u32_small; Z.div_mod_to_equations; lia.
Qed.

Lemma bit_byte_BPB b : (bit_byte (Z.to_nat (b mod BPB)) < 512)%nat.
Proof.
  unfold bit_byte, BPB, BSIZE. pose proof (Z.mod_pos_bound b (512 * 8) eq_refl).
  apply Nat.Div0.div_lt_upper_bound. lia.
Qed.

Lemma mod_BPB_inj b c : b / BPB = c / BPB → Z.to_nat (b mod BPB) = Z.to_nat (c mod BPB) → b = c.
Proof.
  unfold BPB, BSIZE. intros H1 H2. pose proof (Z.mod_pos_bound b (512 * 8) eq_refl).
  pose proof (Z.mod_pos_bound c (512 * 8) eq_refl).
  rewrite (Z.div_mod b (512 * 8)), (Z.div_mod c (512 * 8)) by lia. lia.
Qed.

(** Marking a block changes one bit and one block. *)
Lemma used_set s b c : geom (sb s) (nblocks s) → (∀ b, length (cont s b) = 512%nat) →
  0 ≤ b < sb_size (sb s) → 0 ≤ c < sb_size (sb s) →
  used (fput (BBLOCK b (sb s)) (set_bit (cont s (BBLOCK b (sb s))) (Z.to_nat (b mod BPB))) s) c =
  if decide (c = b) then true else used s c.
Proof.
  intros G Hl Hb Hc. unfold used. simpl. destruct (BBLOCK_eq _ _ b G Hb) as [Eb _], (BBLOCK_eq _ _ c G Hc) as [Ec _].
  destruct (decide (BBLOCK c (sb s) = BBLOCK b (sb s))) as [E|E].
  - rewrite E, cont_fput_same, bit_clear_set by (rewrite Hl; apply bit_byte_BPB).
    destruct (decide (c = b)) as [->|Hne]; [by rewrite decide_True|].
    rewrite decide_False; [done|]. intros Em. apply Hne. symmetry. apply mod_BPB_inj; [lia|done].
  - rewrite cont_fput_other by done. by destruct (decide (c = b)) as [->|].
Qed.

Lemma used_reset s b c : geom (sb s) (nblocks s) → (∀ b, length (cont s b) = 512%nat) →
  0 ≤ b < sb_size (sb s) → 0 ≤ c < sb_size (sb s) →
  used (fput (BBLOCK b (sb s)) (reset_bit (cont s (BBLOCK b (sb s))) (Z.to_nat (b mod BPB))) s) c =
  if decide (c = b) then false else used s c.
Proof.
  intros G Hl Hb Hc. unfold used. simpl. destruct (BBLOCK_eq _ _ b G Hb) as [Eb _], (BBLOCK_eq _ _ c G Hc) as [Ec _].
  destruct (decide (BBLOCK c (sb s) = BBLOCK b (sb s))) as [E|E].
  - rewrite E, cont_fput_same, bit_clear_reset by (rewrite Hl; apply bit_byte_BPB).
    destruct (decide (c = b)) as [->|Hne]; [by rewrite decide_True|].
    rewrite decide_False; [done|]. intros Em. apply Hne. symmetry. apply mod_BPB_inj; [lia|done].
  - rewrite cont_fput_other by done. by destruct (decide (c = b)) as [->|].
Qed.

(** ** Allocation *)

Definition zeros : block := replicate (Z.to_nat BSIZE) 0.

(** The state after allocating block [b]. *)
Definition alloc_state (b : Z) (s : fss) : fss :=
  fput b zeros (fput (BBLOCK b (sb s)) (set_bit (cont s (BBLOCK b (sb s))) (Z.to_nat (b mod BPB))) s).

Lemma bmap_not_held k s b : fs_inv k s → 0 ≤ b < sb_size (sb s) →
  (BBLOCK b (sb s) ∉ held s) ∧ 0 ≤ BBLOCK b (sb s) < nblocks s.
Proof.
  intros [_ G _ _ Hh] Hb. destruct (BBLOCK_eq _ _ b G Hb) as [_ Hr]. destruct G as [G1 G2 G3 G4 G5 G6].
  split; [intros Hin; apply Hh in Hin; lia|]. geo. Z.div_mod_to_equations. lia.
Qed.

Lemma free_not_meta k s b : fs_inv k s → 0 ≤ b < sb_size (sb s) → used s b = false → data_start (sb s) ≤ b ∧ b ∉ held s.
Proof.
  intros [_ _ _ Hm Hh] Hb Hu. split.
  - destruct (Z.le_gt_cases (data_start (sb s)) b); [done|]. rewrite Hm in Hu by lia. done.
  - intros Hin. destruct (Hh b Hin). congruence.
Qed.

Lemma bzero_eq k s b : fs_ok k s → 1 ≤ k → b ∉ held s → 0 ≤ b < nblocks s → bzero b s = Ok (tt, fput b zeros s).
Proof.
  intros Hok Hk Hb Hr. unfold bzero. rewrite (bind_ok _ _ _ _ _ (fbread_eq b s Hb Hr)). by eapply fwrite_eq'.
Qed.

(** The blocks that the bitmap block of [q * BPB] covers. *)
Definition covers (s : fss) (q : Z) (b : Z) : Prop := q * BPB ≤ b < q * BPB + BPB ∧ b < sb_size (sb s).

Lemma covers_bit k s q (bi : nat) : fs_inv k s → 0 ≤ q → Z.of_nat bi < BPB →
  q * BPB + Z.of_nat bi < sb_size (sb s) →
  BBLOCK (q * BPB + Z.of_nat bi) (sb s) = BBLOCK (q * BPB) (sb s) ∧
  Z.to_nat ((q * BPB + Z.of_nat bi) mod BPB) = bi ∧
  used s (q * BPB + Z.of_nat bi) = negb (bit_clear (cont s (BBLOCK (q * BPB) (sb s))) bi).
Proof.
  intros [_ G _ _ _] Hq H1 H2. unfold used.
  assert (Z.to_nat ((q * BPB + Z.of_nat bi) mod BPB) = bi) as ->.
  { geo. rewrite Z.add_comm, Z_mod_plus_full, Z.mod_small; lia. }
  destruct (BBLOCK_eq _ _ (q * BPB) G ltac:(geo; lia)) as [-> _].
  destruct (BBLOCK_eq _ _ (q * BPB + Z.of_nat bi) G ltac:(geo; lia)) as [-> _].
  assert ((q * BPB + Z.of_nat bi) / BPB = q * BPB / BPB) as ->; [|done].
  geo. rewrite Z.div_add_l, Z.div_mul by lia. rewrite Z.div_small; lia.
Qed.

Lemma covers_inv s q b : covers s q b → 0 ≤ q →
  ∃ bi : nat, b = q * BPB + Z.of_nat bi ∧ Z.of_nat bi < BPB ∧ q * BPB + Z.of_nat bi < sb_size (sb s).
Proof. intros [H1 H2] Hq. exists (Z.to_nat (b - q * BPB)). geo. lia. Qed.

Lemma seq_split_inv n l1 x l2 : seq 0 n = l1 ++ x :: l2 → (x < n)%nat ∧ ∀ y, (y < x)%nat → y ∈ l1.
Proof.
  intros E. assert (seq 0 n !! length l1 = Some x) as Hx by (rewrite E; by apply list_lookup_middle).
  apply lookup_seq in Hx as [Hx Hlt]. simpl in Hx. subst x. split; [done|]. intros y Hy.
  assert (seq 0 n !! y = Some y) as Hl by (apply lookup_seq; lia).
  rewrite E, lookup_app_l in Hl by lia. by eapply list_elem_of_lookup_2.
Qed.

Lemma balloc_round_eq k s q : fs_inv (k + 2) s → 0 ≤ k → 0 ≤ q → q * BPB < sb_size (sb s) →
  (balloc_round (q * BPB) s = Ok (None, s) ∧ ∀ b, covers s q b → used s b = true) ∨
  ∃ b, balloc_round (q * BPB) s = Ok (Some b, alloc_state b s) ∧ covers s q b ∧ used s b = false ∧
    ∀ c, q * BPB ≤ c < b → used s c = true.
Proof.
  intros HI Hk Hq Hs. pose proof HI as [Hok G Hl Hm Hh].
  destruct (bmap_not_held _ _ (q * BPB) HI ltac:(geo; lia)) as [Hnh Hr].
  unfold balloc_round. rewrite (bind_ok (gets sb) _ s (sb s) s eq_refl).
  set (bb := BBLOCK (q * BPB) (sb s)) in *.
  rewrite (bind_ok _ _ _ _ _ (fbread_eq bb s Hnh Hr)), (bind_ok _ _ _ _ _ (fbdata_eq bb (fhold bb s) ltac:(by left))).
  change (cont (fhold bb s) bb) with (cont s bb).
  pose proof (free_bit_spec (cont s bb) (seq 0 (Z.to_nat (Z.min BPB (sb_size (sb s) - q * BPB))))) as Hf.
  destruct (free_bit _ _) as [bi|].
  - right. destruct Hf as (Hc & l1 & l2 & [Hbi Hlt]%seq_split_inv & Hl1).
    destruct (covers_bit _ s q bi HI Hq ltac:(geo; lia) ltac:(geo; lia)) as (E1 & E2 & E3). fold bb in E1, E3.
    rewrite Hc in E3. set (b := q * BPB + Z.of_nat bi) in *.
    destruct (free_not_meta _ s b HI ltac:(geo; lia) E3) as [Hd Hnb].
    exists b. split; [|split; [split; geo; lia|split; [done|]]].
    + rewrite (fwrite_eq bb _ s _ _ Hok ltac:(lia) Hnh). erewrite bind_ok.
      2: { eapply bzero_eq with (k := k + 1); [apply fput_ok; [|lia]|lia|done|].
           - eapply fs_ok_le; [exact Hok|lia].
           - destruct G. change (nblocks (fput _ _ s)) with (nblocks s). geo. lia. }
      unfold alloc_state. by rewrite E1, E2.
    + intros c Hcb. destruct (covers_bit _ s q (Z.to_nat (c - q * BPB)) HI Hq) as (_ & _ & E); [geo; lia..|].
      fold bb in E. rewrite Hl1 in E by (apply Hlt; lia). rewrite Z2Nat.id in E by lia. replace (q * BPB + (c - q * BPB)) with c in E by lia. done.
  - left. rewrite (bind_ok _ _ _ _ _ (fbrelse_eq bb s _ Hok Hnh)). split; [done|].
    intros b (bi & -> & H1 & H2)%covers_inv; [|done]. destruct (covers_bit _ s q bi HI Hq H1 H2) as (_ & _ & ->).
    fold bb. rewrite Hf; [done|]. apply elem_of_seq. geo. lia.
Qed.

Lemma balloc_loop_eq k s q n : fs_inv (k + 2) s → 0 ≤ k →
  (∀ q', (q ≤ q' < q + n)%nat → Z.of_nat q' * BPB < sb_size (sb s)) →
  (balloc_loop ((λ k, Z.of_nat k * BPB) <$> seq q n) s = Panic "balloc: out of blocks" ∧
   ∀ b, Z.of_nat q * BPB ≤ b < Z.of_nat (q + n) * BPB → b < sb_size (sb s) → used s b = true) ∨
  ∃ b, balloc_loop ((λ k, Z.of_nat k * BPB) <$> seq q n) s = Ok (b, alloc_state b s) ∧
    0 ≤ b < sb_size (sb s) ∧ used s b = false ∧ ∀ c, Z.of_nat q * BPB ≤ c < b → used s c = true.
Proof.
  intros HI Hk. revert q. induction n as [|n IH]; intros q Hq.
  { left. split; [done|]. intros b Hb. lia. }
  cbn [seq fmap list_fmap balloc_loop].
  destruct (balloc_round_eq k s (Z.of_nat q) HI Hk ltac:(lia) (Hq q ltac:(lia))) as [[E Hu]|(b & E & Hc & Hb & Hlt)];
    rewrite (bind_ok _ _ _ _ _ E).
  - assert (∀ c, Z.of_nat q * BPB ≤ c < Z.of_nat (S q) * BPB → c < sb_size (sb s) → used s c = true) as Hu'.
    { intros c H1 H2. apply Hu. split; [geo; lia|done]. }
    destruct (IH (S q)) as [[E' Hn]|(b & E' & Hb & Hf & Hlt)]; [intros q' Hq'; apply Hq; lia| |].
    + left. split; [done|]. intros b Hb1 Hb2. destruct (decide (b < Z.of_nat (S q) * BPB)); [apply Hu'; lia|].
      apply Hn; [geo; lia|done].
    + right. exists b. split; [done|]. split; [done|]. split; [done|]. intros c Hc.
      destruct (decide (c < Z.of_nat (S q) * BPB)); [apply Hu'; lia|apply Hlt; lia].
  - right. exists b. destruct Hc. split; [done|]. split; [geo; lia|]. split; [done|]. intros c Hcb. apply Hlt. lia.
Qed.

(** [balloc] takes the first free block, marks it and zeroes it; without a
    free block it panics. *)
Lemma balloc_eq k s : fs_inv (k + 2) s → 0 ≤ k →
  (balloc s = Panic "balloc: out of blocks" ∧ ∀ b, 0 ≤ b < sb_size (sb s) → used s b = true) ∨
  ∃ b, balloc s = Ok (b, alloc_state b s) ∧ data_start (sb s) ≤ b < sb_size (sb s) ∧ used s b = false ∧
    ∀ c, 0 ≤ c < b → used s c = true.
Proof.
  intros HI Hk. unfold balloc. rewrite (bind_ok (gets sb) _ s (sb s) s eq_refl). unfold bitmap_firsts.
  destruct (balloc_loop_eq k s 0 (Z.to_nat ((sb_size (sb s) + BPB - 1) / BPB)) HI Hk) as [[E Hu]|(b & E & Hb & Hf & Hlt)].
  - pose proof (fi_geom _ _ HI) as [G1 _ _ _ _ _]. intros q Hq. geo. Z.div_mod_to_equations. lia.
  - left. split; [done|]. intros b Hb. apply Hu; [|lia]. pose proof (fi_geom _ _ HI) as [G1 _ _ _ _ _].
    geo. Z.div_mod_to_equations. lia.
  - right. exists b. destruct (free_not_meta _ _ _ HI Hb Hf). split; [done|]. split; [lia|]. auto.
Qed.

(** Facts about [alloc_state]. *)
Lemma alloc_used k s b c : fs_inv k s → data_start (sb s) ≤ b < sb_size (sb s) → 0 ≤ c < sb_size (sb s) →
  used (alloc_state b s) c = if decide (c = b) then true else used s c.
Proof.
  intros [_ G Hl _ _] Hb Hc. pose proof G as [G1 G2 G3 G4 G5 G6].
  assert (0 ≤ data_start (sb s)) by (geo; Z.div_mod_to_equations; lia).
  rewrite <- (used_set s b c G Hl) by lia. unfold alloc_state, used. simpl.
  rewrite cont_fput_other; [done|]. destruct (BBLOCK_eq _ _ c G Hc). lia.
Qed.

Lemma alloc_cont s b : cont (alloc_state b s) b = zeros.
Proof. apply cont_fput_same. Qed.
Lemma alloc_cont_other k s b c : fs_inv k s → 0 ≤ b < sb_size (sb s) → c ≠ b → data_start (sb s) ≤ c →
  cont (alloc_state b s) c = cont s c.
Proof.
  intros [_ G _ _ _] Hb Hne Hc. unfold alloc_state. rewrite !cont_fput_other; [done| |done].
  destruct (BBLOCK_eq _ _ b G Hb). lia.
Qed.

Lemma balloc_inv k s b : fs_inv (k + 2) s → 0 ≤ k → data_start (sb s) ≤ b < sb_size (sb s) → fs_inv k (alloc_state b s).
Proof.
  intros HI Hk Hb. pose proof HI as [Hok G Hl Hm Hh]. pose proof G as [G1 G2 G3 G4 G5 G6].
  assert (0 ≤ data_start (sb s)) by (geo; Z.div_mod_to_equations; lia). split.
  - apply fput_ok; [apply fput_ok|]; [|lia..]. by replace (k + 1 + 1) with (k + 2) by lia.
  - done.
  - intros c. unfold alloc_state. rewrite cont_fput. unfold fset. bcase; [done|]. rewrite cont_fput. unfold fset.
    bcase; [unfold set_bit; by rewrite length_insert|done].
  - intros c Hc. rewrite (alloc_used (k + 2)) by (done || (simpl in Hc; lia)). destruct (decide _); [done|auto].
  - intros c Hc. change (c ∈ held s) in Hc. destruct (Hh c Hc). split; [done|].
    rewrite (alloc_used (k + 2)) by (done || lia). by destruct (decide _).
Qed.

(** ** Freeing *)

Definition free_state (b : Z) (s : fss) : fss :=
  fput (BBLOCK b (sb s)) (reset_bit (cont s (BBLOCK b (sb s))) (Z.to_nat (b mod BPB))) s.

Lemma data_start_pos g count : geom g count → 0 < data_start g.
Proof. intros [G1 G2 G3 G4 G5 G6]. geo. Z.div_mod_to_equations. lia. Qed.

Lemma bfree_eq k s b : fs_inv (k + 1) s → 0 ≤ k → 0 ≤ b < sb_size (sb s) → used s b = true →
  bfree b s = Ok (tt, free_state b s).
Proof.
  intros HI Hk Hb Hu. pose proof HI as [Hok G Hl Hm Hh]. destruct (bmap_not_held _ _ b HI Hb) as [Hnh Hr].
  unfold bfree. rewrite (bind_ok (gets sb) _ s (sb s) s eq_refl). set (bb := BBLOCK b (sb s)) in *.
  rewrite (bind_ok _ _ _ _ _ (fbread_eq bb s Hnh Hr)), (bind_ok _ _ _ _ _ (fbdata_eq bb (fhold bb s) ltac:(by left))).
  change (cont (fhold bb s) bb) with (cont s bb). unfold used in Hu. fold bb in Hu. apply negb_true_iff in Hu. rewrite Hu.
  eapply fwrite_eq'; [exact Hok|lia|done].
Qed.

Lemma bfree_free k s b : fs_inv k s → 0 ≤ b < sb_size (sb s) → used s b = false → bfree b s = Panic "freeing free block".
Proof.
  intros HI Hb Hu. pose proof HI as [Hok G Hl Hm Hh]. destruct (bmap_not_held _ _ b HI Hb) as [Hnh Hr].
  unfold bfree. rewrite (bind_ok (gets sb) _ s (sb s) s eq_refl). set (bb := BBLOCK b (sb s)) in *.
  rewrite (bind_ok _ _ _ _ _ (fbread_eq bb s Hnh Hr)), (bind_ok _ _ _ _ _ (fbdata_eq bb (fhold bb s) ltac:(by left))).
  change (cont (fhold bb s) bb) with (cont s bb). unfold used in Hu. fold bb in Hu. apply negb_false_iff in Hu. by rewrite Hu.
Qed.

Lemma free_used k s b c : fs_inv k s → 0 ≤ b < sb_size (sb s) → 0 ≤ c < sb_size (sb s) →
  used (free_state b s) c = if decide (c = b) then false else used s c.
Proof. intros [_ G Hl _ _] Hb Hc. by apply used_reset. Qed.

Lemma free_cont k s b c : fs_inv k s → 0 ≤ b < sb_size (sb s) → data_start (sb s) ≤ c → cont (free_state b s) c = cont s c.
Proof.
  intros [_ G _ _ _] Hb Hc. unfold free_state. rewrite cont_fput_other; [done|]. destruct (BBLOCK_eq _ _ b G Hb). lia.
Qed.

Lemma free_inv k s b : fs_inv (k + 1) s → 0 ≤ k → data_start (sb s) ≤ b < sb_size (sb s) → b ∉ held s →
  fs_inv k (free_state b s).
Proof.
  intros HI Hk Hb Hnb. pose proof HI as [Hok G Hl Hm Hh]. pose proof (data_start_pos _ _ G). split.
  - apply fput_ok; [done|lia].
  - done.
  - intros c. unfold free_state. rewrite cont_fput. unfold fset. bcase; [unfold reset_bit; by rewrite length_insert|done].
  - intros c Hc. change (sb (free_state b s)) with (sb s) in Hc. destruct G.
    rewrite (free_used (k + 1)) by (done || lia). rewrite decide_False by lia. auto.
  - intros c Hc. change (c ∈ held s) in Hc. destruct (Hh c Hc). split; [done|].
    rewrite (free_used (k + 1)) by (done || lia). rewrite decide_False by congruence. done.
Qed.

(** Free data blocks. *)
Definition free_blocks (s : fss) : list Z := filter (λ b, used s b = false) (seqZ 0 (sb_size (sb s))).
Definition nfree (s : fss) : Z := Z.of_nat (length (free_blocks s)).

Lemma elem_free s b : b ∈ free_blocks s ↔ used s b = false ∧ 0 ≤ b < sb_size (sb s).
Proof. unfold free_blocks. rewrite list_elem_of_filter, elem_of_seqZ. naive_solver lia. Qed.

Lemma NoDup_free s : NoDup (free_blocks s).
Proof. apply NoDup_filter, NoDup_seqZ. Qed.

Lemma nfree_exists s : 0 < nfree s → ∃ b, used s b = false ∧ 0 ≤ b < sb_size (sb s).
Proof.
  unfold nfree. destruct (free_blocks s) as [|b l] eqn:E; simpl; [lia|]. intros _. exists b. apply elem_free. rewrite E. by left.
Qed.

Lemma nfree_mark s s' b : sb s' = sb s → 0 ≤ b < sb_size (sb s) → used s b = false →
  (∀ c, 0 ≤ c < sb_size (sb s) → used s' c = if decide (c = b) then true else used s c) →
  nfree s' = nfree s - 1.
Proof.
  intros Hsb Hb Hu H.
  assert (free_blocks s ≡ₚ b :: free_blocks s') as E; [|unfold nfree; rewrite E; simpl; lia].
  apply NoDup_Permutation; [apply NoDup_free|constructor; [|apply NoDup_free]|].
  - rewrite elem_free. intros [Hx _]. by rewrite H, decide_True in Hx.
  - intros c. rewrite elem_of_cons, !elem_free, Hsb. split.
    + intros [Hx Hc]. destruct (decide (c = b)) as [->|Hne]; [by left|right]. by rewrite H, decide_False by done.
    + intros [->|[Hx Hc]]; [done|]. rewrite H in Hx by done. by destruct (decide (c = b)).
Qed.

Lemma nfree_same s s' : sb s' = sb s → (∀ c, 0 ≤ c < sb_size (sb s) → used s' c = used s c) → nfree s' = nfree s.
Proof.
  intros Hsb H. assert (free_blocks s ≡ₚ free_blocks s') as E; [|unfold nfree; by rewrite E].
  apply NoDup_Permutation; [apply NoDup_free..|]. intros c. rewrite !elem_free, Hsb.
  split; intros [Hu Hc]; (split; [|done]); by rewrite ?H, <- ?H in * by done.
Qed.

Lemma balloc_ok k s : fs_inv (k + 2) s → 0 ≤ k → 0 < nfree s →
  ∃ b, balloc s = Ok (b, alloc_state b s) ∧ data_start (sb s) ≤ b < sb_size (sb s) ∧ used s b = false ∧
    ∀ c, 0 ≤ c < b → used s c = true.
Proof.
  intros HI Hk (b & Hu & Hb)%nfree_exists. destruct (balloc_eq k s HI Hk) as [[_ Hn]|?]; [|done].
  by rewrite Hn in Hu.
Qed.

(** C22: [balloc] and [bfree] keep the free bitmap.  With a free block,
    [balloc] returns the first one, zeroed and marked in use, and changes
    neither the mark nor the contents of any other data block; [bfree] of it
    restores the marks of all blocks; freeing it again panics.  Without a
    free block, [balloc] panics. *)
Theorem balloc_bfree k s : fs_inv (k + 3) s → 0 ≤ k →
  (nfree s = 0 → balloc s = Panic "balloc: out of blocks") ∧
  (0 < nfree s → ∃ b s1 s2, balloc s = Ok (b, s1) ∧ bfree b s1 = Ok (tt, s2) ∧ fs_inv k s2 ∧
    (data_start (sb s) ≤ b < sb_size (sb s) ∧ used s b = false ∧ ∀ c, 0 ≤ c < b → used s c = true) ∧
    (cont s1 b = zeros ∧ ∀ c, data_start (sb s) ≤ c → c ≠ b → cont s1 c = cont s c) ∧
    (∀ c, 0 ≤ c < sb_size (sb s) →
       used s1 c = (if decide (c = b) then true else used s c) ∧ used s2 c = used s c) ∧
    bfree b s2 = Panic "freeing free block").
Proof.
  intros HI Hk. assert (fs_inv (k + 1 + 2) s) as HI1 by (by replace (k + 1 + 2) with (k + 3) by lia). split.
  - intros Hn. destruct (balloc_eq (k + 1) s HI1 ltac:(lia)) as [[E _]|(b & _ & Hb & Hu & _)]; [done|].
    pose proof (data_start_pos _ _ (fi_geom _ _ HI)).
    assert (b ∈ free_blocks s) as Hin by (apply elem_free; split; [done|lia]).
    unfold nfree in Hn. destruct (free_blocks s); [by apply not_elem_of_nil in Hin|simpl in Hn; lia].
  - intros Hn. destruct (balloc_ok (k + 1) s HI1 ltac:(lia) Hn) as (b & E & Hb & Hu & Hlt).
    pose proof (balloc_inv (k + 1) s b HI1 ltac:(lia) Hb) as HA. pose proof (data_start_pos _ _ (fi_geom _ _ HI)).
    assert (used (alloc_state b s) b = true) as Hua by (rewrite (alloc_used (k + 3)) by (done || lia); by rewrite decide_True).
    assert (b ∉ held (alloc_state b s)) as Hnh.
    { intros Hin. destruct (fi_held _ _ HI b Hin). congruence. }
    pose proof (free_inv k (alloc_state b s) b HA Hk Hb Hnh) as HF.
    exists b, (alloc_state b s), (free_state b (alloc_state b s)).
    split; [done|]. split; [apply (bfree_eq k); [done..|simpl; lia|done]|]. split; [done|]. split; [done|].
    split; [split; [apply alloc_cont|]; intros c Hc Hne; apply (alloc_cont_other (k + 3)); try done; lia|]. split.
    + intros c Hc. rewrite (alloc_used (k + 3)) by done. split; [done|].
      rewrite (free_used (k + 1)), (alloc_used (k + 3)) by (done || simpl; lia). destruct (decide (c = b)); congruence.
    + apply (bfree_free k); [done|simpl; lia|]. rewrite (free_used (k + 1)) by (done || simpl; lia). by rewrite decide_True.
Qed.

(** ** Inode updates *)

Lemma ino_upd_same s i f : (i < length (icache s))%nat → ino (upd_ino i f s) i = f (ino s i).
Proof.
  intros Hi. unfold ino, upd_ino. simpl. apply lookup_lt_is_Some_2 in Hi as [p Hp].
  apply list_lookup_total_correct. rewrite list_lookup_alter_eq, Hp. simpl. by rewrite (list_lookup_total_correct _ _ _ Hp).
Qed.
Lemma ino_upd_other s i j f : j ≠ i → ino (upd_ino i f s) j = ino s j.
Proof. intros Hne. unfold ino, upd_ino. simpl. rewrite !list_lookup_total_alt. by rewrite list_lookup_alter_ne. Qed.
Lemma length_upd_ino s i f : length (icache (upd_ino i f s)) = length (icache s).
Proof. apply length_alter. Qed.
Lemma fs_inv_upd k s i f : fs_inv k s → fs_inv k (upd_ino i f s).
Proof. intros [[H1 H2 H3 H4 H5 H6] G L Hm H]. split; [split; done|done..]. Qed.
Lemma fs_inv_le j k s : fs_inv k s → j ≤ k → fs_inv j s.
Proof. intros [H G L Hm Hh] Hj. split; try done. by eapply fs_ok_le. Qed.
Lemma fs_inv_hold k s b : fs_inv k s → b ∉ held s → data_start (sb s) ≤ b < sb_size (sb s) → used s b = true →
  fs_inv k (fhold b s).
Proof.
  intros [H G L Hm Hh] Hb Hr Hu. pose proof (data_start_pos _ _ G). destruct (G) as [[G1a G1b] G2 G3 G4 G5 G6].
  split; try done; [apply fhold_ok; try done; lia|]. intros c [->|Hc]%elem_of_cons; [done|by apply Hh].
Qed.
