(* ===== verification/FsFile.v ===== *)
(** * File contents

    [bmap], [readi] and [writei] of [Fs.v] on the bytes of a file: the block
    map of an inode, its invariant, and what reading and writing do. *)

From S2P Require Import Prelude CString Block Log Fs FsBlock.

(** ** The block map *)

Definition NBLK : nat := 140.

(** Block number [bn] of the file with addresses [a], 0 if it has none. *)
Definition blk_of (c : Z → block) (a : list Z) (bn : nat) : Z :=
  if (bn <? 12)%nat then a !!! bn
  else if a !!! 12%nat =? 0 then 0 else get32 (c (a !!! 12%nat)) (4 * (bn - 12)).

Definition addrs (s : fss) (i : nat) : list Z := i_addrs (ino s i).
Definition fblock (s : fss) (i : nat) (bn : nat) : Z := blk_of (cont s) (addrs s i) bn.
Definition indirect (s : fss) (i : nat) : Z := addrs s i !!! 12%nat.

(** [b] is a data block marked in use. *)
Definition data_used (s : fss) (b : Z) : Prop := data_start (sb s) ≤ b < sb_size (sb s) ∧ used s b = true.

(** The blocks of an inode are allocated and no block is listed twice. *)
Record map_ok (s : fss) (i : nat) : Prop := {
  mo_i : (i < length (icache s))%nat;
  mo_len : length (addrs s i) = 13%nat;
  mo_ind : indirect s i ≠ 0 → data_used s (indirect s i);
  mo_blk bn : (bn < NBLK)%nat → fblock s i bn ≠ 0 → data_used s (fblock s i bn) ∧ fblock s i bn ≠ indirect s i;
  mo_inj bn bn' : (bn < NBLK)%nat → (bn' < NBLK)%nat → fblock s i bn ≠ 0 → fblock s i bn = fblock s i bn' → bn = bn'
}.

(** The blocks of inode [i]. *)
Definition owns (s : fss) (i : nat) (b : Z) : Prop :=
  b ≠ 0 ∧ (b = indirect s i ∨ ∃ bn, (bn < NBLK)%nat ∧ fblock s i bn = b).

(** What an operation on the contents of inode [i] may change: its addresses
    and size, its blocks, and blocks that were free. *)
Record evolves (i : nat) (s s' : fss) : Prop := {
  ev_sb : sb s' = sb s;
  ev_count : nblocks s' = nblocks s;
  ev_held : held s' = held s;
  ev_icache : length (icache s') = length (icache s);
  ev_others j : j ≠ i → ino s' j = ino s j;
  ev_self : set_size 0 (set_addrs [] (ino s' i)) = set_size 0 (set_addrs [] (ino s i));
  ev_data b : data_used s b → data_used s' b ∧ (¬ owns s i b → cont s' b = cont s b);
  ev_owns b : owns s i b → owns s' i b;
  ev_new b : owns s' i b → owns s i b ∨ data_start (sb s) ≤ b < sb_size (sb s) ∧ used s b = false
}.

Lemma file_evolves_refl i s : evolves i s s.
Proof. split; try done. by left. Qed.

Lemma evolves_trans i s1 s2 s3 : evolves i s1 s2 → evolves i s2 s3 → evolves i s1 s3.
Proof.
  intros [A1 A2 A3 A4 A5 A6 A7 A8 A9] [B1 B2 B3 B4 B5 B6 B7 B8 B9]. split; try congruence.
  - intros j Hj. rewrite B5 by done. auto.
  - intros b Hb. destruct (A7 b Hb) as [Hb2 Hc2]. destruct (B7 b Hb2) as [Hb3 Hc3]. split; [done|].
    intros Hn. rewrite Hc3; [auto|]. intros [Hn2|[_ Hn2]]%A9; [done|]. destruct Hb. congruence.
  - auto.
  - intros b [Hb|[Hr Hb]]%B9; [auto|]. rewrite A1 in Hr.
    destruct (used s1 b) eqn:E; [|by right]. exfalso.
    destruct (A7 b (conj Hr E)) as [[_ Hu] _]. congruence.
Qed.

Lemma owns_data s i b : map_ok s i → owns s i b → data_used s b.
Proof.
  intros [_ _ Hind Hblk _] (Hb & [->|(bn & Hbn & <-)]); [auto|]. by apply Hblk.
Qed.

(** ** Growing the map by one block *)

(** [s'] is [s] with the free block [b] added to the map of inode [i], as a
    data block or as the indirect block. *)
Record grown (i : nat) (s s' : fss) (b : Z) : Prop := {
  gr_range : data_start (sb s) ≤ b < sb_size (sb s);
  gr_free : used s b = false;
  gr_sb : sb s' = sb s;
  gr_count : nblocks s' = nblocks s;
  gr_held : held s' = held s;
  gr_icache : length (icache s') = length (icache s);
  gr_others j : j ≠ i → ino s' j = ino s j;
  gr_self : set_addrs [] (ino s' i) = set_addrs [] (ino s i);
  gr_len : length (addrs s' i) = length (addrs s i);
  gr_used c : 0 ≤ c < sb_size (sb s) → used s' c = if decide (c = b) then true else used s c;
  gr_cont c : data_start (sb s) ≤ c → c ≠ b → c ≠ indirect s i → cont s' c = cont s c;
  gr_map :
    (indirect s' i = indirect s i ∧ ∃ n, (n < NBLK)%nat ∧ fblock s i n = 0 ∧
       ∀ bn, (bn < NBLK)%nat → fblock s' i bn = if decide (bn = n) then b else fblock s i bn) ∨
    (indirect s i = 0 ∧ indirect s' i = b ∧ ∀ bn, (bn < NBLK)%nat → fblock s' i bn = fblock s i bn)
}.

Lemma grown_data i s s' b : 0 < data_start (sb s) → grown i s s' b → data_used s' b ∧ b ≠ 0 ∧
  (∀ c, data_used s c → data_used s' c ∧ c ≠ b).
Proof.
  intros Hpos [R F S0 _ _ _ _ _ _ U _ _]. unfold data_used. rewrite S0. split; [|split; [lia|]].
  - rewrite U by lia. by rewrite decide_True.
  - intros c [Hc1 Hc2]. assert (c ≠ b) by congruence. split; [|done]. split; [done|].
    rewrite U by lia. by rewrite decide_False.
Qed.

Lemma grown_map_ok i s s' b : 0 < data_start (sb s) → map_ok s i → grown i s s' b → map_ok s' i.
Proof.
  intros Hpos [Mi Ml Mind Mblk Minj] G. destruct (grown_data _ _ _ _ Hpos G) as (Db & Hb0 & Dc).
  pose proof G as [R F S0 _ _ I _ _ L _ _ M].
  destruct M as [(Ei & n & Hn & En & Em)|(E0 & Ei & Em)]; split; try (by rewrite ?I, ?L).
  - rewrite Ei. intros Hi. by apply Dc, Mind.
  - intros bn Hbn. rewrite Em, Ei by done. destruct (decide (bn = n)) as [->|Hne].
    + intros _. split; [done|]. intros E. assert (indirect s i ≠ 0) as Hi by congruence. by apply Dc in Mind as []; [|congruence].
    + intros H0. destruct (Mblk bn Hbn H0). split; [by apply Dc|done].
  - intros bn bn' Hbn Hbn'. rewrite !Em by done.
    destruct (decide (bn = n)) as [->|H1], (decide (bn' = n)) as [->|H2]; try done.
    + intros _ E. destruct (decide (fblock s i bn' = 0)); [congruence|]. destruct (Mblk bn' Hbn'); [done|].
      destruct (Dc (fblock s i bn')) as [_ Hx]; [done|]. congruence.
    + intros H0 E. destruct (Mblk bn Hbn H0). destruct (Dc (fblock s i bn)) as [_ Hx]; [done|]. congruence.
    + intros H0 E. by apply Minj.
  - by rewrite Ei.
  - intros bn Hbn. rewrite Em, Ei by done. intros H0. destruct (Mblk bn Hbn H0). by apply Dc.
  - intros bn bn' Hbn Hbn'. rewrite !Em by done. auto.
Qed.

Lemma grown_evolves i s s' b : 0 < data_start (sb s) → map_ok s i → grown i s s' b → evolves i s s'.
Proof.
  intros Hpos Hm G. destruct (grown_data _ _ _ _ Hpos G) as (Db & Hb0 & Dc).
  pose proof G as [R F S0 C H I O Sf L U Ct M]. split; try done.
  - unfold set_addrs, set_size in *. simpl in *. congruence.
  - intros c Hc. destruct (Dc c Hc) as [Hc' Hne]. split; [done|]. intros Hn. apply Ct; [apply Hc|done|].
    intros ->. apply Hn. split; [|by left]. pose proof (proj1 (proj1 Hc)). lia.
  - intros c [Hc0 Hc]. split; [done|]. destruct M as [(Ei & n & Hn & En & Em)|(E0 & Ei & Em)].
    + destruct Hc as [->|(bn & Hbn & <-)]; [by left|right]. exists bn. split; [done|]. rewrite Em by done.
      by rewrite decide_False by congruence.
    + destruct Hc as [->|(bn & Hbn & <-)]; [done|right]. exists bn. split; [done|]. by apply Em.
  - intros c [Hc0 Hc]. destruct (decide (c = b)) as [->|Hne]; [by right|left]. split; [done|].
    destruct M as [(Ei & n & Hn & En & Em)|(E0 & Ei & Em)].
    + destruct Hc as [->|(bn & Hbn & <-)]; [by left|right]. exists bn. rewrite Em in Hne |- * by done.
      by destruct (decide (bn = n)).
    + destruct Hc as [->|(bn & Hbn & <-)]; [done|right]. exists bn. split; [done|]. symmetry. by apply Em.
Qed.

Lemma get32_zeros o : (o + 4 ≤ 512)%nat → get32 zeros o = 0.
Proof.
  intros Ho. rewrite get32_unfold. unfold zeros. change (Z.to_nat BSIZE) with 512%nat.
  rewrite !lookup_total_replicate_2 by lia. done.
Qed.

Section growing.
Context (k : Z) (s : fss) (i : nat) (Hinv : fs_inv k s) (Hmap : map_ok s i).

(** Allocating block [b] for address [n] of the inode. *)
Lemma addrs_upd b n : addrs (upd_ino i (set_addr n b) (alloc_state b s)) i = <[n := b]> (addrs s i).
Proof. unfold addrs. rewrite ino_upd_same; [done|]. apply Hmap. Qed.

Lemma indirect_cont b : data_start (sb s) ≤ b < sb_size (sb s) → used s b = false → indirect s i ≠ 0 →
  cont (alloc_state b s) (indirect s i) = cont s (indirect s i).
Proof.
  intros Hb Hu Hi. destruct (mo_ind _ _ Hmap Hi) as [Hr Hu']. pose proof (data_start_pos _ _ (fi_geom _ _ Hinv)).
  apply (alloc_cont_other k); [done|lia|congruence|lia].
Qed.

Lemma grown_addr b n : data_start (sb s) ≤ b < sb_size (sb s) → used s b = false → (n ≤ 12)%nat →
  addrs s i !!! n = 0 → grown i s (upd_ino i (set_addr n b) (alloc_state b s)) b.
Proof.
  intros Hb Hu Hn Hz. pose proof (data_start_pos _ _ (fi_geom _ _ Hinv)). pose proof Hmap as [Mi Ml _ _ _].
  split; try done.
  - exact (length_upd_ino (alloc_state b s) _ _).
  - intros j Hj. by rewrite ino_upd_other.
  - rewrite ino_upd_same by done. done.
  - by rewrite addrs_upd, length_insert.
  - intros c Hc. apply (alloc_used k); done.
  - intros c Hc H1 H2. apply (alloc_cont_other k); [done|lia|done|done].
  - unfold indirect, fblock. rewrite addrs_upd. destruct (decide (n = 12%nat)) as [->|Hne].
    + right. rewrite list_lookup_total_insert_eq by lia. split; [done|]. split; [done|].
      intros bn Hbn. unfold blk_of. destruct (Nat.ltb_spec bn 12); [by rewrite list_lookup_total_insert_ne by lia|].
      rewrite list_lookup_total_insert_eq by lia. rewrite Hz. simpl. destruct (Z.eqb_spec b 0); [done|].
      change (cont (upd_ino _ _ _) b) with (cont (alloc_state b s) b). rewrite alloc_cont, get32_zeros; [done|unfold NBLK in Hbn; lia].
    + left. rewrite list_lookup_total_insert_ne by done. split; [done|]. exists n. split; [unfold NBLK; lia|].
      split; [unfold blk_of; destruct (Nat.ltb_spec n 12); [done|lia]|].
      intros bn Hbn. unfold blk_of. destruct (Nat.ltb_spec bn 12).
      * destruct (decide (bn = n)) as [->|]; [by rewrite list_lookup_total_insert_eq by lia|].
        by rewrite list_lookup_total_insert_ne by done.
      * rewrite list_lookup_total_insert_ne by done. rewrite decide_False by lia.
        destruct (Z.eqb_spec (addrs s i !!! 12%nat) 0) as [|Hi]; [done|].
        change (cont (upd_ino _ _ _)) with (cont (alloc_state b s)).
        fold (indirect s i). rewrite indirect_cont by done. done.
Qed.

(** Allocating block [b] for entry [j] of the indirect block. *)
Definition entry_state (b : Z) (j : nat) : fss :=
  fput (indirect s i) (put32 (cont s (indirect s i)) (4 * j) b) (alloc_state b s).

Lemma grown_entry b j : data_start (sb s) ≤ b < sb_size (sb s) → used s b = false → (j < 128)%nat →
  indirect s i ≠ 0 → fblock s i (12 + j) = 0 → grown i s (entry_state b j) b.
Proof.
  intros Hb Hu Hj Hi Hz. pose proof (fi_geom _ _ Hinv) as G. pose proof (data_start_pos _ _ G).
  destruct (mo_ind _ _ Hmap Hi) as [Hir Hiu]. pose proof (fi_len _ _ Hinv (indirect s i)) as Hlen.
  assert (indirect s i ≠ b) as Hib by congruence. split; try done.
  - intros c Hc. rewrite <- (alloc_used k) by done. unfold entry_state, used. simpl.
    rewrite cont_fput_other; [done|]. destruct (BBLOCK_eq _ _ c G Hc). lia.
  - intros c Hc H1 H2. unfold entry_state. rewrite cont_fput_other by done. apply (alloc_cont_other k); [done|lia|done..].
  - left. split; [done|]. exists (12 + j)%nat. split; [unfold NBLK; lia|]. split; [done|]. intros bn Hbn.
    unfold fblock, blk_of. change (addrs (entry_state b j) i) with (addrs s i). fold (indirect s i).
    destruct (Nat.ltb_spec bn 12); [by rewrite decide_False by lia|].
    destruct (Z.eqb_spec (indirect s i) 0); [done|]. unfold entry_state. rewrite cont_fput_same.
    destruct (decide (bn = 12 + j)%nat) as [->|Hne].
    + replace (12 + j - 12)%nat with j by lia. rewrite get_put32_same by lia. apply u32_small. destruct G. lia.
    + apply get_put32_other. lia.
Qed.

Lemma entry_fblock b j : data_start (sb s) ≤ b < sb_size (sb s) → (j < 128)%nat → indirect s i ≠ 0 →
  fblock (entry_state b j) i (12 + j) = b.
Proof.
  intros Hb Hj Hi. unfold fblock, blk_of. change (addrs (entry_state b j) i) with (addrs s i). fold (indirect s i).
  destruct (Nat.ltb_spec (12 + j) 12); [lia|]. destruct (Z.eqb_spec (indirect s i) 0); [done|].
  unfold entry_state. rewrite cont_fput_same. replace (12 + j - 12)%nat with j by lia.
  pose proof (fi_geom _ _ Hinv) as G. pose proof (data_start_pos _ _ G).
  rewrite get_put32_same by (rewrite (fi_len _ _ Hinv); lia). apply u32_small. destruct G. lia.
Qed.
End growing.

(** ** [bmap] *)

(** [s'] is [s] with blocks possibly added to inode [i]; no contents of a
    file changed. *)
Record mapped (i : nat) (k : Z) (s s' : fss) : Prop := {
  mp_inv : fs_inv k s';
  mp_ok : map_ok s' i;
  mp_ev : evolves i s s';
  mp_keep bn : (bn < NBLK)%nat → fblock s i bn ≠ 0 → fblock s' i bn = fblock s i bn;
  mp_cont c : data_used s c → c ≠ indirect s i → cont s' c = cont s c;
  mp_size : i_size (ino s' i) = i_size (ino s i)
}.

Lemma mapped_refl i k s : fs_inv k s → map_ok s i → mapped i k s s.
Proof. intros Hi Hm. split; try done. apply file_evolves_refl. Qed.

Lemma grown_mapped i j k s s' b : fs_inv j s → map_ok s i → grown i s s' b → fs_inv k s' →
  mapped i k s s' ∧ nfree s' = nfree s - 1.
Proof.
  intros Hj Hm G Hk. pose proof (data_start_pos _ _ (fi_geom _ _ Hj)) as Hpos.
  pose proof G as [R F S0 C H I O Sf L U Ct M]. destruct (grown_data _ _ _ _ Hpos G) as (_ & Hb0 & Dc).
  split; [split; [done|by eapply grown_map_ok|by eapply grown_evolves|..]|].
  - intros bn Hbn H0. destruct M as [(_ & n & Hn & En & Em)|(_ & _ & Em)]; rewrite Em by done; [|done].
    by rewrite decide_False by congruence.
  - intros c Hc Hci. apply Ct; [apply Hc|by apply Dc|done].
  - unfold set_addrs in Sf. congruence.
  - eapply nfree_mark; [done| |done|done]. lia.
Qed.

Lemma mapped_trans i j k s1 s2 s3 : map_ok s1 i → mapped i j s1 s2 → mapped i k s2 s3 →
  (indirect s2 i = indirect s1 i ∨ indirect s1 i = 0 ∧ used s1 (indirect s2 i) = false) → mapped i k s1 s3.
Proof.
  intros Hm1 [A1 A2 A3 A4 A5 A6] [B1 B2 B3 B4 B5 B6] Hi. split; try done.
  - by eapply evolves_trans.
  - intros bn Hbn H0. rewrite B4; [auto|done|]. by rewrite A4.
  - intros c Hc Hci. rewrite B5; [by apply A5|by apply A3|]. intros ->.
    destruct Hi as [?|[_ Hi]]; [done|]. destruct Hc. congruence.
  - congruence.
Qed.

Lemma fblock_direct s i bn : (bn < 12)%nat → fblock s i bn = addrs s i !!! bn.
Proof. intros Hb. unfold fblock, blk_of. by destruct (Nat.ltb_spec bn 12); [|lia]. Qed.
Lemma fblock_indirect s i j : fblock s i (12 + j) =
  if indirect s i =? 0 then 0 else get32 (cont s (indirect s i)) (4 * j).
Proof. unfold fblock, blk_of. destruct (Nat.ltb_spec (12 + j) 12); [lia|]. by replace (12 + j - 12)%nat with j by lia. Qed.

Lemma bmap_addr_eq k s i n : fs_inv (k + 2) s → 0 ≤ k → 0 < nfree s → map_ok s i → (n ≤ 12)%nat →
  ∃ b s', bmap_addr i n s = Ok (b, s') ∧ addrs s' i !!! n = b ∧ b ≠ 0 ∧
    (addrs s i !!! n ≠ 0 ∧ s' = s ∨
     addrs s i !!! n = 0 ∧ used s b = false ∧ grown i s s' b ∧ fs_inv k s' ∧ nfree s' = nfree s - 1).
Proof.
  intros HI Hk Hn Hm Hle. unfold bmap_addr. rewrite (bind_ok (gets _) _ s _ s eq_refl). fold (addrs s i).
  destruct (Z.eqb_spec (addrs s i !!! n) 0) as [E|E].
  - destruct (balloc_ok k s HI Hk Hn) as (b & Eb & Hb & Hu & _). pose proof (data_start_pos _ _ (fi_geom _ _ HI)).
    rewrite (bind_ok _ _ _ _ _ Eb), (bind_ok (modify _) _ _ tt _ eq_refl).
    exists b, (upd_ino i (set_addr n b) (alloc_state b s)). split; [done|].
    rewrite addrs_upd by done. rewrite list_lookup_total_insert_eq by (rewrite (mo_len _ _ Hm); lia).
    split; [done|]. split; [lia|]. right. split; [done|]. split; [done|].
    pose proof (grown_addr _ s i HI Hm b n Hb Hu Hle E) as G.
    assert (fs_inv k (upd_ino i (set_addr n b) (alloc_state b s))) as HI' by (by apply fs_inv_upd, balloc_inv).
    destruct (grown_mapped _ _ _ _ _ _ HI Hm G HI') as [_ Hf]. done.
  - exists (addrs s i !!! n), s. split; [done|]. auto.
Qed.

Lemma ind_not_held k s i : fs_inv k s → held s = [] → map_ok s i → indirect s i ≠ 0 →
  (indirect s i ∉ held s) ∧ 0 ≤ indirect s i < nblocks s.
Proof.
  intros HI Hh Hm Hi. rewrite Hh. split; [apply not_elem_of_nil|]. destruct (mo_ind _ _ Hm Hi) as [Hr _].
  pose proof (data_start_pos _ _ (fi_geom _ _ HI)). destruct (fi_geom _ _ HI). lia.
Qed.

Lemma bmap_entry_eq k s i j : fs_inv (k + 3) s → 0 ≤ k → 0 < nfree s → held s = [] → map_ok s i → (j < 128)%nat →
  indirect s i ≠ 0 →
  ∃ b s', bmap_entry (indirect s i) j s = Ok (b, s') ∧ fblock s' i (12 + j) = b ∧ b ≠ 0 ∧
    (fblock s i (12 + j) ≠ 0 ∧ s' = s ∨ fblock s i (12 + j) = 0 ∧ grown i s s' b ∧ fs_inv k s').
Proof.
  intros HI Hk Hn Hh Hm Hj Hi. destruct (ind_not_held _ _ _ HI Hh Hm Hi) as [Hnh Hr].
  pose proof (data_start_pos _ _ (fi_geom _ _ HI)). destruct (mo_ind _ _ Hm Hi) as [Hdr Hdu].
  pose proof (fblock_indirect s i j) as Ef. rewrite (proj2 (Z.eqb_neq _ _) Hi) in Ef.
  unfold bmap_entry. rewrite (bind_ok _ _ _ _ _ (fbread_eq _ s Hnh Hr)).
  rewrite (bind_ok _ _ _ _ _ (fbdata_eq _ (fhold _ s) ltac:(by left))).
  change (cont (fhold _ s) (indirect s i)) with (cont s (indirect s i)). rewrite <- Ef.
  destruct (Z.eqb_spec (fblock s i (12 + j)) 0) as [E|E].
  - assert (fs_inv (k + 1 + 2) (fhold (indirect s i) s)) as HH.
    { apply fs_inv_hold; [by replace (k + 1 + 2) with (k + 3) by lia|done..]. }
    destruct (balloc_ok _ _ HH ltac:(lia) Hn) as (b & Eb & Hb & Hu & _).
    change (data_start (sb s) ≤ b < sb_size (sb s)) in Hb. change (used s b = false) in Hu.
    rewrite (bind_ok _ _ _ _ _ Eb). change (alloc_state b (fhold _ s)) with (fhold (indirect s i) (alloc_state b s)).
    rewrite (bind_ok _ _ _ _ _ (fbdata_eq _ (fhold _ (alloc_state b s)) ltac:(by left))).
    change (cont (fhold _ (alloc_state b s))) with (cont (alloc_state b s)).
    rewrite (indirect_cont _ s i HI Hm b Hb Hu Hi).
    assert (fs_inv (k + 1) (alloc_state b s)) as HA.
    { apply balloc_inv; [by replace (k + 1 + 2) with (k + 3) by lia|lia|done]. }
    rewrite (fwrite_eq _ _ _ _ (k + 1)); [|apply HA|lia|done].
    exists b, (entry_state s i b j). pose proof (grown_entry _ s i HI Hm b j Hb Hu Hj Hi E) as G.
    split; [done|]. split; [by eapply entry_fblock|]. split; [lia|]. right. split; [done|]. split; [done|].
    destruct HA as [Hok Hg Hl Hmeta Hheld]. pose proof (fi_geom _ _ HI) as G'. split; try done.
    + by apply fput_ok.
    + intros c. unfold entry_state. rewrite cont_fput. unfold fset. bcase; [|done].
      rewrite length_put32. apply (fi_len _ _ HI).
    + intros c Hc. rewrite (gr_used _ _ _ _ G) by (destruct G'; simpl in Hc; lia).
      destruct (decide (c = b)); [done|]. by apply (fi_meta _ _ HI).
    + intros c Hc. change (c ∈ held s) in Hc. by rewrite Hh in Hc; apply not_elem_of_nil in Hc.
  - rewrite (bind_ok _ _ _ _ _ (fbrelse_eq _ s _ (fi_ok _ _ HI) Hnh)). eexists _, s. split; [done|]. auto.
Qed.

(** [bmap] returns the block of [bn], adding it (and the indirect block) to
    the inode where it is missing. *)
Lemma bmap_ok k s i bn : fs_inv (k + 5) s → 0 ≤ k → 2 ≤ nfree s → held s = [] → map_ok s i → 0 ≤ bn < Z.of_nat NBLK →
  ∃ s', bmap i bn s = Ok (fblock s' i (Z.to_nat bn), s') ∧ fblock s' i (Z.to_nat bn) ≠ 0 ∧
    mapped i k s s' ∧ nfree s - 2 ≤ nfree s' ∧ (fblock s i (Z.to_nat bn) ≠ 0 → s' = s).
Proof.
  intros HI Hk Hn Hh Hm Hbn. unfold bmap. change NDIRECT with 12. change NINDIRECT with 128. unfold NBLK in Hbn.
  assert (∀ j, j ≤ k + 5 → fs_inv j s) as Hle by (intros; by eapply fs_inv_le).
  destruct (Z.ltb_spec bn 12) as [Hlt|Hge].
  - destruct (bmap_addr_eq k s i (Z.to_nat bn)) as (b & s' & E & Ea & Hb0 & Hc); [apply Hle; lia|lia..|done|lia|].
    rewrite E. exists s'. rewrite fblock_direct, Ea by lia. split; [done|]. split; [done|].
    rewrite fblock_direct by lia. destruct Hc as [[H0 ->]|(H0 & Hu & G & HI' & Hf)].
    + split; [apply mapped_refl; [apply Hle; lia|done]|]. split; [lia|done].
    + destruct (grown_mapped _ _ _ _ _ _ HI Hm G HI') as [Hmp _]. split; [done|]. split; [lia|done].
  - destruct (Z.ltb_spec (bn - 12) 128); [|lia]. set (j := Z.to_nat (bn - 12)).
    replace (Z.to_nat bn) with (12 + j)%nat by lia.
    destruct (bmap_addr_eq (k + 3) s i 12) as (b & s1 & E1 & Ea & Hb0 & Hc); [apply Hle; lia|lia..|done|lia|].
    rewrite (bind_ok _ _ _ _ _ E1). fold (indirect s1 i) in Ea. rewrite <- Ea in *.
    assert (fs_inv (k + 3) s1 ∧ map_ok s1 i ∧ nfree s - 1 ≤ nfree s1 ∧ held s1 = [] ∧ mapped i (k + 3) s s1 ∧
      (indirect s1 i = indirect s i ∨ indirect s i = 0 ∧ used s (indirect s1 i) = false) ∧
      (fblock s i (12 + j) ≠ 0 → s1 = s)) as (HI1 & Hm1 & Hf1 & Hh1 & Hmp1 & Hind & Hs1).
    { destruct Hc as [[H0 ->]|(H0 & Hu & G & HI' & Hf)].
      - split; [apply Hle; lia|]. split; [done|]. split; [lia|]. split; [done|]. split; [apply mapped_refl; [apply Hle; lia|done]|].
        auto.
      - destruct (grown_mapped _ _ _ _ _ _ HI Hm G HI') as [Hmp _]. split; [done|]. split; [apply Hmp|]. split; [lia|].
        split; [by rewrite (gr_held _ _ _ _ G)|]. split; [done|]. split; [by right|].
        rewrite fblock_indirect. fold (indirect s i) in H0. by rewrite H0. }
    destruct (bmap_entry_eq k s1 i j) as (b' & s2 & E2 & Ef & Hb0' & Hc2); [done|lia|lia|done|done|lia|done|].
    rewrite E2. exists s2. rewrite Ef. split; [done|]. split; [done|].
    destruct Hc2 as [[H0 ->]|(H0 & G & HI2)].
    + split; [eapply (mapped_trans i (k + 3)); try done; by apply mapped_refl; [eapply fs_inv_le; [done|lia]|]|].
      split; [lia|]. auto.
    + destruct (grown_mapped _ _ _ _ _ _ HI1 Hm1 G HI2) as [Hmp2 Hf2]. split; [by eapply mapped_trans|].
      split; [lia|]. intros Hx. rewrite (Hs1 Hx) in H0. done.
Qed.

Lemma bmap_present k s i bn : fs_inv k s → held s = [] → map_ok s i → 0 ≤ bn < Z.of_nat NBLK →
  fblock s i (Z.to_nat bn) ≠ 0 → bmap i bn s = Ok (fblock s i (Z.to_nat bn), s).
Proof.
  intros HI Hh Hm Hbn H0. unfold bmap, bmap_addr. change NDIRECT with 12. change NINDIRECT with 128. unfold NBLK in Hbn.
  destruct (Z.ltb_spec bn 12).
  - rewrite fblock_direct in * by lia. rewrite (bind_ok (gets _) _ s _ s eq_refl). fold (addrs s i).
    by rewrite (proj2 (Z.eqb_neq _ _) H0).
  - destruct (Z.ltb_spec (bn - 12) 128); [|lia]. set (j := Z.to_nat (bn - 12)).
    replace (Z.to_nat bn) with (12 + j)%nat in * by lia. rewrite fblock_indirect in *.
    destruct (Z.eqb_spec (indirect s i) 0) as [|Hi]; [done|].
    rewrite bind_assoc, (bind_ok (gets _) _ s _ s eq_refl). change (i_addrs (ino s i) !!! Z.to_nat 12) with (indirect s i).
    rewrite (proj2 (Z.eqb_neq _ _) Hi), (bind_ok (mret _) _ s _ s eq_refl). unfold bmap_entry.
    destruct (ind_not_held _ _ _ HI Hh Hm Hi) as [Hnh Hr]. rewrite (bind_ok _ _ _ _ _ (fbread_eq _ s Hnh Hr)).
    rewrite (bind_ok _ _ _ _ _ (fbdata_eq _ (fhold _ s) ltac:(by left))).
    change (cont (fhold _ s) (indirect s i)) with (cont s (indirect s i)). rewrite (proj2 (Z.eqb_neq _ _) H0).
    by rewrite (bind_ok _ _ _ _ _ (fbrelse_eq _ s _ (fi_ok _ _ HI) Hnh)).
Qed.

(** ** Reading *)

(** Byte [o] of the file, and the [n] bytes from [off]. *)
Definition fbyte (s : fss) (i : nat) (o : Z) : Z :=
  cont s (fblock s i (Z.to_nat (o / BSIZE))) !!! Z.to_nat (o mod BSIZE).
Definition fbytes (s : fss) (i : nat) (off n : Z) : list Z := fbyte s i <$> seqZ off n.

(** The file has blocks for the bytes from [off] to [off + n]. *)
Definition present (s : fss) (i : nat) (off n : Z) : Prop :=
  ∀ o, off ≤ o < off + n → fblock s i (Z.to_nat (o / BSIZE)) ≠ 0.

Lemma fbytes_app s i off n1 n2 : 0 ≤ n1 → 0 ≤ n2 → fbytes s i off (n1 + n2) = fbytes s i off n1 ++ fbytes s i (off + n1) n2.
Proof. intros H1 H2. unfold fbytes. rewrite seqZ_app by done. apply fmap_app. Qed.

Lemma length_fbytes s i off n : length (fbytes s i off n) = Z.to_nat n.
Proof. unfold fbytes. by rewrite length_fmap, length_seqZ. Qed.

(** A part of one block. *)
Lemma fbytes_block s i off m : 0 ≤ off → 0 ≤ m ≤ BSIZE - off mod BSIZE →
  length (cont s (fblock s i (Z.to_nat (off / BSIZE)))) = 512%nat →
  take (Z.to_nat m) (drop (Z.to_nat (off mod BSIZE)) (cont s (fblock s i (Z.to_nat (off / BSIZE))))) = fbytes s i off m.
Proof.
  intros Hoff Hm Hl. pose proof (Z.mod_pos_bound off BSIZE eq_refl) as Hmod. apply list_eq_same_length with (n := Z.to_nat m).
  - apply length_fbytes.
  - rewrite length_take, length_drop, Hl. unfold BSIZE in *. lia.
  - intros t x y Ht Hx Hy. rewrite lookup_take_lt, lookup_drop in Hx by done.
    unfold fbytes in Hy. rewrite list_lookup_fmap, lookup_seqZ_lt in Hy by lia. injection Hy as <-.
    apply list_lookup_total_correct in Hx. rewrite <- Hx. unfold fbyte.
    assert ((off + Z.of_nat t) / BSIZE = off / BSIZE ∧ (off + Z.of_nat t) mod BSIZE = off mod BSIZE + Z.of_nat t) as [-> ->].
    { unfold BSIZE in *. Z.div_mod_to_equations. lia. }
    f_equal. lia.
Qed.

Lemma data_readable k s b : fs_inv k s → held s = [] → data_used s b → (b ∉ held s) ∧ 0 ≤ b < nblocks s.
Proof.
  intros HI Hh [Hr _]. rewrite Hh. split; [apply not_elem_of_nil|].
  pose proof (data_start_pos _ _ (fi_geom _ _ HI)). destruct (fi_geom _ _ HI). lia.
Qed.

Lemma block_range o : 0 ≤ o < MAXFILE * BSIZE → 0 ≤ o / BSIZE < Z.of_nat NBLK.
Proof. unfold MAXFILE, NDIRECT, NINDIRECT, BSIZE, NBLK. intros. Z.div_mod_to_equations. lia. Qed.

Lemma readi_loop_eq k s i fuel off n tot : fs_inv k s → held s = [] → map_ok s i →
  0 ≤ off → 0 ≤ tot ≤ n → off + (n - tot) ≤ MAXFILE * BSIZE → present s i off (n - tot) →
  (Z.to_nat (n - tot) ≤ fuel)%nat →
  readi_loop fuel i off n tot s = Ok (fbytes s i off (n - tot), s).
Proof.
  intros HI Hh Hm. revert off tot. induction fuel as [|fuel IH]; intros off tot Hoff Htot Hmax Hp Hf; cbn [readi_loop];
    destruct (Z.leb_spec n tot); try lia; try (replace (n - tot) with 0 by lia; done).
  pose proof (block_range off ltac:(lia)) as Hbn. pose proof (Z.mod_pos_bound off BSIZE eq_refl) as Hmod.
  assert (fblock s i (Z.to_nat (off / BSIZE)) ≠ 0) as H0 by (apply Hp; lia).
  rewrite (bind_ok _ _ _ _ _ (bmap_present k s i _ HI Hh Hm Hbn H0)).
  destruct (mo_blk _ _ Hm (Z.to_nat (off / BSIZE)) ltac:(lia) H0) as [Hd _].
  destruct (data_readable _ _ _ HI Hh Hd) as [Hnh Hr]. rewrite (bind_ok _ _ _ _ _ (fbread_eq _ s Hnh Hr)).
  rewrite (bind_ok _ _ _ _ _ (fbdata_eq _ (fhold _ s) ltac:(by left))).
  rewrite (bind_ok _ _ _ _ _ (fbrelse_eq _ s _ (fi_ok _ _ HI) Hnh)).
  set (m := Z.min (n - tot) (BSIZE - off mod BSIZE)). change (cont (fhold _ s)) with (cont s).
  assert (0 < m ≤ n - tot) as Hm' by (unfold m, BSIZE in *; lia).
  rewrite u32_small by (unfold MAXFILE, NDIRECT, NINDIRECT, BSIZE in *; change (512 / 4) with 128 in *; lia).
  erewrite bind_ok; [|apply IH; [lia|lia|lia| |lia]]; [|intros o Ho; apply Hp; lia].
  rewrite fbytes_block by (try apply (fi_len _ _ HI); unfold m; lia).
  replace (n - tot) with (m + (n - (tot + m))) by lia. by rewrite fbytes_app by lia.
Qed.

(** ** Writing *)

(** Setting the contents of a data block of the file. *)
Section put_data.
Context (k : Z) (s : fss) (i bn : nat) (d : block).
Context (Hinv : fs_inv (k + 1) s) (Hk : 0 ≤ k) (Hmap : map_ok s i) (Hbn : (bn < NBLK)%nat).
Context (H0 : fblock s i bn ≠ 0) (Hd : length d = 512%nat).
Let a := fblock s i bn.
Let s' := fput a d s.

Lemma put_range : data_used s a ∧ a ≠ indirect s i ∧ data_start (sb s) > 0.
Proof. destruct (mo_blk _ _ Hmap bn Hbn H0). pose proof (data_start_pos _ _ (fi_geom _ _ Hinv)). auto with lia. Qed.

Lemma put_used c : 0 ≤ c < sb_size (sb s) → used s' c = used s c.
Proof.
  intros Hc. destruct put_range as ([Hr _] & _). unfold used, s'. simpl. rewrite cont_fput_other; [done|].
  destruct (BBLOCK_eq _ _ c (fi_geom _ _ Hinv) Hc). lia.
Qed.

Lemma put_fblock n : fblock s' i n = fblock s i n.
Proof.
  destruct put_range as (_ & Hi & _). unfold fblock, blk_of, s'. change (addrs (fput a d s) i) with (addrs s i).
  fold (indirect s i). by rewrite cont_fput_other by done.
Qed.

Lemma put_data_used c : data_used s' c ↔ data_used s c.
Proof.
  destruct put_range as (_ & _ & Hp). unfold data_used. change (sb s') with (sb s). split; intros [Hr Hu]; (split; [done|]).
  - rewrite put_used in Hu by lia. done.
  - rewrite put_used by lia. done.
Qed.

Lemma put_owns c : owns s' i c ↔ owns s i c.
Proof. unfold owns. change (indirect s' i) with (indirect s i). by setoid_rewrite put_fblock. Qed.

Lemma put_inv : fs_inv k s'.
Proof.
  destruct put_range as (_ & _ & Hp). pose proof Hinv as [Hok G Hl Hm Hh]. split; try done.
  - by apply fput_ok.
  - intros c. unfold s'. rewrite cont_fput. unfold fset. by bcase.
  - intros c Hc. change (sb s') with (sb s) in Hc. rewrite put_used by (destruct G; lia). auto.
  - intros c Hc. change (c ∈ held s) in Hc. destruct (Hh c Hc). split; [done|]. rewrite put_used by lia. done.
Qed.

Lemma put_map : map_ok s' i.
Proof.
  pose proof Hmap as [M1 M2 M3 M4 M5]. split; try done.
  - intros Hi. by apply put_data_used, M3.
  - intros n Hn. rewrite put_fblock. intros Hx. destruct (M4 n Hn Hx). split; [by apply put_data_used|done].
  - intros n n' Hn Hn'. rewrite !put_fblock. auto.
Qed.

Lemma put_evolves : evolves i s s'.
Proof.
  split; try done.
  - intros c Hc. split; [by apply put_data_used|]. intros Hno. apply cont_fput_other. intros ->. apply Hno.
    split; [done|]. right. by exists bn.
  - intros c. by rewrite put_owns.
  - intros c Hc. left. by rewrite <- put_owns.
Qed.

Lemma put_nfree : nfree s' = nfree s.
Proof. apply nfree_same; [done|apply put_used]. Qed.
End put_data.

(** [s'] is [s] with the bytes [bs] at [off] of file [i]. *)
Record wrote (i : nat) (k : Z) (off : Z) (bs : list Z) (s s' : fss) : Prop := {
  wt_inv : fs_inv k s';
  wt_map : map_ok s' i;
  wt_ev : evolves i s s';
  wt_size : i_size (ino s' i) = i_size (ino s i);
  wt_keep bn : (bn < NBLK)%nat → fblock s i bn ≠ 0 → fblock s' i bn = fblock s i bn;
  wt_present : present s' i off (Z.of_nat (length bs));
  wt_bytes o : off ≤ o < off + Z.of_nat (length bs) → fbyte s' i o = bs !!! Z.to_nat (o - off);
  wt_other o : 0 ≤ o < MAXFILE * BSIZE → ¬ off ≤ o < off + Z.of_nat (length bs) →
    fblock s i (Z.to_nat (o / BSIZE)) ≠ 0 → fbyte s' i o = fbyte s i o
}.

Lemma wrote_nil i k off s : fs_inv k s → map_ok s i → wrote i k off [] s s.
Proof.
  intros HI Hm. split; try done; [apply file_evolves_refl|intros o Ho; simpl in Ho; lia|intros o Ho; simpl in Ho; lia].
Qed.

Lemma wrote_app i j k off bs1 bs2 s s1 s2 : 0 ≤ off → off + Z.of_nat (length (bs1 ++ bs2)) ≤ MAXFILE * BSIZE →
  wrote i j off bs1 s s1 → wrote i k (off + Z.of_nat (length bs1)) bs2 s1 s2 → wrote i k off (bs1 ++ bs2) s s2.
Proof.
  intros Hoff Hmax [A1 A2 A3 A4 A5 A6 A7 A8] [B1 B2 B3 B4 B5 B6 B7 B8]. rewrite length_app in Hmax.
  split; try done; rewrite ?length_app.
  - by eapply evolves_trans.
  - congruence.
  - intros bn Hbn H0. rewrite B5; [auto|done|by rewrite A5].
  - intros o Ho. destruct (decide (o < off + Z.of_nat (length bs1))); [|apply B6; lia].
    pose proof (block_range o ltac:(lia)). rewrite B5; [apply A6; lia|lia|apply A6; lia].
  - intros o Ho. destruct (decide (o < off + Z.of_nat (length bs1))).
    + rewrite B8; [|lia|lia|apply A6; lia]. rewrite A7 by lia. by rewrite lookup_total_app_l by lia.
    + rewrite B7 by lia. rewrite lookup_total_app_r by lia. f_equal. lia.
  - intros o Ho Hn H0. pose proof (block_range o Ho). rewrite B8; [apply A8; [done|lia|done]|done|lia|].
    by rewrite A5 by (done || lia).
Qed.

Lemma list_lookup_total_inserts_out (p : nat) (bs d : list Z) n : ¬ (p ≤ n < p + length bs)%nat →
  list_inserts p bs d !!! n = d !!! n.
Proof.
  intros Hn. rewrite !list_lookup_total_alt. destruct (decide (n < p)%nat).
  - by rewrite list_lookup_inserts_lt by lia.
  - by rewrite list_lookup_inserts_ge by lia.
Qed.

(** One round of the loop of [writei]. *)
Definition write_round (i : nat) (bs : list Z) (off : Z) : M fss unit :=
  addr ← bmap i (off / BSIZE);
  bp ← fbread addr;
  d ← fbdata bp;
  fset_bdata bp (list_inserts (Z.to_nat (off mod BSIZE)) bs d);;
  flog_write bp;;
  fbrelse bp.

Lemma write_round_eq k s i bs off : fs_inv (k + 6) s → 0 ≤ k → 2 ≤ nfree s → held s = [] → map_ok s i →
  0 ≤ off < MAXFILE * BSIZE → Z.of_nat (length bs) ≤ BSIZE - off mod BSIZE →
  ∃ s', write_round i bs off s = Ok (tt, s') ∧ wrote i k off bs s s' ∧ nfree s - 2 ≤ nfree s'.
Proof.
  intros HI Hk Hn Hh Hm Hoff Hl. pose proof (block_range off Hoff) as Hbn.
  pose proof (Z.mod_pos_bound off BSIZE eq_refl) as Hmod.
  destruct (bmap_ok (k + 1) s i (off / BSIZE)) as (s1 & E & H0 & [P1 P2 P3 P4 P5 P6] & Hf & _);
    [by replace (k + 1 + 5) with (k + 6) by lia|lia|done..|].
  unfold write_round. rewrite (bind_ok _ _ _ _ _ E). set (bn := Z.to_nat (off / BSIZE)) in *.
  assert (held s1 = []) as Hh1 by (by rewrite (ev_held _ _ _ P3)). assert (bn < NBLK)%nat as Hbn' by lia.
  destruct (mo_blk _ _ P2 bn Hbn' H0) as [Hd Hni]. destruct (data_readable _ _ _ P1 Hh1 Hd) as [Hnh Hr].
  rewrite (bind_ok _ _ _ _ _ (fbread_eq _ s1 Hnh Hr)), (bind_ok _ _ _ _ _ (fbdata_eq _ (fhold _ s1) ltac:(by left))).
  change (cont (fhold _ s1)) with (cont s1). set (a := fblock s1 i bn) in *. set (d := list_inserts _ _ _).
  assert (length d = 512%nat) as Hld by (unfold d; by rewrite length_inserts, (fi_len _ _ P1)).
  exists (fput a d s1). split; [apply (fwrite_eq' _ _ _ (k + 1)); [apply P1|lia|done]|].
  split; [|unfold a; rewrite (put_nfree k) by done; lia].
  assert (∀ o, 0 ≤ o < MAXFILE * BSIZE → Z.to_nat (o / BSIZE) = bn →
    fbyte (fput a d s1) i o = d !!! Z.to_nat (o mod BSIZE)) as Hsame.
  { intros o Ho Eo. unfold fbyte, a. rewrite (put_fblock k) by done. by rewrite Eo, cont_fput_same. }
  split.
  - by eapply put_inv.
  - by eapply put_map.
  - eapply evolves_trans; [exact P3|by eapply put_evolves].
  - exact P6.
  - intros n Hn' Hx. unfold a. rewrite (put_fblock k) by done. auto.
  - intros o Ho. unfold a. rewrite (put_fblock k) by done.
    replace (Z.to_nat (o / BSIZE)) with bn; [done|]. unfold bn. f_equal. unfold BSIZE in *. Z.div_mod_to_equations. lia.
  - intros o Ho. assert (o / BSIZE = off / BSIZE ∧ o mod BSIZE = off mod BSIZE + (o - off)) as [Eo Em].
    { unfold BSIZE in *. Z.div_mod_to_equations. lia. }
    assert (0 ≤ o < MAXFILE * BSIZE).
    { unfold MAXFILE, NDIRECT, NINDIRECT, BSIZE in *. change (512 / 4) with 128 in *. Z.div_mod_to_equations. lia. }
    rewrite Hsame; [|done|unfold bn; by rewrite Eo]. unfold d. rewrite Em, list_lookup_total_alt, list_lookup_inserts;
      [|lia|rewrite (fi_len _ _ P1); unfold BSIZE in *; lia].
    rewrite list_lookup_total_alt. do 2 f_equal. lia.
  - intros o Ho Hno Hx. pose proof (block_range o Ho) as Hbo. set (n := Z.to_nat (o / BSIZE)) in *.
    assert (n < NBLK)%nat as Hnb by lia. destruct (mo_blk _ _ Hm n Hnb Hx) as [Hdn Hin].
    assert (fbyte s1 i o = fbyte s i o) as <-.
    { unfold fbyte. fold n. rewrite (P4 n Hnb Hx). by rewrite P5. }
    destruct (decide (n = bn)) as [En|En].
    + rewrite Hsame by done. unfold fbyte. fold n. rewrite En. fold a. unfold d.
      apply list_lookup_total_inserts_out. unfold n, bn in En.
      assert (o / BSIZE = off / BSIZE) as Eo by lia. unfold BSIZE in *. Z.div_mod_to_equations. lia.
    + unfold fbyte, a. rewrite (put_fblock k) by done. fold n. f_equal. apply cont_fput_other. intros E2.
      apply En. eapply (mo_inj _ _ P2); try done. by rewrite P4.
Qed.

(** The blocks that [r] bytes from [off] touch: one round each. *)
Definition rounds (off r : Z) : Z := if r <=? 0 then 0 else (off + r - 1) / BSIZE - off / BSIZE + 1.

Lemma rounds_step off r m : 0 ≤ off → 0 < r → m = Z.min r (BSIZE - off mod BSIZE) →
  rounds off r = 1 + rounds (off + m) (r - m) ∧ 0 ≤ rounds (off + m) (r - m).
Proof.
  intros Hoff Hr ->. unfold rounds. pose proof (Z.mod_pos_bound off BSIZE eq_refl) as Hmod. unfold BSIZE in *.
  bcase; try lia.
  - assert ((off + r - 1) / 512 = off / 512); [|lia]. Z.div_mod_to_equations. lia.
  - assert (Z.min r (512 - off mod 512) = 512 - off mod 512) as -> by lia.
    replace (off + (512 - off mod 512) + (r - (512 - off mod 512)) - 1) with (off + r - 1) by lia.
    assert ((off + (512 - off mod 512)) / 512 = off / 512 + 1) as ->; [|Z.div_mod_to_equations; lia].
    Z.div_mod_to_equations. lia.
Qed.

Lemma writei_loop_S fuel i src off n tot s : tot < n →
  let m := Z.min (n - tot) (BSIZE - off mod BSIZE) in
  writei_loop (S fuel) i src off n tot s =
  (write_round i (take (Z.to_nat m) src) off;;
   writei_loop fuel i (drop (Z.to_nat m) src) (u32 (off + m)) n (tot + m)) s.
Proof.
  intros Ht m. cbn [writei_loop]. destruct (Z.leb_spec n tot); [lia|]. fold m. unfold write_round.
  unfold mbind, M_bind. destruct (bmap _ _ _) as [[addr s1]| | |]; try done.
  destruct (fbread _ _) as [[bp s2]| | |]; try done. destruct (fbdata _ _) as [[d s3]| | |]; try done.
  destruct (fset_bdata _ _ _) as [[[] s4]| | |]; try done. destruct (flog_write _ _) as [[[] s5]| | |]; done.
Qed.

Lemma writei_loop_done fuel k s i src off n tot : n - tot = 0 → fs_inv (k + 6 * rounds off (n - tot)) s → map_ok s i →
  ∃ s', writei_loop fuel i src off n tot s = Ok (off + (n - tot), s') ∧
    wrote i k off (take (Z.to_nat (n - tot)) src) s s'.
Proof.
  intros E HI Hm. rewrite E in *. exists s. change (rounds off 0) with 0 in HI. rewrite Z.add_0_r in *. split.
  - destruct fuel; cbn [writei_loop]; by destruct (Z.leb_spec n tot); [|lia].
  - by apply wrote_nil.
Qed.

Lemma writei_loop_eq fuel k s i src off n tot : 0 ≤ k → held s = [] → map_ok s i →
  0 ≤ off → 0 ≤ tot ≤ n → off + (n - tot) ≤ MAXFILE * BSIZE → n - tot ≤ Z.of_nat (length src) →
  (Z.to_nat (n - tot) ≤ fuel)%nat →
  fs_inv (k + 6 * rounds off (n - tot)) s → 2 * rounds off (n - tot) ≤ nfree s →
  ∃ s', writei_loop fuel i src off n tot s = Ok (off + (n - tot), s') ∧
    wrote i k off (take (Z.to_nat (n - tot)) src) s s'.
Proof.
  intros Hk. revert s src off tot. induction fuel as [|fuel IH]; intros s src off tot Hh Hm Hoff Htot Hmax Hlen Hf HI Hn.
  { by apply writei_loop_done; [lia|..]. }
  destruct (Z.le_gt_cases n tot) as [Hle|Hlt].
  { by apply writei_loop_done; [lia|..]. }
  rewrite writei_loop_S by done. cbv zeta. set (m := Z.min (n - tot) (BSIZE - off mod BSIZE)).
  pose proof (Z.mod_pos_bound off BSIZE eq_refl) as Hmod. assert (0 < m ≤ n - tot) as Hm' by (unfold m, BSIZE in *; lia).
  destruct (rounds_step off (n - tot) m Hoff ltac:(lia) eq_refl) as [Hr Hr0].
  assert (length (take (Z.to_nat m) src) = Z.to_nat m) as Hlt' by (rewrite length_take; lia).
  destruct (write_round_eq (k + 6 * rounds (off + m) (n - tot - m)) s i (take (Z.to_nat m) src) off)
    as (s1 & E & W & Hf1); [rewrite Hr in HI; eapply fs_inv_le; [exact HI|lia]|lia|lia|done|done|lia|unfold m in *; lia|].
  rewrite (bind_ok _ _ _ _ _ E), u32_small
    by (unfold MAXFILE, NDIRECT, NINDIRECT, BSIZE in *; change (512 / 4) with 128 in *; lia).
  destruct (IH s1 (drop (Z.to_nat m) src) (off + m) (tot + m)) as (s2 & E2 & W2).
  - rewrite (ev_held _ _ _ (wt_ev _ _ _ _ _ _ W)). done.
  - apply W.
  - lia.
  - lia.
  - lia.
  - rewrite length_drop. lia.
  - lia.
  - replace (n - (tot + m)) with (n - tot - m) by lia. apply W.
  - replace (n - (tot + m)) with (n - tot - m) by lia. lia.
  - exists s2. split; [rewrite E2; do 2 f_equal; lia|].
    assert (take (Z.to_nat (n - tot)) src = take (Z.to_nat m) src ++ take (Z.to_nat (n - (tot + m))) (drop (Z.to_nat m) src)) as ->.
    { rewrite take_take_drop. f_equal. lia. }
    eapply wrote_app; [done| |exact W|].
    + rewrite length_app, Hlt', length_take, length_drop. lia.
    + rewrite Hlt', Z2Nat.id by lia. exact W2.
Qed.

(** ** Inode blocks *)

Lemma length_put_addrs d o a : length (put_addrs d o a) = length d.
Proof. revert d o. induction a as [|x a IH]; intros d o; simpl; [done|]. by rewrite IH, length_put32. Qed.
Lemma length_store_dinode d o p : length (store_dinode d o p) = length d.
Proof.
  unfold store_dinode. cbv zeta. rewrite length_put32, length_put_addrs, length_put32, !length_put16. done.
Qed.

Lemma IBLOCK_eq g count n : geom g count → 0 ≤ n < sb_ninodes g →
  IBLOCK n g = n / IPB + sb_inodestart g ∧ sb_inodestart g ≤ IBLOCK n g < sb_bmapstart g.
Proof.
  intros [G1 G2 G3 G4 G5 G6] Hn. unfold IBLOCK. geo. rewrite u32_small; Z.div_mod_to_equations; lia.
Qed.

Lemma bmap_before_data k s : fs_inv k s → sb_bmapstart (sb s) ≤ data_start (sb s).
Proof. intros HI. destruct (fi_geom _ _ HI) as [G1 _ _ _ _ _]. geo. Z.div_mod_to_equations. lia. Qed.

(** Setting a block before the bitmap changes no file and no mark. *)
Section put_meta.
Context (k : Z) (s : fss) (b : Z) (d : block).
Context (Hinv : fs_inv (k + 1) s) (Hk : 0 ≤ k) (Hb : 0 ≤ b < sb_bmapstart (sb s)) (Hd : length d = 512%nat).

Lemma meta_used_eq c : 0 ≤ c < sb_size (sb s) → used (fput b d s) c = used s c.
Proof.
  intros Hc. unfold used. simpl. rewrite cont_fput_other; [done|]. destruct (BBLOCK_eq _ _ c (fi_geom _ _ Hinv) Hc). lia.
Qed.

Lemma meta_cont c : data_start (sb s) ≤ c → cont (fput b d s) c = cont s c.
Proof. intros Hc. apply cont_fput_other. pose proof (bmap_before_data _ _ Hinv). lia. Qed.

Lemma meta_inv : fs_inv k (fput b d s).
Proof.
  pose proof (data_start_pos _ _ (fi_geom _ _ Hinv)). pose proof Hinv as [Hok G Hl Hm Hh]. split; try done.
  - by apply fput_ok.
  - intros c. rewrite cont_fput. unfold fset. by bcase.
  - intros c Hc. simpl in Hc. rewrite meta_used_eq by (destruct G; lia). auto.
  - intros c Hc. destruct (Hh c Hc). split; [done|]. rewrite meta_used_eq by lia. done.
Qed.

Lemma meta_data_used c : data_used (fput b d s) c ↔ data_used s c.
Proof.
  pose proof (data_start_pos _ _ (fi_geom _ _ Hinv)). unfold data_used. simpl.
  split; intros [Hr Hu]; (split; [done|]); [rewrite meta_used_eq in Hu by lia|rewrite meta_used_eq by lia]; done.
Qed.

Lemma meta_fblock i n : map_ok s i → fblock (fput b d s) i n = fblock s i n.
Proof.
  intros Hm. unfold fblock, blk_of. change (addrs (fput b d s) i) with (addrs s i). fold (indirect s i).
  destruct (n <? 12)%nat; [done|]. destruct (Z.eqb_spec (indirect s i) 0) as [|Hi]; [done|].
  rewrite meta_cont; [done|]. by apply (mo_ind _ _ Hm).
Qed.

Lemma meta_map i : map_ok s i → map_ok (fput b d s) i.
Proof.
  intros Hm. pose proof Hm as [M1 M2 M3 M4 M5]. split; try done.
  - intros Hi. by apply meta_data_used, M3.
  - intros n Hn. rewrite meta_fblock by done. intros H0. destruct (M4 n Hn H0). split; [by apply meta_data_used|done].
  - intros n n' Hn Hn'. rewrite !meta_fblock by done. auto.
Qed.

Lemma meta_owns i c : map_ok s i → owns (fput b d s) i c ↔ owns s i c.
Proof.
  intros Hm. unfold owns. change (indirect (fput b d s) i) with (indirect s i).
  assert (∀ n, fblock (fput b d s) i n = fblock s i n) as E by (intros; by apply meta_fblock). by setoid_rewrite E.
Qed.

Lemma meta_evolves i : map_ok s i → evolves i s (fput b d s).
Proof.
  intros Hm. split; try done.
  - intros c Hc. split; [by apply meta_data_used|]. intros _. apply meta_cont, Hc.
  - intros c. by rewrite meta_owns.
  - intros c Hc. left. by rewrite meta_owns in Hc.
Qed.

Lemma meta_fbyte i o : map_ok s i → fblock s i (Z.to_nat (o / BSIZE)) ≠ 0 → 0 ≤ o < MAXFILE * BSIZE →
  fbyte (fput b d s) i o = fbyte s i o.
Proof.
  intros Hm H0 Ho. pose proof (block_range o Ho). unfold fbyte. rewrite meta_fblock by done. rewrite meta_cont; [done|].
  by apply (mo_blk _ _ Hm); [lia|].
Qed.
End put_meta.

(** [iupdate] writes the inode to its block. *)
Lemma iupdate_eq k s i : fs_inv (k + 1) s → 0 ≤ k → held s = [] → 0 ≤ i_inum (ino s i) < sb_ninodes (sb s) →
  let b := IBLOCK (i_inum (ino s i)) (sb s) in
  iupdate i s = Ok (tt, fput b (store_dinode (cont s b) (dino (i_inum (ino s i))) (ino s i)) s).
Proof.
  intros HI Hk Hh Hn b. pose proof (fi_geom _ _ HI) as G. destruct (IBLOCK_eq _ _ _ G Hn) as [_ Hb]. fold b in Hb.
  assert (b ∉ held s) as Hnh by (rewrite Hh; apply not_elem_of_nil).
  assert (0 ≤ b < nblocks s) as Hr.
  { pose proof (bmap_before_data _ _ HI). destruct G. lia. }
  unfold iupdate. rewrite (bind_ok (gets sb) _ s _ s eq_refl), (bind_ok (gets _) _ s _ s eq_refl). fold b.
  rewrite (bind_ok _ _ _ _ _ (fbread_eq b s Hnh Hr)), (bind_ok _ _ _ _ _ (fbdata_eq b (fhold b s) ltac:(by left))).
  apply (fwrite_eq' _ _ _ (k + 1)); [apply HI|lia|done].
Qed.

(** ** [readi] and [writei] *)

(** A regular file or directory whose bytes are all in blocks. *)
Record file_ok (s : fss) (i : nat) : Prop := {
  fl_map : map_ok s i;
  fl_type : i_type (ino s i) ≠ T_DEV;
  fl_inum : 0 ≤ i_inum (ino s i) < sb_ninodes (sb s);
  fl_size : 0 ≤ i_size (ino s i) ≤ MAXFILE * BSIZE;
  fl_present : present s i 0 (i_size (ino s i))
}.

Lemma MAX_small x : x ≤ MAXFILE * BSIZE → x < 2 ^ 31.
Proof. unfold MAXFILE, NDIRECT, NINDIRECT, BSIZE. change (512 / 4) with 128. lia. Qed.

Lemma readi_eq devs k s i off n : fs_inv k s → held s = [] → file_ok s i → 0 ≤ off < 2 ^ 32 → 0 ≤ n < 2 ^ 32 →
  readi devs i off n s =
    if (i_size (ino s i) <? off) || (2 ^ 32 <=? off + n) then Ok ((-1, []), s)
    else let n' := Z.min n (i_size (ino s i) - off) in Ok ((n', fbytes s i off n'), s).
Proof.
  intros HI Hh [Hm Ht _ Hs Hp] Hoff Hn. pose proof (MAX_small _ (proj2 Hs)) as Hs31.
  unfold readi. rewrite (bind_ok (gets _) _ s _ s eq_refl). rewrite (proj2 (Z.eqb_neq _ _) Ht).
  destruct (Z.ltb_spec (i_size (ino s i)) off) as [|Hle]; [done|]. cbn [orb].
  destruct (Z.leb_spec (2 ^ 32) (off + n)) as [Ho|Ho].
  { assert (u32 (off + n) = off + n - 2 ^ 32) as ->; [unfold u32; Z.div_mod_to_equations; lia|].
    by destruct (Z.ltb_spec (off + n - 2 ^ 32) off); [|lia]. }
  rewrite (u32_small (off + n)) by lia. destruct (Z.ltb_spec (off + n) off); [lia|]. cbv zeta.
  set (n' := if _ <? off + n then _ else n).
  assert (n' = Z.min n (i_size (ino s i) - off)) as E.
  { unfold n'. destruct (Z.ltb_spec (i_size (ino s i)) (off + n)); [rewrite u32_small by lia; lia|lia]. }
  rewrite E. erewrite bind_ok; [|apply (readi_loop_eq k); try done; [lia..| |lia]].
  - rewrite Z.sub_0_r, s32_small by lia. done.
  - intros o Ho'. apply Hp. lia.
Qed.

(** Setting the size in memory. *)
Section resize.
Context (s : fss) (i : nat) (n : Z) (Hmap : map_ok s i).
Let s' := upd_ino i (set_size n) s.

Lemma resize_ino : ino s' i = set_size n (ino s i).
Proof. apply ino_upd_same, Hmap. Qed.
Lemma resize_addrs : addrs s' i = addrs s i.
Proof. unfold addrs. by rewrite resize_ino. Qed.
Lemma resize_indirect : indirect s' i = indirect s i.
Proof. unfold indirect. by rewrite resize_addrs. Qed.
Lemma resize_fblock bn : fblock s' i bn = fblock s i bn.
Proof. unfold fblock. by rewrite resize_addrs. Qed.
Lemma resize_fbyte o : fbyte s' i o = fbyte s i o.
Proof. unfold fbyte. by rewrite resize_fblock. Qed.
Lemma resize_map : map_ok s' i.
Proof.
  pose proof Hmap as [M1 M2 M3 M4 M5]. split; rewrite ?resize_addrs, ?resize_indirect; try done.
  - by unfold s'; rewrite length_upd_ino.
  - intros bn Hbn. rewrite resize_fblock. by apply M4.
  - intros bn bn' Hbn Hbn'. rewrite !resize_fblock. by apply M5.
Qed.
Lemma resize_evolves : evolves i s s'.
Proof.
  split; try done.
  - apply length_upd_ino.
  - intros j Hj. by apply ino_upd_other.
  - by rewrite resize_ino.
  - intros b. unfold owns. rewrite resize_indirect. by setoid_rewrite resize_fblock.
  - intros b. unfold owns. rewrite resize_indirect. setoid_rewrite resize_fblock. by left.
Qed.
End resize.

(** The file [s'] of inode [i]: its size and bytes after a write. *)
Record written (i : nat) (k : Z) (off : Z) (bs : list Z) (s s' : fss) : Prop := {
  wn_inv : fs_inv k s';
  wn_file : file_ok s' i;
  wn_ev : evolves i s s';
  wn_size : i_size (ino s' i) = Z.max (i_size (ino s i)) (off + Z.of_nat (length bs));
  wn_bytes o : 0 ≤ o < i_size (ino s' i) → fbyte s' i o =
    if decide (off ≤ o < off + Z.of_nat (length bs)) then bs !!! Z.to_nat (o - off) else fbyte s i o
}.

Lemma evolves_type i s s' : evolves i s s' → i_type (ino s' i) = i_type (ino s i) ∧ i_inum (ino s' i) = i_inum (ino s i).
Proof. intros E. pose proof (ev_self _ _ _ E) as H. unfold set_size, set_addrs in H. simpl in H. split; congruence. Qed.

Lemma wrote_covers i k off bs s s' : file_ok s i → wrote i k off bs s s' → 0 ≤ off ≤ i_size (ino s i) →
  off + Z.of_nat (length bs) ≤ MAXFILE * BSIZE →
  present s' i 0 (Z.max (i_size (ino s i)) (off + Z.of_nat (length bs))) ∧
  ∀ o, 0 ≤ o < Z.max (i_size (ino s i)) (off + Z.of_nat (length bs)) → fbyte s' i o =
    if decide (off ≤ o < off + Z.of_nat (length bs)) then bs !!! Z.to_nat (o - off) else fbyte s i o.
Proof.
  intros [Hm Ht _ Hs Hp] [W1 W2 W3 W4 W5 W6 W7 W8] Hoff Hmax. split.
  - intros o Ho. destruct (decide (off ≤ o < off + Z.of_nat (length bs))) as [Hi|Hi]; [by apply W6|].
    assert (fblock s i (Z.to_nat (o / BSIZE)) ≠ 0) as H0 by (apply Hp; lia).
    pose proof (block_range o ltac:(lia)). by rewrite W5 by (done || lia).
  - intros o Ho. destruct (decide _) as [Hi|Hi]; [by apply W7|]. apply W8; [lia|done|]. apply Hp. lia.
Qed.

(** The bytes written, then the size and the inode block where the file grew. *)
Lemma write_size k s s1 i off bs : file_ok s i → wrote i (k + 1) off bs s s1 → 0 ≤ k → held s = [] →
  0 ≤ off ≤ i_size (ino s i) → off + Z.of_nat (length bs) ≤ MAXFILE * BSIZE →
  i_size (ino s i) < off + Z.of_nat (length bs) →
  ∃ s', (modify (upd_ino i (set_size (off + Z.of_nat (length bs))));; iupdate i) s1 = Ok (tt, s') ∧
    written i k off bs s s'.
Proof.
  intros HF HW Hk Hh Hoff Hmax Hgrow. destruct (wrote_covers _ _ _ _ _ _ HF HW Hoff Hmax) as [Hpr Hby].
  rewrite Z.max_r in Hpr, Hby by lia. set (n := off + Z.of_nat (length bs)) in *. pose proof HW as [W1 W2 W3 W4 _ _ _ _].
  rewrite (bind_ok (modify _) _ s1 tt (upd_ino i (set_size n) s1) eq_refl). set (s2 := upd_ino i (set_size n) s1).
  pose proof (resize_map s1 i n W2) as M2. fold s2 in M2. pose proof (resize_evolves s1 i n W2) as V2. fold s2 in V2.
  assert (fs_inv (k + 1) s2) as I2 by (by apply fs_inv_upd). destruct (evolves_type _ _ _ W3) as [ET EN].
  destruct (evolves_type _ _ _ V2) as [ET2 EN2].
  assert (held s2 = []) as Hh2 by (by rewrite (ev_held _ _ _ V2), (ev_held _ _ _ W3)).
  assert (0 ≤ i_inum (ino s2 i) < sb_ninodes (sb s2)) as Hin2.
  { rewrite EN2, EN, (ev_sb _ _ _ V2), (ev_sb _ _ _ W3). apply HF. }
  rewrite (iupdate_eq k s2 i I2 Hk Hh2 Hin2). set (b := IBLOCK _ _). set (d := store_dinode _ _ _).
  destruct (IBLOCK_eq _ _ _ (fi_geom _ _ I2) Hin2) as [_ Hb]. fold b in Hb.
  assert (0 ≤ b < sb_bmapstart (sb s2)) as Hb' by (destruct (fi_geom _ _ I2); lia).
  assert (length d = 512%nat) as Hd by (unfold d; by rewrite length_store_dinode, (fi_len _ _ I2)).
  exists (fput b d s2). split; [done|].
  assert (i_size (ino (fput b d s2) i) = n) as Hsz.
  { change (i_size (ino s2 i) = n). unfold s2. by rewrite resize_ino. }
  assert (∀ o, fblock (fput b d s2) i o = fblock s1 i o) as Hfb.
  { intros o. rewrite (meta_fblock k) by done. by apply resize_fblock. }
  split.
  - by apply meta_inv.
  - split; rewrite ?Hsz.
    + by apply (meta_map k).
    + change (i_type (ino s2 i) ≠ T_DEV). rewrite ET2, ET. apply HF.
    + exact Hin2.
    + lia.
    + intros o Ho. rewrite Hfb. by apply Hpr.
  - eapply evolves_trans; [exact W3|]. eapply evolves_trans; [exact V2|]. by apply (meta_evolves k).
  - rewrite Hsz. unfold n. lia.
  - intros o Ho. rewrite Hsz in Ho. rewrite (meta_fbyte k); try done; [|unfold s2; rewrite resize_fblock by done; apply Hpr; lia|lia].
    unfold s2. rewrite resize_fbyte by done. by apply Hby.
Qed.

Lemma write_nosize k s s1 i off bs : file_ok s i → wrote i k off bs s s1 → 0 ≤ off ≤ i_size (ino s i) →
  off + Z.of_nat (length bs) ≤ i_size (ino s i) → written i k off bs s s1.
Proof.
  intros HF HW Hoff Hle. pose proof HW as [W1 W2 W3 W4 _ _ _ _]. pose proof HF as [Hm Ht Hin Hs Hp].
  destruct (wrote_covers _ _ _ _ _ _ HF HW Hoff ltac:(lia)) as [Hpr Hby].
  rewrite Z.max_l in Hpr, Hby by lia. destruct (evolves_type _ _ _ W3) as [ET EN].
  split; [done| |done|rewrite W4; lia|by rewrite W4].
  split; [done|congruence|by rewrite EN, (ev_sb _ _ _ W3)|by rewrite W4|by rewrite W4].
Qed.

(** [writei] refuses a write that starts past the end of the file, wraps
    around or goes past the largest file, and changes nothing. *)
Lemma writei_error devs s i src off n : file_ok s i → 0 ≤ off < 2 ^ 32 → 0 ≤ n < 2 ^ 32 →
  i_size (ino s i) < off ∨ MAXFILE * BSIZE < off + n →
  writei devs i src off n s = Ok (-1, s).
Proof.
  intros [Hm Ht _ Hs Hp] Hoff Hn Hbad. pose proof (MAX_small _ (proj2 Hs)). pose proof (MAX_small (MAXFILE * BSIZE) ltac:(lia)).
  unfold writei. rewrite (bind_ok (gets _) _ s _ s eq_refl), (proj2 (Z.eqb_neq _ _) Ht).
  destruct (Z.ltb_spec (i_size (ino s i)) off) as [|Hle]; [done|]. cbn [orb].
  destruct (Z.le_gt_cases (2 ^ 32) (off + n)) as [Ho|Ho].
  - assert (u32 (off + n) = off + n - 2 ^ 32) as ->; [unfold u32; Z.div_mod_to_equations; lia|].
    by destruct (Z.ltb_spec (off + n - 2 ^ 32) off); [|lia].
  - rewrite u32_small by lia. destruct (Z.ltb_spec (off + n) off); [lia|].
    by destruct (Z.ltb_spec (MAXFILE * BSIZE) (off + n)); [|lia].
Qed.

Lemma writei_ok devs k s i src off n : fs_inv (k + 1 + 6 * rounds off n) s → 0 ≤ k → 2 * rounds off n ≤ nfree s →
  held s = [] → file_ok s i → 0 ≤ off ≤ i_size (ino s i) → 0 ≤ n ≤ Z.of_nat (length src) →
  off + n ≤ MAXFILE * BSIZE →
  ∃ s', writei devs i src off n s = Ok (n, s') ∧ written i k off (take (Z.to_nat n) src) s s'.
Proof.
  intros HI Hk Hf Hh HF Hoff Hn Hmax. pose proof (MAX_small _ Hmax). pose proof HF as [Hm Ht _ Hs Hp].
  pose proof (MAX_small _ (proj2 Hs)).
  unfold writei. rewrite (bind_ok (gets _) _ s _ s eq_refl), (proj2 (Z.eqb_neq _ _) Ht).
  destruct (Z.ltb_spec (i_size (ino s i)) off); [lia|]. rewrite u32_small by lia.
  destruct (Z.ltb_spec (off + n) off); [lia|]. cbn [orb]. destruct (Z.ltb_spec (MAXFILE * BSIZE) (off + n)); [lia|].
  destruct (writei_loop_eq (Z.to_nat n) (k + 1) s i src off n 0) as (s1 & E & W); rewrite ?Z.sub_0_r in *; try done; [lia..|].
  rewrite (bind_ok _ _ _ _ _ E), (bind_ok (gets _) _ s1 _ s1 eq_refl).
  assert (Z.of_nat (length (take (Z.to_nat n) src)) = n) as Hlen by (rewrite length_take; lia).
  rewrite (wt_size _ _ _ _ _ _ W), s32_small by lia. destruct (Z.ltb_spec (i_size (ino s i)) (off + n)) as [Hg|Hg].
  - destruct (Z.ltb_spec 0 n); [|lia]. cbn [andb].
    destruct (write_size k s s1 i off (take (Z.to_nat n) src)) as (s' & E' & Hw); try done; rewrite ?Hlen; try lia.
    rewrite Hlen in E'. rewrite ?Hlen. rewrite (bind_ok _ _ _ _ _ E'). exists s'. done.
  - rewrite andb_false_r, (bind_ok (mret tt) _ s1 tt s1 eq_refl). exists s1. split; [done|].
    apply write_nosize; try done; [|rewrite Hlen; lia].
    destruct W. split; try done. eapply fs_inv_le; [done|lia].
Qed.

(** C5: Writing to a file and reading it back.  With [rounds off n] blocks
    of the file touched, free blocks and log space for them, [writei]
    returns [n]; [readi] then returns the bytes written, the rest of the
    file, its size otherwise, and every block in use that is not of this file
    are as before.  Writes that start past the end, or end past the largest
    file, return -1 and change nothing. *)
Theorem writei_readi devs k s i src off n : fs_inv (k + 1 + 6 * rounds off n) s → 0 ≤ k →
  2 * rounds off n ≤ nfree s → held s = [] → file_ok s i → 0 ≤ off < 2 ^ 32 → 0 ≤ n < 2 ^ 31 →
  n ≤ Z.of_nat (length src) →
  if (i_size (ino s i) <? off) || (MAXFILE * BSIZE <? off + n) then writei devs i src off n s = Ok (-1, s)
  else ∃ s', writei devs i src off n s = Ok (n, s') ∧ file_ok s' i ∧ fs_inv k s' ∧
    i_size (ino s' i) = Z.max (i_size (ino s i)) (off + n) ∧
    readi devs i off n s' = Ok ((n, take (Z.to_nat n) src), s') ∧
    (∀ o, 0 ≤ o < i_size (ino s i) → ¬ off ≤ o < off + n → fbyte s' i o = fbyte s i o) ∧
    (∀ b, data_used s b → ¬ owns s i b → data_used s' b ∧ cont s' b = cont s b).
Proof.
  intros HI Hk Hf Hh HF Hoff Hn Hlen. destruct (Z.ltb_spec (i_size (ino s i)) off) as [Hb|Hb]; simpl.
  { apply writei_error; try done; [lia|by left]. }
  destruct (Z.ltb_spec (MAXFILE * BSIZE) (off + n)) as [Hb2|Hb2].
  { apply writei_error; try done; [lia|by right]. }
  destruct (writei_ok devs k s i src off n) as (s' & E & [W1 W2 W3 W4 W5]); try done; try lia.
  assert (Z.of_nat (length (take (Z.to_nat n) src)) = n) as Hl by (rewrite length_take; lia). rewrite Hl in *.
  pose proof (fl_size _ _ W2) as Hs'. pose proof (MAX_small _ (proj2 Hs')).
  exists s'. split; [done|]. split; [done|]. split; [done|]. split; [done|]. split; [|split].
  - rewrite (readi_eq devs k); [|done|by rewrite (ev_held _ _ _ W3)|done|lia|lia]. rewrite W4.
    destruct (Z.ltb_spec (Z.max (i_size (ino s i)) (off + n)) off); [lia|]. simpl.
    destruct (Z.leb_spec (2 ^ 32) (off + n)); [lia|]. rewrite Z.min_l by lia. do 3 f_equal.
    apply list_eq_same_length with (n := Z.to_nat n); [lia|apply length_fbytes|].
    intros t x y Ht Hx Hy. unfold fbytes in Hx. rewrite list_lookup_fmap, lookup_seqZ_lt in Hx by lia. injection Hx as <-.
    rewrite W5 by lia. rewrite decide_True by lia. apply list_lookup_total_correct in Hy. rewrite <- Hy. f_equal. lia.
  - intros o Ho Hno. rewrite W5 by lia. by rewrite decide_False.
  - intros b Hd Hno. destruct (ev_data _ _ _ W3 b Hd). auto.
Qed.
