(* ===== verification/FsDir.v ===== *)
(** * Directories and paths

    [dirlookup] and [dirlink] as lookup and insertion in the list of entries
    of a directory, and [skipelem] as splitting of a path. *)

From S2P Require Import Prelude CString Block Log Fs FsBlock FsFile.

(** ** [find_index] *)

Lemma find_index_Some {A} (f : A → bool) l i : find_index f l = Some i →
  (∃ x, l !! i = Some x ∧ f x = true) ∧ ∀ j y, (j < i)%nat → l !! j = Some y → f y = false.
Proof.
  revert i. induction l as [|x l IH]; intros i H; [done|]. simpl in H. destruct (f x) eqn:E.
  - injection H as <-. split; [by exists x|]. intros; lia.
  - destruct (find_index f l) as [k|] eqn:Ek; [|done]. injection H as <-. destruct (IH k eq_refl) as [Hx Hl].
    split; [exact Hx|]. intros [|j] y Hj Hy; [simpl in Hy; congruence|]. apply (Hl j); [lia|done].
Qed.

Lemma find_index_None {A} (f : A → bool) l : find_index f l = None ↔ ∀ x, x ∈ l → f x = false.
Proof.
  induction l as [|x l IH]; simpl; [split; [by intros _ x ?%not_elem_of_nil|done]|].
  destruct (f x) eqn:E; split.
  - done.
  - intros H. rewrite (H x) in E by by left. done.
  - intros H y [->|Hy]%elem_of_cons; [done|]. apply IH; [|done]. by destruct (find_index f l).
  - intros H. destruct IH as [_ ->]; [done|]. intros y Hy. apply H. by right.
Qed.

Lemma find_index_intro {A} (f : A → bool) l i x : l !! i = Some x → f x = true →
  (∀ j y, (j < i)%nat → l !! j = Some y → f y = false) → find_index f l = Some i.
Proof.
  revert i. induction l as [|y l IH]; intros i Hi Hx Hl; [done|]. destruct i as [|i]; simpl.
  - injection Hi as ->. by rewrite Hx.
  - rewrite (Hl 0%nat y) by (lia || done). rewrite (IH i); [done|done|done|].
    intros j z Hj Hz. apply (Hl (S j) z); [lia|done].
Qed.

Lemma find_index_ext {A} (f : A → bool) l l' : length l = length l' →
  (∀ i x y, l !! i = Some x → l' !! i = Some y → f x = f y) → find_index f l = find_index f l'.
Proof.
  revert l'. induction l as [|x l IH]; intros [|y l'] Hl H; try done. simpl.
  rewrite (H 0%nat x y) by done. destruct (f y); [done|]. rewrite (IH l'); [done|by injection Hl|].
  intros i a b Ha Hb. by apply (H (S i)).
Qed.

(** ** Names *)

(** The name in an array of [DIRSIZ] characters: up to the first NUL. *)
Definition name_of (l : list Z) : list Z := cut (take 14 l).

Lemma namecmp_loop_spec n s t : (n ≤ length s)%nat → (n ≤ length t)%nat →
  namecmp_loop n s t = 0 ↔ cut (take n s) = cut (take n t).
Proof.
  revert s t. induction n as [|n IH]; intros s t Hs Ht; [done|].
  destruct s as [|x s], t as [|y t]; simpl in Hs, Ht; try lia. cbn [namecmp_loop take cut]. simpl.
  rewrite !drop_0. unfold truthy. destruct (Z.eqb_spec x 0) as [->|Hx]; simpl.
  - destruct (Z.eqb_spec y 0) as [->|Hy]; [done|]. split; [lia|done].
  - destruct (Z.eqb_spec x y) as [->|Hne].
    + rewrite IH by lia. rewrite (proj2 (Z.eqb_neq y 0)) by done. split; congruence.
    + destruct (Z.eqb_spec y 0) as [->|Hy]; split; try lia; congruence.
Qed.

Lemma namecmp_spec s t : (14 ≤ length s)%nat → (14 ≤ length t)%nat → namecmp s t = 0 ↔ name_of s = name_of t.
Proof. apply namecmp_loop_spec. Qed.

Lemma cut_length l : (length (cut l) ≤ length l)%nat.
Proof. induction l as [|x l IH]; simpl; [done|]. destruct (x =? 0); simpl; lia. Qed.

Lemma length_de_pad name : length (de_pad name) = 14%nat.
Proof.
  unfold de_pad. change (Z.to_nat DIRSIZ) with 14%nat. rewrite length_app, length_replicate.
  pose proof (cut_length (take 14 name)). rewrite length_take in H. lia.
Qed.
Lemma name_of_pad name : name_of (de_pad name) = name_of name.
Proof.
  unfold name_of at 1. rewrite take_ge by (rewrite length_de_pad; lia). apply cut_app_zeros.
Qed.

(** An entry as [dirlink] writes it. *)
Lemma length_dirent inum name : length (dirent inum name) = 16%nat.
Proof. unfold dirent. rewrite length_app, length_put16, length_de_pad. done. Qed.
Lemma dirent_inum inum name : de_inum (dirent inum name) = u16 inum.
Proof.
  unfold de_inum, dirent. rewrite <- (get_put16_same [0; 0] 0 inum) by (simpl; lia).
  apply get16_ext. intros i Hi. rewrite lookup_total_app_l; [done|]. rewrite length_put16. simpl. lia.
Qed.
Lemma dirent_name inum name : de_name (dirent inum name) = de_pad name.
Proof. done. Qed.

(** ** Lookup *)

Definition dir_len (s : fss) (dp : nat) : nat := Z.to_nat (i_size (ino s dp) / 16).
Definition entry (s : fss) (dp : nat) (q : nat) : list Z := fbytes s dp (16 * Z.of_nat q) 16.
Definition entries (s : fss) (dp : nat) : list (list Z) := entry s dp <$> seq 0 (dir_len s dp).

(** The entry is in use and has the name. *)
Definition ent_matches (name de : list Z) : bool :=
  negb (de_inum de =? 0) && (namecmp name (de_name de) =? 0).
Definition dir_find (s : fss) (dp : nat) (name : list Z) : option nat :=
  find_index (ent_matches name) (entries s dp).

Record dir_ok (s : fss) (dp : nat) : Prop := {
  dir_file : file_ok s dp;
  dir_type : i_type (ino s dp) = T_DIR;
  dir_size : i_size (ino s dp) mod 16 = 0
}.

Lemma lookup_entries s dp q : (q < dir_len s dp)%nat → entries s dp !! q = Some (entry s dp q).
Proof. intros Hq. unfold entries. by rewrite list_lookup_fmap, lookup_seq_lt by done. Qed.
Lemma length_entries s dp : length (entries s dp) = dir_len s dp.
Proof. unfold entries. by rewrite length_fmap, length_seq. Qed.
Lemma lookup_entries_inv s dp q e : entries s dp !! q = Some e → (q < dir_len s dp)%nat ∧ e = entry s dp q.
Proof.
  intros H. assert (q < dir_len s dp)%nat as Hq by (rewrite <- length_entries; by eapply lookup_lt_Some).
  rewrite lookup_entries in H by done. split; [done|congruence].
Qed.

Lemma dir_size_eq s dp : dir_ok s dp → i_size (ino s dp) = 16 * Z.of_nat (dir_len s dp) ∧ i_size (ino s dp) < 2 ^ 31.
Proof.
  intros [[_ _ _ Hs _] _ Hm]. pose proof (MAX_small _ (proj2 Hs)). unfold dir_len.
  Z.div_mod_to_equations. lia.
Qed.

(** The first free entry, or the end of the directory. *)
Definition free_slot (s : fss) (dp : nat) : nat :=
  default (dir_len s dp) (find_index (λ de, de_inum de =? 0) (entries s dp)).

Lemma free_slot_le s dp : (free_slot s dp ≤ dir_len s dp)%nat.
Proof.
  unfold free_slot. destruct (find_index _ _) as [q|] eqn:Eq; [|done]. simpl.
  apply find_index_Some in Eq as [(x & Hx & _) _]. apply lookup_lt_Some in Hx. rewrite length_entries in Hx. lia.
Qed.

Section lookup.
Context (devs : Z → devsw) (k : Z) (s : fss) (dp : nat).
Context (Hinv : fs_inv k s) (Hheld : held s = []) (Hdir : dir_ok s dp).

Lemma readi_entry q : (q < dir_len s dp)%nat → readi devs dp (16 * Z.of_nat q) 16 s = Ok ((16, entry s dp q), s).
Proof.
  intros Hq. destruct (dir_size_eq s dp Hdir) as [E Hlt]. rewrite (readi_eq devs k) by (done || apply Hdir || lia). rewrite E.
  destruct (Z.ltb_spec (16 * Z.of_nat (dir_len s dp)) (16 * Z.of_nat q)); [lia|].
  destruct (Z.leb_spec (2 ^ 32) (16 * Z.of_nat q + 16)); [lia|]. cbn [orb]. cbv zeta. by rewrite Z.min_l by lia.
Qed.

(** The rest of [dirlookup] once the entry is found. *)
Definition dir_result (r : option nat) : outcome (option (nat * Z) * fss) :=
  match r with
  | Some q =>
      match iget (i_dev (ino s dp)) (de_inum (entry s dp q)) s with
      | Ok (ip, s') => Ok (Some (ip, 16 * Z.of_nat q), s')
      | Panic m => Panic m
      | Blocked => Blocked
      | Undef => Undef
      end
  | None => Ok (None, s)
  end.

Lemma dirlookup_loop_eq fuel q name : (q ≤ dir_len s dp)%nat → (dir_len s dp - q ≤ fuel)%nat →
  dirlookup_loop devs fuel dp name (16 * Z.of_nat q) s =
  dir_result ((λ r, (q + r)%nat) <$> find_index (ent_matches name) (drop q (entries s dp))).
Proof.
  destruct (dir_size_eq s dp Hdir) as [E Hlt]. revert q. induction fuel as [|fuel IH]; intros q Hq Hf; cbn [dirlookup_loop];
    rewrite (bind_ok (gets _) _ s _ s eq_refl), E;
    destruct (Z.leb_spec (16 * Z.of_nat (dir_len s dp)) (16 * Z.of_nat q)); try lia;
    try (rewrite drop_ge by (rewrite length_entries; lia); done).
  assert (q < dir_len s dp)%nat as Hq' by lia. rewrite (bind_ok _ _ _ _ _ (readi_entry q Hq')). cbv beta zeta. cbn [fst snd].
  rewrite Z.eqb_refl. cbn [negb]. rewrite (drop_S _ (entry s dp q) q) by by apply lookup_entries.
  cbn [find_index]. unfold ent_matches at 1.
  assert (dirlookup_loop devs fuel dp name (u32 (16 * Z.of_nat q + 16)) s =
    dir_result ((λ r, (q + r)%nat) <$> (S <$> find_index (ent_matches name) (drop (S q) (entries s dp))))) as Hnext.
  { rewrite u32_small by lia. replace (16 * Z.of_nat q + 16) with (16 * Z.of_nat (S q)) by lia.
    rewrite IH by lia. f_equal. destruct (find_index _ _); simpl; [f_equal; lia|done]. }
  destruct (de_inum (entry s dp q) =? 0); cbn [negb andb]; [exact Hnext|].
  destruct (namecmp name (de_name (entry s dp q)) =? 0); [|exact Hnext].
  simpl. rewrite Nat.add_0_r. unfold mbind, M_bind, gets. by destruct (iget _ _ _) as [[]| | |].
Qed.

(** [dirlookup] finds the first entry in use with the name. *)
Lemma dirlookup_eq name : dirlookup devs dp name s = dir_result (dir_find s dp name).
Proof.
  unfold dirlookup. rewrite (bind_ok (gets _) _ s _ s eq_refl). rewrite (dir_type _ _ Hdir), Z.eqb_refl. cbn [negb].
  pose proof (dirlookup_loop_eq (dir_fuel (i_size (ino s dp))) 0 name ltac:(lia)) as H.
  change (16 * Z.of_nat 0) with 0 in H. rewrite H by (unfold dir_fuel, dir_len; lia).
  unfold dir_find. rewrite drop_0. f_equal. by destruct (find_index _ _).
Qed.

(** The loop of [dirlink] stops at the first free entry, or at the end. *)
Lemma dirlink_loop_eq fuel q : (q ≤ dir_len s dp)%nat → (dir_len s dp - q ≤ fuel)%nat →
  dirlink_loop devs fuel dp (16 * Z.of_nat q) s =
  Ok (16 * Z.of_nat (default (dir_len s dp) ((λ r, (q + r)%nat) <$> find_index (λ de, de_inum de =? 0) (drop q (entries s dp)))), s).
Proof.
  destruct (dir_size_eq s dp Hdir) as [E Hlt]. revert q. induction fuel as [|fuel IH]; intros q Hq Hf; cbn [dirlink_loop];
    rewrite (bind_ok (gets _) _ s _ s eq_refl), E;
    destruct (Z.leb_spec (16 * Z.of_nat (dir_len s dp)) (16 * Z.of_nat q)); try lia;
    try (rewrite drop_ge by (rewrite length_entries; lia); simpl; replace (dir_len s dp) with q by lia; done).
  assert (q < dir_len s dp)%nat as Hq' by lia. rewrite (bind_ok _ _ _ _ _ (readi_entry q Hq')). cbv beta zeta. cbn [fst snd].
  rewrite Z.eqb_refl. cbn [negb]. rewrite (drop_S _ (entry s dp q) q) by by apply lookup_entries.
  cbn [find_index]. destruct (de_inum (entry s dp q) =? 0); [simpl; by rewrite Nat.add_0_r|].
  replace (16 * Z.of_nat q + 16) with (16 * Z.of_nat (S q)) by lia. rewrite IH by lia.
  do 4 f_equal. destruct (find_index _ _); simpl; [lia|done].
Qed.

End lookup.

(** ** Insertion *)

Lemma rounds_entry q : 0 ≤ q → rounds (16 * q) 16 = 1.
Proof.
  intros Hq. unfold rounds, BSIZE. change (16 <=? 0) with false. cbv iota.
  assert ((16 * q + 16 - 1) / 512 = 16 * q / 512); [|lia]. Z.div_mod_to_equations. lia.
Qed.

(** The directory after the entry [de] was written to slot [q]. *)
Section written_entry.
Context (k : Z) (s s' : fss) (dp q : nat) (de : list Z).
Context (Hdir : dir_ok s dp) (Hq : (q ≤ dir_len s dp)%nat) (Hde : length de = 16%nat).
Context (Hw : written dp k (16 * Z.of_nat q) de s s').

Lemma written_size : i_size (ino s' dp) = 16 * Z.of_nat (Nat.max (dir_len s dp) (S q)).
Proof. rewrite (wn_size _ _ _ _ _ _ Hw), Hde. destruct (dir_size_eq s dp Hdir) as [-> _]. lia. Qed.

Lemma written_len : dir_len s' dp = Nat.max (dir_len s dp) (S q).
Proof. unfold dir_len at 1. rewrite written_size. Z.div_mod_to_equations. lia. Qed.

Lemma written_dir : dir_ok s' dp.
Proof.
  split; [apply Hw| |rewrite written_size; Z.div_mod_to_equations; lia].
  destruct (evolves_type _ _ _ (wn_ev _ _ _ _ _ _ Hw)) as [-> _]. apply Hdir.
Qed.

Lemma written_entry r : (r < dir_len s' dp)%nat → entry s' dp r = if decide (r = q) then de else entry s dp r.
Proof.
  intros Hr. rewrite written_len in Hr. unfold entry. destruct (decide (r = q)) as [->|Hne].
  - apply list_eq_same_length with (n := 16%nat); [done|by rewrite length_fbytes|].
    intros t x y Ht Hx Hy. unfold fbytes in Hx. rewrite list_lookup_fmap, lookup_seqZ_lt in Hx by lia. injection Hx as <-.
    rewrite (wn_bytes _ _ _ _ _ _ Hw) by (rewrite written_size; lia). rewrite decide_True by lia.
    apply list_lookup_total_correct in Hy. rewrite <- Hy. f_equal. lia.
  - unfold fbytes. apply list_fmap_ext. intros t o Ho. apply lookup_seqZ in Ho as [-> Ht].
    rewrite (wn_bytes _ _ _ _ _ _ Hw) by (rewrite written_size; lia). rewrite decide_False by lia. done.
Qed.
End written_entry.

Lemma dir_find_spec s dp name q : dir_find s dp name = Some q ↔
  (q < dir_len s dp)%nat ∧ ent_matches name (entry s dp q) = true ∧
  ∀ r, (r < q)%nat → ent_matches name (entry s dp r) = false.
Proof.
  unfold dir_find. split.
  - intros [(x & Hx & Hm) Hl]%find_index_Some. apply lookup_entries_inv in Hx as [Hq ->].
    split; [done|]. split; [done|]. intros r Hr. apply (Hl r); [done|]. apply lookup_entries. lia.
  - intros (Hq & Hm & Hl). eapply find_index_intro; [by apply lookup_entries|done|].
    intros r y Hr Hy. apply lookup_entries_inv in Hy as [_ ->]. auto.
Qed.
Lemma dir_find_none s dp name : dir_find s dp name = None ↔
  ∀ q, (q < dir_len s dp)%nat → ent_matches name (entry s dp q) = false.
Proof.
  unfold dir_find. rewrite find_index_None. split.
  - intros H q Hq. apply H. eapply list_elem_of_lookup_2. by apply lookup_entries.
  - intros H x (q & Hx)%list_elem_of_lookup. apply lookup_entries_inv in Hx as [Hq ->]. auto.
Qed.

(** A free slot is no entry of any name, or is past the end. *)
Lemma free_slot_unused s dp name : (free_slot s dp < dir_len s dp)%nat →
  ent_matches name (entry s dp (free_slot s dp)) = false.
Proof.
  unfold free_slot. destruct (find_index _ _) as [q|] eqn:E; simpl; [|lia]. intros Hq.
  apply find_index_Some in E as [(x & Hx & Hz) _]. apply lookup_entries_inv in Hx as [_ ->].
  unfold ent_matches. by rewrite Hz.
Qed.

(** Filling a free slot adds one name and keeps the others. *)
Lemma dir_find_insert k s s' dp name inum : dir_ok s dp → length name = 14%nat → 0 < inum < 2 ^ 16 →
  written dp k (16 * Z.of_nat (free_slot s dp)) (dirent inum name) s s' → dir_find s dp name = None →
  dir_find s' dp name = Some (free_slot s dp) ∧
  ∀ name', length name' = 14%nat → name_of name' ≠ name_of name → dir_find s' dp name' = dir_find s dp name'.
Proof.
  intros Hd Hn Hi Hw Hnone. pose proof (free_slot_le s dp) as Hle. set (q := free_slot s dp) in *.
  pose proof (length_dirent inum name) as Hl. pose proof (written_len _ _ _ _ _ _ Hd Hle Hl Hw) as Hlen.
  pose proof (written_entry _ _ _ _ _ _ Hd Hle Hl Hw) as Hent.
  assert (∀ name', length name' = 14%nat → ent_matches name' (dirent inum name) = bool_decide (name_of name' = name_of name)) as Hm.
  { intros name' Hn'. unfold ent_matches. rewrite dirent_inum, u16_small, dirent_name by lia.
    rewrite (proj2 (Z.eqb_neq inum 0)) by lia. cbn [negb andb]. apply Bool.eq_iff_eq_true.
    rewrite Z.eqb_eq, namecmp_spec, name_of_pad, bool_decide_eq_true by (rewrite ?length_de_pad; lia). done. }
  split.
  - apply dir_find_spec. split; [lia|]. split.
    + rewrite Hent, decide_True, Hm by (done || lia). by apply bool_decide_eq_true.
    + intros r Hr. rewrite Hent, decide_False by lia. apply (proj1 (dir_find_none s dp name) Hnone). lia.
  - intros name' Hn' Hne. destruct (dir_find s dp name') as [r|] eqn:E.
    + apply dir_find_spec in E as (Hr & Hx & Hlt). apply dir_find_spec.
      assert (r ≠ q) by (intros ->; by rewrite free_slot_unused in Hx). split; [lia|]. split.
      * rewrite Hent, decide_False by (done || lia). done.
      * intros t Ht. rewrite Hent by lia. destruct (decide (t = q)); [|auto]. rewrite Hm by done. by apply bool_decide_eq_false.
    + apply dir_find_none. intros t Ht. rewrite Hent by done. destruct (decide (t = q)).
      * rewrite Hm by done. by apply bool_decide_eq_false.
      * apply (proj1 (dir_find_none s dp name') E). lia.
Qed.

Lemma dirlink_eq devs k s dp name inum : fs_inv (k + 7) s → 0 ≤ k → 2 ≤ nfree s → held s = [] → dir_ok s dp →
  dir_find s dp name = None → 16 * Z.of_nat (free_slot s dp) + 16 ≤ MAXFILE * BSIZE →
  ∃ s', dirlink devs dp name inum s = Ok (0, s') ∧
    written dp k (16 * Z.of_nat (free_slot s dp)) (dirent inum name) s s'.
Proof.
  intros HI Hk Hf Hh Hd Hnone Hmax. unfold dirlink.
  rewrite (bind_ok _ _ _ _ _ (eq_trans (dirlookup_eq devs _ s dp HI Hh Hd name) (f_equal (dir_result s dp) Hnone))).
  rewrite (bind_ok (gets _) _ s _ s eq_refl).
  pose proof (dirlink_loop_eq devs _ s dp HI Hh Hd (dir_fuel (i_size (ino s dp))) 0 ltac:(lia)) as El.
  change (16 * Z.of_nat 0) with 0 in El. rewrite drop_0 in El.
  assert ((λ r, (0 + r)%nat) <$> find_index (λ de, de_inum de =? 0) (entries s dp) =
    find_index (λ de, de_inum de =? 0) (entries s dp)) as Eid by (by destruct (find_index _ _)).
  rewrite Eid in El. fold (free_slot s dp) in El.
  rewrite (bind_ok _ _ _ _ _ (El ltac:(unfold dir_fuel, dir_len; lia))).
  destruct (writei_ok devs k s dp (dirent inum name) (16 * Z.of_nat (free_slot s dp)) 16) as (s' & E & W);
    rewrite ?rounds_entry, ?length_dirent by lia; try done; try lia.
  - by replace (k + 1 + 6 * 1) with (k + 7) by lia.
  - apply Hd.
  - destruct (dir_size_eq s dp Hd) as [-> _]. pose proof (free_slot_le s dp). lia.
  - exists s'. rewrite (bind_ok _ _ _ _ _ E). split; [done|]. by rewrite take_ge in W by (rewrite length_dirent; lia).
Qed.

(** C10: Directory entries.  Linking a name that the directory does not have
    returns 0, fills the first free slot or appends one; [dirlookup] of the
    name then gives the inode with the number linked, at the offset of that
    slot, and the entry found for every other name is the one found before. *)
Theorem dirlink_dirlookup devs k s dp name inum : fs_inv (k + 7) s → 0 ≤ k → 2 ≤ nfree s → held s = [] →
  dir_ok s dp → length name = 14%nat → 0 < inum < 2 ^ 16 → dir_find s dp name = None →
  16 * Z.of_nat (free_slot s dp) + 16 ≤ MAXFILE * BSIZE →
  ∃ s', dirlink devs dp name inum s = Ok (0, s') ∧ dir_ok s' dp ∧ fs_inv k s' ∧
    dirlookup devs dp name s' =
      (ip ← iget (i_dev (ino s' dp)) inum; mret (Some (ip, 16 * Z.of_nat (free_slot s dp)))) s' ∧
    ∀ name', length name' = 14%nat → name_of name' ≠ name_of name →
      dirlookup devs dp name' s' = dir_result s' dp (dir_find s dp name') ∧
      ∀ q, dir_find s dp name' = Some q → entry s' dp q = entry s dp q.
Proof.
  intros HI Hk Hf Hh Hd Hn Hi Hnone Hmax. destruct (dirlink_eq devs k s dp name inum) as (s' & E & W); try done.
  pose proof (free_slot_le s dp) as Hle. pose proof (length_dirent inum name) as Hl. pose proof (written_dir _ _ _ _ _ _ Hd Hle Hl W) as Hd'.
  destruct (dir_find_insert _ _ _ _ _ _ Hd Hn Hi W Hnone) as [Hfound Hother].
  assert (fs_inv k s') as HI' by apply W.
  assert (held s' = []) as Hh' by (by rewrite (ev_held _ _ _ (wn_ev _ _ _ _ _ _ W))).
  exists s'. split; [done|]. split; [done|]. split; [done|]. split.
  - rewrite (dirlookup_eq devs k) by done. rewrite Hfound. unfold dir_result.
    pose proof (written_len _ _ _ _ _ _ Hd Hle Hl W) as Hlen.
    rewrite (written_entry _ _ _ _ _ _ Hd Hle Hl W), decide_True by (done || lia).
    rewrite dirent_inum, u16_small by lia. unfold mbind, M_bind. by destruct (iget _ _ _) as [[]| | |].
  - intros name' Hn' Hne. split; [by rewrite (dirlookup_eq devs k), Hother by done|].
    intros q Hq. pose proof (written_len _ _ _ _ _ _ Hd Hle Hl W) as Hlen. pose proof Hq as (Hlt & Hx & _)%dir_find_spec.
    rewrite (written_entry _ _ _ _ _ _ Hd Hle Hl W) by lia. rewrite decide_False; [done|]. intros ->.
    by rewrite free_slot_unused in Hx.
Qed.

(** ** Paths *)

(** Reference: a path is a list of elements separated by slashes, empty
    ones left out. *)
Fixpoint split_slash (p : list Z) : list (list Z) :=
  match p with
  | [] => [[]]
  | c :: p' =>
      if c =? slash then [] :: split_slash p'
      else match split_slash p' with
           | e :: es => (c :: e) :: es
           | [] => [[c]]
           end
  end.
Definition path_elems (p : list Z) : list (list Z) := filter (λ e, e ≠ []) (split_slash p).

(** The names that repeated calls of [skipelem] leave in the buffer. *)
Fixpoint skip_all (fuel : nat) (path name : list Z) : list (list Z) :=
  match skipelem path name with
  | None => []
  | Some (path', name') =>
      match fuel with
      | O => []
      | S fuel' => name_of name' :: skip_all fuel' path' name'
      end
  end.

Lemma path_elems_slash p : path_elems (slash :: p) = path_elems p.
Proof. done. Qed.
Lemma path_elems_skip p : path_elems (skip_slashes p) = path_elems p.
Proof.
  induction p as [|c p IH]; [done|]. simpl. destruct (Z.eqb_spec c slash) as [->|]; [|done]. by rewrite path_elems_slash.
Qed.

Lemma split_take p e r : take_elem p = (e, r) →
  split_slash p = e :: match r with [] => [] | _ :: r' => split_slash r' end ∧ p = e ++ r.
Proof.
  revert e r. induction p as [|c p IH]; intros e r H; simpl in H; [by injection H as <- <-|]. simpl.
  destruct (c =? slash); [by injection H as <- <-|].
  destruct (take_elem p) as [e' r']. injection H as <- <-. destruct (IH e' r' eq_refl) as [-> ->]. done.
Qed.
Lemma take_elem_rest p e r : take_elem p = (e, r) → path_elems r = filter (λ e, e ≠ []) (match r with [] => [] | _ :: r' => split_slash r' end).
Proof.
  revert e r. induction p as [|c p IH]; intros e r H; simpl in H; [by injection H as <- <-|].
  destruct (c =? slash) eqn:E; [injection H as <- <-; unfold path_elems; simpl; by rewrite E|].
  destruct (take_elem p) as [e' r']. injection H as <- <-. by apply (IH e').
Qed.
Lemma path_elems_take p e r : take_elem p = (e, r) → e ≠ [] → path_elems p = e :: path_elems r.
Proof.
  intros H He. destruct (split_take _ _ _ H) as [E _]. unfold path_elems at 1. rewrite E, filter_cons_True by done.
  by rewrite (take_elem_rest _ _ _ H).
Qed.

Lemma skip_slashes_head p c p' : skip_slashes p = c :: p' → c ≠ slash.
Proof.
  induction p as [|x p IH]; simpl; [done|]. destruct (Z.eqb_spec x slash); [done|]. intros [= <- <-]. done.
Qed.
Lemma skip_slashes_suffix p : ∃ q, p = q ++ skip_slashes p.
Proof.
  induction p as [|c p IH]; simpl; [by exists []|]. destruct (Z.eqb_spec c slash); [|by exists []].
  destruct IH as [q Hq]. exists (c :: q). simpl. congruence.
Qed.

Lemma cut_app_nul l r : (∀ x, x ∈ l → x ≠ 0) → cut (l ++ 0 :: r) = l.
Proof.
  induction l as [|x l IH]; intros Hl; simpl; [done|].
  rewrite (proj2 (Z.eqb_neq x 0)) by (apply Hl; by left). f_equal. apply IH. intros y Hy. apply Hl. by right.
Qed.
Lemma cut_all l : (∀ x, x ∈ l → x ≠ 0) → cut l = l.
Proof.
  induction l as [|x l IH]; intros Hl; simpl; [done|].
  rewrite (proj2 (Z.eqb_neq x 0)) by (apply Hl; by left). f_equal. apply IH. intros y Hy. apply Hl. by right.
Qed.

(** The buffer holds the element, cut to [DIRSIZ] characters. *)
Lemma skipelem_name e name : length name = 14%nat → (∀ x, x ∈ e → x ≠ 0) →
  let name' := if (Z.to_nat DIRSIZ <=? length e)%nat then list_inserts 0 (take (Z.to_nat DIRSIZ) e) name
    else list_inserts 0 (e ++ [0]) name in
  length name' = 14%nat ∧ name_of name' = take 14 e.
Proof.
  intros Hl He. change (Z.to_nat DIRSIZ) with 14%nat. unfold name_of. destruct (Nat.leb_spec 14 (length e)) as [H14|H14].
  - rewrite length_inserts. split; [done|].
    rewrite list_inserts_0 by (rewrite length_take; lia). rewrite take_app_le by (rewrite length_take; lia).
    rewrite take_take, Nat.min_id. apply cut_all. intros x (n & Hn & _)%elem_of_take. by eapply He, list_elem_of_lookup_2.
  - rewrite length_inserts. split; [done|]. rewrite list_inserts_0 by (rewrite length_app; simpl; lia).
    rewrite <- (assoc_L app), take_app_ge by lia. simpl. replace (14 - length e)%nat with (S (13 - length e)) by lia.
    simpl. rewrite cut_app_nul by done. by rewrite take_ge by lia.
Qed.

Lemma skipelem_spec path name : (∀ x, x ∈ path → x ≠ 0) → length name = 14%nat →
  match skipelem path name with
  | None => path_elems path = []
  | Some (path', name') => ∃ e, path_elems path = e :: path_elems path' ∧ name_of name' = take 14 e ∧
      length name' = 14%nat ∧ (length path' < length path)%nat ∧ (∀ x, x ∈ path' → x ≠ 0)
  end.
Proof.
  intros Hp Hn. unfold skipelem. destruct (skip_slashes_suffix path) as [q Eq]. pose proof (path_elems_skip path) as Es.
  destruct (skip_slashes path) as [|c p1] eqn:E; [by rewrite <- Es|].
  pose proof (skip_slashes_head _ _ _ E) as Hc. destruct (take_elem (c :: p1)) as [e r] eqn:Et.
  assert (e ≠ []) as He.
  { simpl in Et. rewrite (proj2 (Z.eqb_neq c slash)) in Et by done. destruct (take_elem p1). by injection Et as <- <-. }
  destruct (split_take _ _ _ Et) as [_ Ep]. destruct (skip_slashes_suffix r) as [q' Er].
  destruct (skipelem_name e name Hn) as [Hl Hnm].
  { intros x Hx. apply Hp. rewrite Eq, Ep, !elem_of_app. auto. }
  exists e. split; [|split; [done|split; [done|split]]].
  - by rewrite <- Es, (path_elems_take _ _ _ Et He), path_elems_skip.
  - apply (f_equal length) in Eq, Ep, Er. rewrite length_app in Eq, Ep, Er. destruct e; [done|]. simpl in *. lia.
  - intros x Hx. apply Hp. rewrite Eq, Ep, Er, !elem_of_app. auto.
Qed.

(** Repeated calls of [skipelem] take a path apart exactly as splitting
    it at slashes does: the names left in the buffer are its non-empty
    elements in order, each cut to [DIRSIZ] characters, and as many calls as
    the path has characters suffice. *)
Theorem skipelem_splits path name fuel : (∀ x, x ∈ path → x ≠ 0) → length name = 14%nat → (length path ≤ fuel)%nat →
  skip_all fuel path name = take 14 <$> path_elems path.
Proof.
  revert path name. induction fuel as [|fuel IH]; intros path name Hp Hn Hf; cbn [skip_all].
  - destruct path; [done|simpl in Hf; lia].
  - pose proof (skipelem_spec path name Hp Hn) as H. destruct (skipelem path name) as [[path' name']|]; [|by rewrite H].
    destruct H as (e & -> & -> & Hn' & Hlt & Hp'). simpl. f_equal. apply IH; [done|done|lia].
Qed.
