(* ===== verification/FsInode.v ===== *)
(** * Inodes

    The inode cache: one entry per inode in use and exact reference counts;
    and the form of inodes on disk: [ilock] reads back what [iupdate]
    wrote. *)

From S2P Require Import Prelude CString Block Log Fs FsBlock FsFile FsDir.

(** ** Inodes on disk *)

Lemma lookup_put_addrs_other d o a n : ¬ (o ≤ n < o + 4 * length a)%nat → put_addrs d o a !!! n = d !!! n.
Proof.
  revert d o. induction a as [|x a IH]; intros d o Hn; simpl; [done|]. simpl in Hn.
  rewrite IH by lia. apply lookup_put32_other. lia.
Qed.

Lemma get_addrs_ext d d' o n : (∀ i, (o ≤ i < o + 4 * n)%nat → d !!! i = d' !!! i) → get_addrs d o n = get_addrs d' o n.
Proof.
  revert o. induction n as [|n IH]; intros o H; simpl; [done|]. f_equal.
  - apply get32_ext. intros i Hi. apply H. lia.
  - apply IH. intros i Hi. apply H. lia.
Qed.

Lemma get_put_addrs d o a : (o + 4 * length a ≤ length d)%nat → (∀ x, x ∈ a → 0 ≤ x < 2 ^ 32) →
  get_addrs (put_addrs d o a) o (length a) = a.
Proof.
  revert d o. induction a as [|x a IH]; intros d o Hl Ha; simpl; [done|]. simpl in Hl. f_equal.
  - rewrite (get32_ext _ (put32 d o x)) by (intros i Hi; apply lookup_put_addrs_other; lia).
    rewrite get_put32_same by lia. apply u32_small, Ha. by left.
  - apply IH; [rewrite length_put32; lia|]. intros y Hy. apply Ha. by right.
Qed.

(** Fields that fit their types. *)
Record disk_ranges (p : inode) : Prop := {
  dr_type : - 2 ^ 15 ≤ i_type p < 2 ^ 15;
  dr_major : - 2 ^ 15 ≤ i_major p < 2 ^ 15;
  dr_minor : - 2 ^ 15 ≤ i_minor p < 2 ^ 15;
  dr_nlink : - 2 ^ 15 ≤ i_nlink p < 2 ^ 15;
  dr_size : 0 ≤ i_size p < 2 ^ 32;
  dr_len : length (i_addrs p) = 13%nat;
  dr_addrs x : x ∈ i_addrs p → 0 ≤ x < 2 ^ 32;
  dr_mode : - 2 ^ 31 ≤ i_mode p < 2 ^ 31
}.

(** The part of an inode that is kept on disk. *)
Definition disk_part (p : inode) : Z * Z * Z * Z * Z * list Z * Z :=
  (i_type p, i_major p, i_minor p, i_nlink p, i_size p, i_addrs p, i_mode p).

Lemma disk_part_locks p : disk_part (set_valid true (set_ilock true p)) = disk_part p.
Proof. done. Qed.

Lemma s16_u16 z : s16 (u16 z) = s16 z.
Proof. unfold s16, u16. by rewrite Zplus_mod_idemp_l. Qed.

Lemma load_store d o p q : (o + 128 ≤ length d)%nat → disk_ranges p →
  disk_part (load_dinode (store_dinode d o p) o q) = disk_part p.
Proof.
  intros Hl [R1 R2 R3 R4 R5 R6 R7 R8]. unfold disk_part. cbn [load_dinode i_type i_major i_minor i_nlink i_size i_addrs i_mode].
  unfold store_dinode. cbv zeta.
  assert (∀ d x, (x + 2 ≤ o + 64)%nat → get16 (put32 d (o + 64) (i_mode p)) x = get16 d x) as E1.
  { intros. apply get16_ext. intros. apply lookup_put32_other. lia. }
  assert (∀ d x, (x + 2 ≤ o + 12)%nat → get16 (put_addrs d (o + 12) (i_addrs p)) x = get16 d x) as E2.
  { intros. apply get16_ext. intros. apply lookup_put_addrs_other. lia. }
  assert (∀ d x, (x + 2 ≤ o + 8)%nat → get16 (put32 d (o + 8) (i_size p)) x = get16 d x) as E3.
  { intros. apply get16_ext. intros. apply lookup_put32_other. lia. }
  assert (∀ d x y v, (x + 2 ≤ y)%nat → get16 (put16 d y v) x = get16 d x) as E4.
  { intros. apply get16_ext. intros. apply lookup_put16_other. lia. }
  assert (∀ d y v, (y + 2 ≤ length d)%nat → - 2 ^ 15 ≤ v < 2 ^ 15 → s16 (get16 (put16 d y v) y) = v) as E5.
  { intros. rewrite get_put16_same by done. rewrite s16_u16. by apply s16_small. }
  rewrite !E1, !E2, !E3 by lia. rewrite !(E4 _ o), !(E4 _ (o + 2)%nat), !(E4 _ (o + 4)%nat) by lia.
  rewrite !E5 by (rewrite ?length_put16; (done || lia)).
  set (d1 := put32 (put16 _ _ _) _ _). assert (length d1 = length d) as Hd1 by (unfold d1; by rewrite length_put32, !length_put16).
  rewrite (get32_ext (put32 (put_addrs _ _ _) _ _) d1)
    by (intros; rewrite lookup_put32_other, lookup_put_addrs_other by lia; done).
  unfold d1 at 1. rewrite get_put32_same by (rewrite !length_put16; lia). rewrite u32_small by done.
  rewrite (get_addrs_ext (put32 _ _ _) (put_addrs d1 (o + 12) (i_addrs p))) by (intros; apply lookup_put32_other; lia).
  rewrite <- R6 at 1. rewrite get_put_addrs by (done || lia).
  rewrite get_put32_same by (rewrite length_put_addrs; lia).
  rewrite s32_u32, s32_small by done. done.
Qed.

Lemma store_dinode_other d o p n : length (i_addrs p) = 13%nat → ¬ (o ≤ n < o + 128)%nat → store_dinode d o p !!! n = d !!! n.
Proof.
  intros Hl Hn. unfold store_dinode. cbv zeta.
  rewrite lookup_put32_other, lookup_put_addrs_other, lookup_put32_other, !lookup_put16_other by lia. done.
Qed.

Lemma load_ext d d' o p : (∀ n, (o ≤ n < o + 128)%nat → d !!! n = d' !!! n) → load_dinode d o p = load_dinode d' o p.
Proof.
  intros H. unfold load_dinode.
  rewrite !(get16_ext d d'), !(get32_ext d d'), (get_addrs_ext d d') by (intros; apply H; lia). done.
Qed.

(** Inodes do not overlap. *)
Lemma dino_range g count n : geom g count → 0 ≤ n < sb_ninodes g → (dino n + 128 ≤ 512)%nat.
Proof. intros _ Hn. unfold dino. geo. Z.div_mod_to_equations. lia. Qed.
Lemma dino_disjoint g count n m : geom g count → 0 ≤ n < sb_ninodes g → 0 ≤ m < sb_ninodes g → n ≠ m →
  IBLOCK n g ≠ IBLOCK m g ∨ (dino n + 128 ≤ dino m)%nat ∨ (dino m + 128 ≤ dino n)%nat.
Proof.
  intros G Hn Hm Hne. destruct (IBLOCK_eq _ _ _ G Hn) as [-> _], (IBLOCK_eq _ _ _ G Hm) as [-> _].
  unfold dino. geo. Z.div_mod_to_equations. lia.
Qed.

(** [ilock] of an entry that has to be read from disk. *)
Lemma ilock_load k s j : fs_inv k s → held s = [] → (j < length (icache s))%nat →
  0 ≤ i_inum (ino s j) < sb_ninodes (sb s) → 1 ≤ i_ref (ino s j) → i_lock (ino s j) = false → i_valid (ino s j) = false →
  let q := load_dinode (cont s (IBLOCK (i_inum (ino s j)) (sb s))) (dino (i_inum (ino s j))) (ino s j) in
  i_type q ≠ 0 →
  ilock j s = Ok (tt, upd_ino j (λ _, set_valid true (set_ilock true q)) s).
Proof.
  intros HI Hh Hj Hn Hr Hl Hv q Hq. destruct (IBLOCK_eq _ _ _ (fi_geom _ _ HI) Hn) as [_ Hb].
  set (b := IBLOCK (i_inum (ino s j)) (sb s)) in *. pose proof (bmap_before_data _ _ HI).
  assert (b ∉ held s) as Hnh by (rewrite Hh; apply not_elem_of_nil).
  assert (0 ≤ b < nblocks s) as Hbr by (destruct (fi_geom _ _ HI); lia).
  unfold ilock. rewrite (bind_ok (gets _) _ s _ s eq_refl). destruct (Z.ltb_spec (i_ref (ino s j)) 1); [lia|].
  set (s1 := upd_ino j (set_ilock true) s). assert (ilock_acquire j s = Ok (tt, s1)) as El by (unfold ilock_acquire; by rewrite Hl).
  rewrite (bind_ok _ _ _ _ _ El), Hv, (bind_ok (gets sb) _ s1 _ s1 eq_refl). change (sb s1) with (sb s). fold b.
  rewrite (bind_ok _ _ _ _ _ (fbread_eq b s1 Hnh Hbr)), (bind_ok _ _ _ _ _ (fbdata_eq b (fhold b s1) ltac:(by left))).
  rewrite (bind_ok (modify _) _ _ tt _ eq_refl). change (cont (fhold b s1) b) with (cont s b).
  change (upd_ino j ?f (fhold b s1)) with (fhold b (upd_ino j f s1)). set (s2 := upd_ino j _ s1).
  rewrite (bind_ok _ _ _ _ _ (fbrelse_eq b s2 k (fi_ok _ _ (fs_inv_upd k s1 j _ (fs_inv_upd k s j _ HI))) Hnh)), (bind_ok (modify _) _ _ tt _ eq_refl).
  set (s3 := upd_ino j (set_valid true) s2). rewrite (bind_ok (gets _) _ s3 _ s3 eq_refl).
  assert (ino s3 j = set_valid true (set_ilock true q)) as E3.
  { unfold s3. rewrite ino_upd_same by (unfold s2, s1; by rewrite !length_upd_ino). unfold s2.
    rewrite ino_upd_same by (unfold s1; by rewrite length_upd_ino). unfold s1. by rewrite ino_upd_same. }
  rewrite E3. change (i_type (set_valid true (set_ilock true q))) with (i_type q).
  rewrite (proj2 (Z.eqb_neq _ _) Hq). apply (f_equal (λ l, Ok (tt, FS (flog s) (sb s) l))). unfold s3, s2, s1. simpl.
  rewrite !alter_alter. apply list_alter_ext; [|done]. intros p Hp. unfold q, ino.
  by rewrite (list_lookup_total_correct _ _ _ Hp).
Qed.

(** The inode cache is write-through.  After [iupdate], a later [ilock]
    of that inode through any entry of the cache that has to read it gets the
    type, device numbers, links, size, addresses and mode that were written;
    and the inodes of all other numbers on disk are unchanged. *)
Theorem iupdate_ilock k s i : fs_inv (k + 1) s → 0 ≤ k → held s = [] → 0 ≤ i_inum (ino s i) < sb_ninodes (sb s) →
  disk_ranges (ino s i) → i_type (ino s i) ≠ 0 →
  ∃ s1, iupdate i s = Ok (tt, s1) ∧
    (∀ ic j, let t := FS (flog s1) (sb s1) ic in (j < length ic)%nat → i_inum (ino t j) = i_inum (ino s i) →
       1 ≤ i_ref (ino t j) → i_lock (ino t j) = false → i_valid (ino t j) = false →
       ∃ t2, ilock j t = Ok (tt, t2) ∧ disk_part (ino t2 j) = disk_part (ino s i)) ∧
    (∀ n p, 0 ≤ n < sb_ninodes (sb s) → n ≠ i_inum (ino s i) →
       load_dinode (cont s1 (IBLOCK n (sb s))) (dino n) p = load_dinode (cont s (IBLOCK n (sb s))) (dino n) p).
Proof.
  intros HI Hk Hh Hn Hd Ht. pose proof (fi_geom _ _ HI) as G. destruct (IBLOCK_eq _ _ _ G Hn) as [_ Hb].
  rewrite (iupdate_eq k s i HI Hk Hh Hn). set (b := IBLOCK (i_inum (ino s i)) (sb s)) in *. set (d := store_dinode _ _ _).
  assert (length d = 512%nat) as Hl by (unfold d; by rewrite length_store_dinode, (fi_len _ _ HI)).
  pose proof (dino_range _ _ _ G Hn) as Hdr. pose proof (fi_len _ _ HI b) as Hlb.
  pose proof (meta_inv k s b d HI Hk ltac:(destruct G; lia) Hl) as HI1. exists (fput b d s). split; [done|]. split.
  - intros ic j t Hj En Hr Hlk Hv.
    assert (fs_inv k t) as HIt by (destruct HI1 as [[] ? ? ? ?]; split; [split; done|done..]).
    assert (disk_part (load_dinode (cont t b) (dino (i_inum (ino t j))) (ino t j)) = disk_part (ino s i)) as E.
    { rewrite En. change (cont t b) with (cont (fput b d s) b). rewrite cont_fput_same. apply load_store; [lia|done]. }
    eexists. split; [apply (ilock_load k t j HIt); try done|rewrite ino_upd_same by done].
    + by rewrite En.
    + apply (f_equal (λ x, x.1.1.1.1.1.1)) in E. cbv beta in E. rewrite En in *. change (sb t) with (sb s). fold b.
      intros E0. apply Ht. rewrite <- E0. symmetry. exact E.
    + rewrite disk_part_locks. rewrite En in *. change (sb t) with (sb s). fold b. exact E.
  - intros n p Hn' Hne. destruct (decide (IBLOCK n (sb s) = b)) as [E|E]; [|by rewrite cont_fput_other].
    rewrite E, cont_fput_same. apply load_ext. intros x Hx. apply store_dinode_other; [apply Hd|].
    destruct (dino_disjoint _ _ _ _ G Hn' Hn Hne) as [?|?]; [done|]. lia.
Qed.

(** ** The inode cache *)

(** What [icache.lock] protects. *)
Definition ids (s : fss) : list (Z * Z * Z) := (λ p, (i_dev p, i_inum p, i_ref p)) <$> icache s.
Definition keeps_ids {A} (c : M fss A) : Prop := ∀ s a s', c s = Ok (a, s') → ids s' = ids s.

Lemma ids_alter s i f : (∀ p, (i_dev (f p), i_inum (f p), i_ref (f p)) = (i_dev p, i_inum p, i_ref p)) →
  ids (upd_ino i f s) = ids s.
Proof.
  intros Hf. unfold ids, upd_ino. simpl. apply list_eq. intros j. rewrite !list_lookup_fmap.
  destruct (decide (i = j)) as [->|Hne].
  - rewrite list_lookup_alter_eq. destruct (icache s !! j); simpl; [by rewrite Hf|done].
  - by rewrite list_lookup_alter_ne.
Qed.

Lemma ids_fcall {A} (c : M lst A) : keeps_ids (fcall c).
Proof. intros s a s'. unfold fcall. destruct (c (flog s)) as [[]| | |]; try done. by intros [= <- <-]. Qed.
Lemma ids_ret {A} (a : A) : keeps_ids (mret a).
Proof. by intros s a' s' [= <- <-]. Qed.
Lemma ids_gets {A} (f : fss → A) : keeps_ids (gets f).
Proof. by intros s a' s' [= <- <-]. Qed.
Lemma ids_panic {A} m : keeps_ids (panic (A := A) m).
Proof. done. Qed.
Lemma ids_bind {A B} (c : M fss A) (k : A → M fss B) : keeps_ids c → (∀ a, keeps_ids (k a)) → keeps_ids (c ≫= k).
Proof.
  intros Hc Hk s b s' H. apply bind_inv in H as (a & s1 & E1 & E2). by rewrite (Hk _ _ _ _ E2), (Hc _ _ _ E1).
Qed.
Lemma ids_upd i f : (∀ p, (i_dev (f p), i_inum (f p), i_ref (f p)) = (i_dev p, i_inum p, i_ref p)) →
  keeps_ids (modify (upd_ino i f)).
Proof. intros Hf s a s' [= <- <-]. by apply ids_alter. Qed.
Lemma ids_mfor {A} (l : list A) f : (∀ x, keeps_ids (f x)) → keeps_ids (mfor l f).
Proof. intros Hf. induction l as [|x l IH]; [apply ids_ret|]. by apply ids_bind. Qed.

Create HintDb ids.
#[export] Hint Resolve ids_ret ids_gets ids_panic ids_fcall : ids.
Ltac ids_solve := cbv zeta; repeat match goal with
  | |- keeps_ids (_ ≫= _) => apply ids_bind; [|intros ?]
  | |- keeps_ids (mfor _ _) => apply ids_mfor; intros ?
  | |- keeps_ids (if ?b then _ else _) => destruct b
  | |- keeps_ids (modify (upd_ino _ _)) => apply ids_upd; done
  | |- keeps_ids _ => solve [eauto with ids]
  end.

Lemma ids_iupdate i : keeps_ids (iupdate i).
Proof. unfold iupdate, fbread, fbdata, fset_bdata, flog_write, fbrelse. ids_solve. Qed.
Lemma ids_bfree b : keeps_ids (bfree b).
Proof. unfold bfree, fbread, fbdata, fset_bdata, flog_write, fbrelse. ids_solve. Qed.
#[export] Hint Resolve ids_iupdate ids_bfree : ids.
Lemma ids_itrunc i : keeps_ids (itrunc i).
Proof. unfold itrunc, itrunc_direct, itrunc_entry, fbread, fbdata, fbrelse. ids_solve. Qed.
#[export] Hint Resolve ids_itrunc : ids.

Lemma iput_ids i s s' : iput i s = Ok (tt, s') → ids s' = alter (λ x, (x.1, x.2 - 1)) i (ids s).
Proof.
  unfold iput. intros H. apply bind_inv in H as ([] & s1 & E1 & H). unfold ilock_acquire in E1.
  destruct (i_lock (ino s i)); [done|]. injection E1 as <-.
  apply bind_inv in H as (p & s2 & [= <- <-] & H). apply bind_inv in H as ([] & s3 & E3 & H).
  apply bind_inv in H as ([] & s4 & [= <-] & [= <-]).
  assert (ids s3 = ids s) as E.
  { assert (ids (upd_ino i (set_ilock true) s) = ids s) as <- by by apply ids_alter. revert E3.
    assert (∀ b : bool, keeps_ids (if b then itrunc i;; modify (upd_ino i (set_type 0));; iupdate i;; modify (upd_ino i (set_valid false)) else mret tt)) as Hk.
    { intros []; ids_solve. }
    intros E3. exact (Hk _ _ _ _ E3). }
  assert (ids (upd_ino i (set_ilock false) s3) = ids s) as E' by (by rewrite ids_alter).
  rewrite <- E'. generalize (upd_ino i (set_ilock false) s3). clear. intros s. unfold ids, upd_ino. simpl.
  apply list_eq. intros j. rewrite list_lookup_fmap. destruct (decide (i = j)) as [->|Hne].
  - rewrite !list_lookup_alter_eq, list_lookup_fmap. by destruct (icache s !! j).
  - by rewrite !list_lookup_alter_ne, list_lookup_fmap by done.
Qed.

(** The references that the rest of the kernel holds are a list of entries;
    [RefOther] is any operation that keeps what [icache.lock] protects. *)
Inductive ref_op :=
| RefGet (dev inum : Z)
| RefDup (i : nat)
| RefPut (i : nat)
| RefOther.

Definition ref_step (o : ref_op) (x y : fss * list nat) : Prop :=
  match o with
  | RefGet dev inum => ∃ i, iget dev inum x.1 = Ok (i, y.1) ∧ y.2 = i :: x.2
  | RefDup i => i ∈ x.2 ∧ idup i x.1 = Ok (i, y.1) ∧ y.2 = i :: x.2
  | RefPut i => iput i x.1 = Ok (tt, y.1) ∧ x.2 ≡ₚ i :: y.2
  | RefOther => ids y.1 = ids x.1 ∧ y.2 = x.2
  end.
Definition ref_steps : fss * list nat → fss * list nat → Prop := rtc (λ x y, ∃ o, ref_step o x y).

Definition refs_to (i : nat) (R : list nat) : Z := Z.of_nat (length (filter (λ j, j = i) R)).

(** One entry per inode, and exact counts. *)
Record ref_inv (l : list (Z * Z * Z)) (R : list nat) : Prop := {
  rf_count i x : l !! i = Some x → x.2 = refs_to i R;
  rf_range i : i ∈ R → (i < length l)%nat;
  rf_unique i j x y : l !! i = Some x → l !! j = Some y → 0 < x.2 → 0 < y.2 → x.1 = y.1 → i = j
}.

Lemma refs_to_cons i j R : refs_to i (j :: R) = (if decide (j = i) then 1 else 0) + refs_to i R.
Proof. unfold refs_to. rewrite filter_cons. destruct (decide (j = i)); simpl; lia. Qed.
Lemma refs_to_pos i R : i ∈ R → 0 < refs_to i R.
Proof.
  induction R as [|j R IH]; [by intros ?%not_elem_of_nil|]. rewrite refs_to_cons. unfold refs_to in *.
  intros [->|?]%elem_of_cons; [rewrite decide_True by done; lia|]. destruct (decide (j = i)); [lia|]. specialize (IH H). lia.
Qed.
Lemma refs_to_perm i R R' : R ≡ₚ R' → refs_to i R = refs_to i R'.
Proof. intros E. unfold refs_to. by rewrite E. Qed.

(** Taking one more reference to an entry. *)
Lemma ref_inv_up l R i : ref_inv l R → (i < length l)%nat → 0 < refs_to i R →
  ref_inv (alter (λ x, (x.1, x.2 + 1)) i l) (i :: R).
Proof.
  intros [H1 H2 H3] Hi Hp. assert (∀ j x, alter (λ x, (x.1, x.2 + 1)) i l !! j = Some x →
    ∃ y, l !! j = Some y ∧ x.1 = y.1 ∧ x.2 = (if decide (i = j) then 1 else 0) + y.2) as Hl.
  { intros j x. destruct (decide (i = j)) as [<-|Hne].
    - rewrite list_lookup_alter_eq. intros (y & Hy & ->)%fmap_Some. exists y. split; [done|]. split; [done|simpl; lia].
    - rewrite list_lookup_alter_ne by done. intros Hx. exists x. split; [done|]. split; [done|lia]. }
  split.
  - intros j x (y & Hy & _ & ->)%Hl. rewrite refs_to_cons. by rewrite (H1 _ _ Hy).
  - intros j [->|Hj]%elem_of_cons; rewrite length_alter; auto.
  - intros j j' x y (x' & Hx & E1 & E2)%Hl (y' & Hy & E3 & E4)%Hl Hpx Hpy E. eapply H3; [done|done|..|congruence].
    + rewrite E2 in Hpx. destruct (decide (i = j)) as [<-|]; [rewrite (H1 _ _ Hx); done|lia].
    + rewrite E4 in Hpy. destruct (decide (i = j')) as [<-|]; [rewrite (H1 _ _ Hy); done|lia].
Qed.

(** Giving one up. *)
Lemma ref_inv_down l R R' i : ref_inv l R → R ≡ₚ i :: R' → ref_inv (alter (λ x, (x.1, x.2 - 1)) i l) R'.
Proof.
  intros [H1 H2 H3] HR. assert (∀ j x, alter (λ x, (x.1, x.2 - 1)) i l !! j = Some x →
    ∃ y, l !! j = Some y ∧ x.1 = y.1 ∧ x.2 = y.2 - (if decide (i = j) then 1 else 0)) as Hl.
  { intros j x. destruct (decide (i = j)) as [<-|Hne].
    - rewrite list_lookup_alter_eq. intros (y & Hy & ->)%fmap_Some. exists y. done.
    - rewrite list_lookup_alter_ne by done. intros Hx. exists x. split; [done|]. split; [done|lia]. }
  split.
  - intros j x (y & Hy & _ & ->)%Hl. rewrite (H1 _ _ Hy), (refs_to_perm _ _ _ HR), refs_to_cons. lia.
  - intros j Hj. rewrite length_alter. apply H2. rewrite HR. by right.
  - intros j j' x y (x' & Hx & E1 & E2)%Hl (y' & Hy & E3 & E4)%Hl Hpx Hpy E. eapply H3; [done|done|..|congruence].
    + destruct (decide (i = j)); lia.
    + destruct (decide (i = j')); lia.
Qed.

(** A free entry taken for an inode that has none. *)
Lemma ref_inv_new l R i d n x : ref_inv l R → l !! i = Some x → x.2 = 0 →
  (∀ j y, l !! j = Some y → 0 < y.2 → y.1 ≠ (d, n)) → ref_inv (<[i := (d, n, 1)]> l) (i :: R).
Proof.
  intros [H1 H2 H3] Hi Hz Hn. pose proof (lookup_lt_Some _ _ _ Hi). split.
  - intros j y Hy. rewrite refs_to_cons. destruct (decide (i = j)) as [<-|Hne].
    + rewrite list_lookup_insert_eq in Hy by done. injection Hy as <-. rewrite <- (H1 _ _ Hi), Hz. done.
    + rewrite list_lookup_insert_ne in Hy by done. rewrite (H1 _ _ Hy). lia.
  - intros j [->|Hj]%elem_of_cons; rewrite length_insert; auto.
  - intros j j' y y' Hy Hy' Hp Hp' E. destruct (decide (i = j)) as [<-|Hne], (decide (i = j')) as [<-|Hne'].
    + done.
    + rewrite list_lookup_insert_eq in Hy by done. injection Hy as <-. rewrite list_lookup_insert_ne in Hy' by done.
      by destruct (Hn _ _ Hy').
    + rewrite list_lookup_insert_eq in Hy' by done. injection Hy' as <-. rewrite list_lookup_insert_ne in Hy by done.
      by destruct (Hn _ _ Hy).
    + rewrite list_lookup_insert_ne in Hy, Hy' by done. by eapply H3.
Qed.

Lemma lookup_ids s i : ids s !! i = (λ p, (i_dev p, i_inum p, i_ref p)) <$> icache s !! i.
Proof. apply list_lookup_fmap. Qed.
Lemma ids_ref_up s i : ids (upd_ino i (λ p, set_ref (i_ref p + 1) p) s) = alter (λ x, (x.1, x.2 + 1)) i (ids s).
Proof.
  apply list_eq. intros j. rewrite lookup_ids. destruct (decide (i = j)) as [<-|Hne]; simpl.
  - rewrite !list_lookup_alter_eq, lookup_ids. by destruct (icache s !! i).
  - by rewrite !list_lookup_alter_ne, lookup_ids by done.
Qed.

Lemma iget_cases dev inum s i s' : iget dev inum s = Ok (i, s') →
  (∃ x, ids s !! i = Some x ∧ 0 < x.2 ∧ x.1 = (dev, inum) ∧ ids s' = alter (λ x, (x.1, x.2 + 1)) i (ids s)) ∨
  (∃ x, ids s !! i = Some x ∧ x.2 = 0 ∧ ids s' = <[i := (dev, inum, 1)]> (ids s) ∧
     ∀ j y, ids s !! j = Some y → 0 < y.2 → y.1 ≠ (dev, inum)).
Proof.
  unfold iget. destruct (find_index _ (icache s)) as [k|] eqn:E1.
  - intros [= -> <-]. left. apply find_index_Some in E1 as [(p & Hp & Hm) _].
    apply andb_true_iff in Hm as [[H1%Z.ltb_lt H2%Z.eqb_eq]%andb_true_iff H3%Z.eqb_eq].
    exists (dev, inum, i_ref p). rewrite lookup_ids, Hp. simpl. subst. split; [done|]. split; [done|]. split; [done|].
    apply ids_ref_up.
  - destruct (find_index (λ p, i_ref p =? 0) (icache s)) as [k|] eqn:E2; [|discriminate]. intros [= -> <-]. right.
    apply find_index_Some in E2 as [(p & Hp & Hm%Z.eqb_eq) _].
    exists (i_dev p, i_inum p, i_ref p). rewrite lookup_ids, Hp. split; [done|]. split; [done|]. split.
    + apply list_eq. intros j. rewrite lookup_ids. pose proof (lookup_lt_Some _ _ _ Hp).
      assert (i < length (ids s))%nat by (unfold ids; by rewrite length_fmap).
      destruct (decide (i = j)) as [<-|Hne]; simpl.
      * by rewrite list_lookup_alter_eq, Hp, list_lookup_insert_eq.
      * by rewrite list_lookup_alter_ne, list_lookup_insert_ne, lookup_ids by done.
    + intros j y Hy Hpos Ey. rewrite lookup_ids in Hy. apply fmap_Some in Hy as (q & Hq & ->). simpl in *.
      assert (q ∈ icache s) as Hin by by eapply list_elem_of_lookup_2.
      pose proof (proj1 (find_index_None _ _) E1 q Hin) as Hf. simpl in Hf. injection Ey as <- <-.
      rewrite !Z.eqb_refl, (proj2 (Z.ltb_lt _ _) Hpos) in Hf. done.
Qed.

Lemma ref_step_inv o x y : ref_inv (ids x.1) x.2 → ref_step o x y → ref_inv (ids y.1) y.2.
Proof.
  destruct x as [s R], y as [s' R']. cbn [fst snd]. intros HI H. destruct o as [dev inum|i|i|]; simpl in H.
  - destruct H as (i & [(x & Hx & Hp & Ex & ->)|(x & Hx & Hz & -> & Hn)]%iget_cases & ->).
    + apply ref_inv_up; [done|by eapply lookup_lt_Some|]. by rewrite <- (rf_count _ _ HI _ _ Hx).
    + by eapply ref_inv_new.
  - destruct H as (Hi & [= <-] & ->). rewrite ids_ref_up. apply ref_inv_up; [done|by apply HI|by apply refs_to_pos].
  - destruct H as [->%iput_ids HR]. by eapply ref_inv_down.
  - destruct H as [-> ->]. done.
Qed.

(** A cache with no references. *)
Definition icache_boot (s : fss) : Prop := ∀ p, p ∈ icache s → i_ref p = 0.

(** C21: The inode cache.  Under any sequence of [iget], [idup] and [iput] of
    references that are held, and of other operations, from an empty cache:
    the count of each entry is the number of references held to it, two
    entries in use never hold the same inode, and [iget] of an inode that is
    referenced gives the entry already in use. *)
Theorem icache_consistent s0 s R : icache_boot s0 → ref_steps (s0, []) (s, R) →
  (∀ i, (i < length (icache s))%nat → i_ref (ino s i) = refs_to i R) ∧
  (∀ i j, i ∈ R → j ∈ R → i_dev (ino s i) = i_dev (ino s j) → i_inum (ino s i) = i_inum (ino s j) → i = j) ∧
  (∀ i, i ∈ R → ∃ s', iget (i_dev (ino s i)) (i_inum (ino s i)) s = Ok (i, s')).
Proof.
  intros H0 Hs. assert (ref_inv (ids s) R) as [I1 I2 I3].
  { revert Hs. apply (rtc_ind_r (λ y, ref_inv (ids y.1) y.2) (s0, [])).
    - split; [|by intros i ?%not_elem_of_nil|]; intros i.
      + intros x Hx. simpl in Hx. rewrite lookup_ids in Hx. apply fmap_Some in Hx as (p & Hp & ->). simpl.
        apply H0. by eapply list_elem_of_lookup_2.
      + intros j x y Hx _ Hp. simpl in Hx. rewrite lookup_ids in Hx. apply fmap_Some in Hx as (p & Hp' & ->). simpl in Hp.
        rewrite H0 in Hp by (by eapply list_elem_of_lookup_2). lia.
    - intros x y _ [o Ho] HI. by eapply ref_step_inv. }
  assert (∀ i, (i < length (icache s))%nat → ids s !! i = Some (i_dev (ino s i), i_inum (ino s i), i_ref (ino s i))) as Hl.
  { intros i Hi. rewrite lookup_ids, (list_lookup_lookup_total_lt _ _ Hi). done. }
  assert (∀ i, i ∈ R → (i < length (icache s))%nat ∧ 0 < i_ref (ino s i)) as HR.
  { intros i Hi. pose proof (I2 i Hi) as Hlt. unfold ids in Hlt. rewrite length_fmap in Hlt. split; [done|].
    pose proof (I1 _ _ (Hl i Hlt)) as E. simpl in E. rewrite E. by apply refs_to_pos. }
  assert (∀ i j, i ∈ R → (j < length (icache s))%nat → 0 < i_ref (ino s j) → i_dev (ino s i) = i_dev (ino s j) →
    i_inum (ino s i) = i_inum (ino s j) → i = j) as Hu.
  { intros i j Hi Hj Hp E1 E2. destruct (HR i Hi) as [Hlt Hp']. eapply I3; [by apply Hl|by apply Hl|done|done|]. simpl. congruence. }
  split; [|split].
  - intros i Hi. exact (I1 _ _ (Hl i Hi)).
  - intros i j Hi Hj. destruct (HR j Hj). by apply Hu.
  - intros i Hi. destruct (HR i Hi) as [Hlt Hp]. unfold iget. destruct (find_index _ (icache s)) as [k|] eqn:E.
    + apply find_index_Some in E as [(p & Hp' & Hm) _].
      apply andb_true_iff in Hm as [[H1%Z.ltb_lt H2%Z.eqb_eq]%andb_true_iff H3%Z.eqb_eq].
      pose proof (lookup_lt_Some _ _ _ Hp'). assert (ino s k = p) as Ek by by apply list_lookup_total_correct. subst p.
      rewrite (Hu i k) by (done || congruence). by eexists.
    + rewrite find_index_None in E. specialize (E (ino s i)). simpl in E.
      rewrite !Z.eqb_refl, (proj2 (Z.ltb_lt _ _) Hp) in E. discriminate E.
      eapply list_elem_of_lookup_2. by apply list_lookup_lookup_total_lt.
Qed.
