(* ===== verification/FsDemo.v ===== *)
(** * A small file system image

    The theorems of [FsBlock.v], [FsFile.v], [FsDir.v] and [FsInode.v] at a
    concrete state: a disk of 200 blocks, an empty root directory and an
    empty file in the inode cache, inside a transaction. *)

From S2P Require Import Prelude CString Block Log Fs FsBlock FsFile FsDir FsInode.

Definition img_sb : superblock := SB 200 165 8 30 2 32 34.
(** Blocks 0 to 34 are in use. *)
Definition img_bitmap : block := replicate 4 255 ++ [7] ++ replicate 507 0.
Definition img (b : Z) : block := if b =? 34 then img_bitmap else replicate 512 0.

Definition img_root : inode := Inode 1 1 1 true true T_DIR 0 0 1 0 (replicate 13 0) 7.
Definition img_file : inode := Inode 1 2 1 true true T_FILE 0 0 1 0 (replicate 13 0) 7.
Definition img_state : fss :=
  FS (LSt (blk_boot img 200) 2 30 1 false 0 (replicate 30 0)) img_sb
    (img_root :: img_file :: replicate 48 zero_inode).

Definition no_devs : Z → devsw := λ _, Devsw None None.

Lemma img_length b : length (img b) = 512%nat.
Proof. unfold img. by destruct (b =? 34). Qed.

Lemma img_inv k : 0 ≤ k ≤ 29 → fs_inv k img_state.
Proof.
  intros Hk. split.
  - split; simpl; unfold LOGSIZE, MAXOPBLOCKS; try lia.
    split; simpl; [apply NoDup_nil_2|by intros b ?%not_elem_of_nil|done].
  - split; vm_compute; intuition congruence.
  - intros b. apply img_length.
  - intros b Hb. assert (Forall (λ b, used img_state b = true) (seqZ 0 35)) as Hf.
    { rewrite <- (bool_decide_spec (Forall _ _)). vm_compute. done. }
    rewrite Forall_forall in Hf. apply Hf, elem_of_seqZ. exact Hb.
  - by intros b ?%not_elem_of_nil.
Qed.

Lemma img_nfree : nfree img_state = 165.
Proof. vm_compute. done. Qed.

Lemma img_fblock i bn : (i < 2)%nat → (bn < NBLK)%nat → fblock img_state i bn = 0.
Proof.
  intros Hi Hbn. unfold fblock, blk_of, addrs.
  assert (i_addrs (ino img_state i) = replicate 13 0) as -> by (by destruct i as [|[|]]; [..|lia]).
   destruct (Nat.ltb_spec bn 12); [|done]. by rewrite lookup_total_replicate_2 by lia.
Qed.

Lemma img_map i : (i < 2)%nat → map_ok img_state i.
Proof.
  intros Hi. split.
  - simpl. lia.
  - by destruct i as [|[|]]; [..|lia].
  - by destruct i as [|[|]]; [..|lia].
  - intros bn Hbn H0. by rewrite img_fblock in H0.
  - intros bn bn' Hbn Hbn' H0. by rewrite img_fblock in H0.
Qed.

Lemma img_file_ok i : (i < 2)%nat → file_ok img_state i.
Proof.
  intros Hi. split; [by apply img_map|..].
  - by destruct i as [|[|]]; [..|lia].
  - destruct i as [|[|]]; [..|lia]; simpl; lia.
  - destruct i as [|[|]]; [..|lia]; vm_compute; split; congruence.
  - intros o Ho. destruct i as [|[|]]; [..|lia]; simpl in Ho; lia.
Qed.

Lemma balloc_bfree_witness : ∃ b s1 s2, balloc img_state = Ok (b, s1) ∧ bfree b s1 = Ok (tt, s2) ∧
  bfree b s2 = Panic "freeing free block".
Proof.
  destruct (balloc_bfree 2 img_state) as [_ H]; [apply img_inv; lia|lia|].
  destruct H as (b & s1 & s2 & E1 & E2 & _ & _ & _ & _ & E3); [rewrite img_nfree; lia|].
  exists b, s1, s2. auto.
Defined.

Lemma writei_readi_witness : ∃ s', writei no_devs 1 [104; 105] 0 2 img_state = Ok (2, s') ∧
  readi no_devs 1 0 2 s' = Ok ((2, [104; 105]), s').
Proof.
  pose proof (writei_readi no_devs 3 img_state 1 [104; 105] 0 2) as H.
  destruct H as (s' & E & _ & _ & _ & Er & _).
  - apply img_inv. vm_compute. split; congruence.
  - lia.
  - rewrite img_nfree. vm_compute. congruence.
  - done.
  - apply img_file_ok. lia.
  - lia.
  - lia.
  - simpl. lia.
  - exists s'. split; [exact E|exact Er].
Defined.

(** The name [hi]. *)
Definition img_name : list Z := [104; 105] ++ replicate 12 0.

Lemma img_dir : dir_ok img_state 0.
Proof. split; [apply img_file_ok; lia|done|done]. Qed.

Lemma dirlink_dirlookup_witness : ∃ s' ip s'', dirlink no_devs 0 img_name 2 img_state = Ok (0, s') ∧
  dirlookup no_devs 0 img_name s' = Ok (Some (ip, 0), s'').
Proof.
  destruct (dirlink_dirlookup no_devs 3 img_state 0 img_name 2) as (s' & E & _ & _ & El & _).
  - apply img_inv. lia.
  - lia.
  - rewrite img_nfree. lia.
  - done.
  - apply img_dir.
  - done.
  - lia.
  - vm_compute. done.
  - vm_compute. congruence.
  - assert (∃ s1, dirlink no_devs 0 img_name 2 img_state = Ok (0, s1) ∧
      ∃ ip s2, iget (i_dev (ino s1 0)) 2 s1 = Ok (ip, s2)) as (s1 & E1 & ip & s2 & E2).
    { eexists. split; [vm_compute; reflexivity|]. do 2 eexists. vm_compute. reflexivity. }
    rewrite E in E1. injection E1 as ->. exists s1, ip, s2. split; [exact E|].
    rewrite El. rewrite (bind_ok _ _ _ _ _ E2). reflexivity.
Defined.

Lemma skipelem_splits_witness : skip_all 7 [47; 97; 47; 47; 98; 99] (replicate 14 0) = [[97]; [98; 99]].
Proof.
  rewrite (skipelem_splits [47; 97; 47; 47; 98; 99] (replicate 14 0) 7).
  - vm_compute. reflexivity.
  - intros x Hx. repeat (apply elem_of_cons in Hx as [->|Hx]; [lia|]). by apply not_elem_of_nil in Hx.
  - reflexivity.
  - simpl. lia.
Defined.

Lemma iupdate_ilock_witness : ∃ s1, iupdate 1 img_state = Ok (tt, s1) ∧
  ∃ t2, ilock 0 (FS (flog s1) (sb s1) [Inode 1 2 1 false false 0 0 0 0 0 (replicate 13 0) 0]) = Ok (tt, t2) ∧
    i_type (ino t2 0) = T_FILE.
Proof.
  destruct (iupdate_ilock 3 img_state 1) as (s1 & E & Hl & _).
  - apply img_inv. lia.
  - lia.
  - done.
  - simpl. lia.
  - split; [cbn; unfold T_FILE; lia..|reflexivity| |cbn; lia].
    intros x Hx. apply (elem_of_replicate 13 0 x) in Hx as [-> _]. lia.
  - done.
  - exists s1. split; [exact E|].
    destruct (Hl [Inode 1 2 1 false false 0 0 0 0 0 (replicate 13 0) 0] 0%nat) as (t2 & E2 & Ed);
      [apply Nat.lt_0_1|reflexivity|apply Z.le_refl|reflexivity|reflexivity|].
    exists t2. split; [exact E2|]. unfold disk_part in Ed. injection Ed as Et _. exact Et.
Defined.

Lemma icache_consistent_witness : ∃ s R, R = [0%nat; 0%nat] ∧ i_ref (ino s 0) = 2.
Proof.
  pose (s0 := FS (flog img_state) img_sb (replicate 3 zero_inode)).
  pose (s1 := upd_ino 0 (λ p, Inode 1 5 1 (i_lock p) false (i_type p) (i_major p) (i_minor p)
    (i_nlink p) (i_size p) (i_addrs p) (i_mode p)) s0).
  pose (s := upd_ino 0 (λ p, set_ref (i_ref p + 1) p) s1).
  assert (ref_steps (s0, []) (s, [0%nat; 0%nat])) as Hs.
  { apply (rtc_l _ _ (s1, [0%nat])); [exists (RefGet 1 5), 0%nat; split; reflexivity|].
    apply rtc_once. exists (RefDup 0). split; [by left|]. split; reflexivity. }
  destruct (icache_consistent s0 s [0%nat; 0%nat]) as (Hc & _).
  - intros p Hp. by apply elem_of_replicate in Hp as [-> _].
  - exact Hs.
  - exists s, [0%nat; 0%nat]. split; [done|]. rewrite Hc by (simpl; lia). reflexivity.
Defined.
