(* ===== verification/Mkfs.v ===== *)
(** * Building the disk image

    [mkfs.c], the host program that writes the first file system: the
    superblock, the inodes of the root directory and of the files it is given,
    their contents, and the bitmap of the blocks it used.

    The image is a file of [ilen] blocks.  A [struct dinode] in memory is its
    128 bytes.  [exit(1)] and a failed [assert] are [Panic].  A file given to
    the program is its name and what [read] returns for it, call by call, or
    [None] if it cannot be opened.  [printf] is left out.

    [MkfsInv.v] has the invariant of these operations, [MkfsBoot.v] what a
    kernel finds on the image. *)

From S2P Require Import Prelude CString Block Log Fs.

Definition FSSIZE : Z := 1000.
Definition NINODES : Z := 200.

Definition nbitmap : Z := FSSIZE / (BSIZE * 8) + 1.
Definition ninodeblocks : Z := NINODES / IPB + 1.
Definition nlog : Z := LOGSIZE.
Definition nmeta : Z := 2 + nlog + ninodeblocks + nbitmap.
Definition nblocks : Z := FSSIZE - nmeta.

(** Byte by byte into an integer of the host, which is little-endian. *)
Definition xshort (x : Z) : Z := u8 x + 2 ^ 8 * u8 (Z.shiftr x 8).
Definition xint (x : Z) : Z :=
  u8 x + 2 ^ 8 * u8 (Z.shiftr x 8) + 2 ^ 16 * u8 (Z.shiftr x 16) + 2 ^ 24 * u8 (Z.shiftr x 24).

(** The global [sb] as [main] fills it in. *)
Definition msb : superblock :=
  SB (xint FSSIZE) (xint nblocks) (xint NINODES) (xint nlog) (xint 2) (xint (2 + nlog))
    (xint (2 + nlog + ninodeblocks)).

Definition zeroes : block := replicate (Z.to_nat BSIZE) 0.

(** The image, its length in blocks, and the counters [freeinode] and
    [freeblock]. *)
Record mkst := Mk {
  img : Z → block;
  ilen : Z;
  freeinode : Z;
  freeblock : Z
}.

(** The start: an empty image. *)
Definition mk0 : mkst := Mk (λ _, zeroes) 0 1 nmeta.

Definition set_img (d : Z → block) (n : Z) (s : mkst) : mkst := Mk d n (freeinode s) (freeblock s).

Definition assert (b : bool) : M mkst unit := if b then mret tt else panic "assert".

(** ** Sectors *)

(** The sector at byte [sec * BSIZE], an [uint]. *)
Definition sector (sec : Z) : Z := u32 (sec * BSIZE) / BSIZE.

Definition wsect (sec : Z) (buf : block) : M mkst unit :=
  modify (λ s, set_img (fset (img s) (sector sec) buf) (Z.max (ilen s) (sector sec + 1)) s).

(** Past the end [read] returns less than [BSIZE]. *)
Definition rsect (sec : Z) : M mkst block :=
  n ← gets ilen;
  if n <=? sector sec then panic "read" else gets (λ s, img s (sector sec)).

(** ** Inodes *)

Definition winode (inum : Z) (ip : list Z) : M mkst unit :=
  let bn := IBLOCK inum msb in
  buf ← rsect bn;
  wsect bn (list_inserts (dino inum) ip buf).

Definition rinode (inum : Z) : M mkst (list Z) :=
  let bn := IBLOCK inum msb in
  buf ← rsect bn;
  mret (take 128 (drop (dino inum) buf)).

(** The members of a [struct dinode]. *)
Definition set_d_type (x : Z) (din : list Z) : list Z := put16 din 0 x.
Definition set_d_nlink (x : Z) (din : list Z) : list Z := put16 din 6 x.
Definition d_size (din : list Z) : Z := get32 din 8.
Definition set_d_size (x : Z) (din : list Z) : list Z := put32 din 8 x.
Definition d_addr (din : list Z) (k : nat) : Z := get32 din (12 + 4 * k).
Definition set_d_addr (k : nat) (x : Z) (din : list Z) : list Z := put32 din (12 + 4 * k) x.
Definition set_d_mode (x : Z) (din : list Z) : list Z := put32 din 64 x.

(** [uint inum = freeinode++] *)
Definition next_inode : M mkst Z :=
  n ← gets freeinode; modify (λ s, Mk (img s) (ilen s) (u32 (freeinode s + 1)) (freeblock s));; mret n.
(** [freeblock++] *)
Definition next_block : M mkst Z :=
  n ← gets freeblock; modify (λ s, Mk (img s) (ilen s) (freeinode s) (u32 (freeblock s + 1)));; mret n.

Definition ialloc (type : Z) : M mkst Z :=
  inum ← next_inode;
  let din := replicate 128 0 in
  let din := set_d_type (xshort type) din in
  let din := set_d_nlink (xshort 1) din in
  let din := set_d_size (xint 0) din in
  let din := set_d_mode (xint 7) din in
  winode inum din;;
  mret inum.

Definition balloc (used : Z) : M mkst unit :=
  assert (used <? BSIZE * 8);;
  let buf := foldl set_bit zeroes (seq 0 (Z.to_nat used)) in
  wsect (sb_bmapstart msb) buf.

(** ** Contents *)

(** The block for block number [fbn] of the file, allocated where it is
    missing, and the inode. *)
Definition iappend_block (fbn : nat) (din : list Z) : M mkst (Z * list Z) :=
  if Z.of_nat fbn <? NDIRECT then
    din ← (if xint (d_addr din fbn) =? 0 then b ← next_block; mret (set_d_addr fbn (xint b) din) else mret din);
    mret (xint (d_addr din fbn), din)
  else
    din ← (if xint (d_addr din 12) =? 0 then b ← next_block; mret (set_d_addr 12 (xint b) din) else mret din);
    indirect ← rsect (xint (d_addr din 12));
    let j := (fbn - 12)%nat in
    indirect ← (if get32 indirect (4 * j) =? 0 then
        b ← next_block;
        let indirect := put32 indirect (4 * j) (xint b) in
        wsect (xint (d_addr din 12)) indirect;; mret indirect
      else mret indirect);
    mret (xint (get32 indirect (4 * j)), din).

(** The loop of [iappend] with [p] still to be written at [off]. *)
Fixpoint iappend_loop (fuel : nat) (din : list Z) (off : Z) (p : list Z) : M mkst (list Z * Z) :=
  match p, fuel with
  | [], _ => mret (din, off)
  | _, O => undef
  | _, S fuel' =>
      let fbn := off / BSIZE in
      assert (fbn <? MAXFILE);;
      '(x, din) ← iappend_block (Z.to_nat fbn) din;
      let n1 := Z.min (Z.of_nat (length p)) ((fbn + 1) * BSIZE - off) in
      buf ← rsect x;
      wsect x (list_inserts (Z.to_nat (off - fbn * BSIZE)) (take (Z.to_nat n1) p) buf);;
      iappend_loop fuel' din (off + n1) (drop (Z.to_nat n1) p)
  end.

Definition iappend (inum : Z) (p : list Z) : M mkst unit :=
  din ← rinode inum;
  '(din, off) ← iappend_loop (length p) din (xint (d_size din)) p;
  winode inum (set_d_size (xint off) din).

(** ** [main] *)

Definition underscore : Z := 95.
(** [++argv[i]] where the name begins with an underscore. *)
Definition strip (name : list Z) : list Z :=
  match name with
  | c :: name' => if c =? underscore then name' else name
  | [] => []
  end.

(** One round of the loop over the arguments. *)
Definition main_file (rootino : Z) (arg : list Z * option (list (list Z))) : M mkst unit :=
  let '(name, f) := arg in
  assert (negb (bool_decide (slash ∈ name)));;
  match f with
  | None => panic "open"
  | Some reads =>
      let name := strip name in
      inum ← ialloc T_FILE;
      din ← rinode inum;
      winode inum (set_d_mode (xint 7) din);;
      iappend rootino (dirent (xshort inum) name);;
      mfor reads (iappend inum)
  end.

(** [memmove(buf, &sb, sizeof(sb))] on a zeroed buffer. *)
Definition sb_block (g : superblock) : block :=
  let d := zeroes in
  let d := put32 d 0 (sb_size g) in
  let d := put32 d 4 (sb_nblocks g) in
  let d := put32 d 8 (sb_ninodes g) in
  let d := put32 d 12 (sb_logs g) in
  let d := put32 d 16 (sb_logst g) in
  let d := put32 d 20 (sb_inodestart g) in
  put32 d 24 (sb_bmapstart g).

(** The size of the root directory is rounded up to whole blocks. *)
Definition fix_root (rootino : Z) : M mkst unit :=
  din ← rinode rootino;
  let off := xint (d_size din) in
  let off := u32 ((off / BSIZE + 1) * BSIZE) in
  winode rootino (set_d_size (xint off) din).

Definition main (args : list (list Z * option (list (list Z)))) : M mkst unit :=
  mfor (seqZ 0 FSSIZE) (λ i, wsect i zeroes);;
  wsect 1 (sb_block msb);;
  rootino ← ialloc T_DIR;
  assert (rootino =? ROOTINO);;
  iappend rootino (dirent (xshort rootino) [46]);;
  iappend rootino (dirent (xshort rootino) [46; 46]);;
  mfor args (main_file rootino);;
  fix_root rootino;;
  used ← gets freeblock;
  balloc used.
