(* ===== verification/MkfsInv.v ===== *)
(** * The invariant of [mkfs]

    Every block handed out belongs to one place of one file; the files of the
    image have the contents appended to them so far.  [main] keeps this
    invariant, and ends if its files fit on the disk. *)

From S2P Require Import Prelude CString Block Log Fs FsBlock FsFile FsDir FsInode Mkfs.

(** ** Sectors and inodes *)

Lemma xint_u32 x : xint x = u32 x.
Proof. unfold xint, u8, u32. rewrite !Z.shiftr_div_pow2 by lia. Z.div_mod_to_equations. lia. Qed.
Lemma xshort_u16 x : xshort x = u16 x.
Proof. unfold xshort, u8, u16. rewrite !Z.shiftr_div_pow2 by lia. Z.div_mod_to_equations. lia. Qed.
Lemma xint_small x : 0 ≤ x < 2 ^ 32 → xint x = x.
Proof. intros. rewrite xint_u32. by apply u32_small. Qed.

Lemma msb_eq : msb = SB 1000 916 200 30 2 32 83.
Proof. reflexivity. Qed.
Lemma msb_geom : geom msb FSSIZE.
Proof. rewrite msb_eq. split; vm_compute; intuition congruence. Qed.

Lemma sector_eq b : 0 ≤ b < FSSIZE → sector b = b.
Proof. unfold sector, FSSIZE, BSIZE. intros. rewrite u32_small by lia. Z.div_mod_to_equations. lia. Qed.

(** The image with block [b] set. *)
Definition put (b : Z) (d : block) (s : mkst) : mkst := set_img (fset (img s) b d) (ilen s) s.

Lemma rsect_eq b s : ilen s = FSSIZE → 0 ≤ b < FSSIZE → rsect b s = Ok (img s b, s).
Proof.
  intros Hl Hb. unfold rsect. rewrite (bind_ok (gets _) _ _ _ _ eq_refl), sector_eq by done.
  by destruct (Z.leb_spec (ilen s) b); [lia|].
Qed.
Lemma wsect_eq b d s : ilen s = FSSIZE → 0 ≤ b < FSSIZE → wsect b d s = Ok (tt, put b d s).
Proof. intros Hl Hb. unfold wsect, modify, put. rewrite sector_eq by done. by rewrite Z.max_l by lia. Qed.

Lemma lookup_inserts_out (p : nat) (bs d : list Z) n : ¬ (p ≤ n < p + length bs)%nat →
  list_inserts p bs d !!! n = d !!! n.
Proof. apply list_lookup_total_inserts_out. Qed.
Lemma lookup_inserts_in (p : nat) (bs d : list Z) n : (p + length bs ≤ length d)%nat → (p ≤ n < p + length bs)%nat →
  list_inserts p bs d !!! n = bs !!! (n - p)%nat.
Proof. intros Hl Hn. rewrite !list_lookup_total_alt. f_equal. apply list_lookup_inserts; lia. Qed.

(** The bytes of inode [inum] on the image. *)
Definition dn (s : mkst) (inum : Z) : list Z := take 128 (drop (dino inum) (img s (IBLOCK inum msb))).

Lemma inode_place n : 0 ≤ n < NINODES → 32 ≤ IBLOCK n msb < 83 ∧ (dino n + 128 ≤ 512)%nat.
Proof.
  intros Hn. destruct (IBLOCK_eq _ _ _ msb_geom Hn) as [_ Hb]. rewrite msb_eq in *. simpl in Hb.
  split; [exact Hb|]. by apply (dino_range _ _ _ msb_geom).
Qed.

Lemma rinode_eq n s : ilen s = FSSIZE → 0 ≤ n < NINODES → rinode n s = Ok (dn s n, s).
Proof.
  intros Hl Hn. destruct (inode_place n Hn). unfold rinode. cbv zeta.
  by rewrite (bind_ok _ _ _ _ _ (rsect_eq (IBLOCK n msb) s Hl ltac:(unfold FSSIZE; lia))).
Qed.
Definition putn (n : Z) (din : list Z) (s : mkst) : mkst :=
  put (IBLOCK n msb) (list_inserts (dino n) din (img s (IBLOCK n msb))) s.
Lemma winode_eq n din s : ilen s = FSSIZE → 0 ≤ n < NINODES → winode n din s = Ok (tt, putn n din s).
Proof.
  intros Hl Hn. destruct (inode_place n Hn). unfold winode. cbv zeta.
  rewrite (bind_ok _ _ _ _ _ (rsect_eq (IBLOCK n msb) s Hl ltac:(unfold FSSIZE; lia))). apply wsect_eq; [done|unfold FSSIZE; lia].
Qed.

Lemma img_put_same b d s : img (put b d s) b = d.
Proof. apply fset_same. Qed.
Lemma img_put_other b c d s : c ≠ b → img (put b d s) c = img s c.
Proof. apply fset_other. Qed.

Lemma list_ext_total (l k : list Z) : length l = length k → (∀ i, (i < length l)%nat → l !!! i = k !!! i) → l = k.
Proof.
  intros Hl H. apply list_eq_same_length with (n := length l); [done|done|].
  intros i x y Hi Hx Hy. rewrite <- (list_lookup_total_correct _ _ _ Hx), <- (list_lookup_total_correct _ _ _ Hy). by apply H.
Qed.

Lemma dn_putn_same n din s : 0 ≤ n < NINODES → length (img s (IBLOCK n msb)) = 512%nat → length din = 128%nat →
  dn (putn n din s) n = din.
Proof.
  intros Hn Hl Hd. destruct (inode_place n Hn). unfold dn, putn. rewrite img_put_same.
  apply list_ext_total; rewrite length_take, length_drop, length_inserts, Hl, ?Hd; [lia|].
  intros i Hi. rewrite lookup_total_take_lt by lia. rewrite lookup_total_drop, lookup_inserts_in by lia. f_equal. lia.
Qed.
Lemma dn_putn_other n m din s : 0 ≤ n < NINODES → 0 ≤ m < NINODES → m ≠ n → length din = 128%nat →
  dn (putn n din s) m = dn s m.
Proof.
  intros Hn Hm Hne Hd. unfold dn, putn. destruct (decide (IBLOCK m msb = IBLOCK n msb)) as [E|E].
  - rewrite E, img_put_same. apply list_ext_total; rewrite !length_take, !length_drop, length_inserts; [done|].
    intros i Hi. rewrite !lookup_total_take_lt by lia. rewrite !lookup_total_drop. apply lookup_inserts_out.
    destruct (dino_disjoint _ _ _ _ msb_geom Hm Hn Hne) as [?|[?|?]]; [done|lia|lia].
  - by rewrite img_put_other.
Qed.
Lemma dn_ext s s' n : 0 ≤ n < NINODES → (∀ b, b < nmeta → img s' b = img s b) → dn s' n = dn s n.
Proof. intros Hn H. destruct (inode_place n Hn). unfold dn. rewrite H; [done|]. change nmeta with 84. lia. Qed.

(** ** The blocks of a file *)

(** Place 140 of a file is its indirect block; the others are its blocks. *)
Definition slot (c : Z → block) (din : list Z) (bn : nat) : Z :=
  if (bn =? 140)%nat then d_addr din 12
  else if (bn <? 12)%nat then d_addr din bn
  else if d_addr din 12 =? 0 then 0 else get32 (c (d_addr din 12)) (4 * (bn - 12)).

(** The places a file of [n] bytes needs. *)
Definition need (n : nat) (bn : nat) : bool := if (bn =? 140)%nat then (12 * 512 <? n)%nat else (512 * bn <? n)%nat.

(** The file with inode [inum], [din]: the places in [P] have blocks below
    [hi], owned by this place of this file; the blocks hold [data], then zeros. *)
Record fok (c : Z → block) (hi : Z) (own : Z → Z * nat) (inum : Z) (din : list Z) (P : nat → bool) (data : list Z) : Prop := {
  f_len : length din = 128%nat;
  f_slot bn : (bn ≤ 140)%nat →
    if P bn then nmeta ≤ slot c din bn < hi ∧ own (slot c din bn) = (inum, bn) else slot c din bn = 0;
  f_data o : (o < length data)%nat → (o / 512 < 140)%nat ∧ P (o / 512)%nat = true;
  f_byte o : (o / 512 < 140)%nat → P (o / 512)%nat = true →
    c (slot c din (o / 512)) !!! (o mod 512)%nat = nth o data 0
}.

Lemma fok_P c hi own inum din P Q data : (∀ bn, (bn ≤ 140)%nat → Q bn = P bn) →
  fok c hi own inum din P data → fok c hi own inum din Q data.
Proof.
  intros E [H1 H2 H3 H4]. split; [done|..].
  - intros bn Hbn. rewrite E by done. by apply H2.
  - intros o Ho. destruct (H3 o Ho). split; [done|]. by rewrite E by lia.
  - intros o Ho Hq. apply H4; [done|]. by rewrite <- E by lia.
Qed.

Lemma slot_din c din din' : (∀ q, (q ≤ 12)%nat → d_addr din' q = d_addr din q) → ∀ bn, slot c din' bn = slot c din bn.
Proof. intros E bn. unfold slot. rewrite !E by lia. destruct (Nat.ltb_spec bn 12); [by rewrite E by lia|done]. Qed.
Lemma fok_din c hi own inum din din' P data : length din' = 128%nat → (∀ q, (q ≤ 12)%nat → d_addr din' q = d_addr din q) →
  fok c hi own inum din P data → fok c hi own inum din' P data.
Proof.
  intros Hl E [H1 H2 H3 H4]. split; [done|..|done|]; intros q Hq; rewrite (slot_din c din) by done; [by apply H2|by apply H4].
Qed.

(** Blocks of other files do not matter. *)
Lemma fok_frame c c' hi hi' own own' inum din P data : hi ≤ hi' →
  (∀ b, nmeta ≤ b < hi → (own b).1 = inum → c' b = c b ∧ own' b = own b) →
  fok c hi own inum din P data → fok c' hi' own' inum din P data.
Proof.
  intros Hhi Hf [H1 H2 H3 H4].
  assert (∀ bn, (bn ≤ 140)%nat → P bn = true → c' (slot c din bn) = c (slot c din bn) ∧ own' (slot c din bn) = own (slot c din bn)) as Hc.
  { intros bn Hbn HP. specialize (H2 bn Hbn). rewrite HP in H2. destruct H2 as [Hr Ho]. apply Hf; [lia|by rewrite Ho]. }
  assert (∀ bn, slot c' din bn = slot c din bn) as Hs.
  { intros bn. unfold slot. destruct (bn =? 140)%nat; [done|]. destruct (bn <? 12)%nat; [done|].
    destruct (Z.eqb_spec (d_addr din 12) 0) as [|Hne]; [done|]. specialize (H2 140%nat ltac:(lia)). specialize (Hc 140%nat ltac:(lia)).
    unfold slot in H2, Hc. simpl in H2, Hc. destruct (P 140%nat); [|done]. by destruct Hc as [-> _]. }
  split; [done|..].
  - intros bn Hbn. rewrite Hs. specialize (H2 bn Hbn). specialize (Hc bn Hbn). destruct (P bn); [|done].
    destruct Hc as [_ ->]; [done|]. destruct H2. split; [lia|done].
  - done.
  - intros o Ho HP. rewrite Hs. destruct (Hc (o / 512)%nat ltac:(lia) HP) as [-> _]. by apply H4.
Qed.

(** *** Addresses in the inode *)

Lemma d_addr_set_same k v din : (k ≤ 12)%nat → length din = 128%nat → 0 ≤ v < 2 ^ 32 → d_addr (set_d_addr k v din) k = v.
Proof. intros Hk Hl Hv. unfold d_addr, set_d_addr. rewrite get_put32_same by lia. by apply u32_small. Qed.
Lemma d_addr_set_other k j v din : j ≠ k → d_addr (set_d_addr k v din) j = d_addr din j.
Proof. intros Hne. apply get_put32_other. lia. Qed.
Lemma length_set_d_addr k v din : length (set_d_addr k v din) = length din.
Proof. apply length_put32. Qed.

(** The places with [bn] added. *)
Definition plus1 (bn : nat) (P : nat → bool) : nat → bool := λ q, (q =? bn)%nat || P q.

(** A new block [hi] of zeros for place [bn]: what has to be shown is that
    the places are those before and [bn]. *)
Lemma fok_add c c' hi own inum din din' P data bn : fok c hi own inum din P data → nmeta ≤ hi → length din' = 128%nat →
  (bn ≤ 140)%nat → P bn = false → c' hi = zeroes → slot c' din' bn = hi →
  (∀ q, (q ≤ 140)%nat → q ≠ bn → slot c' din' q = slot c din q) →
  (∀ q, (q < 140)%nat → P q = true → c' (slot c din q) = c (slot c din q)) →
  fok c' (hi + 1) (fset own hi (inum, bn)) inum din' (plus1 bn P) data.
Proof.
  intros [H1 H2 H3 H4] Hhi Hl Hbn HPf Hz Hnew Hold Hc. split; [done|..].
  - intros q Hq. unfold plus1. destruct (Nat.eqb_spec q bn) as [->|Hne]; simpl.
    + rewrite Hnew, fset_same. split; [lia|done].
    + rewrite Hold by done. specialize (H2 q Hq). destruct (P q); [|done]. destruct H2. split; [lia|].
      rewrite fset_other by lia. done.
  - intros o Ho. destruct (H3 o Ho) as [? HP]. split; [done|]. unfold plus1. by rewrite HP, orb_true_r.
  - intros o Ho. unfold plus1. destruct (Nat.eqb_spec (o / 512) bn) as [<-|Hne]; cbn [orb].
    + intros _. rewrite Hnew, Hz. unfold zeroes. rewrite lookup_total_replicate_2 by (pose proof (Nat.mod_upper_bound o 512); change (Z.to_nat BSIZE) with 512%nat; lia).
      symmetry. apply nth_overflow. destruct (decide (length data ≤ o)%nat) as [|Hlt]; [done|].
      destruct (H3 o ltac:(lia)). congruence.
    + intros HP. rewrite Hold by (done || lia). rewrite Hc by done. by apply H4.
Qed.

Lemma get32_zeroes k : (k + 4 ≤ 512)%nat → get32 zeroes k = 0.
Proof.
  intros Hk. rewrite get32_unfold. unfold zeroes. change (Z.to_nat BSIZE) with 512%nat.
  by rewrite !lookup_total_replicate_2 by lia.
Qed.

Section adding.
Context (c : Z → block) (hi : Z) (own : Z → Z * nat) (inum : Z) (din : list Z) (P : nat → bool) (data : list Z).
Context (F : fok c hi own inum din P data) (Hhi : nmeta ≤ hi < 2 ^ 32) (Hz : c hi = zeroes).

(** A direct block, and the indirect block. *)
Lemma fok_direct k : (k < 12)%nat → P k = false →
  fok c (hi + 1) (fset own hi (inum, k)) inum (set_d_addr k hi din) (plus1 k P) data.
Proof.
  intros Hk HP. pose proof (f_len _ _ _ _ _ _ _ F) as Hl. change nmeta with 84 in Hhi.
  apply (fok_add c c hi own inum din); try done; try (change nmeta with 84; lia).
  - by rewrite length_set_d_addr.
  - unfold slot. destruct (Nat.eqb_spec k 140); [lia|]. destruct (Nat.ltb_spec k 12); [|lia].
    apply d_addr_set_same; (done || lia).
  - intros q Hq Hne. unfold slot. rewrite !d_addr_set_other by lia. done.
Qed.
Lemma fok_indirect : P 140%nat = false →
  fok c (hi + 1) (fset own hi (inum, 140%nat)) inum (set_d_addr 12 hi din) (plus1 140 P) data.
Proof.
  intros HP. pose proof (f_len _ _ _ _ _ _ _ F) as Hl. change nmeta with 84 in Hhi.
  pose proof (f_slot _ _ _ _ _ _ _ F 140%nat ltac:(lia)) as H0. rewrite HP in H0. unfold slot in H0. simpl in H0.
  apply (fok_add c c hi own inum din); try done; try (change nmeta with 84; lia).
  - by rewrite length_set_d_addr.
  - apply d_addr_set_same; (done || lia).
  - intros q Hq Hne. unfold slot. rewrite d_addr_set_same by (done || lia).
    destruct (Nat.eqb_spec q 140); [done|]. destruct (Nat.ltb_spec q 12); [by rewrite d_addr_set_other by lia|].
    rewrite H0. simpl. destruct (Z.eqb_spec hi 0); [done|]. rewrite Hz. apply get32_zeroes. lia.
Qed.

(** An entry of the indirect block. *)
Lemma fok_entry k : (∀ b, length (c b) = 512%nat) → (12 ≤ k < 140)%nat → P 140%nat = true → P k = false →
  let i := d_addr din 12 in
  fok (fset c i (put32 (c i) (4 * (k - 12)) hi)) (hi + 1) (fset own hi (inum, k)) inum din (plus1 k P) data.
Proof.
  intros Hc Hk HP HPk i. pose proof (f_len _ _ _ _ _ _ _ F) as Hl. change nmeta with 84 in Hhi.
  pose proof (f_slot _ _ _ _ _ _ _ F 140%nat ltac:(lia)) as H0. rewrite HP in H0.
  change (slot c din 140) with i in H0. destruct H0 as [Hi Ho]. change nmeta with 84 in Hi.
  assert (∀ q, (q ≤ 140)%nat → q ≠ 140%nat → P q = true → slot c din q ≠ i) as Hne.
  { intros q Hq Hq' HPq E. pose proof (f_slot _ _ _ _ _ _ _ F q Hq) as H. rewrite HPq, E, Ho in H. destruct H as [_ H]. congruence. }
  apply (fok_add c _ hi own inum din); try done; try (change nmeta with 84; lia).
  - by rewrite fset_other by lia.
  - unfold slot. destruct (Nat.eqb_spec k 140); [lia|]. destruct (Nat.ltb_spec k 12); [lia|].
    fold i. destruct (Z.eqb_spec i 0); [lia|]. rewrite fset_same, get_put32_same by (rewrite Hc; lia). by apply u32_small; lia.
  - intros q Hq Hqk. unfold slot. destruct (Nat.eqb_spec q 140); [done|]. destruct (Nat.ltb_spec q 12); [done|].
    fold i. destruct (i =? 0); [done|]. rewrite fset_same, get_put32_other by lia. done.
  - intros q Hq HPq. apply fset_other. apply Hne; (done || lia).
Qed.

(** Bytes appended within one block. *)
Lemma fok_write bs : (∀ b, length (c b) = 512%nat) → let off := length data in let bn := (off / 512)%nat in
  (bn < 140)%nat → P bn = true → (off mod 512 + length bs ≤ 512)%nat →
  let x := slot c din bn in
  fok (fset c x (list_inserts (off mod 512) bs (c x))) hi own inum din P (data ++ bs).
Proof.
  intros Hc off bn Hbn HPbn Hbs x. destruct F as [H1 H2 H3 H4].
  pose proof (H2 bn ltac:(lia)) as Hx. rewrite HPbn in Hx. fold x in Hx. destruct Hx as [Hx Hox].
  assert (∀ q, (q ≤ 140)%nat → P q = true → slot c din q = x → q = bn) as Hinj.
  { intros q Hq HPq E. specialize (H2 q Hq). rewrite HPq, E, Hox in H2. destruct H2 as [_ H2]. congruence. }
  assert (∀ q, (q ≤ 140)%nat → slot (fset c x (list_inserts (off mod 512) bs (c x))) din q = slot c din q) as Hs.
  { intros q Hq. unfold slot. destruct (Nat.eqb_spec q 140); [done|]. destruct (q <? 12)%nat; [done|].
    destruct (Z.eqb_spec (d_addr din 12) 0) as [|Hne]; [done|]. rewrite fset_other; [done|].
    intros E. specialize (Hinj 140%nat ltac:(lia)). unfold slot in Hinj. simpl in Hinj.
    specialize (H2 140%nat ltac:(lia)). unfold slot in H2. simpl in H2. destruct (P 140%nat); [|done].
    specialize (Hinj eq_refl E). lia. }
  assert (∀ o, o = (512 * (o / 512) + o mod 512)%nat) as Hdm by (intros o; apply Nat.div_mod_eq).
  assert (∀ o, (o mod 512 < 512)%nat) as Hub by (intros o; apply Nat.mod_upper_bound; lia).
  pose proof (Hdm off). split; [done|..].
  - intros q Hq. rewrite Hs by done. by apply H2.
  - intros o Ho. rewrite length_app in Ho. fold off in Ho. destruct (decide (o < off)%nat); [by apply H3|].
    assert (o / 512 = bn)%nat as ->; [|done]. symmetry. apply (Nat.div_unique o 512 bn (off mod 512 + (o - off))); fold bn in H; lia.
  - intros o Ho HP. rewrite Hs by lia. destruct (decide (o / 512 = bn)%nat) as [E|E].
    + rewrite E. fold x. rewrite fset_same. specialize (H4 o Ho HP). rewrite E in H4. fold x in H4.
      pose proof (Hdm o) as Hdo. rewrite E in Hdo. fold bn in H.
      destruct (decide (off mod 512 ≤ o mod 512 < off mod 512 + length bs)%nat) as [Hin|Hout].
      * rewrite lookup_inserts_in by (rewrite ?Hc; lia). rewrite app_nth2 by (fold off; lia). fold off.
        rewrite nth_lookup. replace (o - off)%nat with (o mod 512 - off mod 512)%nat by lia.
        destruct (lookup_lt_is_Some_2 bs (o mod 512 - off mod 512)) as [y Hy]; [lia|]. rewrite Hy. by apply list_lookup_total_correct.
      * rewrite lookup_inserts_out by done. rewrite H4. destruct (decide (o < off)%nat); [by rewrite app_nth1|].
        rewrite !nth_overflow; [done|rewrite length_app; fold off; lia|fold off; lia].
    + rewrite fset_other by (intros E2; apply E, Hinj; (done || lia)). rewrite H4 by done.
      destruct (decide (o < off)%nat) as [?|Hge]; [by rewrite app_nth1|].
      rewrite !nth_overflow; [done|rewrite length_app; fold off|fold off; lia].
      pose proof (Hdm o). fold bn in H. assert (bn < o / 512)%nat; [|lia].
      assert (bn ≤ o / 512)%nat; [|lia]. apply Nat.Div0.div_le_mono. lia.
Qed.
End adding.

(** ** Allocation *)

Record mk_ok (s : mkst) : Prop := {
  mk_len : ilen s = FSSIZE;
  mk_blk b : length (img s b) = 512%nat;
  mk_range : nmeta ≤ freeblock s ≤ FSSIZE;
  mk_fresh b : freeblock s ≤ b → img s b = zeroes
}.

(** A step that works on the contents of [inum]. *)
Record ext (inum : Z) (s s' : mkst) (own own' : Z → Z * nat) : Prop := {
  e_ino : freeinode s' = freeinode s;
  e_hi : freeblock s ≤ freeblock s';
  e_meta b : b < nmeta → img s' b = img s b;
  e_frame b : nmeta ≤ b < freeblock s → (own b).1 ≠ inum → img s' b = img s b ∧ own' b = own b
}.

Lemma ext_refl inum s own : ext inum s s own own.
Proof. done. Qed.
Lemma ext_trans inum s1 s2 s3 o1 o2 o3 : ext inum s1 s2 o1 o2 → ext inum s2 s3 o2 o3 → ext inum s1 s3 o1 o3.
Proof.
  intros [A1 A2 A3 A4] [B1 B2 B3 B4]. split; [congruence|lia|..].
  - intros b Hb. rewrite B3 by done. by apply A3.
  - intros b Hb Ho. destruct (A4 b Hb Ho) as [E1 E2], (B4 b) as [E3 E4]; [lia|by rewrite E2|]. split; congruence.
Qed.

Definition bump (s : mkst) : mkst := Mk (img s) (ilen s) (freeinode s) (freeblock s + 1).
Lemma next_block_eq s : mk_ok s → next_block s = Ok (freeblock s, bump s).
Proof.
  intros [_ _ Hr _]. change nmeta with 84 in Hr. unfold FSSIZE in Hr. unfold next_block.
  rewrite (bind_ok (gets _) _ _ _ _ eq_refl), (bind_ok (modify _) _ _ _ _ eq_refl). unfold bump. by rewrite u32_small by lia.
Qed.
Lemma mk_ok_bump s : mk_ok s → freeblock s < FSSIZE → mk_ok (bump s).
Proof. intros [H1 H2 H3 H4] Hlt. split; simpl; [done|done|lia|]. intros b Hb. apply H4. lia. Qed.
Lemma ext_bump inum s own v : ext inum s (bump s) own (fset own (freeblock s) v).
Proof. split; simpl; [done|lia|done|]. intros b Hb _. by rewrite fset_other by lia. Qed.

Lemma mk_ok_put b d s : mk_ok s → b < freeblock s → length d = 512%nat → mk_ok (put b d s).
Proof.
  intros [H1 H2 H3 H4] Hb Hd. split; [done|..|done|].
  - intros c. destruct (decide (c = b)) as [->|]; [by rewrite img_put_same|by rewrite img_put_other].
  - intros c Hc. simpl in Hc. rewrite img_put_other by lia. auto.
Qed.
Lemma ext_put inum b d s own : nmeta ≤ b → (own b).1 = inum → ext inum s (put b d s) own own.
Proof.
  intros Hb Ho. split; simpl; [done|lia|..].
  - intros c Hc. apply img_put_other. lia.
  - intros c Hc Hne. split; [|done]. apply img_put_other. congruence.
Qed.

(** The inode keeps everything but its addresses. *)
Definition keeps (din din' : list Z) : Prop := ∀ i, ¬ (12 ≤ i < 64)%nat → din' !!! i = din !!! i.
Lemma keeps_trans d1 d2 d3 : keeps d1 d2 → keeps d2 d3 → keeps d1 d3.
Proof. intros H1 H2 i Hi. rewrite H2 by done. by apply H1. Qed.

Lemma fok_addr c hi own inum din P data bn : fok c hi own inum din P data → (bn ≤ 140)%nat → hi ≤ FSSIZE →
  xint (slot c din bn) = slot c din bn ∧ (slot c din bn =? 0) = negb (P bn).
Proof.
  intros F Hbn Hhi. pose proof (f_slot _ _ _ _ _ _ _ F bn Hbn) as H. change nmeta with 84 in H. unfold FSSIZE in Hhi.
  destruct (P bn); simpl; [|by rewrite H]. destruct H as [H _]. rewrite xint_small by lia.
  split; [done|]. by apply Z.eqb_neq; lia.
Qed.

Lemma plus1_in bn P : P bn = true → ∀ q, (q ≤ 140)%nat → plus1 bn P q = P q.
Proof. intros HP q _. unfold plus1. by destruct (Nat.eqb_spec q bn) as [->|]. Qed.

(** The address of place [bn], in word [k] of the inode. *)
Lemma alloc_addr inum k bn s own din P data : k = (if (bn =? 140) then 12 else bn)%nat → (bn < 12 ∨ bn = 140)%nat → mk_ok s →
  fok (img s) (freeblock s) own inum din P data → (P bn = false → freeblock s < FSSIZE) →
  ∃ s1 own1 din1,
    (if xint (d_addr din k) =? 0 then b ← next_block; mret (set_d_addr k (xint b) din) else mret din) s = Ok (din1, s1) ∧
    mk_ok s1 ∧ ext inum s s1 own own1 ∧ keeps din din1 ∧ fok (img s1) (freeblock s1) own1 inum din1 (plus1 bn P) data ∧
    freeblock s1 = freeblock s + (if P bn then 0 else 1) ∧ slot (img s1) din1 bn = d_addr din1 k.
Proof.
  intros Ek Hbn Hm F Hlt.
  assert (∀ c din, slot c din bn = d_addr din k) as Es.
  { intros. unfold slot. rewrite Ek. destruct (Nat.eqb_spec bn 140); [done|]. by destruct (Nat.ltb_spec bn 12); [|lia]. }
  destruct (fok_addr _ _ _ _ _ _ _ bn F) as [E1 E2]; [lia|apply Hm|]. rewrite Es in E1, E2.
  rewrite E1, E2. destruct (P bn) eqn:HP; cbn [negb].
  { exists s, own, din. split; [done|]. split; [done|]. split; [apply ext_refl|]. split; [done|]. split; [|split; [lia|done]].
    eapply fok_P; [|done]. by apply plus1_in. }
  rewrite (bind_ok _ _ _ _ _ (next_block_eq s Hm)). pose proof (mk_range _ Hm) as Hr. pose proof Hr as Hr'.
  change nmeta with 84 in Hr'. unfold FSSIZE in Hr'. rewrite xint_small by lia.
  exists (bump s), (fset own (freeblock s) (inum, bn)), (set_d_addr k (freeblock s) din). split; [done|].
  split; [by apply mk_ok_bump; auto|]. split; [apply ext_bump|]. split.
  { intros i Hi. apply lookup_put32_other. assert (k ≤ 12)%nat by (subst k; destruct (Nat.eqb_spec bn 140); lia). lia. }
  split; [|split; [done|by rewrite Es]]. assert (img s (freeblock s) = zeroes) as Hz by (by apply Hm).
  destruct Hbn as [Hbn| ->].
  - rewrite (proj2 (Nat.eqb_neq bn 140)) in Ek by lia. subst k. apply fok_direct; (done || lia).
  - simpl in Ek. subst k. apply fok_indirect; (done || lia).
Qed.

(** The entry of place [12 + j], in the indirect block. *)
Lemma alloc_entry inum j s own din P data : (j < 128)%nat → mk_ok s →
  fok (img s) (freeblock s) own inum din P data → P 140%nat = true → (P (12 + j)%nat = false → freeblock s < FSSIZE) →
  ∃ s1 own1,
    (indirect ← rsect (xint (d_addr din 12));
     indirect ← (if get32 indirect (4 * j) =? 0 then
         b ← next_block;
         let indirect := put32 indirect (4 * j) (xint b) in
         wsect (xint (d_addr din 12)) indirect;; mret indirect
       else mret indirect);
     mret (xint (get32 indirect (4 * j)), din)) s = Ok ((slot (img s1) din (12 + j), din), s1) ∧
    mk_ok s1 ∧ ext inum s s1 own own1 ∧ fok (img s1) (freeblock s1) own1 inum din (plus1 (12 + j) P) data ∧
    freeblock s1 = freeblock s + (if P (12 + j)%nat then 0 else 1).
Proof.
  intros Hj Hm F HP Hlt. pose proof (mk_range _ Hm) as Hr. pose proof Hr as Hr'. change nmeta with 84 in Hr'. unfold FSSIZE in Hr'.
  pose proof (f_slot _ _ _ _ _ _ _ F 140%nat ltac:(lia)) as H0. rewrite HP in H0. change (slot (img s) din 140) with (d_addr din 12) in H0.
  destruct H0 as [Hi Ho]. change nmeta with 84 in Hi. set (i := d_addr din 12) in *.
  assert (∀ c, slot c din (12 + j) = get32 (c i) (4 * j)) as Es.
  { intros c. unfold slot. destruct (Nat.eqb_spec (12 + j) 140); [lia|]. destruct (Nat.ltb_spec (12 + j) 12); [lia|].
    fold i. destruct (Z.eqb_spec i 0); [lia|]. by replace (12 + j - 12)%nat with j by lia. }
  destruct (fok_addr _ _ _ _ _ _ _ (12 + j) F) as [E1 E2]; [lia|apply Hm|]. rewrite Es in E1, E2.
  rewrite xint_small by lia.
  rewrite (bind_ok _ _ _ _ _ (rsect_eq i s (mk_len _ Hm) ltac:(unfold FSSIZE; lia))), E2.
  destruct (P (12 + j)%nat) eqn:HPj; cbn [negb].
  { rewrite (bind_ok (mret _) _ _ _ _ eq_refl), E1. exists s, own. split; [by rewrite Es|]. split; [done|]. split; [apply ext_refl|].
    split; [|lia]. eapply fok_P; [|done]. by apply plus1_in. }
  specialize (Hlt eq_refl).
  assert ((b ← next_block; let d := put32 (img s i) (4 * j) (xint b) in wsect i d;; mret d) s =
    Ok (put32 (img s i) (4 * j) (freeblock s), put i (put32 (img s i) (4 * j) (freeblock s)) (bump s))) as Ew.
  { rewrite (bind_ok _ _ _ _ _ (next_block_eq s Hm)). cbv zeta. rewrite xint_small by lia.
    by rewrite (bind_ok _ _ _ _ _ (wsect_eq i _ (bump s) (mk_len _ Hm) ltac:(unfold FSSIZE; lia))). }
  rewrite (bind_ok _ _ _ _ _ Ew). rewrite get_put32_same by (rewrite (mk_blk _ Hm); lia). rewrite u32_small, xint_small by lia.
  exists (put i (put32 (img s i) (4 * j) (freeblock s)) (bump s)), (fset own (freeblock s) (inum, (12 + j)%nat)). split.
  { rewrite Es, img_put_same, get_put32_same by (rewrite (mk_blk _ Hm); lia). by rewrite u32_small by lia. }
  split; [apply mk_ok_put; [by apply mk_ok_bump|simpl; lia|rewrite length_put32; apply Hm]|]. split; [|split; [|done]].
  - eapply ext_trans; [apply (ext_bump inum s own (inum, (12 + j)%nat))|]. apply ext_put; [change nmeta with 84; lia|].
    rewrite fset_other by lia. by rewrite Ho.
  - pose proof (fok_entry (img s) (freeblock s) own inum din P data F ltac:(lia) ltac:(by apply Hm) (12 + j)
      ltac:(by apply Hm) ltac:(lia) HP HPj) as Fe. cbv zeta in Fe.
    replace (12 + j - 12)%nat with j in Fe by lia. exact Fe.
Qed.

(** Blocks of a file of [n] bytes. *)
Definition nb (n : nat) : Z := Z.of_nat ((n + 511) / 512) + (if (12 * 512 <? n)%nat then 1 else 0).

Ltac div512 n := pose proof (Nat.div_mod_eq n 512); pose proof (Nat.mod_upper_bound n 512 ltac:(lia)).

Lemma nb_S n : (n / 512 < 140)%nat → nb (S n) = nb n + (if need n (n / 512) then 0 else 1) +
  (if (n / 512 <? 12)%nat || need n 140 then 0 else 1).
Proof.
  intros Hn. unfold nb, need. change (140 =? 140)%nat with true. cbv iota. div512 n. div512 (n + 511)%nat. div512 (S n + 511)%nat.
  destruct (Nat.eqb_spec (n / 512) 140); [lia|].
  destruct (Nat.ltb_spec (12 * 512) (S n)), (Nat.ltb_spec (12 * 512) n),
    (Nat.ltb_spec (n / 512) 12), (Nat.ltb_spec (512 * (n / 512)) n); cbn [orb]; lia.
Qed.

Lemma need_S n bn : (n / 512 < 140)%nat → (bn ≤ 140)%nat →
  need (S n) bn = plus1 (n / 512) (if (n / 512 <? 12)%nat then need n else plus1 140 (need n)) bn.
Proof.
  intros Hn Hbn. unfold plus1. div512 n.
  destruct (Nat.ltb_spec (n / 512) 12), (Nat.eqb_spec bn (n / 512)), (Nat.eqb_spec bn 140); cbn [orb]; unfold need;
    try (rewrite (proj2 (Nat.eqb_neq bn 140)) by lia); try (subst bn; rewrite Nat.eqb_refl);
    repeat match goal with |- context [(?a <? ?b)%nat] => destruct (Nat.ltb_spec a b) end; try done; lia.
Qed.

(** Nothing more is needed up to the end of the block. *)
Lemma need_same n m bn : (1 ≤ m)%nat → (n mod 512 + m ≤ 512)%nat → need (n + m) bn = need (S n) bn.
Proof.
  intros Hm Hb. unfold need. div512 n. destruct (Nat.eqb_spec bn 140);
    repeat match goal with |- context [(?a <? ?b)%nat] => destruct (Nat.ltb_spec a b) end; try done; lia.
Qed.
Lemma nb_same n m : (1 ≤ m)%nat → (n mod 512 + m ≤ 512)%nat → nb (n + m) = nb (S n).
Proof.
  intros Hm Hb. unfold nb. div512 n. div512 (n + m + 511)%nat. div512 (S n + 511)%nat.
  destruct (Nat.ltb_spec (12 * 512) (n + m)), (Nat.ltb_spec (12 * 512) (S n)); lia.
Qed.
Lemma nb_mono n m : (n ≤ m)%nat → nb n ≤ nb m.
Proof.
  intros H. unfold nb. pose proof (Nat.Div0.div_le_mono (n + 511) (m + 511) 512 ltac:(lia)).
  destruct (Nat.ltb_spec (12 * 512) n), (Nat.ltb_spec (12 * 512) m); lia.
Qed.

(** ** Appending *)

(** From [s] to [s'] the bytes [bs] came to the file [inum] with contents
    [data]. *)
Record appended (inum : Z) (bs data : list Z) (s s' : mkst) (own own' : Z → Z * nat) (din din' : list Z) : Prop := {
  ap_ok : mk_ok s';
  ap_ext : ext inum s s' own own';
  ap_keeps : keeps din din';
  ap_file : fok (img s') (freeblock s') own' inum din' (need (length (data ++ bs))) (data ++ bs);
  ap_count : freeblock s' = freeblock s + (nb (length (data ++ bs)) - nb (length data))
}.

Lemma iappend_block_ok inum s own din data : let n := length data in let fbn := (n / 512)%nat in
  mk_ok s → fok (img s) (freeblock s) own inum din (need n) data → (fbn < 140)%nat → freeblock s + (nb (S n) - nb n) ≤ FSSIZE →
  ∃ s1 own1 din1, iappend_block fbn din s = Ok ((slot (img s1) din1 fbn, din1), s1) ∧ mk_ok s1 ∧
    ext inum s s1 own own1 ∧ keeps din din1 ∧ fok (img s1) (freeblock s1) own1 inum din1 (need (S n)) data ∧
    freeblock s1 = freeblock s + (nb (S n) - nb n).
Proof.
  intros n fbn Hm F Hf Hfit. pose proof (nb_S n Hf) as En. pose proof (λ bn, need_S n bn Hf) as Es. fold fbn in En, Es.
  unfold iappend_block. change NDIRECT with 12.
  destruct (Z.ltb_spec (Z.of_nat fbn) 12) as [Hd|Hd].
  - destruct (Nat.ltb_spec fbn 12); [|lia]. cbn [orb] in En.
    destruct (alloc_addr inum fbn fbn s own din (need n) data) as (s1 & own1 & din1 & E & M1 & X1 & K1 & F1 & C1 & S1); try done.
    { by destruct (Nat.eqb_spec fbn 140); [lia|]. } { by left. } { intros Ef. rewrite Ef in En. lia. }
    rewrite (bind_ok _ _ _ _ _ E). exists s1, own1, din1.
    destruct (fok_addr _ _ _ _ _ _ _ fbn F1) as [Ex _]; [lia|apply M1|]. rewrite S1 in Ex. split; [by rewrite Ex, S1|].
    split; [done|]. split; [done|]. split; [done|]. split; [|lia].
    eapply fok_P; [|exact F1]. exact Es.
  - destruct (Nat.ltb_spec fbn 12); [lia|]. cbn [orb] in En. rewrite !En in *.
    destruct (alloc_addr inum 12 140 s own din (need n) data) as (s1 & own1 & din1 & E & M1 & X1 & K1 & F1 & C1 & S1); try done.
    { by right. } { intros Ef. rewrite Ef in Hfit. destruct (need n fbn); lia. }
    rewrite (bind_ok _ _ _ _ _ E).
    assert (plus1 140 (need n) fbn = need n fbn) as Ep by (unfold plus1; by destruct (Nat.eqb_spec fbn 140); [lia|]).
    destruct (alloc_entry inum (fbn - 12) s1 own1 din1 (plus1 140 (need n)) data) as (s2 & own2 & E2 & M2 & X2 & F2 & C2); try done; try lia.
    { replace (12 + (fbn - 12))%nat with fbn by lia. rewrite Ep. intros Ef. rewrite Ef in Hfit. destruct (need n 140); lia. }
    replace (12 + (fbn - 12))%nat with fbn in * by lia. exists s2, own2, din1. cbv zeta in E2 |- *. rewrite E2.
    split; [done|]. split; [done|]. split; [by eapply ext_trans|]. split; [done|]. split; [|rewrite C2, C1, Ep; lia].
    eapply fok_P; [|exact F2]. exact Es.
Qed.

(** The bytes written in one round of the loop. *)
Lemma iappend_round inum s own din data bs : let n := length data in let x := slot (img s) din (n / 512) in
  mk_ok s → fok (img s) (freeblock s) own inum din (need (S n)) data → (n / 512 < 140)%nat →
  (1 ≤ length bs)%nat → (n mod 512 + length bs ≤ 512)%nat →
  0 ≤ x < FSSIZE ∧ let s' := put x (list_inserts (n mod 512) bs (img s x)) s in
  mk_ok s' ∧ ext inum s s' own own ∧ fok (img s') (freeblock s') own inum din (need (length (data ++ bs))) (data ++ bs).
Proof.
  intros n x Hm F Hf H1 H2. pose proof (f_slot _ _ _ _ _ _ _ F (n / 512)%nat ltac:(lia)) as Hx. fold x in Hx.
  assert (need (S n) (n / 512) = true) as Hn.
  { rewrite need_S by lia. unfold plus1. by rewrite Nat.eqb_refl. }
  rewrite Hn in Hx. destruct Hx as [Hx Ho]. pose proof (mk_range _ Hm) as Hr. change nmeta with 84 in Hr, Hx.
  split; [lia|]. cbv zeta. split; [apply mk_ok_put; [done|lia|rewrite length_inserts; apply Hm]|].
  split; [apply ext_put; [change nmeta with 84; lia|by rewrite Ho]|].
  eapply fok_P; [|apply (fok_write _ _ _ _ _ _ _ F bs); (done || apply Hm)].
  intros bn _. rewrite length_app. by apply need_same.
Qed.

(** A round of the loop, in terms of lengths. *)
Lemma iappend_loop_eq fuel din n q s : q ≠ [] → (n / 512 < 140)%nat → let m := Nat.min (length q) (512 - n mod 512) in
  iappend_loop (S fuel) din (Z.of_nat n) q s = (
    '(x, din) ← iappend_block (n / 512) din;
    buf ← rsect x;
    wsect x (list_inserts (n mod 512) (take m q) buf);;
    iappend_loop fuel din (Z.of_nat (n + m)) (drop m q)) s.
Proof.
  intros Hq Hf m. div512 n. destruct q as [|z q]; [done|]. cbn [iappend_loop].
  replace (Z.of_nat n / BSIZE) with (Z.of_nat (n / 512)) by (unfold BSIZE; apply (Nat2Z.inj_div n 512)).
  cbv zeta. rewrite Nat2Z.id. destruct (Z.ltb_spec (Z.of_nat (n / 512)) MAXFILE) as [_|Hno];
    [|change MAXFILE with 140 in Hno; lia]. rewrite (bind_ok (assert true) _ s tt s eq_refl).
  replace (Z.min _ _) with (Z.of_nat m) by (unfold BSIZE, m; lia).
  replace (Z.to_nat (Z.of_nat n - Z.of_nat (n / 512) * BSIZE)) with (n mod 512)%nat by (unfold BSIZE; lia).
  by rewrite Nat2Z.id, Nat2Z.inj_add.
Qed.

Lemma iappend_loop_ok inum fuel s own din data p : mk_ok s →
  fok (img s) (freeblock s) own inum din (need (length data)) data → (length p ≤ fuel)%nat →
  (length (data ++ p) ≤ 140 * 512)%nat → freeblock s + (nb (length (data ++ p)) - nb (length data)) ≤ FSSIZE →
  ∃ s1 own1 din1, iappend_loop fuel din (Z.of_nat (length data)) p s = Ok ((din1, Z.of_nat (length (data ++ p))), s1) ∧
    appended inum p data s s1 own own1 din din1.
Proof.
  revert s own din data p. induction fuel as [|fuel IH]; intros s own din data p Hm F Hp Hmax Hfit;
    (destruct p as [|z p];
     [rewrite app_nil_r; exists s, own, din; split; [done|]; split; rewrite ?app_nil_r; try done; lia|]); [simpl in Hp; lia|].
  remember (z :: p) as q eqn:Eq. assert (1 ≤ length q)%nat as Hq by (subst q; simpl; lia).
  set (n := length data) in *. rewrite length_app in Hmax, Hfit. fold n in Hmax, Hfit. div512 n.
  assert (n / 512 < 140)%nat as Hf by lia. assert (nb (S n) ≤ nb (n + length q)) as Hmono by (apply nb_mono; lia).
  rewrite iappend_loop_eq by (subst q; done). set (m := Nat.min (length q) (512 - n mod 512)).
  destruct (iappend_block_ok inum s own din data) as (s1 & o1 & din1 & E1 & M1 & X1 & K1 & F1 & C1); try done; [fold n; lia|].
  fold n in E1, F1, C1. rewrite (bind_ok _ _ _ _ _ E1). cbv beta iota.
  destruct (iappend_round inum s1 o1 din1 data (take m q)) as (Hx & M2 & X2 & F2); try done;
    [rewrite length_take; lia|rewrite length_take; fold n; lia|]. fold n in Hx, M2, X2, F2.
  rewrite (bind_ok _ _ _ _ _ (rsect_eq _ _ (mk_len _ M1) Hx)), (bind_ok _ _ _ _ _ (wsect_eq _ _ _ (mk_len _ M1) Hx)).
  set (s2 := put _ _ s1) in *.
  assert ((data ++ take m q) ++ drop m q = data ++ q) as Eapp by (by rewrite <- app_assoc, take_drop).
  assert (length (data ++ take m q) = n + m)%nat as El by (rewrite length_app, length_take; fold n; lia).
  assert (nb (length (data ++ take m q)) = nb (S n)) as Enb by (rewrite El; apply nb_same; lia).
  rewrite <- El.
  destruct (IH s2 o1 din1 (data ++ take m q) (drop m q)) as (s3 & o3 & din3 & E3 & [A1 A2 A3 A4 A5]); try done.
  { rewrite length_drop. lia. } { rewrite Eapp, length_app. fold n. lia. }
  { rewrite Eapp, Enb, length_app. fold n. change (freeblock s2) with (freeblock s1). lia. }
  rewrite Eapp in E3, A4, A5. exists s3, o3, din3. split; [done|]. split; [done|..|done|].
  - eapply ext_trans; [done|]. by eapply ext_trans.
  - by eapply keeps_trans.
  - rewrite A5, Enb. change (freeblock s2) with (freeblock s1). fold n. lia.
Qed.

(** ** The image *)

(** The members of an inode other than its addresses. *)
Record head_ok (type n : Z) (din : list Z) : Prop := {
  h_type : get16 din 0 = type;
  h_major : get16 din 2 = 0;
  h_minor : get16 din 4 = 0;
  h_nlink : get16 din 6 = 1;
  h_size : d_size din = n;
  h_mode : get32 din 64 = 7
}.

Lemma head_ext type n din din' : (∀ i, ¬ (12 ≤ i < 64)%nat → din' !!! i = din !!! i) → head_ok type n din → head_ok type n din'.
Proof.
  intros E [H1 H2 H3 H4 H5 H6]. unfold d_size in *.
  split; unfold d_size; (erewrite get16_ext || erewrite get32_ext); try done; intros i Hi; apply E; lia.
Qed.
Lemma head_size type n n' din : length din = 128%nat → 0 ≤ n' < 2 ^ 32 → head_ok type n din → head_ok type n' (set_d_size n' din).
Proof.
  intros Hl Hn [H1 H2 H3 H4 H5 H6]. unfold d_size, set_d_size in *.
  split; [etrans; [|exact H1]|etrans; [|exact H2]|etrans; [|exact H3]|etrans; [|exact H4]| |etrans; [|exact H6]];
    try (apply get16_ext; intros; apply lookup_put32_other; lia).
  - unfold d_size. rewrite get_put32_same by lia. by apply u32_small.
  - apply get_put32_other. lia.
Qed.

(** Inode 1 is the root directory, the others are files. *)
Definition inode_kind (k : nat) : Z := if (k =? 0)%nat then T_DIR else T_FILE.

(** Blocks used by files with these contents. *)
Definition total (F : list (list Z)) : Z := foldr (λ d n, nb (length d) + n) 0 F.

(** [own] says where every block is used; file [k] of [F] has inode [k + 1]. *)
Definition file_in (s : mkst) (own : Z → Z * nat) (k : nat) (d : list Z) : Prop :=
  fok (img s) (freeblock s) own (Z.of_nat k + 1) (dn s (Z.of_nat k + 1)) (need (length d)) d ∧
  head_ok (inode_kind k) (Z.of_nat (length d)) (dn s (Z.of_nat k + 1)).

Record mk_inv (s : mkst) (F : list (list Z)) : Prop := {
  mi_ok : mk_ok s;
  mi_ino : freeinode s = 1 + Z.of_nat (length F);
  mi_max : 1 + Z.of_nat (length F) ≤ NINODES;
  mi_count : freeblock s = nmeta + total F;
  mi_sb b : b < 32 → img s b = if b =? 1 then sb_block msb else zeroes;
  mi_files : ∃ own, ∀ k d, F !! k = Some d → file_in s own k d
}.

Lemma inum_range {A} k (d : A) F : F !! k = Some d → 1 + Z.of_nat (length F) ≤ NINODES → 0 ≤ Z.of_nat k + 1 < NINODES.
Proof. intros Hk%lookup_lt_Some. lia. Qed.

Lemma fok_putn s n din own inum din' P data : 0 ≤ n < NINODES →
  fok (img s) (freeblock s) own inum din' P data →
  fok (img (putn n din s)) (freeblock (putn n din s)) own inum din' P data.
Proof.
  intros Hn. apply fok_frame; [done|]. intros b Hb _. split; [|done]. apply img_put_other.
  pose proof (inode_place n Hn). change nmeta with 84 in Hb. lia.
Qed.

(** Writing the inode of file [k] when its contents are in place. *)
Lemma putn_inv s F k d din own : mk_ok s → freeinode s = 1 + Z.of_nat (length F) → 1 + Z.of_nat (length F) ≤ NINODES →
  freeblock s = nmeta + total F → (∀ b, b < 32 → img s b = if b =? 1 then sb_block msb else zeroes) → F !! k = Some d →
  fok (img s) (freeblock s) own (Z.of_nat k + 1) din (need (length d)) d → head_ok (inode_kind k) (Z.of_nat (length d)) din →
  (∀ j e, j ≠ k → F !! j = Some e → file_in s own j e) → mk_inv (putn (Z.of_nat k + 1) din s) F.
Proof.
  intros Hm Hi Hmax Hc Hsb Hk Fk Hh Hoth. pose proof (inum_range k d F Hk Hmax) as Hn. pose proof (inode_place _ Hn) as [Hp _].
  pose proof (f_len _ _ _ _ _ _ _ Fk) as Hl. split; try done.
  - apply mk_ok_put; [done| |rewrite length_inserts; apply Hm]. pose proof (mk_range _ Hm) as Hr. change nmeta with 84 in Hr. lia.
  - intros b Hb. rewrite <- Hsb by done. apply img_put_other. lia.
  - exists own. intros j e Hj. destruct (decide (j = k)) as [->|Hne].
    + simplify_eq. unfold file_in. rewrite dn_putn_same by (done || apply Hm). split; [by apply fok_putn|done].
    + pose proof (inum_range j e F Hj Hmax). destruct (Hoth j e Hne Hj). unfold file_in. rewrite dn_putn_other by (done || lia).
      split; [by apply fok_putn|done].
Qed.

Lemma total_insert F k d d' : F !! k = Some d → total (<[k := d']> F) = total F + (nb (length d') - nb (length d)).
Proof.
  revert k. induction F as [|e F IH]; intros [|k] Hk; simpl in *; try done; [injection Hk as ->; lia|].
  rewrite IH by done. lia.
Qed.
Lemma total_app F G : total (F ++ G) = total F + total G.
Proof. induction F as [|e F IH]; simpl; [done|]. rewrite IH. lia. Qed.

(** What the disk has room for. *)
Definition fits (F : list (list Z)) : Prop :=
  1 + Z.of_nat (length F) ≤ NINODES ∧ nmeta + total F ≤ FSSIZE ∧ ∀ d, d ∈ F → (length d ≤ 140 * 512)%nat.

Lemma fits_len F k d : fits F → F !! k = Some d → (length d ≤ 140 * 512)%nat.
Proof. intros (_ & _ & H) Hk. apply H. by eapply list_elem_of_lookup_2. Qed.

(** [iappend] adds the bytes to the end of the file and touches no other. *)
Lemma iappend_inv s F k d p : mk_inv s F → F !! k = Some d → fits (<[k := d ++ p]> F) →
  ∃ s', iappend (Z.of_nat k + 1) p s = Ok (tt, s') ∧ mk_inv s' (<[k := d ++ p]> F).
Proof.
  intros [Hm Hi Hmax Hc Hsb [own Hf]] Hk Hfit. pose proof (inum_range k d F Hk Hmax) as Hn.
  pose proof (fits_len _ k (d ++ p) Hfit ltac:(apply list_lookup_insert_eq; by eapply lookup_lt_Some)) as Hlen.
  destruct Hfit as (_ & Ht & _). rewrite (total_insert _ _ d) in Ht by done. destruct (Hf k d Hk) as [Fk Hh].
  unfold iappend. rewrite (bind_ok _ _ _ _ _ (rinode_eq _ s (mk_len _ Hm) Hn)). rewrite (h_size _ _ _ Hh).
  rewrite length_app in Hlen. rewrite xint_small by lia.
  destruct (iappend_loop_ok (Z.of_nat k + 1) (length p) s own _ d p Hm Fk) as (s1 & own1 & din1 & E1 & [A1 A2 A3 A4 A5]);
    [lia|rewrite length_app; lia|lia|].
  rewrite (bind_ok _ _ _ _ _ E1). cbv beta iota.
  assert (0 ≤ Z.of_nat (length (d ++ p)) < 2 ^ 32) as Hsz by (rewrite length_app; lia). rewrite xint_small by done.
  rewrite winode_eq by (apply A1 || done). eexists. split; [done|].
  assert (length (set_d_size (Z.of_nat (length (d ++ p))) din1) = 128%nat) as Hl'
    by (unfold set_d_size; rewrite length_put32; by destruct A4).
  apply (putn_inv _ _ k (d ++ p) _ own1); rewrite ?length_insert; try done.
  - by rewrite (e_ino _ _ _ _ _ A2).
  - rewrite A5, (total_insert _ _ d) by done. lia.
  - intros b Hb. rewrite (e_meta _ _ _ _ _ A2); [auto|]. change nmeta with 84. lia.
  - apply list_lookup_insert_eq. by eapply lookup_lt_Some.
  - eapply fok_din; [done| |exact A4]. intros q _. apply get_put32_other. lia.
  - apply (head_size _ (Z.of_nat (length d))); [by destruct A4|done|]. by eapply head_ext.
  - intros j e Hne Hj. rewrite list_lookup_insert_ne in Hj by done. destruct (Hf j e Hj) as [Fj Hj2].
    pose proof (inum_range j e F Hj Hmax). unfold file_in. rewrite (dn_ext s s1) by (done || apply A2). split; [|done].
    eapply fok_frame; [apply A2| |exact Fj]. intros b Hb Ho. apply A2; [done|]. rewrite Ho. lia.
Qed.

Lemma next_inode_eq s : 0 ≤ freeinode s < NINODES →
  next_inode s = Ok (freeinode s, Mk (img s) (ilen s) (freeinode s + 1) (freeblock s)).
Proof.
  unfold NINODES. intros H. unfold next_inode. rewrite (bind_ok (gets _) _ _ _ _ eq_refl), (bind_ok (modify _) _ _ _ _ eq_refl).
  by rewrite u32_small by lia.
Qed.

(** The inode [ialloc] writes. *)
Definition new_dinode (type : Z) : list Z :=
  set_d_mode (xint 7) (set_d_size (xint 0) (set_d_nlink (xshort 1) (set_d_type (xshort type) (replicate 128 0)))).
Lemma new_dinode_ok k c hi own inum : head_ok (inode_kind k) 0 (new_dinode (inode_kind k)) ∧
  fok c hi own inum (new_dinode (inode_kind k)) (need 0) [].
Proof.
  split; [unfold inode_kind; by destruct (_ =? _)%nat|].
  apply (fok_din _ _ _ _ (replicate 128 0)).
  - unfold new_dinode, set_d_mode, set_d_size, set_d_nlink, set_d_type. by rewrite !length_put32, !length_put16.
  - intros q Hq. unfold new_dinode, set_d_mode, set_d_size, set_d_nlink, set_d_type, d_addr.
    rewrite !get_put32_other by lia. apply get32_ext. intros. by rewrite !lookup_put16_other by lia.
  - assert (∀ q, (q ≤ 12)%nat → d_addr (replicate 128 0) q = 0) as Ha.
    { intros q Hq. unfold d_addr. rewrite get32_unfold. by rewrite !lookup_total_replicate_2 by lia. }
    assert (∀ bn, need 0 bn = false) as Hn.
    { intros bn. unfold need. destruct (Nat.eqb_spec bn 140); apply Nat.ltb_ge; lia. }
    split; [by rewrite length_replicate|..].
    + intros bn Hbn. rewrite Hn. unfold slot. rewrite Ha by lia. destruct (Nat.ltb_spec bn 12); [rewrite Ha by lia|]; by destruct (bn =? 140)%nat.
    + intros o Ho. simpl in Ho. lia.
    + intros o _. by rewrite Hn.
Qed.

(** [ialloc] adds an empty file. *)
Lemma ialloc_inv s F : mk_inv s F → fits (F ++ [[]]) →
  ∃ s', ialloc (inode_kind (length F)) s = Ok (Z.of_nat (length F) + 1, s') ∧ mk_inv s' (F ++ [[]]).
Proof.
  intros [Hm Hi Hmax Hc Hsb [own Hf]] (Hn & _). rewrite length_app in Hn. simpl in Hn.
  unfold ialloc. rewrite (bind_ok _ _ _ _ _ (next_inode_eq s ltac:(lia))). cbv zeta. fold (new_dinode (inode_kind (length F))).
  set (s1 := Mk _ _ _ _). assert (mk_ok s1) as Hm1 by (by destruct Hm). rewrite Hi.
  rewrite (bind_ok _ _ _ _ _ (winode_eq (1 + Z.of_nat (length F)) _ s1 (mk_len _ Hm1) ltac:(lia))). eexists. split; [by rewrite Z.add_comm|].
  destruct (new_dinode_ok (length F) (img s1) (freeblock s1) own (Z.of_nat (length F) + 1)).
  eapply (putn_inv s1 _ _ [] _ own); rewrite ?length_app; simpl; try done.
  - lia.
  - rewrite total_app. simpl. unfold nb. simpl. lia.
  - by rewrite lookup_app_r, Nat.sub_diag by lia.
  - intros j e Hne Hj. apply lookup_app_Some in Hj as [Hj|[Hj Hj']]; [by apply Hf|].
    destruct (j - length F)%nat as [|[]] eqn:E; simpl in Hj'; try done. lia.
Qed.

Lemma mode_inv s F k d : mk_inv s F → F !! k = Some d → ∃ s',
  (din ← rinode (Z.of_nat k + 1); winode (Z.of_nat k + 1) (set_d_mode (xint 7) din)) s = Ok (tt, s') ∧ mk_inv s' F.
Proof.
  intros [Hm Hi Hmax Hc Hsb [own Hf]] Hk. pose proof (inum_range k d F Hk Hmax) as Hn. destruct (Hf k d Hk) as [Fk Hh].
  pose proof (f_len _ _ _ _ _ _ _ Fk) as Hl.
  rewrite (bind_ok _ _ _ _ _ (rinode_eq _ s (mk_len _ Hm) Hn)), winode_eq by (done || apply Hm). eexists. split; [done|].
  eapply (putn_inv s F k d _ own); try done; [| |by auto]; unfold set_d_mode.
  - eapply fok_din; [by rewrite length_put32| |done]. intros q Hq. apply get_put32_other. lia.
  - destruct Hh as [H1 H2 H3 H4 H5 H6]. unfold d_size in H5.
    split; [etrans; [|exact H1]|etrans; [|exact H2]|etrans; [|exact H3]|etrans; [|exact H4]|etrans; [|exact H5]|];
      try (apply get16_ext; intros; apply lookup_put32_other; lia); [apply get_put32_other; lia|].
    by rewrite get_put32_same by (rewrite Hl; lia).
Qed.

(** Smaller files fit where larger ones do. *)
Definition below (F G : list (list Z)) : Prop :=
  (length F ≤ length G)%nat ∧ ∀ k d e, F !! k = Some d → G !! k = Some e → (length d ≤ length e)%nat.
Lemma nb_nonneg n : 0 ≤ nb n.
Proof. unfold nb. destruct (_ <? _)%nat; lia. Qed.
Lemma total_nonneg F : 0 ≤ total F.
Proof. induction F as [|d F IH]; simpl; [done|]. pose proof (nb_nonneg (length d)). lia. Qed.
Lemma total_below F G : below F G → total F ≤ total G.
Proof.
  revert G. induction F as [|d F IH]; intros [|e G] [Hl Hb]; simpl in *; try lia.
  - pose proof (nb_nonneg (length e)). pose proof (total_nonneg G). lia.
  - pose proof (nb_mono _ _ (Hb 0%nat d e eq_refl eq_refl)). 
    assert (below F G) as HFG by (split; [lia|]; intros k; apply (Hb (S k))). specialize (IH G HFG). lia.
Qed.
Lemma fits_below F G : below F G → fits G → fits F.
Proof.
  intros Hb (H1 & H2 & H3). pose proof (total_below _ _ Hb). destruct Hb as [Hl Hb]. split; [lia|]. split; [lia|].
  intros d [k Hk]%list_elem_of_lookup. destruct (lookup_lt_is_Some_2 G k) as [e He].
  { apply lookup_lt_Some in Hk. lia. }
  specialize (Hb k d e Hk He). specialize (H3 e ltac:(by eapply list_elem_of_lookup_2)). lia.
Qed.

Lemma below_insert F k d e : (length d ≤ length e)%nat → below (<[k := d]> F) (<[k := e]> F).
Proof.
  intros Hl. split; [by rewrite !length_insert|]. intros j x y Hx Hy. destruct (decide (j = k)) as [->|Hne].
  - assert (k < length F)%nat by (apply lookup_lt_Some in Hx; by rewrite length_insert in Hx).
    rewrite list_lookup_insert_eq in Hx, Hy by done. by simplify_eq.
  - rewrite list_lookup_insert_ne in Hx, Hy by done. by simplify_eq.
Qed.

(** The reads of a file, one after the other. *)
Lemma reads_inv reads s F k d : mk_inv s F → F !! k = Some d → fits (<[k := d ++ concat reads]> F) →
  ∃ s', mfor reads (iappend (Z.of_nat k + 1)) s = Ok (tt, s') ∧ mk_inv s' (<[k := d ++ concat reads]> F).
Proof.
  revert s F d. induction reads as [|p reads IH]; intros s F d HI Hk Hfit; simpl in *.
  { exists s. split; [done|]. by rewrite app_nil_r, list_insert_id by done. }
  rewrite app_assoc in Hfit.
  destruct (iappend_inv s F k d p HI Hk) as (s1 & E1 & H1).
  { eapply fits_below; [|exact Hfit]. apply below_insert. rewrite (length_app (d ++ p)). lia. }
  rewrite (bind_ok _ _ _ _ _ E1). destruct (IH s1 (<[k := d ++ p]> F) (d ++ p) H1) as (s2 & E2 & H2).
  - apply list_lookup_insert_eq. by eapply lookup_lt_Some.
  - by rewrite list_insert_insert_eq.
  - exists s2. split; [done|]. by rewrite list_insert_insert_eq, <- app_assoc in H2.
Qed.

(** ** [main] *)

Abbreviation args := (list (list Z * option (list (list Z)))) (only parsing).

(** The arguments are names without slashes of files that can be opened. *)
Definition arg_ok (a : list Z * option (list (list Z))) : Prop := (slash ∉ a.1) ∧ is_Some (a.2).
(** The bytes of the file. *)
Definition content (a : list Z * option (list (list Z))) : list Z := concat (default [] a.2).
(** The entries of the root directory, from inode [n]. *)
Fixpoint root_entries (n : nat) (l : args) : list Z :=
  match l with
  | [] => []
  | a :: l' => dirent (Z.of_nat n) (strip a.1) ++ root_entries (S n) l'
  end.

Lemma below_files r r' (G : list (list Z)) x y T : (length r ≤ length r')%nat → (length x ≤ length y)%nat →
  below (r :: G ++ [x]) (r' :: G ++ y :: T).
Proof.
  intros Hr Hx. split; [simpl; rewrite !length_app; simpl; lia|].
  intros [|k] d e Hd He; simpl in *; [by simplify_eq|].
  apply lookup_app_Some in Hd as [Hd|[Hk Hd]].
  - rewrite lookup_app_l in He by (by eapply lookup_lt_Some). by simplify_eq.
  - rewrite lookup_app_r in He by done. destruct (k - length G)%nat as [|[]]; simpl in *; by simplify_eq.
Qed.

(** One file: an inode, an entry in the root directory, the contents. *)
Lemma main_file_inv a s r G T : mk_inv s (r :: G) → arg_ok a →
  let r' := r ++ dirent (Z.of_nat (length G + 2)) (strip a.1) in
  (∃ r'', (length r' ≤ length r'')%nat ∧ fits (r'' :: G ++ content a :: T)) →
  ∃ s', main_file 1 a s = Ok (tt, s') ∧ mk_inv s' (r' :: G ++ [content a]).
Proof.
  destruct a as [name f]. intros HI [Hs [reads Hr]] r' (r'' & Hle & Hfit). simpl in Hs, Hr. subst f. cbn [fst] in r'. unfold content in *. simpl in Hfit |- *.
  assert (length r' = length r + 16)%nat as Hlr by (unfold r'; rewrite length_app, length_dirent; done).
  rewrite bool_decide_eq_false_2 by done. rewrite (bind_ok (assert true) _ s tt s eq_refl).
  destruct (ialloc_inv s (r :: G) HI) as (s1 & E1 & H1).
  { eapply fits_below; [|exact Hfit]. apply below_files; simpl; lia. }
  change (inode_kind (length (r :: G))) with T_FILE in E1. rewrite (bind_ok _ _ _ _ _ E1).
  assert ((r :: G ++ [[]]) !! S (length G) = Some []) as Hk by (simpl; by rewrite lookup_app_r, Nat.sub_diag by lia).
  destruct (mode_inv s1 _ (S (length G)) [] H1 Hk) as (s2 & E2 & H2). simpl length.
  assert (∀ k : M mkst unit, (din ← rinode (Z.of_nat (S (length G)) + 1);
    winode (Z.of_nat (S (length G)) + 1) (set_d_mode (xint 7) din);; k) s1 = k s2) as ->.
  { intros k. rewrite <- (bind_ok _ (λ _, k) _ _ _ E2). unfold mbind, M_bind. by destruct (rinode _ s1) as [[]| | |]. }
  assert (xshort (Z.of_nat (S (length G)) + 1) = Z.of_nat (length G + 2)) as ->.
  { pose proof (mi_max _ _ H1) as Hmax. simpl in Hmax. rewrite length_app in Hmax. unfold NINODES in Hmax. simpl in Hmax.
    rewrite xshort_u16, u16_small by lia. lia. }
  destruct (iappend_inv s2 _ 0 r (dirent (Z.of_nat (length G + 2)) (strip name)) H2 eq_refl) as (s3 & E3 & H3); [|fold r' in E3, H3].
  { fold r'. eapply fits_below; [|exact Hfit]. simpl. apply below_files; simpl; lia. }
  simpl in E3. rewrite (bind_ok _ _ _ _ _ E3).
  destruct (reads_inv reads s3 _ (S (length G)) [] H3) as (s4 & E4 & H4).
  - exact Hk.
  - simpl. rewrite insert_app_r_alt, Nat.sub_diag by lia. simpl. eapply fits_below; [|exact Hfit]. by apply below_files.
  - exists s4. split; [done|]. simpl in H4. by rewrite insert_app_r_alt, Nat.sub_diag in H4 by lia.
Qed.

Lemma main_files_inv (l : args) s r G : mk_inv s (r :: G) → Forall arg_ok l →
  fits ((r ++ root_entries (length G + 2) l) :: G ++ (content <$> l)) →
  ∃ s', mfor l (main_file 1) s = Ok (tt, s') ∧ mk_inv s' ((r ++ root_entries (length G + 2) l) :: G ++ (content <$> l)).
Proof.
  revert s r G. induction l as [|a l IH]; intros s r G HI Hok Hfit.
  { exists s. split; [done|]. simpl. by rewrite !app_nil_r. }
  apply Forall_cons in Hok as [Ha Hok]. rewrite fmap_cons in *. cbn [mfor root_entries] in *.
  destruct (main_file_inv a s r G (content <$> l) HI Ha) as (s1 & E1 & H1).
  { eexists. split; [|exact Hfit]. rewrite !length_app. lia. }
  rewrite (bind_ok _ _ _ _ _ E1). destruct (IH s1 _ _ H1 Hok) as (s2 & E2 & H2);
    rewrite length_app in *; replace (length G + length [content a] + 2)%nat with (S (length G + 2)) in * by (simpl; lia);
    rewrite <- !app_assoc in *; [exact Hfit|]. eauto.
Qed.

(** The blank image with the superblock. *)
Lemma blank n a s : 0 ≤ a → a + Z.of_nat n ≤ FSSIZE → ilen s = a → (∀ b, img s b = zeroes) →
  ∃ s', mfor (seqZ a (Z.of_nat n)) (λ i, wsect i zeroes) s = Ok (tt, s') ∧ ilen s' = a + Z.of_nat n ∧ (∀ b, img s' b = zeroes) ∧
    freeinode s' = freeinode s ∧ freeblock s' = freeblock s.
Proof.
  revert a s. induction n as [|n IH]; intros a s Ha Hn Hl Hz; [exists s; simpl; split; [done|]; by rewrite Z.add_0_r|].
  rewrite seqZ_cons by lia. cbn [mfor].
  assert (wsect a zeroes s = Ok (tt, set_img (fset (img s) a zeroes) (Z.max (ilen s) (a + 1)) s)) as Ew
    by (unfold wsect, modify; by rewrite sector_eq by lia).
  rewrite (bind_ok _ _ _ _ _ Ew). replace (Z.pred (Z.of_nat (S n))) with (Z.of_nat n) by lia.
  destruct (IH (Z.succ a) (set_img (fset (img s) a zeroes) (Z.max (ilen s) (a + 1)) s)) as (s' & E & H1 & H2 & H3 & H4); simpl; try lia.
  - intros b. unfold fset. by destruct (b =? a).
  - exists s'. split; [exact E|]. split; [lia|]. done.
Qed.

Lemma start_inv : ∃ s, (mfor (seqZ 0 FSSIZE) (λ i, wsect i zeroes);; wsect 1 (sb_block msb)) mk0 = Ok (tt, s) ∧ mk_inv s [].
Proof.
  destruct (blank 1000 0 mk0) as (s & E & H1 & H2 & H3 & H4); try done. change (Z.of_nat 1000) with FSSIZE in E, H1.
  rewrite (bind_ok _ _ _ _ _ E), wsect_eq by done. eexists. split; [done|]. split; try done.
  - apply (mk_ok_put 1); [|rewrite H4; done|unfold sb_block; by rewrite !length_put32].
    split; [done|intros b; by rewrite H2|by rewrite H4|intros b _; apply H2].
  - intros b Hb. simpl. unfold fset. by destruct (b =? 1).
  - by exists (λ _, (0, 0%nat)).
Qed.

Lemma need_pad n bn : (n mod 512 ≠ 0)%nat → need (n + (512 - n mod 512)) bn = need n bn.
Proof.
  intros Hn. div512 n. unfold need. destruct (bn =? 140)%nat;
    repeat match goal with |- context [(?a <? ?b)%nat] => destruct (Nat.ltb_spec a b) end; try done; lia.
Qed.
Lemma nb_pad n : (n mod 512 ≠ 0)%nat → nb (n + (512 - n mod 512)) = nb n.
Proof.
  intros Hn. div512 n. unfold nb. div512 (n + (512 - n mod 512) + 511)%nat. div512 (n + 511)%nat.
  destruct (Nat.ltb_spec (12 * 512) (n + (512 - n mod 512))), (Nat.ltb_spec (12 * 512) n); lia.
Qed.

(** The directory filled up with empty entries to a whole number of blocks. *)
Definition pad (r : list Z) : list Z := r ++ replicate (512 - length r mod 512) 0.

Lemma nth_app_zeros (r : list Z) m o : nth o (r ++ replicate m 0) 0 = nth o r 0.
Proof.
  destruct (decide (o < length r)%nat); [by rewrite app_nth1|]. rewrite app_nth2 by lia.
  rewrite nth_lookup, (nth_overflow r) by lia. by destruct (replicate m 0 !! (o - length r)%nat) eqn:E; [apply lookup_replicate in E as [-> _]|].
Qed.

Lemma fix_root_inv s r G : mk_inv s (r :: G) → (length r mod 512 ≠ 0)%nat → (length r ≤ 140 * 512)%nat →
  ∃ s', fix_root 1 s = Ok (tt, s') ∧ mk_inv s' (pad r :: G).
Proof.
  intros [Hm Hi Hmax Hc Hsb [own Hf]] Hmod Hlen. destruct (Hf 0%nat r eq_refl) as [Fk Hh]. change (Z.of_nat 0 + 1) with 1 in Fk, Hh.
  pose proof (f_len _ _ _ _ _ _ _ Fk) as Hl. unfold fix_root.
  rewrite (bind_ok _ _ _ _ _ (rinode_eq 1 s (mk_len _ Hm) ltac:(done))). cbv zeta. rewrite (h_size _ _ _ Hh).
  assert (length (pad r) = length r + (512 - length r mod 512))%nat as Ep by (unfold pad; by rewrite length_app, length_replicate).
  div512 (length r). rewrite (xint_small (Z.of_nat (length r))) by lia.
  assert (u32 ((Z.of_nat (length r) / BSIZE + 1) * BSIZE) = Z.of_nat (length (pad r))) as ->.
  { unfold BSIZE. change 512 with (Z.of_nat 512) at 1. rewrite <- Nat2Z.inj_div. rewrite u32_small by lia. lia. }
  rewrite xint_small by lia. rewrite winode_eq by (done || apply Hm). eexists. split; [done|].
  apply (putn_inv s (pad r :: G) 0 (pad r) _ own); try done.
  - rewrite Hc. simpl. by rewrite Ep, nb_pad.
  - eapply fok_din; [unfold set_d_size; by rewrite length_put32| |].
    { intros q Hq. apply get_put32_other. lia. }
    apply (fok_P _ _ _ _ _ (need (length r))); [intros; rewrite Ep; by apply need_pad|].
    destruct Fk as [H1 H2 H3 H4]. split; [done|done|..].
    + intros o Ho. rewrite Ep in Ho. unfold need. div512 o. assert (o / 512 < 140)%nat by lia. split; [done|].
      destruct (Nat.eqb_spec (o / 512) 140); [lia|]. apply Nat.ltb_lt. lia.
    + intros o Ho HP. unfold pad. rewrite nth_app_zeros. by apply H4.
  - eapply head_size; [done|lia|done].
  - intros [|j] e Hne Hj; [done|]. by apply Hf.
Qed.

Lemma length_set_bits l d : length (foldl set_bit d l) = length d.
Proof. revert d. induction l as [|i l IH]; intros d; simpl; [done|]. rewrite IH. unfold set_bit. by rewrite length_insert. Qed.

(** The bitmap [balloc] writes. *)
Definition bitmap (s : mkst) : block := foldl set_bit zeroes (seq 0 (Z.to_nat (freeblock s))).

Lemma bitmap_inv s F : mk_inv s F → balloc (freeblock s) s = Ok (tt, put 83 (bitmap s) s) ∧ mk_inv (put 83 (bitmap s) s) F.
Proof.
  intros [Hm Hi Hmax Hc Hsb [own Hf]]. pose proof (mk_range _ Hm) as Hr. change nmeta with 84 in Hr. unfold FSSIZE in Hr.
  split.
  { unfold balloc. change (BSIZE * 8) with 4096. destruct (Z.ltb_spec (freeblock s) 4096); [|lia].
    rewrite (bind_ok (assert true) _ s tt s eq_refl). apply wsect_eq; [apply Hm|done]. }
  split; try done.
  - apply mk_ok_put; [done|lia|]. unfold bitmap. by rewrite length_set_bits.
  - intros b Hb. rewrite img_put_other by lia. auto.
  - exists own. intros k d Hk. destruct (Hf k d Hk) as [Fk Hh]. pose proof (inum_range k d F Hk Hmax) as Hn.
    pose proof (inode_place _ Hn). unfold file_in.
    assert (dn (put 83 (bitmap s) s) (Z.of_nat k + 1) = dn s (Z.of_nat k + 1)) as -> by (unfold dn; rewrite img_put_other by lia; done).
    split; [|done]. eapply fok_frame; [done| |exact Fk]. intros b Hb _. split; [|done]. apply img_put_other.
    change nmeta with 84 in Hb. lia.
Qed.

(** The files of the image: the root directory, then those given. *)
Definition root_data (l : args) : list Z := dirent 1 [46] ++ dirent 1 [46; 46] ++ root_entries 2 l.
Definition image_files (l : args) : list (list Z) := root_data l :: (content <$> l).

Lemma main_inv (l : args) : Forall arg_ok l → fits (image_files l) → (length (root_data l) mod 512 ≠ 0)%nat →
  ∃ s, main l mk0 = Ok (tt, s) ∧ mk_inv s (pad (root_data l) :: (content <$> l)) ∧ img s 83 = bitmap s.
Proof.
  intros Hok Hfit Hmod. destruct start_inv as (s0 & E0 & H0). unfold main.
  assert (∀ k : M mkst unit, (mfor (seqZ 0 FSSIZE) (λ i, wsect i zeroes);; wsect 1 (sb_block msb);; k) mk0 = k s0) as ->.
  { intros k. rewrite <- (bind_ok _ (λ _, k) _ _ _ E0). unfold mbind, M_bind. by destruct (mfor _ _ mk0) as [[]| | |]. }
  assert (∀ r, (length r ≤ length (root_data l))%nat → fits [r]) as Hf1.
  { intros r Hr. eapply fits_below; [|exact Hfit]. split; [simpl; lia|]. intros [|k] d e Hd He; [|done].
    change (Some r = Some d) in Hd. change (Some (root_data l) = Some e) in He. congruence. }
  destruct (ialloc_inv s0 [] H0) as (s1 & E1 & H1); [apply Hf1; simpl; lia|]. simpl in E1. rewrite (bind_ok _ _ _ _ _ E1).
  rewrite (bind_ok (assert true) _ s1 tt s1 eq_refl).
  destruct (iappend_inv s1 _ 0 [] (dirent 1 [46]) H1 eq_refl) as (s2 & E2 & H2).
  { apply Hf1. unfold root_data. rewrite !length_app. simpl. lia. }
  change (xshort 1) with 1. simpl in E2, H2. rewrite (bind_ok _ _ _ _ _ E2).
  destruct (iappend_inv s2 _ 0 _ (dirent 1 [46; 46]) H2 eq_refl) as (s3 & E3 & H3).
  { apply Hf1. unfold root_data. rewrite !length_app. simpl. lia. }
  simpl in E3, H3. rewrite (bind_ok _ _ _ _ _ E3).
  destruct (main_files_inv l s3 _ [] H3 Hok Hfit) as (s4 & E4 & H4). rewrite (bind_ok _ _ _ _ _ E4).
  destruct (fix_root_inv s4 (root_data l) _ H4 Hmod) as (s5 & E5 & H5).
  { by apply (fits_len _ 0 _ Hfit). }
  rewrite (bind_ok _ _ _ _ _ E5), (bind_ok (gets _) _ _ _ _ eq_refl). destruct (bitmap_inv s5 _ H5) as [E6 H6].
  rewrite E6. eexists. split; [done|]. split; [exact H6|]. apply img_put_same.
Qed.
