(* ===== verification/MkfsBoot.v ===== *)
(** * Booting from the image of [mkfs]

    The kernel ([Fs.v], [Log.v]) started on the image that [Mkfs.v] writes:
    the superblock and the log it finds, and the files: looking up the name
    of a file given to [mkfs] and reading it returns its contents. *)

From S2P Require Import Prelude CString Block Log Fs FsBlock FsFile FsDir FsInode Mkfs MkfsInv.

(** What [forkret] does when the first process runs. *)
Definition mount : M fss unit := iinit;; fcall initlog.

(** The kernel before: nothing in memory. *)
Definition boot_state (d : Z → block) : fss :=
  FS (LSt (blk_boot d FSSIZE) 0 0 0 false 0 (replicate 30 0)) (SB 0 0 0 0 0 0 0) (replicate NINODE zero_inode).

Lemma sb_of_block : sb_of (sb_block msb) = msb.
Proof. reflexivity. Qed.

(** The file system after [mount], in a system call: nothing locked, an empty log, the blocks of the image. *)
Record mounted (s : mkst) (t : fss) : Prop := {
  mt_inv : fs_inv 29 t;
  mt_held : held t = [];
  mt_sb : sb t = msb;
  mt_cont b : 32 ≤ b → cont t b = img s b
}.

Lemma bitmap_clear s b : nmeta ≤ freeblock s ≤ FSSIZE → 0 ≤ b < freeblock s → bit_clear (bitmap s) (Z.to_nat b) = false.
Proof.
  intros Hr Hb. unfold bitmap. assert (Z.to_nat b < Z.to_nat (freeblock s))%nat as Hlt by lia.
  assert (Z.to_nat (freeblock s) ≤ 1000)%nat as Hle by (unfold FSSIZE in Hr; lia). revert Hlt Hle.
  generalize (Z.to_nat (freeblock s)), (Z.to_nat b). clear. intros n j Hj Hn. induction n as [|n IH]; [lia|].
  rewrite seq_S, foldl_app. simpl. rewrite bit_clear_set.
  - destruct (decide (n = j)); [done|]. apply IH; lia.
  - rewrite length_set_bits. unfold bit_byte, zeroes. rewrite length_replicate. change (Z.to_nat BSIZE) with 512%nat.
    apply Nat.Div0.div_lt_upper_bound. lia.
Qed.

Lemma readsb_eq s : bheld s = [] → 1 < bcount s → bbuf s 1 = bdisk s 1 → readsb s = Ok (bbuf s 1, s).
Proof.
  intros Hh Hc Hd. unfold readsb. rewrite (bind_ok _ _ _ _ _ (bread_eq 1 s ltac:(rewrite Hh; apply not_elem_of_nil) ltac:(lia))).
  rewrite (bind_ok _ _ _ _ _ (bdata_eq 1 (with_held (1 :: bheld s) s) ltac:(by left))).
  rewrite (bind_ok _ _ _ _ _ (brelse_eq 1 (with_held (1 :: bheld s) s) ltac:(by left) ltac:(by right))).
  destruct s. simpl in *. subst. done.
Qed.

(** The log of the image is empty. *)
Lemma initlog_empty b bs : blk_ok b → bheld b = [] → bcount b = FSSIZE → bbuf b 1 = bdisk b 1 → bbuf b 1 = sb_block msb →
  bbuf b 2 = zeroes →
  initlog (LSt b 0 0 0 false 0 bs) = Ok (tt, LSt (wr b (2, mk_head zeroes 0 bs)) 2 30 0 false 0 bs).
Proof.
  intros Hok Hh Hc Hd H1 H2. unfold initlog.
  assert (lcall readsb (LSt b 0 0 0 false 0 bs) = Ok (sb_block msb, LSt b 0 0 0 false 0 bs)) as Er.
  { erewrite lcall_eq by (apply readsb_eq; simpl; rewrite ?Hc; done). simpl. by rewrite H1. }
  rewrite (bind_ok _ _ _ _ _ Er), (bind_ok (modify _) _ _ _ _ eq_refl). cbn [lblk lstart lsize outstanding committing lh_n lh_block].
  change (s32 (sb_logstart (sb_block msb))) with 2. change (s32 (sb_nlog (sb_block msb))) with 30.
  unfold recover_from_log.
  pose proof (read_head_eq (LSt b 2 30 0 false 0 bs) Hok Hh ltac:(simpl; rewrite Hc; unfold FSSIZE; lia)) as Eh. simpl in Eh.
  rewrite H2 in Eh. change (hdr_n zeroes) with 0 in Eh. rewrite (bind_ok _ _ _ _ _ (Eh ltac:(done))).
  unfold install_trans, clear_n. rewrite (bind_ok (gets lh_n ≫= _) _ (LSt b 2 30 0 false 0 bs) tt (LSt b 2 30 0 false 0 bs) eq_refl).
  rewrite (bind_ok (modify _) _ _ _ _ eq_refl).
  rewrite write_head_eq by (simpl; rewrite ?Hc; unfold FSSIZE; done || lia). simpl. by rewrite H2.
Qed.

(** The state after [mount], in a system call. *)
Definition mount_state (d : Z → block) : fss :=
  FS (LSt (wr (blk_boot d FSSIZE) (2, mk_head zeroes 0 (replicate 30 0))) 2 30 1 false 0 (replicate 30 0)) msb
    (replicate NINODE zero_inode).

Lemma mount_eq d : d 1 = sb_block msb → d 2 = zeroes → (mount;; fcall begin_op) (boot_state d) = Ok (tt, mount_state d).
Proof.
  intros H1 H2. unfold mount, iinit.
  assert (blk_ok (blk_boot d FSSIZE)) as Hok by (split; simpl; [apply NoDup_nil_2|by intros b ?%not_elem_of_nil|done]).
  assert (fcall (lcall readsb) (boot_state d) = Ok (sb_block msb, boot_state d)) as Er.
  { erewrite fcall_eq by (apply lcall_eq, readsb_eq; simpl; done). simpl. by rewrite H1. }
  assert ((d ← fcall (lcall readsb); modify (λ s, FS (flog s) (sb_of d) (icache s))) (boot_state d) =
    Ok (tt, FS (flog (boot_state d)) msb (icache (boot_state d)))) as Ei by (rewrite (bind_ok _ _ _ _ _ Er); done).
  erewrite bind_ok by (rewrite (bind_ok _ _ _ _ _ Ei); apply fcall_eq, initlog_empty; simpl; done).
  by erewrite fcall_eq by done.
Qed.

Lemma mounted_ok s F : mk_inv s F → img s 83 = bitmap s → mounted s (mount_state (img s)).
Proof.
  intros HI Hbm. pose proof (mi_ok _ _ HI) as Hm. pose proof (mk_range _ Hm) as Hr.
  assert (∀ b, b ≠ 2 → cont (mount_state (img s)) b = img s b) as Hc by (intros b Hb; by apply fset_other).
  split; [|done|done|intros b Hb; apply Hc; lia]. split.
  - split; simpl; try done. apply wr_ok. split; simpl; [apply NoDup_nil_2|by intros b ?%not_elem_of_nil|done].
  - apply msb_geom.
  - intros b. destruct (decide (b = 2)) as [->|Hb]; [reflexivity|]. rewrite Hc by done. apply Hm.
  - intros b Hb. change (data_start (sb (mount_state (img s)))) with 84 in Hb. change nmeta with 84 in Hr. unfold FSSIZE in Hr.
    unfold used. assert (BBLOCK b (sb (mount_state (img s))) = 83) as ->.
    { unfold BBLOCK. change (sb_bmapstart (sb (mount_state (img s)))) with 83. rewrite Z.div_small by (unfold BPB, BSIZE; lia). done. }
    rewrite Hc, Hbm, Z.mod_small by (unfold BPB, BSIZE; lia). rewrite bitmap_clear by (unfold FSSIZE; change nmeta with 84; lia). done.
  - by intros b ?%not_elem_of_nil.
Qed.

(** ** Files of the image as the kernel sees them *)

Lemma lookup_get_addrs d n o q : (q < n)%nat → get_addrs d o n !!! q = get32 d (o + 4 * q).
Proof.
  revert o q. induction n as [|n IH]; intros o [|q] Hq; try lia; simpl get_addrs; cbn [lookup_total list_lookup_total].
  - by rewrite Nat.mul_0_r, Nat.add_0_r.
  - rewrite IH by lia. f_equal. lia.
Qed.

Lemma dn_lookup s n i : 0 ≤ n < NINODES → (i < 128)%nat → img s (IBLOCK n msb) !!! (dino n + i)%nat = dn s n !!! i.
Proof. intros Hn Hi. unfold dn. by rewrite lookup_total_take_lt, lookup_total_drop by lia. Qed.
Lemma dn_get16 s n o : 0 ≤ n < NINODES → (o + 2 ≤ 128)%nat → get16 (img s (IBLOCK n msb)) (dino n + o) = get16 (dn s n) o.
Proof. intros Hn Ho. unfold get16. rewrite <- Nat.add_assoc. by rewrite !dn_lookup by lia. Qed.
Lemma dn_get32 s n o : 0 ≤ n < NINODES → (o + 4 ≤ 128)%nat → get32 (img s (IBLOCK n msb)) (dino n + o) = get32 (dn s n) o.
Proof. intros Hn Ho. rewrite !get32_unfold, <- !Nat.add_assoc. by rewrite !dn_lookup by lia. Qed.

(** Entry [i] of the cache holds what the image says of inode [n]. *)
Record loaded (s : mkst) (t : fss) (i : nat) (n : Z) : Prop := {
  ld_i : (i < length (icache t))%nat;
  ld_num : i_inum (ino t i) = n;
  ld_disk : disk_part (ino t i) = disk_part (load_dinode (img s (IBLOCK n msb)) (dino n) zero_inode)
}.

Section image.
Context (s : mkst) (F : list (list Z)) (t : fss) (HI : mk_inv s F) (Hbm : img s 83 = bitmap s) (Hmt : mounted s t).

Lemma image_used b : nmeta ≤ b < freeblock s → data_used t b.
Proof using HI Hbm Hmt.
  intros Hb. pose proof (mk_range _ (mi_ok _ _ HI)) as Hr. pose proof Hr as Hr'. change nmeta with 84 in Hr, Hb. unfold FSSIZE in Hr.
  unfold data_used. rewrite (mt_sb _ _ Hmt). change (data_start msb) with 84. change (sb_size msb) with 1000. split; [lia|].
  unfold used. rewrite (mt_sb _ _ Hmt). assert (BBLOCK b msb = 83) as ->.
  { unfold BBLOCK. rewrite Z.div_small by (unfold BPB, BSIZE; lia). done. }
  rewrite (mt_cont _ _ Hmt), Hbm, Z.mod_small by (unfold BPB, BSIZE; lia). by rewrite bitmap_clear by lia.
Qed.

Context (i k : nat) (d : list Z) (own : Z → Z * nat).
Context (Hk : F !! k = Some d) (Hin : file_in s own k d) (Hld : loaded s t i (Z.of_nat k + 1)).

Lemma inode_num : 0 ≤ Z.of_nat k + 1 < NINODES.
Proof using HI Hk. apply (inum_range k d F Hk). apply HI. Qed.

Lemma image_fields : i_type (ino t i) = inode_kind k ∧ i_nlink (ino t i) = 1 ∧ i_size (ino t i) = Z.of_nat (length d) ∧
  i_mode (ino t i) = 7 ∧ length (i_addrs (ino t i)) = 13%nat ∧
  ∀ q, (q ≤ 12)%nat → i_addrs (ino t i) !!! q = d_addr (dn s (Z.of_nat k + 1)) q.
Proof using HI Hk Hin Hld.
  pose proof inode_num as Hn. pose proof (ld_disk _ _ _ _ Hld) as E.
  assert (i_addrs (ino t i) = get_addrs (img s (IBLOCK (Z.of_nat k + 1) msb)) (dino (Z.of_nat k + 1) + 12) 13) as E6
    by exact (f_equal (λ p, p.1.2) E). rewrite E6. clear E6.
  unfold disk_part in E. injection E as E1 E2 E3 E4 E5 _ E7. rewrite E1, E4, E5, E7. destruct Hin as [_ [H1 H2 H3 H4 H5 H6]].
  replace (dino (Z.of_nat k + 1)) with (dino (Z.of_nat k + 1) + 0)%nat at 1 by lia.
  rewrite !dn_get16, !dn_get32 by (done || lia). rewrite H1, H4, H6. unfold d_size in H5. rewrite H5.
  split; [by unfold inode_kind; destruct (_ =? _)%nat|]. split; [done|]. split; [done|]. split; [done|]. split; [done|].
  intros q Hq. rewrite lookup_get_addrs by lia. unfold d_addr. rewrite <- Nat.add_assoc. by apply dn_get32; [|lia].
Qed.

Lemma image_slot bn : (bn < 140)%nat → fblock t i bn = slot (img s) (dn s (Z.of_nat k + 1)) bn.
Proof using HI Hk Hin Hld Hmt.
  destruct image_fields as (_ & _ & _ & _ & _ & Ha). intros Hbn. unfold fblock, blk_of, slot, addrs.
  destruct (Nat.eqb_spec bn 140); [lia|]. destruct (Nat.ltb_spec bn 12); [by apply Ha; lia|].
  rewrite Ha by lia. destruct (Z.eqb_spec (d_addr (dn s (Z.of_nat k + 1)) 12) 0) as [|Hne]; [done|].
  rewrite (mt_cont _ _ Hmt); [done|]. pose proof (f_slot _ _ _ _ _ _ _ (proj1 Hin) 140%nat ltac:(lia)) as Hs.
  destruct (need (length d) 140); [|by unfold slot in Hs]. destruct Hs as [Hs _]. change nmeta with 84 in Hs. unfold slot in Hs. simpl in Hs. lia.
Qed.

Lemma image_place bn : (bn < 140)%nat →
  if need (length d) bn then nmeta ≤ fblock t i bn < freeblock s ∧ own (fblock t i bn) = (Z.of_nat k + 1, bn)
  else fblock t i bn = 0.
Proof using HI Hk Hin Hld Hmt. intros Hbn. rewrite image_slot by done. apply (proj1 Hin). lia. Qed.
Lemma image_indirect :
  if need (length d) 140 then nmeta ≤ indirect t i < freeblock s ∧ own (indirect t i) = (Z.of_nat k + 1, 140%nat)
  else indirect t i = 0.
Proof using HI Hk Hin Hld Hmt.
  destruct image_fields as (_ & _ & _ & _ & _ & Ha). unfold indirect, addrs. rewrite Ha by lia.
  apply (f_slot _ _ _ _ _ _ _ (proj1 Hin) 140%nat). lia.
Qed.

Lemma image_map_ok : map_ok t i.
Proof using All.
  destruct image_fields as (_ & _ & _ & _ & Hl & _). split; [apply Hld|done|..].
  - intros H0. pose proof image_indirect as H. destruct (need _ 140); [|done]. apply image_used, H.
  - intros bn Hbn H0. pose proof (image_place bn Hbn) as H. pose proof image_indirect as H2.
    destruct (need _ bn); [|done]. split; [apply image_used, H|]. intros E. rewrite E in H. destruct H as [H Ho].
    change nmeta with 84 in H. destruct (need (length d) 140); [|lia]. destruct H2 as [_ H2]. rewrite H2 in Ho.
    assert (140 = bn)%nat by congruence. unfold NBLK in Hbn. lia.
  - intros bn bn' Hbn Hbn' H0 E. pose proof (image_place bn Hbn) as H. pose proof (image_place bn' Hbn') as H'. rewrite <- E in H'.
    destruct (need _ bn); [|done]. destruct (need _ bn'); [|done]. destruct H as [_ H], H' as [_ H']. congruence.
Qed.

Lemma data_small : (length d ≤ 140 * 512)%nat.
Proof using Hin.
  destruct (decide (length d = 0)%nat) as [|Hne]; [lia|].
  destruct (f_data _ _ _ _ _ _ _ (proj1 Hin) (length d - 1)) as [H _]; [lia|]. div512 (length d - 1)%nat. lia.
Qed.

(** The file is well formed and its bytes are those appended. *)
Lemma image_file_ok : file_ok t i.
Proof using All.
  destruct image_fields as (Ht & _ & Hs & _). pose proof data_small as Hd. split; [apply image_map_ok|..].
  - rewrite Ht. unfold inode_kind. by destruct (k =? 0)%nat.
  - rewrite (ld_num _ _ _ _ Hld), (mt_sb _ _ Hmt). apply inode_num.
  - rewrite Hs. change (MAXFILE * BSIZE) with (140 * 512). lia.
  - intros o Ho. rewrite Hs in Ho. destruct (f_data _ _ _ _ _ _ _ (proj1 Hin) (Z.to_nat o)) as [Hb Hn]; [lia|].
    assert (Z.to_nat (o / BSIZE) = Z.to_nat o / 512)%nat as -> by (rewrite Z2Nat.inj_div by (unfold BSIZE; lia); done).
    pose proof (image_place (Z.to_nat o / 512)%nat Hb) as H. rewrite Hn in H. change nmeta with 84 in H. lia.
Qed.

Lemma image_bytes : fbytes t i 0 (Z.of_nat (length d)) = d.
Proof using HI Hk Hin Hld Hmt.
  apply list_ext_total; rewrite length_fbytes, Nat2Z.id; [done|]. intros o Ho. unfold fbytes.
  rewrite list_lookup_total_alt, list_lookup_fmap, lookup_seqZ_lt, Z.add_0_l by lia.
  change (fbyte t i (Z.of_nat o) = d !!! o).
  destruct (f_data _ _ _ _ _ _ _ (proj1 Hin) o Ho) as [Hb Hn]. unfold fbyte.
  assert (Z.to_nat (Z.of_nat o / BSIZE) = o / 512)%nat as -> by (unfold BSIZE; rewrite (Z2Nat.inj_div _ 512), Nat2Z.id by lia; done).
  assert (Z.to_nat (Z.of_nat o mod BSIZE) = o mod 512)%nat as -> by (unfold BSIZE; rewrite (Z2Nat.inj_mod _ 512), Nat2Z.id by lia; done).
  pose proof (image_place _ Hb) as H. rewrite Hn in H. change nmeta with 84 in H. rewrite (mt_cont _ _ Hmt) by lia.
  rewrite image_slot by done. rewrite (f_byte _ _ _ _ _ _ _ (proj1 Hin) o Hb Hn). rewrite nth_lookup.
  destruct (lookup_lt_is_Some_2 d o Ho) as [x Hx]. rewrite Hx. simpl. symmetry. by apply list_lookup_total_correct.
Qed.
End image.

(** ** Looking up a file by its name *)

(** The cache with two entries taken. *)
Definition cached (t : fss) (r f : inode) : fss := FS (flog t) (sb t) (r :: f :: replicate 48 zero_inode).
Definition new_ino (n : Z) : inode := Inode ROOTDEV n 1 false false 0 0 0 0 0 (replicate 13 0) 0.

Lemma iget_root t : icache t = replicate NINODE zero_inode → iget ROOTDEV ROOTINO t = Ok (0%nat, cached t (new_ino ROOTINO) zero_inode).
Proof. intros E. unfold iget. rewrite E. unfold upd_ino, cached. rewrite E. reflexivity. Qed.
Lemma iget_file t r n : i_ref r = 1 → i_inum r ≠ n → iget ROOTDEV n (cached t r zero_inode) = Ok (1%nat, cached t r (new_ino n)).
Proof.
  intros Hr Hn. unfold iget, cached. simpl icache. cbn [find_index].
  rewrite (proj2 (Z.eqb_neq _ _) Hn), andb_false_r, Hr. reflexivity.
Qed.

(** The entry [ilock] makes of inode [n]. *)
Definition locked_ino (s : mkst) (n : Z) : inode :=
  set_valid true (set_ilock true (load_dinode (img s (IBLOCK n msb)) (dino n) (new_ino n))).

Lemma ilock_image s F t i n k d : mk_inv s F → mounted s t → F !! k = Some d → n = Z.of_nat k + 1 →
  (i < length (icache t))%nat → ino t i = new_ino n →
  ilock i t = Ok (tt, upd_ino i (λ _, locked_ino s n) t).
Proof.
  intros HI Hmt Hk Hn Hi Ei. pose proof (inum_range k d F Hk (mi_max _ _ HI)) as Hr. pose proof (inode_place _ Hr) as [Hp _].
  destruct (mi_files _ _ HI) as [own Hf]. destruct (Hf k d Hk) as [_ Hh]. rewrite <- Hn in Hr, Hp, Hh.
  assert (cont t (IBLOCK (i_inum (ino t i)) (sb t)) = img s (IBLOCK n msb)) as Ec.
  { rewrite Ei, (mt_sb _ _ Hmt). apply (mt_cont _ _ Hmt). simpl. lia. }
  pose proof (ilock_load 29 t i (mt_inv _ _ Hmt) (mt_held _ _ Hmt) Hi) as E. cbv zeta in E. rewrite Ec in E. rewrite Ei in E.
  apply E; try done; [by rewrite (mt_sb _ _ Hmt)|]. simpl i_type.
  replace (dino n) with (dino n + 0)%nat by lia. rewrite dn_get16 by (done || lia). rewrite (h_type _ _ _ Hh).
  unfold inode_kind. by destruct (k =? 0)%nat.
Qed.

Lemma mounted_cache s t t' : mounted s t → flog t' = flog t → sb t' = sb t → mounted s t'.
Proof.
  destruct t' as [l g ic]. simpl. intros [[[] ? ? ? ?] ? ? ?] -> ->. split; [split; [split; done|done..]|done..].
Qed.

Lemma loaded_locked s t i n : (i < length (icache t))%nat → ino t i = locked_ino s n → loaded s t i n.
Proof. intros Hi E. split; [done|by rewrite E|by rewrite E]. Qed.

(** The entries of the root directory. *)
Definition names (l : args) : list (list Z) := [46] :: [46; 46] :: (strip ∘ fst <$> l).
Definition root_ents (l : args) : list (list Z) :=
  dirent 1 [46] :: dirent 1 [46; 46] :: imap (λ j a, dirent (Z.of_nat (j + 2)) (strip a.1)) l.

Lemma root_entries_concat n (l : args) : root_entries n l = concat (imap (λ j a, dirent (Z.of_nat (j + n)) (strip a.1)) l).
Proof.
  revert n. induction l as [|a l IH]; intros n; [done|]. cbn [root_entries]. rewrite imap_cons. cbn [concat]. f_equal.
  rewrite IH. f_equal. apply imap_ext. intros j x _. simpl. do 2 f_equal. lia.
Qed.
Lemma root_data_concat (l : args) : root_data l = concat (root_ents l).
Proof. unfold root_data, root_ents. rewrite root_entries_concat. reflexivity. Qed.

Lemma lookup_root_ents (l : args) q e : root_ents l !! q = Some e → ∃ n name, e = dirent n name ∧ names l !! q = Some name ∧
  n = (if (q <? 2)%nat then 1 else Z.of_nat q).
Proof.
  destruct q as [|[|q]]; intros E; [by injection E as <-; eauto|by injection E as <-; eauto|].
  unfold root_ents, names in *. simpl in *. rewrite list_lookup_imap in E. rewrite list_lookup_fmap.
  destruct (l !! q) as [a|] eqn:Ea; simpl in *; [|done]. injection E as <-.
  exists (Z.of_nat (q + 2)), (strip a.1). split; [done|]. split; [done|]. lia.
Qed.
Lemma length_root_ents (l : args) : length (root_ents l) = (2 + length l)%nat ∧ ∀ e, e ∈ root_ents l → length e = 16%nat.
Proof.
  split; [unfold root_ents; simpl; by rewrite length_imap|]. intros e [q Hq]%list_elem_of_lookup.
  destruct (lookup_root_ents l q e Hq) as (n & name & -> & _). apply length_dirent.
Qed.

Lemma length_concat16 (es : list (list Z)) : (∀ e, e ∈ es → length e = 16%nat) → length (concat es) = (16 * length es)%nat.
Proof.
  induction es as [|e es IH]; intros H; [done|]. simpl. rewrite length_app, IH by (intros; apply H; by right).
  rewrite (H e) by by left. lia.
Qed.
(** Record [q] of a list of records of 16 bytes. *)
Lemma record16 (es : list (list Z)) z q : (∀ e, e ∈ es → length e = 16%nat) →
  (∀ e, es !! q = Some e → take 16 (drop (16 * q) (concat es ++ z)) = e) ∧
  (es !! q = None → take 16 (drop (16 * q) (concat es ++ z)) = take 16 (drop (16 * (q - length es)) z)).
Proof.
  intros H. pose proof (length_concat16 es H) as Hl. split.
  - revert q H Hl. induction es as [|x es IH]; intros [|q] H Hl e E; simpl in E; try done.
    + injection E as ->. rewrite Nat.mul_0_r, drop_0. cbn [concat]. rewrite <- app_assoc. apply take_app_length'. symmetry. apply H. by left.
    + cbn [concat]. replace (16 * S q)%nat with (length x + 16 * q)%nat by (rewrite (H x) by (by left); lia).
      rewrite <- app_assoc. rewrite <- drop_drop, drop_app_length. apply IH; [intros; apply H; by right| |done].
      apply length_concat16. intros. apply H. by right.
  - intros E. apply lookup_ge_None in E. rewrite drop_app_ge by (rewrite Hl; lia). do 2 f_equal. rewrite Hl. lia.
Qed.

Section root.
Context (s : mkst) (l : args) (t : fss).
Context (HI : mk_inv s (pad (root_data l) :: (content <$> l))) (Hbm : img s 83 = bitmap s) (Hmt : mounted s t).
Context (Hld : loaded s t 0 1).

Lemma root_bytes : dir_ok t 0 ∧ i_size (ino t 0) = Z.of_nat (length (pad (root_data l))) ∧
  fbytes t 0 0 (Z.of_nat (length (pad (root_data l)))) = pad (root_data l).
Proof using All.
  destruct (mi_files _ _ HI) as [own Hf]. specialize (Hf 0%nat _ eq_refl).
  destruct (image_fields s _ t HI 0 0 _ own eq_refl Hf Hld) as (Ht & _ & Hs & _).
  assert (length (pad (root_data l)) mod 512 = 0)%nat as Hm.
  { unfold pad. rewrite length_app, length_replicate. div512 (length (root_data l)).
    apply Nat.Div0.mod_divides. exists (length (root_data l) / 512 + 1)%nat. lia. }
  split; [|split; [done|]].
  - split; [apply (image_file_ok s _ t HI Hbm Hmt 0 0 _ own eq_refl Hf Hld)|done|]. rewrite Hs. div512 (length (pad (root_data l))).
    Z.div_mod_to_equations. lia.
  - apply (image_bytes s _ t HI Hmt 0 0 _ own eq_refl Hf Hld).
Qed.

Lemma fbytes_sub u i off n m : 0 ≤ off → 0 ≤ n → off + n ≤ m → fbytes u i off n = take (Z.to_nat n) (drop (Z.to_nat off) (fbytes u i 0 m)).
Proof.
  intros H1 H2 H3. replace m with (off + (n + (m - off - n))) by lia. rewrite !fbytes_app by lia. rewrite Z.add_0_l.
  rewrite drop_app_length' by (by rewrite length_fbytes). by rewrite take_app_length' by (by rewrite length_fbytes).
Qed.

Lemma root_entry q : (q < dir_len t 0)%nat → entry t 0 q = take 16 (drop (16 * q) (pad (root_data l))).
Proof using All.
  destruct root_bytes as (Hd & Hs & Hb). intros Hq. destruct (dir_size_eq t 0 Hd) as [E _]. rewrite Hs in E.
  unfold entry. rewrite (fbytes_sub _ _ _ _ (Z.of_nat (length (pad (root_data l))))) by lia. rewrite Hb.
  change (Z.to_nat 16) with 16%nat. do 2 f_equal. lia.
Qed.

(** The entry is one of those written, or empty. *)
Lemma root_entry_cases q e : entries t 0 !! q = Some e →
  (∃ n name, e = dirent n name ∧ names l !! q = Some name ∧ n = if (q <? 2)%nat then 1 else Z.of_nat q) ∨
  (names l !! q = None ∧ de_inum e = 0).
Proof using All.
  intros Hq%lookup_entries_inv. destruct Hq as [Hq ->]. rewrite root_entry by done. unfold pad. rewrite root_data_concat.
  destruct (length_root_ents l) as [Hl H16]. destruct (record16 (root_ents l) (replicate (512 - length (concat (root_ents l)) mod 512) 0) q H16) as [R1 R2].
  destruct (root_ents l !! q) as [x|] eqn:Ex; [left; rewrite (R1 x eq_refl); by apply lookup_root_ents|right].
  split.
  - apply lookup_ge_None in Ex. apply lookup_ge_None. unfold names. simpl. rewrite length_fmap. lia.
  - rewrite R2 by done. rewrite drop_replicate, take_replicate. unfold de_inum, get16.
    destruct root_bytes as (Hd & Hs & _). destruct (dir_size_eq t 0 Hd) as [E _]. rewrite Hs in E.
    unfold pad in E. rewrite length_app, length_replicate, root_data_concat, (length_concat16 _ H16) in E. 
    apply lookup_ge_None in Ex. rewrite (length_concat16 _ H16). by rewrite !lookup_total_replicate_2 by lia.
Qed.

Lemma dirent_matches name n nm : length name = 14%nat → 0 < n < 2 ^ 16 →
  ent_matches name (dirent n nm) = bool_decide (name_of name = name_of nm).
Proof.
  intros Hl Hn. unfold ent_matches. rewrite dirent_inum, u16_small, (proj2 (Z.eqb_neq n 0)) by lia. cbn [negb andb].
  rewrite dirent_name. pose proof (namecmp_spec name (de_pad nm) ltac:(lia) ltac:(by rewrite length_de_pad)) as H.
  rewrite name_of_pad in H. destruct (Z.eqb_spec (namecmp name (de_pad nm)) 0) as [E|E].
  - symmetry. apply bool_decide_eq_true_2. by apply H.
  - symmetry. apply bool_decide_eq_false_2. intros E2. by apply E, H.
Qed.

Lemma ent_number q name : names l !! q = Some name → 0 < (if (q <? 2)%nat then 1 else Z.of_nat q) < 2 ^ 16.
Proof using HI.
  intros Hq%lookup_lt_Some. unfold names in Hq. simpl in Hq. rewrite length_fmap in Hq.
  pose proof (mi_max _ _ HI) as Hm. simpl in Hm. rewrite length_fmap in Hm. unfold NINODES in Hm.
  destruct (Nat.ltb_spec q 2); lia.
Qed.

Lemma root_found q nm name : NoDup (name_of <$> names l) → names l !! q = Some nm → length name = 14%nat →
  name_of name = name_of nm →
  dir_find t 0 name = Some q ∧ de_inum (entry t 0 q) = (if (q <? 2)%nat then 1 else Z.of_nat q).
Proof using All.
  intros Hnd Hq Hl Hn. destruct root_bytes as (Hd & Hs & _).
  assert (q < dir_len t 0)%nat as Hlt.
  { destruct (dir_size_eq t 0 Hd) as [E _]. rewrite Hs in E. unfold pad in E. destruct (length_root_ents l) as [Hl' H16].
    rewrite length_app, root_data_concat, (length_concat16 _ H16), Hl' in E. apply lookup_lt_Some in Hq. unfold names in Hq.
    simpl in Hq. rewrite length_fmap in Hq. lia. }
  pose proof (lookup_entries t 0 q Hlt) as He. pose proof (ent_number q nm Hq) as Hnum.
  destruct (root_entry_cases q _ He) as [(n & nm' & E & E2 & ->)|[E _]]; [|congruence].
  assert (nm' = nm) as -> by congruence. rewrite E, dirent_inum, u16_small by lia. split; [|done].
  apply (find_index_intro _ _ _ _ He).
  - rewrite E, dirent_matches by (done || lia). by apply bool_decide_eq_true_2.
  - intros j y Hj Hy. destruct (root_entry_cases j y Hy) as [(n & nm' & -> & E3 & ->)|[_ E0]].
    + rewrite dirent_matches by (done || by eapply ent_number). apply bool_decide_eq_false_2. intros E4.
      assert (j = q); [|lia]. eapply (NoDup_lookup _ _ _ (name_of nm) Hnd); rewrite list_lookup_fmap; [rewrite E3|by rewrite Hq].
      simpl. congruence.
    + unfold ent_matches. by rewrite E0.
Qed.

Lemma root_absent name : length name = 14%nat → (name_of name ∉ name_of <$> names l) → dir_find t 0 name = None.
Proof using All.
  intros Hl Hn. apply find_index_None. intros e [q Hq]%list_elem_of_lookup.
  destruct (root_entry_cases q e Hq) as [(n & nm & -> & E & ->)|[_ E0]]; [|unfold ent_matches; by rewrite E0].
  rewrite dirent_matches by (done || by eapply ent_number). apply bool_decide_eq_false_2. intros E2. apply Hn. rewrite E2.
  apply list_elem_of_fmap_2. by eapply list_elem_of_lookup_2.
Qed.
End root.

(** ** Path names *)

(** A name that can stand in a path. *)
Definition plain (nm : list Z) : Prop := nm ≠ [] ∧ (slash ∉ nm) ∧ 0 ∉ nm.

Lemma take_elem_plain nm : slash ∉ nm → take_elem nm = (nm, []).
Proof.
  induction nm as [|c nm IH]; intros H; [done|]. apply not_elem_of_cons in H as [Hc H]. simpl.
  rewrite (proj2 (Z.eqb_neq c slash)) by done. by rewrite IH.
Qed.
Lemma skipelem_plain nm : plain nm → ∃ name, skipelem (slash :: nm) (replicate (Z.to_nat DIRSIZ) 0) = Some ([], name) ∧
  length name = 14%nat ∧ name_of name = name_of nm.
Proof.
  intros (H1 & H2 & H3). destruct nm as [|c nm]; [done|].
  assert (∀ x, x ∈ c :: nm → x ≠ 0) as Hnz by (intros x Hx ->; done).
  destruct (skipelem_name (c :: nm) (replicate (Z.to_nat DIRSIZ) 0) ltac:(done) Hnz) as [Hl Hn]. eexists. split; [|split; [exact Hl|]].
  - unfold skipelem. change (skip_slashes (slash :: c :: nm)) with (skip_slashes (c :: nm)).
    assert (skip_slashes (c :: nm) = c :: nm) as Es.
    { simpl. apply not_elem_of_cons in H2 as [Hc _]. by rewrite (proj2 (Z.eqb_neq c slash)) by done. }
    rewrite Es. rewrite take_elem_plain by done. reflexivity.
  - rewrite Hn. unfold name_of. rewrite cut_all; [done|]. intros x Hx. apply Hnz. apply elem_of_take in Hx as (i & Hi & _).
    by eapply list_elem_of_lookup_2.
Qed.

(** [iunlockput] of the root directory. *)
Lemma iunlockput_first t r f : i_lock r = true → i_ref r = 1 → i_nlink r ≠ 0 →
  iunlockput 0 (cached t r f) = Ok (tt, cached t (set_ref 0 (set_ilock false r)) f).
Proof.
  destruct r as [dev inum ref lk v ty mj mn nl sz ad md]. simpl. intros -> -> Hn.
  set (st := λ lk, cached t (Inode dev inum 1 lk v ty mj mn nl sz ad md) f). change (cached t _ f) with (st true) at 1.
  unfold iunlockput. rewrite (bind_ok (iunlock 0) _ (st true) tt (st false) eq_refl).
  unfold iput. rewrite (bind_ok (ilock_acquire 0) _ (st false) tt (st true) eq_refl).
  rewrite (bind_ok (gets _) _ _ _ _ eq_refl). change (ino (st true) 0) with (Inode dev inum 1 true v ty mj mn nl sz ad md).
  cbn [i_valid i_nlink i_ref].
  rewrite (proj2 (Z.eqb_neq _ _) Hn), andb_false_r. reflexivity.
Qed.

Section namei.
Context (devs : Z → devsw) (cwd : nat) (s : mkst) (l : args).
Context (HI : mk_inv s (pad (root_data l) :: (content <$> l))) (Hbm : img s 83 = bitmap s).
Let t0 := mount_state (img s).
Let root := locked_ino s 1.

Lemma root_cached f : mounted s (cached t0 root f) ∧ loaded s (cached t0 root f) 0 1 ∧ i_nlink root = 1 ∧ i_ref root = 1 ∧ i_lock root = true.
Proof using HI Hbm.
  pose proof (mounted_ok s _ HI Hbm) as Hmt. assert (loaded s (cached t0 root f) 0 1) as Hld by (apply loaded_locked; simpl; [lia|done]).
  split; [by eapply mounted_cache|]. split; [done|].
  destruct (mi_files _ _ HI) as [own Hf]. specialize (Hf 0%nat _ eq_refl).
  destruct (image_fields s _ _ HI 0 0 _ own eq_refl Hf Hld) as (_ & Hn & _). done.
Qed.

(** The steps up to the lookup in the root directory. *)
Lemma namei_lookup nm name r u : plain nm → skipelem (slash :: nm) (replicate (Z.to_nat DIRSIZ) 0) = Some ([], name) →
  (r ← dirlookup devs 0 name;
   match r with
   | None => iunlockput 0;; mret (inr None, name)
   | Some (next, _) => iunlockput 0;; namex_loop devs (length nm) false next [] name
   end) (cached t0 root zero_inode) = Ok (r, u) →
  namei devs cwd (slash :: nm) t0 = Ok (match r.1 with inr q => q | inl ip => Some ip end, u).
Proof using HI Hbm.
  intros Hp Hsk E. unfold namei, namex. rewrite bool_decide_eq_true_2 by done.
  pose proof (mounted_ok s _ HI Hbm) as Hmt.
  set (t1 := cached t0 (new_ino ROOTINO) zero_inode).
  assert (iget ROOTDEV ROOTINO t0 = Ok (0%nat, t1)) as E1 by (by apply iget_root).
  assert (ilock 0 t1 = Ok (tt, cached t0 root zero_inode)) as E2.
  { assert (mounted s t1) as Hm1 by (by eapply mounted_cache). assert (0 < length (icache t1))%nat as Hl by (simpl; lia).
    exact (ilock_image s _ t1 0 1 0 (pad (root_data l)) HI Hm1 eq_refl eq_refl Hl eq_refl). }
  destruct (root_cached zero_inode) as (Hm & Hld & _). destruct (root_bytes s l _ HI Hbm Hm Hld) as ([_ Ht _] & _).
  assert (namex_loop devs (S (length nm)) false 0 (slash :: nm) (replicate (Z.to_nat DIRSIZ) 0) t1 = Ok (r, u)) as E3.
  { cbn [namex_loop]. rewrite Hsk. rewrite (bind_ok _ _ _ _ _ E2), (bind_ok (gets _) _ _ _ _ eq_refl), Ht. exact E. }
  rewrite (bind_ok _ (λ r, mret r.1) t0 (match r.1 with inr q => q | inl ip => Some ip end, r.2) u); [done|].
  rewrite (bind_ok _ _ _ _ _ E1), (bind_ok _ _ _ _ _ E3). by destruct r as [[ip|q] n].
Qed.

(** A name of the root directory is found, any other is not. *)
Lemma namei_found q nm : NoDup (name_of <$> names l) → (2 ≤ q)%nat → names l !! q = Some nm → plain nm →
  namei devs cwd (slash :: nm) t0 =
    Ok (Some 1%nat, cached t0 (set_ref 0 (set_ilock false root)) (new_ino (Z.of_nat q))).
Proof using HI Hbm.
  intros Hnd H2 Hq Hp. destruct (skipelem_plain nm Hp) as (name & Hsk & Hl & Hn).
  destruct (root_cached zero_inode) as (Hm & Hld & Hnl & Hr & Hlk). destruct (root_bytes s l _ HI Hbm Hm Hld) as (Hd & _).
  destruct (root_found s l _ HI Hbm Hm Hld q nm name Hnd Hq Hl Hn) as [Ef Ei].
  rewrite (proj2 (Nat.ltb_ge q 2)) in Ei by done.
  assert (dirlookup devs 0 name (cached t0 root zero_inode) =
    Ok (Some (1%nat, 16 * Z.of_nat q), cached t0 root (new_ino (Z.of_nat q)))) as E.
  { rewrite (dirlookup_eq devs 29 _ 0 (mt_inv _ _ Hm) (mt_held _ _ Hm) Hd), Ef. unfold dir_result. rewrite Ei.
    change (i_dev (ino (cached t0 root zero_inode) 0)) with ROOTDEV. rewrite iget_file; [done|done|]. simpl. lia. }
  apply (namei_lookup nm name (inl 1%nat, name)); try done. rewrite (bind_ok _ _ _ _ _ E). cbv beta iota.
  rewrite (bind_ok _ _ _ _ _ (iunlockput_first t0 root _ Hlk Hr ltac:(lia))). by destruct (length nm).
Qed.

Lemma namei_absent nm : (name_of nm ∉ name_of <$> names l) → plain nm → ∃ u, namei devs cwd (slash :: nm) t0 = Ok (None, u).
Proof using HI Hbm.
  intros Hq Hp. destruct (skipelem_plain nm Hp) as (name & Hsk & Hl & Hn). rewrite <- Hn in Hq.
  destruct (root_cached zero_inode) as (Hm & Hld & Hnl & Hr & Hlk). destruct (root_bytes s l _ HI Hbm Hm Hld) as (Hd & _).
  assert (dirlookup devs 0 name (cached t0 root zero_inode) = Ok (None, cached t0 root zero_inode)) as E.
  { rewrite (dirlookup_eq devs 29 _ 0 (mt_inv _ _ Hm) (mt_held _ _ Hm) Hd).
    by rewrite (root_absent s l _ HI Hbm Hm Hld name Hl Hq). }
  eexists. eapply (namei_lookup nm name (inr None, name)); try done. rewrite (bind_ok _ _ _ _ _ E). cbv beta iota.
  by rewrite (bind_ok _ _ _ _ _ (iunlockput_first t0 root _ Hlk Hr ltac:(lia))).
Qed.
End namei.

(** ** The theorem *)

Lemma root_data_mod (l : args) : ((length l + 2) mod 32 ≠ 0)%nat → (length (root_data l) mod 512 ≠ 0)%nat.
Proof.
  destruct (length_root_ents l) as [Hl H16]. rewrite root_data_concat, (length_concat16 _ H16), Hl.
  rewrite Nat.add_comm. change 512%nat with (16 * 32)%nat. rewrite Nat.Div0.mul_mod_distr_l. lia.
Qed.

(** The file found, locked and read. *)
Lemma read_file devs s (l : args) j a r : mk_inv s (pad (root_data l) :: (content <$> l)) → img s 83 = bitmap s →
  l !! j = Some a → let u := cached (mount_state (img s)) r (new_ino (Z.of_nat (j + 2))) in
  ∃ v, ilock 1 u = Ok (tt, v) ∧
    (i_type (ino v 1), i_nlink (ino v 1), i_mode (ino v 1), i_size (ino v 1)) = (T_FILE, 1, 7, Z.of_nat (length (content a))) ∧
    readi devs 1 0 (Z.of_nat (length (content a))) v = Ok ((Z.of_nat (length (content a)), content a), v).
Proof.
  intros HI Hbm Hj u. set (F := pad (root_data l) :: (content <$> l)) in HI.
  assert (F !! S j = Some (content a)) as Hk by (simpl; rewrite list_lookup_fmap, Hj; done).
  assert (mounted s u) as Hm by (eapply mounted_cache; [by eapply mounted_ok|done..]).
  assert (Z.of_nat (j + 2) = Z.of_nat (S j) + 1) as En by lia.
  assert (1 < length (icache u))%nat as Hl1 by (simpl; lia).
  pose proof (ilock_image s F u 1 _ (S j) (content a) HI Hm Hk En Hl1 eq_refl) as El.
  set (v := upd_ino 1 _ u) in El. exists v. split; [done|].
  assert (mounted s v) as Hmv by (by eapply mounted_cache).
  assert (loaded s v 1 (Z.of_nat (S j) + 1)) as Hld by (rewrite <- En; apply loaded_locked; [simpl; lia|done]).
  destruct (mi_files _ _ HI) as [own Hf]. specialize (Hf (S j) _ Hk).
  destruct (image_fields s F v HI 1 (S j) _ own Hk Hf Hld) as (E1 & E2 & E3 & E4 & _). rewrite E1, E2, E3, E4. split; [done|].
  pose proof (image_file_ok s F v HI Hbm Hmv 1 (S j) _ own Hk Hf Hld) as Hok. pose proof (data_small s (S j) _ own Hf) as Hsm.
  rewrite (readi_eq devs 29 v 1 0 _ (mt_inv _ _ Hmv) (mt_held _ _ Hmv) Hok) by lia. rewrite E3.
  destruct (Z.ltb_spec (Z.of_nat (length (content a))) 0); [lia|].
  destruct (Z.leb_spec (2 ^ 32) (0 + Z.of_nat (length (content a)))); [lia|]. cbn [orb]. cbv zeta. rewrite Z.sub_0_r, Z.min_id.
  by rewrite (image_bytes s F v HI Hmv 1 (S j) _ own Hk Hf Hld).
Qed.

(** C6: The image of [mkfs] is what the kernel expects.  Given files that can
    be opened and fit on the disk, with names that differ in their first 14
    characters and no slashes, [mkfs] ends without error; the kernel mounts
    the image; the path of each file finds a regular file with one link, mode
    7 and the right size, and reading it returns exactly its bytes; no other
    name is found.  (A number of files that fills the last block of the
    root directory is excluded: [mkfs] then counts one block too many.) *)
Theorem mkfs_boots devs cwd (l : args) : Forall arg_ok l → fits (image_files l) → ((length l + 2) mod 32 ≠ 0)%nat →
  NoDup (name_of <$> names l) →
  ∃ s t, main l mk0 = Ok (tt, s) ∧ (mount;; fcall begin_op) (boot_state (img s)) = Ok (tt, t) ∧ fs_inv 29 t ∧
    (∀ j a, l !! j = Some a → plain (strip a.1) → let n := Z.of_nat (length (content a)) in
       ∃ i u v, namei devs cwd (slash :: strip a.1) t = Ok (Some i, u) ∧ ilock i u = Ok (tt, v) ∧
         (i_type (ino v i), i_nlink (ino v i), i_mode (ino v i), i_size (ino v i)) = (T_FILE, 1, 7, n) ∧
         readi devs i 0 n v = Ok ((n, content a), v)) ∧
    (∀ nm, plain nm → (name_of nm ∉ name_of <$> names l) → ∃ u, namei devs cwd (slash :: nm) t = Ok (None, u)).
Proof.
  intros Hok Hfit Hmod Hnd. destruct (main_inv l Hok Hfit (root_data_mod l Hmod)) as (s & E & HI & Hbm).
  exists s, (mount_state (img s)). split; [done|]. split; [apply mount_eq; by apply (mi_sb _ _ HI)|].
  split; [apply (mounted_ok s _ HI Hbm)|]. split.
  - intros j a Hj Hp n. assert (names l !! (j + 2)%nat = Some (strip a.1)) as Hn.
    { rewrite Nat.add_comm. unfold names. simpl. by rewrite list_lookup_fmap, Hj. }
    destruct (read_file devs s l j a (set_ref 0 (set_ilock false (locked_ino s 1))) HI Hbm Hj) as (v & E1 & E2 & E3).
    eexists _, _, v. split; [apply (namei_found devs cwd s l HI Hbm (j + 2) _ Hnd); [lia|exact Hn|exact Hp]|].
    exact (conj E1 (conj E2 E3)).
  - intros nm Hp Hn. exact (namei_absent devs cwd s l HI Hbm nm Hn Hp).
Qed.

(** One file, [_a] on the host, read in two pieces. *)
Definition demo_args : args := [([underscore; 97], Some [[1; 2; 3]; [4]])].

Lemma demo_ok : Forall arg_ok demo_args ∧ fits (image_files demo_args) ∧ NoDup (name_of <$> names demo_args).
Proof.
  split; [|split; [split; [|split]|]].
  - repeat constructor; [|by eexists]. apply (bool_decide_unpack _). vm_compute. done.
  - vm_compute. done.
  - vm_compute. done.
  - apply (proj1 (Forall_forall (λ d : list Z, length d ≤ 140 * 512)%nat _)). apply (bool_decide_unpack _). vm_compute. done.
  - apply (bool_decide_unpack _). vm_compute. done.
Qed.

Lemma demo_plain : plain [97].
Proof. split; [done|]. split; apply (bool_decide_unpack _); vm_compute; done. Qed.

(** The image with this file: [/a] is found and holds the four bytes. *)
Lemma mkfs_boots_witness : ∃ s t i u v, main demo_args mk0 = Ok (tt, s) ∧ (mount;; fcall begin_op) (boot_state (img s)) = Ok (tt, t) ∧
  namei (λ _, Devsw None None) 0 [slash; 97] t = Ok (Some i, u) ∧ ilock i u = Ok (tt, v) ∧
  readi (λ _, Devsw None None) i 0 4 v = Ok ((4, [1; 2; 3; 4]), v).
Proof.
  destruct demo_ok as (H1 & H2 & H3).
  assert ((length demo_args + 2) mod 32 ≠ 0)%nat as H4 by (simpl; lia).
  destruct (mkfs_boots (λ _, Devsw None None) 0 demo_args H1 H2 H4 H3) as (s & t & E1 & E2 & _ & Hf & _).
  destruct (Hf 0%nat ([underscore; 97], Some [[1; 2; 3]; [4]]) eq_refl demo_plain) as (i & u & v & E3 & E4 & _ & E5).
  exists s, t, i, u, v. exact (conj E1 (conj E2 (conj E3 (conj E4 E5)))).
Defined.
