(* ===== verification/Ide.v ===== *)
(** * The disk driver

    [ide.c]: requests for disk blocks queue up in [idequeue], a list through
    the [qnext] members of the buffers; the first is the one the disk works
    on.  [iderw] appends a request and sleeps until its buffer is done,
    [ideintr] finishes the first request and starts the next.

    The disk is reached through ports.  What the driver may expect of it is
    the class [IdeLaws]: the task file registers, the commands for reading
    and writing one sector, the data port, and that it becomes ready again.
    All of this holds only while the disk is not busy, which the driver finds
    out from the status register; nothing is known of what a busy disk does
    with a register, a command or data.

    The theorem: on a disk without errors the driver implements a queue of
    requests served in order, each with the effect of a read or a write of its
    block.  The driver sends the data of a write without waiting for the disk
    to ask for it, so this needs a disk that takes data at once; on one that
    does not, the block is lost and the request is reported done. *)

From S2P Require Import Prelude Block Bio Mkfs.

Definition SECTOR_SIZE : Z := 512.
Definition IDE_BSY : Z := 128.
Definition IDE_DRDY : Z := 64.
Definition IDE_DF : Z := 32.
Definition IDE_ERR : Z := 1.
Definition IDE_CMD_READ : Z := 32.
Definition IDE_CMD_WRITE : Z := 48.
Definition IDE_CMD_RDMUL : Z := 196.
Definition IDE_CMD_WRMUL : Z := 197.

(** ** The disk *)

Class IdeDev (D : Type) := {
  inb : Z → D → Z * D;
  outb : Z → Z → D → D;
  insl : Z → D → block * D;
  outsl : Z → block → D → D
}.

(** What is known of the disk: its registers, whether it is busy, the transfer
    that has begun (writing or not, drive, sector), the contents of the
    drives. *)
Record dview := DView {
  dregs : Z → Z;
  dbusy : bool;
  dpend : option (bool * Z * Z);
  ddisk : Z → Z → block
}.

(** Drive and sector in the registers. *)
Definition reg_drive (r : Z → Z) : Z := Z.land (Z.shiftr (r 502) 4) 1.
Definition reg_sector (r : Z → Z) : Z :=
  Z.lor (r 499) (Z.lor (Z.shiftl (r 500) 8) (Z.lor (Z.shiftl (r 501) 16) (Z.shiftl (Z.land (r 502) 15) 24))).

Definition fset2 (f : Z → Z → block) (w n : Z) (d : block) : Z → Z → block := fset f w (fset (f w) n d).

Definition ready (r : Z) : bool := Z.land r (Z.lor IDE_BSY IDE_DRDY) =? IDE_DRDY.

(** The registers can be written and a command given while the disk is not
    busy; a command makes it busy for some time, and data is moved when it is
    not busy any more.  A disk found ready is not busy, and it is found ready
    after fewer than [fuel] looks at the status register. *)
Class IdeLaws (D : Type) `{IdeDev D} (fuel : nat) := {
  view : D → dview;
  polls : D → nat;
  law_status d : let v := view d in ∃ b, view (inb 503 d).2 = DView (dregs v) b (dpend v) (ddisk v) ∧
    ((dbusy v = false ∨ ready (inb 503 d).1 = true) → b = false);
  law_poll d : ready (inb 503 d).1 = false → (polls (inb 503 d).2 < polls d)%nat;
  law_bound d : (polls d < fuel)%nat;
  law_ctl v d : dbusy (view d) = false → view (outb 1014 v d) = view d;
  law_reg p v d : 498 ≤ p ≤ 502 → dbusy (view d) = false →
    view (outb p v d) = DView (fset (dregs (view d)) p v) false (dpend (view d)) (ddisk (view d));
  law_cmd c w d : (c = IDE_CMD_READ ∧ w = false ∨ c = IDE_CMD_WRITE ∧ w = true) →
    dbusy (view d) = false → dregs (view d) 498 = 1 →
    ∃ b, view (outb 503 c d) =
      DView (dregs (view d)) b (Some (w, reg_drive (dregs (view d)), reg_sector (dregs (view d)))) (ddisk (view d));
  law_outsl l d w n : dbusy (view d) = false → dpend (view d) = Some (true, w, n) →
    ∃ b, view (outsl 496 l d) = DView (dregs (view d)) b None (fset2 (ddisk (view d)) w n l);
  law_insl d w n : dbusy (view d) = false → dpend (view d) = Some (false, w, n) →
    (insl 496 d).1 = ddisk (view d) w n ∧
    ∃ b, view (insl 496 d).2 = DView (dregs (view d)) b None (ddisk (view d))
}.

(** ** The driver *)

(** The members of [struct buf] the driver uses; [q_lk] is whether the caller
    holds its lock. *)
Record qbuf := QBuf {
  q_flags : Z;
  q_dev : Z;
  q_blockno : Z;
  q_lk : bool;
  q_next : option nat;
  q_data : block
}.
Definition set_qnext (p : option nat) (b : qbuf) : qbuf := QBuf (q_flags b) (q_dev b) (q_blockno b) (q_lk b) p (q_data b).
Definition set_qflags (f : Z) (b : qbuf) : qbuf := QBuf f (q_dev b) (q_blockno b) (q_lk b) (q_next b) (q_data b).
Definition set_qdata (d : block) (b : qbuf) : qbuf := QBuf (q_flags b) (q_dev b) (q_blockno b) (q_lk b) (q_next b) d.

Definition nset {A} (f : nat → A) (i : nat) (x : A) : nat → A := λ j, if (j =? i)%nat then x else f j.

Section driver.
Context {D : Type} `{IdeDev D} (fuel : nat).

Record ide := Ide {
  idev : D;
  qbufs : nat → qbuf;
  idequeue : option nat;
  havedisk1 : bool
}.

Definition set_idev (d : D) (s : ide) : ide := Ide d (qbufs s) (idequeue s) (havedisk1 s).
Definition set_queue (q : option nat) (s : ide) : ide := Ide (idev s) (qbufs s) q (havedisk1 s).
Definition updq (b : nat) (f : qbuf → qbuf) (s : ide) : ide :=
  Ide (idev s) (nset (qbufs s) b (f (qbufs s b))) (idequeue s) (havedisk1 s).

Definition in_port (p : Z) : M ide Z := λ s, let '(r, d) := inb p (idev s) in Ok (r, set_idev d s).
Definition out_port (p v : Z) : M ide unit := modify (λ s, set_idev (outb p v (idev s)) s).
Definition in_data (p : Z) : M ide block := λ s, let '(r, d) := insl p (idev s) in Ok (r, set_idev d s).
Definition out_data (p : Z) (b : block) : M ide unit := modify (λ s, set_idev (outsl p b (idev s)) s).

(** [idewait]; the loop is given [n] rounds. *)
Fixpoint idewait_loop (n : nat) (checkerr : bool) : M ide Z :=
  match n with
  | O => undef
  | S n' =>
      r ← in_port 503;
      if negb (ready r) then idewait_loop n' checkerr
      else if checkerr && negb (Z.land r (Z.lor IDE_DF IDE_ERR) =? 0) then mret (-1)
      else mret 0
  end.
Definition idewait (checkerr : bool) : M ide Z := idewait_loop fuel checkerr.

(** The rounds of [ideinit] that look for disk 1. *)
Fixpoint find_disk1 (n : nat) : M ide unit :=
  match n with
  | O => mret tt
  | S n' =>
      r ← in_port 503;
      if negb (r =? 0) then modify (λ s, Ide (idev s) (qbufs s) (idequeue s) true) else find_disk1 n'
  end.
Definition ideinit : M ide unit :=
  idewait false;;
  out_port 502 (Z.lor 224 (Z.shiftl 1 4));;
  find_disk1 1000;;
  out_port 502 (Z.lor 224 (Z.shiftl 0 4)).

Definition idestart (b : option nat) : M ide unit :=
  match b with
  | None => panic "idestart"
  | Some i =>
      b ← gets (λ s, qbufs s i);
      if FSSIZE <=? q_blockno b then panic "incorrect blockno" else
      let sector_per_block := BSIZE / SECTOR_SIZE in
      let sector := s32 (q_blockno b * sector_per_block) in
      let read_cmd := if sector_per_block =? 1 then IDE_CMD_READ else IDE_CMD_RDMUL in
      let write_cmd := if sector_per_block =? 1 then IDE_CMD_WRITE else IDE_CMD_WRMUL in
      if 7 <? sector_per_block then panic "idestart" else
      idewait false;;
      out_port 1014 0;;
      out_port 498 sector_per_block;;
      out_port 499 (Z.land sector 255);;
      out_port 500 (Z.land (Z.shiftr sector 8) 255);;
      out_port 501 (Z.land (Z.shiftr sector 16) 255);;
      out_port 502 (Z.lor 224 (Z.lor (Z.shiftl (Z.land (q_dev b) 1) 4) (Z.land (Z.shiftr sector 24) 15)));;
      if truthy (Z.land (q_flags b) B_DIRTY) then
        out_port 503 write_cmd;;
        out_data 496 (q_data b)
      else out_port 503 read_cmd
  end.

(** [ideintr]; the result is the buffer whose sleepers it wakes. *)
Definition ideintr : M ide (option nat) :=
  q ← gets idequeue;
  match q with
  | None => mret None
  | Some i =>
      b ← gets (λ s, qbufs s i);
      modify (set_queue (q_next b));;
      (if negb (truthy (Z.land (q_flags b) B_DIRTY)) then
         r ← idewait true;
         if 0 <=? r then d ← in_data 496; modify (updq i (set_qdata d)) else mret tt
       else mret tt);;
      modify (updq i (λ b, set_qflags (Z.lor (q_flags b) B_VALID) b));;
      modify (updq i (λ b, set_qflags (Z.land (q_flags b) (Z.lnot B_DIRTY)) b));;
      q ← gets idequeue;
      match q with
      | Some _ => idestart q;; mret (Some i)
      | None => mret (Some i)
      end
  end.

(** The walk to the end of the queue in [iderw]: the last buffer. *)
Fixpoint last_queued (n : nat) (i : nat) : M ide nat :=
  match n with
  | O => undef
  | S n' =>
      b ← gets (λ s, qbufs s i);
      match q_next b with
      | None => mret i
      | Some j => last_queued n' j
      end
  end.

(** The loop of [iderw]: [true] if it returns, [false] if it sleeps on the
    buffer, to be called again when woken. *)
Definition iderw_wait (i : nat) : M ide bool :=
  b ← gets (λ s, qbufs s i);
  mret (Z.land (q_flags b) (Z.lor B_VALID B_DIRTY) =? B_VALID).

Definition iderw (i : nat) : M ide bool :=
  b ← gets (λ s, qbufs s i);
  if negb (q_lk b) then panic "iderw: buf not locked" else
  if Z.land (q_flags b) (Z.lor B_VALID B_DIRTY) =? B_VALID then panic "iderw: nothing to do" else
  h ← gets havedisk1;
  if negb (q_dev b =? 0) && negb h then panic "iderw: ide disk 1 not present" else
  modify (updq i (set_qnext None));;
  q ← gets idequeue;
  (match q with
   | None => modify (set_queue (Some i))
   | Some j => l ← last_queued (S NBUF) j; modify (updq l (set_qnext (Some i)))
   end);;
  q ← gets idequeue;
  (if bool_decide (q = Some i) then idestart (Some i) else mret tt);;
  iderw_wait i.

End driver.
Arguments ide D : clear implicits.

(** ** The specification: a queue of requests *)

(** The contents of the disks, the requests in order, the buffers (their
    [q_next] does not matter). *)
Record aide := AIde {
  a_disk : Z → Z → block;
  a_queue : list nat;
  a_bufs : nat → qbuf
}.

Definition dirty (b : qbuf) : bool := truthy (Z.land (q_flags b) B_DIRTY).
Definition drive (b : qbuf) : Z := Z.land (q_dev b) 1.

(** The contents of the disks after a request has been started. *)
Definition started (b : qbuf) (disk : Z → Z → block) : Z → Z → block :=
  if dirty b then fset2 disk (drive b) (q_blockno b) (q_data b) else disk.
Definition a_start (a : aide) : aide :=
  match a_queue a with
  | [] => a
  | b :: _ => AIde (started (a_bufs a b) (a_disk a)) (a_queue a) (a_bufs a)
  end.

(** The buffer when its request is done. *)
Definition complete (disk : Z → Z → block) (b : qbuf) : qbuf :=
  QBuf (Z.land (Z.lor (q_flags b) B_VALID) (Z.lnot B_DIRTY)) (q_dev b) (q_blockno b) (q_lk b) (q_next b)
    (if dirty b then q_data b else disk (drive b) (q_blockno b)).

(** A process makes a request, the disk interrupts, a process changes a buffer
    it holds. *)
Inductive event := Enter (b : nat) | Intr | Client (b : nat) (x : qbuf).

Definition a_step (e : event) (a : aide) : aide :=
  match e with
  | Enter b =>
      let a' := AIde (a_disk a) (a_queue a ++ [b]) (a_bufs a) in
      if decide (a_queue a = []) then a_start a' else a'
  | Intr =>
      match a_queue a with
      | [] => a
      | b :: q => a_start (AIde (a_disk a) q (nset (a_bufs a) b (complete (a_disk a) (a_bufs a b))))
      end
  | Client b x => AIde (a_disk a) (a_queue a) (nset (a_bufs a) b x)
  end.

(** The request done at an interrupt. *)
Definition a_done (e : event) (a : aide) : option nat := match e with Intr => head (a_queue a) | _ => None end.

(** A request [iderw] accepts. *)
Record request (b : qbuf) : Prop := {
  rq_lock : q_lk b = true;
  rq_block : 0 ≤ q_blockno b < FSSIZE;
  rq_work : Z.land (q_flags b) (Z.lor B_VALID B_DIRTY) ≠ B_VALID
}.

(** Requests are for buffers that are not queued, as are changes. *)
Definition enabled (e : event) (a : aide) : Prop :=
  match e with
  | Enter b => (b < NBUF)%nat ∧ (b ∉ a_queue a) ∧ request (a_bufs a b)
  | Intr => True
  | Client b x => b ∉ a_queue a
  end.

Fixpoint a_run (es : list event) (a : aide) : aide := match es with [] => a | e :: es' => a_run es' (a_step e a) end.
Fixpoint a_served (es : list event) (a : aide) : list (option nat) :=
  match es with [] => [] | e :: es' => a_done e a :: a_served es' (a_step e a) end.
Fixpoint a_enabled (es : list event) (a : aide) : Prop :=
  match es with [] => True | e :: es' => enabled e a ∧ a_enabled es' (a_step e a) end.

(** The driver on the same events.  A request returns [None] when it goes to
    sleep; an interrupt returns the buffer whose process, woken, finds its
    request done. *)
Definition do_event {D : Type} `{IdeDev D} (fuel : nat) (e : event) : M (ide D) (option nat) :=
  match e with
  | Enter b => r ← iderw fuel b; mret (if (r : bool) then Some b else None)
  | Intr =>
      w ← ideintr fuel;
      match w with
      | None => mret None
      | Some b => r ← iderw_wait b; mret (if (r : bool) then Some b else None)
      end
  | Client b x => modify (updq b (λ _, x));; mret None
  end.
Fixpoint do_events {D : Type} `{IdeDev D} (fuel : nat) (es : list event) : M (ide D) (list (option nat)) :=
  match es with
  | [] => mret []
  | e :: es' => r ← do_event fuel e; rs ← do_events fuel es'; mret (r :: rs)
  end.

(** ** Starting a request *)

Section proofs.
Context {D : Type} (fuel : nat) `{!IdeDev D, !IdeLaws D fuel}.

(** No errors are reported. *)
Definition good_disk : Prop := ∀ d : D, Z.land (inb 503 d).1 (Z.lor IDE_DF IDE_ERR) = 0.
(** The disk takes the data of a write as soon as it has the command. *)
Definition prompt_disk : Prop := ∀ d : D, dbusy (view d) = false → dbusy (view (outb 503 IDE_CMD_WRITE d)) = false.

(** The disk when it is not busy any more. *)
Definition idle (v : dview) : dview := DView (dregs v) false (dpend v) (ddisk v).

Lemma in_port_eq {A} (k : Z → M (ide D) A) (s : ide D) :
  (in_port 503 ≫= k) s = k (inb 503 (idev s)).1 (set_idev (inb 503 (idev s)).2 s).
Proof. unfold in_port, mbind, M_bind. by destruct (inb 503 (idev s)). Qed.

Lemma idewait_loop_eq n checkerr (s : ide D) : (polls (idev s) < n)%nat → ∃ r d,
  idewait_loop n checkerr s = Ok (r, set_idev d s) ∧ view d = idle (view (idev s)) ∧ ((checkerr = false ∨ good_disk) → r = 0).
Proof.
  revert s. induction n as [|n IH]; intros s Hn; [lia|]. cbn [idewait_loop]. rewrite in_port_eq.
  destruct (law_status (idev s)) as (b & Hv & Hb). pose proof (law_poll (idev s)) as Hp.
  destruct (ready _) eqn:E; cbn [negb].
  - rewrite Hb in Hv by auto. destruct (checkerr && _) eqn:Ec.
    + exists (-1), (inb 503 (idev s)).2. split; [done|]. split; [done|]. intros [->|Hg]; [done|].
      rewrite Hg, andb_false_r in Ec. done.
    + exists 0, (inb 503 (idev s)).2. done.
  - destruct (IH (set_idev (inb 503 (idev s)).2 s)) as (r & d & E1 & E2 & E3); [simpl; specialize (Hp eq_refl); lia|].
    exists r, d. split; [done|]. split; [|done]. simpl in E2. by rewrite E2, Hv.
Qed.
Lemma idewait_eq checkerr (s : ide D) : ∃ r d, idewait fuel checkerr s = Ok (r, set_idev d s) ∧ view d = idle (view (idev s)) ∧
  ((checkerr = false ∨ good_disk) → r = 0).
Proof. apply idewait_loop_eq, law_bound. Qed.

(** A register written while the disk is not busy. *)
Lemma reg_out p x d r q k : view d = DView r false q k → 498 ≤ p ≤ 502 → view (outb p x d) = DView (fset r p x) false q k.
Proof. intros V Hp. rewrite law_reg by (done || by rewrite V). by rewrite V. Qed.

(** The registers [idestart] writes name the block. *)
Definition last_reg (e n : Z) : Z := Z.lor 224 (Z.lor (Z.shiftl e 4) (Z.land (Z.shiftr n 24) 15)).
Definition start_regs (e n : Z) (r : Z → Z) : Z → Z :=
  fset (fset (fset (fset (fset r 498 1) 499 (Z.land n 255)) 500 (Z.land (Z.shiftr n 8) 255)) 501
    (Z.land (Z.shiftr n 16) 255)) 502 (last_reg e n).
Lemma start_regs_ok e n r : 0 ≤ e ≤ 1 → 0 ≤ n < FSSIZE →
  reg_drive (start_regs e n r) = e ∧ reg_sector (start_regs e n r) = n ∧ start_regs e n r 498 = 1.
Proof.
  intros He Hn. assert (Forall (λ p : Z * Z, reg_drive (start_regs p.1 p.2 (λ _, 0)) = p.1 ∧ reg_sector (start_regs p.1 p.2 (λ _, 0)) = p.2)
    (e ← [0; 1]; n ← seqZ 0 1000; [(e, n)])) as Hall.
  { apply (bool_decide_unpack _). vm_compute. done. }
  rewrite Forall_forall in Hall. destruct (Hall (e, n)) as [H1 H2].
  { apply list_elem_of_bind. exists e. split; [|rewrite elem_of_cons, list_elem_of_singleton; lia].
    apply list_elem_of_bind. exists n. split; [by apply list_elem_of_singleton|]. apply elem_of_seqZ. unfold FSSIZE in Hn. lia. }
  split; [exact H1|]. split; [exact H2|]. done.
Qed.

Lemma drive_range b : 0 ≤ drive b ≤ 1.
Proof. unfold drive. pose proof (Z.land_ones (q_dev b) 1 ltac:(lia)) as E. change (Z.ones 1) with 1 in E. rewrite E. pose proof (Z.mod_pos_bound (q_dev b) (2 ^ 1)). lia. Qed.

Lemma out_port_eq p v (s : ide D) : out_port p v s = Ok (tt, set_idev (outb p v (idev s)) s).
Proof. done. Qed.

Lemma idestart_eq i (s : ide D) : prompt_disk → let b := qbufs s i in 0 ≤ q_blockno b < FSSIZE → ∃ d,
  idestart fuel (Some i) s = Ok (tt, set_idev d s) ∧ ddisk (view d) = started b (ddisk (view (idev s))) ∧
  (dirty b = false → dpend (view d) = Some (false, drive b, q_blockno b)).
Proof.
  intros Hprompt b Hb. unfold idestart. rewrite (bind_ok (gets _) _ _ _ _ eq_refl). fold b.
  destruct (Z.leb_spec FSSIZE (q_blockno b)); [lia|]. change (BSIZE / SECTOR_SIZE) with 1. cbv zeta. cbn [Z.eqb Pos.eqb].
  change (7 <? 1) with false. cbv iota. rewrite Z.mul_1_r, s32_small by (unfold FSSIZE in Hb; lia).
  destruct (idewait_eq false s) as (r0 & d0 & E0 & V0 & _). rewrite (bind_ok _ _ _ _ _ E0).
  rewrite !(bind_ok _ _ _ _ _ (out_port_eq _ _ _)). cbn [idev set_idev qbufs idequeue havedisk1].
  set (d1 := outb 502 _ _). set (R := start_regs (drive b) (q_blockno b) (dregs (view (idev s)))).
  assert (view d1 = DView R false (dpend (view (idev s))) (ddisk (view (idev s)))) as V1.
  { unfold d1, R, start_regs. repeat (apply reg_out; [|lia]). rewrite law_ctl by (by rewrite V0). exact V0. }
  destruct (start_regs_ok (drive b) (q_blockno b) (dregs (view (idev s))) (drive_range b) Hb) as (R1 & R2 & R3). fold R in R1, R2, R3.
  unfold started. fold (dirty b). destruct (dirty b) eqn:Ed.
  - rewrite (bind_ok _ _ _ _ _ (out_port_eq _ _ _)). eexists. split; [done|]. split; [|done]. cbn [idev set_idev].
    destruct (law_cmd IDE_CMD_WRITE true d1) as (b2 & V2); [auto|by rewrite V1..|]. rewrite V1 in V2. cbn [dregs ddisk] in V2. rewrite R1, R2 in V2.
    destruct (law_outsl (q_data b) (outb 503 IDE_CMD_WRITE d1) (drive b) (q_blockno b)) as (b3 & V3);
      [apply Hprompt; by rewrite V1|by rewrite V2|]. by rewrite V3, V2.
  - eexists. split; [done|]. cbn [idev set_idev]. destruct (law_cmd IDE_CMD_READ false d1) as (b2 & V2); [auto|by rewrite V1..|].
    rewrite V2, V1. cbn [dregs ddisk dpend]. by rewrite R1, R2.
Qed.

(** ** The queue *)

(** The buffers [L] are linked from [p]. *)
Fixpoint chain (f : nat → qbuf) (p : option nat) (L : list nat) : Prop :=
  match L with
  | [] => p = None
  | b :: L' => p = Some b ∧ chain f (q_next (f b)) L'
  end.

Lemma nset_same {A} (f : nat → A) i x : nset f i x i = x.
Proof. unfold nset. by rewrite Nat.eqb_refl. Qed.
Lemma nset_other {A} (f : nat → A) i j x : j ≠ i → nset f i x j = f j.
Proof. intros Hn. unfold nset. by rewrite (proj2 (Nat.eqb_neq j i)). Qed.

Lemma qchain_ext f g p L : (∀ b, b ∈ L → q_next (g b) = q_next (f b)) → chain f p L → chain g p L.
Proof.
  revert p. induction L as [|b L IH]; intros p Hg H; [done|]. destruct H as [-> H]. split; [done|].
  rewrite Hg by by left. apply IH; [|done]. intros c Hc. apply Hg. by right.
Qed.

Lemma last_queued_eq n f j L (s : ide D) : qbufs s = f → chain f (Some j) (j :: L) → (length L < n)%nat →
  last_queued n j s = Ok (List.last (j :: L) 0%nat, s).
Proof.
  intros Hf. revert n j. induction L as [|k L IH]; intros n j [_ H] Hn; (destruct n as [|n]; [simpl in Hn; lia|]); cbn [last_queued];
    rewrite (bind_ok (gets _) _ _ _ _ eq_refl), Hf.
  - simpl in H. by rewrite H.
  - destruct H as [H1 H2]. rewrite H1. rewrite IH by (done || (simpl in Hn; lia)). done.
Qed.

Lemma chain_append f p L b : chain f p L → NoDup L → (b ∉ L) → L ≠ [] → q_next (f b) = None →
  chain (nset f (List.last L 0%nat) (set_qnext (Some b) (f (List.last L 0%nat)))) p (L ++ [b]).
Proof.
  revert p. induction L as [|c L IH]; intros p H Hnd Hb Hne Hn; [done|]. destruct H as [-> H]. split; [done|].
  apply NoDup_cons in Hnd as [Hc Hnd]. apply not_elem_of_cons in Hb as [Hbc Hb]. destruct L as [|e L].
  - simpl. rewrite nset_same. split; [done|]. by rewrite nset_other.
  - change (List.last (c :: e :: L) 0%nat) with (List.last (e :: L) 0%nat). rewrite nset_other; [by apply IH|].
    intros ->. apply Hc. pose proof (exists_last (l := e :: L) ltac:(done)) as (L' & x & E). rewrite E, last_last.
    apply elem_of_app. right. by left.
Qed.

(** ** Simulation *)

Definition same_buf (b c : qbuf) : Prop := set_qnext None b = set_qnext None c.
Lemma same_fields b c : same_buf b c → q_flags b = q_flags c ∧ q_dev b = q_dev c ∧ q_blockno b = q_blockno c ∧ q_lk b = q_lk c ∧ q_data b = q_data c.
Proof. destruct b, c. unfold same_buf. simpl. by intros [= -> -> -> -> ->]. Qed.

Record sim0 (s : ide D) (a : aide) : Prop := {
  s_chain : chain (qbufs s) (idequeue s) (a_queue a);
  s_nodup : NoDup (a_queue a);
  s_range b : b ∈ a_queue a → (b < NBUF)%nat;
  s_bufs b : same_buf (qbufs s b) (a_bufs a b);
  s_disk w n : ddisk (view (idev s)) w n = a_disk a w n;
  s_req b : b ∈ a_queue a → request (a_bufs a b);
  s_have : havedisk1 s = true
}.
(** The disk works on the first request. *)
Definition active (s : ide D) (a : aide) : Prop :=
  ∀ b q, a_queue a = b :: q → dirty (a_bufs a b) = false →
    dpend (view (idev s)) = Some (false, drive (a_bufs a b), q_blockno (a_bufs a b)).
Definition sim (s : ide D) (a : aide) : Prop := sim0 s a ∧ active s a.

Lemma sim_start (s : ide D) a b q : prompt_disk → sim0 s a → a_queue a = b :: q → ∃ d,
  idestart fuel (Some b) s = Ok (tt, set_idev d s) ∧ sim (set_idev d s) (a_start a).
Proof.
  intros Hpr H Hq. destruct (same_fields _ _ (s_bufs _ _ H b)) as (E1 & E2 & E3 & _ & E5).
  assert (request (a_bufs a b)) as Hr by (apply (s_req _ _ H); rewrite Hq; by left).
  destruct (idestart_eq b s Hpr) as (d & E & Hd & Hp); [rewrite E3; apply Hr|]. exists d. split; [done|].
  unfold a_start. rewrite Hq. unfold dirty, drive in Hp. rewrite E1, E2, E3 in Hp. destruct H as [H1 H2 H3 H4 H5 H6 H7]. rewrite Hq in *.
  split; [split; simpl; try done|].
  - intros w n. rewrite Hd. unfold started, dirty, drive. rewrite E1, E2, E3, E5. destruct (truthy _); [|apply H5].
    unfold fset2, fset. destruct (w =? _) eqn:Ew; [|apply H5]. destruct (n =? _); [done|]. apply Z.eqb_eq in Ew as ->. apply H5.
  - intros b' q' [= <- <-] Hdy. by apply Hp.
Qed.

(** A request joins the queue. *)
Lemma sim_append (s s' : ide D) a b l : sim0 s a → (b < NBUF)%nat → (b ∉ a_queue a) → request (a_bufs a b) →
  idev s' = idev s → havedisk1 s' = havedisk1 s → (∀ c, same_buf (qbufs s' c) (qbufs s c)) →
  chain (qbufs s') (idequeue s') l → l = a_queue a ++ [b] → sim0 s' (AIde (a_disk a) l (a_bufs a)).
Proof.
  intros [H1 H2 H3 H4 H5 H6 H7] Hb Hn Hr E1 E2 E3 Hc ->. split; simpl; try done.
  - apply NoDup_app. split; [done|]. split; [|apply NoDup_singleton]. intros c Hc' ->%list_elem_of_singleton. done.
  - intros c [Hc'| ->%list_elem_of_singleton]%elem_of_app; auto.
  - intros c. unfold same_buf. rewrite E3. apply H4.
  - by rewrite E1.
  - intros c [Hc'| ->%list_elem_of_singleton]%elem_of_app; auto.
  - by rewrite E2.
Qed.

Lemma queue_short (s : ide D) a b : sim0 s a → (b < NBUF)%nat → (b ∉ a_queue a) → (length (a_queue a) < NBUF)%nat.
Proof.
  intros H Hb Hn. assert (NoDup (b :: a_queue a)) as Hnd by (apply NoDup_cons; split; [done|apply H]).
  assert (b :: a_queue a ⊆ seq 0 NBUF) as Hs.
  { intros c [->|Hc]%elem_of_cons; apply elem_of_seq; [lia|]. apply (s_range _ _ H) in Hc. lia. }
  pose proof (submseteq_length _ _ (NoDup_submseteq _ _ Hnd Hs)) as Hl. rewrite length_seq in Hl. simpl in Hl. lia.
Qed.

Lemma same_upd (s : ide D) b p c : same_buf (nset (qbufs s) b (set_qnext p (qbufs s b)) c) (qbufs s c).
Proof. unfold nset. destruct (Nat.eqb_spec c b) as [->|]; done. Qed.

(** The part of [iderw] that puts the request at the end of the queue. *)
Lemma iderw_enqueue (s : ide D) a b : sim0 s a → (b < NBUF)%nat → (b ∉ a_queue a) → request (a_bufs a b) →
  ∃ s1, (match idequeue s with
    | None => modify (set_queue (Some b))
    | Some j => l ← last_queued (S NBUF) j; modify (updq l (set_qnext (Some b)))
    end) (updq b (set_qnext None) s) = Ok (tt, s1) ∧
    sim0 s1 (AIde (a_disk a) (a_queue a ++ [b]) (a_bufs a)) ∧ idev s1 = idev s ∧
    (idequeue s1 = Some b ↔ a_queue a = []).
Proof.
  intros H Hb Hn Hr. set (s0 := updq b (set_qnext None) s).
  assert (chain (qbufs s0) (idequeue s) (a_queue a)) as Hc0.
  { eapply qchain_ext; [|apply H]. intros c Hc. simpl. rewrite nset_other; [done|]. intros ->. done. }
  pose proof (queue_short s a b H Hb Hn) as Hl. destruct (a_queue a) as [|j L] eqn:Hq.
  - simpl in Hc0. rewrite Hc0. eexists. split; [done|]. split; [|done].
    apply (sim_append s _ a b); try done; [by rewrite Hq|intros c; apply same_upd|split; [done|]|by rewrite Hq].
    simpl. by rewrite nset_same.
  - destruct Hc0 as [E Hc0]. rewrite E.
    rewrite (bind_ok _ _ _ _ _ (last_queued_eq (S NBUF) (qbufs s0) j L s0 eq_refl (conj eq_refl Hc0) ltac:(simpl in Hl; lia))).
    eexists. split; [done|]. set (l := List.last (j :: L) 0%nat). split; [|split; [done|]].
    + apply (sim_append s _ a b); try done; [by rewrite Hq| | |by rewrite Hq].
      * intros c. transitivity (set_qnext None (qbufs s0 c)); [apply (same_upd s0 l)|apply same_upd].
      * simpl idequeue. rewrite E. apply (chain_append (qbufs s0) (Some j) (j :: L) b).
        -- by split. -- rewrite <- Hq. apply H. -- done. -- done. -- simpl. by rewrite nset_same.
    + simpl. rewrite E. split; [|done]. intros [= ->]. exfalso. apply Hn. by left.
Qed.

Lemma sim_enter (s : ide D) a b : prompt_disk → sim s a → enabled (Enter b) a → ∃ s',
  do_event fuel (Enter b) s = Ok (None, s') ∧ sim s' (a_step (Enter b) a).
Proof.
  intros Hpr [H Ha] (Hb & Hn & Hr). destruct (same_fields _ _ (s_bufs _ _ H b)) as (E1 & E2 & E3 & E4 & E5).
  cbn [do_event]. unfold iderw. 
  destruct (iderw_enqueue s a b H Hb Hn Hr) as (s1 & Eq & H1 & Ev & Eh).
  assert (∀ t a', sim0 t a' → a_bufs a' = a_bufs a → iderw_wait b t = Ok (false, t)) as Hw.
  { intros t a' Ht Ea. unfold iderw_wait. rewrite (bind_ok (gets _) _ _ _ _ eq_refl).
    destruct (same_fields _ _ (s_bufs _ _ Ht b)) as (-> & _). rewrite Ea. by rewrite (proj2 (Z.eqb_neq _ _) (rq_work _ Hr)). }
  assert (∃ s', (q ← gets idequeue; (if bool_decide (q = Some b) then idestart fuel (Some b) else mret tt);; iderw_wait b) s1 = Ok (false, s') ∧
    sim s' (a_step (Enter b) a)) as (s' & Es & Hs).
  { rewrite (bind_ok (gets _) _ _ _ _ eq_refl). simpl a_step. destruct (decide (a_queue a = [])) as [E0|E0].
    - rewrite bool_decide_eq_true_2 by by apply Eh.
      destruct (sim_start s1 _ b [] Hpr H1) as (d & Ed & Hs); [simpl; by rewrite E0|].
      rewrite (bind_ok _ _ _ _ _ Ed). eexists. split; [|exact Hs]. apply (Hw _ _ (proj1 Hs)). unfold a_start. simpl. by rewrite E0.
    - rewrite bool_decide_eq_false_2 by (intros E; by apply E0, Eh). rewrite (bind_ok (mret tt) _ _ _ _ eq_refl), (Hw _ _ H1) by done.
      exists s1. split; [done|]. split; [done|]. intros c q E. simpl in E. rewrite Ev. simpl.
      destruct (a_queue a) as [|c' q'] eqn:Hq; [done|]. injection E as <- _. by apply (Ha _ q'). }
  exists s'. split; [|done]. rewrite (bind_ok _ _ s false s'); [done|].
  rewrite (bind_ok (gets _) _ _ _ _ eq_refl), E4, (rq_lock _ Hr). cbn [negb]. rewrite E1, (proj2 (Z.eqb_neq _ _) (rq_work _ Hr)).
  rewrite (bind_ok (gets _) _ _ _ _ eq_refl), (s_have _ _ H), andb_false_r, (bind_ok (modify _) _ _ _ _ eq_refl).
  rewrite (bind_ok (gets _) _ _ _ _ eq_refl). rewrite (bind_ok _ _ _ _ _ Eq). exact Es.
Qed.

(** The flags of a finished request. *)
Lemma flags_done f : Z.land (Z.land (Z.lor f B_VALID) (Z.lnot B_DIRTY)) (Z.lor B_VALID B_DIRTY) = B_VALID.
Proof.
  apply Z.bits_inj'. intros n Hn. unfold B_VALID, B_DIRTY. rewrite !Z.land_spec, Z.lor_spec, Z.lnot_spec by done.
  change (Z.lor 2 4) with 6. destruct (decide (n < 3)) as [Hlt|].
  - assert (n = 0 ∨ n = 1 ∨ n = 2) as [->|[->| ->]] by lia; simpl; by rewrite ?orb_true_r, ?andb_false_r.
  - assert (∀ m, 0 ≤ m < 2 ^ 3 → Z.testbit m n = false) as Hm.
    { intros m Hm. apply Z.bits_above_log2; [lia|]. destruct (decide (m = 0)) as [->|]; [simpl; lia|]. pose proof (Z.log2_lt_pow2 m 3). lia. }
    rewrite (Hm 6), (Hm 2) by lia. by rewrite andb_false_r.
Qed.

(** Reading the data of the request, if it is a read. *)
Lemma ideintr_data (s : ide D) a b q : good_disk → sim s a → a_queue a = b :: q →
  let s0 := set_queue (q_next (qbufs s b)) s in let c := a_bufs a b in
  ∃ s1, (if negb (truthy (Z.land (q_flags (qbufs s b)) B_DIRTY)) then
     r ← idewait fuel true;
     if 0 <=? r then d ← in_data 496; modify (updq b (set_qdata d)) else mret tt
   else mret tt) s0 = Ok (tt, s1) ∧
   idequeue s1 = q_next (qbufs s b) ∧ havedisk1 s1 = true ∧ (∀ w n, ddisk (view (idev s1)) w n = a_disk a w n) ∧
   (∀ e, e ≠ b → qbufs s1 e = qbufs s e) ∧
   same_buf (qbufs s1 b) (set_qdata (if dirty c then q_data c else a_disk a (drive c) (q_blockno c)) c).
Proof.
  intros Hg [H Ha] Hq s0 c. pose proof (s_bufs _ _ H b) as Hb. destruct (same_fields _ _ Hb) as (E1 & E2 & E3 & E4 & E5). rewrite E1.
  fold c in E1, E2, E3, E4, E5 |- *. fold (dirty c). destruct (dirty c) eqn:Ed; cbn [negb].
  { exists s0. split; [done|]. split; [done|]. split; [apply H|]. split; [apply H|]. split; [done|]. etrans; [exact Hb|done]. }
  destruct (idewait_eq true s0) as (r & d & Ew & Vd & Hr). rewrite (bind_ok _ _ _ _ _ Ew), (Hr (or_intror Hg)).
  change (0 <=? 0) with true. cbv iota. specialize (Ha b q Hq Ed). change (idev s) with (idev s0) in Ha.
  destruct (law_insl d (drive c) (q_blockno c)) as [L1 (b4 & L2)]; [by rewrite Vd..|].
  assert (in_data 496 (set_idev d s0) = Ok ((insl 496 d).1, set_idev (insl 496 d).2 s0)) as Ei
    by (unfold in_data; simpl; by destruct (insl 496 d)).
  rewrite (bind_ok _ _ _ _ _ Ei). eexists. split; [done|]. split; [done|]. split; [apply H|]. split; [|split].
  - intros w n. simpl. rewrite L2, Vd. apply H.
  - intros e He. simpl. by rewrite nset_other.
  - simpl. rewrite nset_same, L1, Vd. cbn [ddisk idle]. change (idev s0) with (idev s). rewrite (s_disk _ _ H). unfold same_buf, set_qdata, set_qnext. simpl. by rewrite E1, E2, E3, E4.
Qed.

Lemma sim_intr (s : ide D) a : good_disk → prompt_disk → sim s a → ∃ s',
  do_event fuel Intr s = Ok (a_done Intr a, s') ∧ sim s' (a_step Intr a).
Proof.
  intros Hg Hpr Hs. pose proof Hs as [H _]. cbn [do_event a_step a_done]. destruct (a_queue a) as [|b q] eqn:Hq.
  { assert (idequeue s = None) as E by (pose proof (s_chain _ _ H) as Hc; by rewrite Hq in Hc).
    exists s. split; [|done]. assert (ideintr fuel s = Ok (None, s)) as Ei by (unfold ideintr, gets, mbind, M_bind; by rewrite E).
    by rewrite (bind_ok _ _ _ _ _ Ei). }
  pose proof (s_chain _ _ H) as Hc. rewrite Hq in Hc. destruct Hc as [Hh Hc].
  pose proof (s_nodup _ _ H) as Hnd. rewrite Hq in Hnd. apply NoDup_cons in Hnd as [Hbq Hnd].
  destruct (ideintr_data s a b q Hg Hs Hq) as (s1 & Ed & I1 & I2 & I3 & I4 & I5).
  set (s2 := updq b (λ b, set_qflags (Z.land (q_flags b) (Z.lnot B_DIRTY)) b) (updq b (λ b, set_qflags (Z.lor (q_flags b) B_VALID) b) s1)).
  set (a2 := AIde (a_disk a) q (nset (a_bufs a) b (complete (a_disk a) (a_bufs a b)))).
  assert (∀ e, e ≠ b → qbufs s2 e = qbufs s e) as Hoth by (intros e He; simpl; by rewrite !nset_other, I4).
  assert (same_buf (qbufs s2 b) (complete (a_disk a) (a_bufs a b))) as Hdone.
  { simpl. rewrite !nset_same. destruct (same_fields _ _ I5) as (F1 & F2 & F3 & F4 & F5). unfold same_buf, complete, set_qnext, set_qflags.
    simpl in *. by rewrite F1, F2, F3, F4, F5. }
  assert (sim0 s2 a2) as H2.
  { split; simpl; try done.
    - rewrite I1. eapply qchain_ext; [|exact Hc]. intros e He. change (q_next (qbufs s2 e) = q_next (qbufs s e)). rewrite Hoth; [done|]. intros ->. done.
    - intros e He. apply (s_range _ _ H). rewrite Hq. by right.
    - intros e. change (same_buf (qbufs s2 e) (nset (a_bufs a) b (complete (a_disk a) (a_bufs a b)) e)).
      destruct (decide (e = b)) as [->|He]; [by rewrite nset_same|]. rewrite nset_other, Hoth by done. apply H.
    - intros e He. rewrite nset_other by (intros ->; done). apply (s_req _ _ H). rewrite Hq. by right. }
  assert (∃ d, ideintr fuel s = Ok (Some b, set_idev d s2) ∧ sim (set_idev d s2) (a_start a2)) as (d & Ei & Hsim).
  { unfold ideintr. rewrite (bind_ok (gets _) _ _ _ _ eq_refl), Hh, (bind_ok (gets _) _ _ _ _ eq_refl), (bind_ok (modify _) _ _ _ _ eq_refl).
    rewrite (bind_ok _ _ _ _ _ Ed), (bind_ok (modify _) _ _ _ _ eq_refl), (bind_ok (modify _) _ _ _ _ eq_refl).
    fold s2. rewrite (bind_ok (gets _) _ _ _ _ eq_refl). change (idequeue s2) with (idequeue s1). rewrite I1.
    destruct q as [|b' q'].
    - simpl in Hc. rewrite Hc. exists (idev s2). split; [by destruct s2|]. split; [by destruct H2|]. intros e q' E. done.
    - destruct Hc as [E Hc]. rewrite E. destruct (sim_start s2 a2 b' q' Hpr H2 eq_refl) as (d & Es & Hsim).
      exists d. split; [|done]. by rewrite (bind_ok _ _ _ _ _ Es). }
  exists (set_idev d s2). split; [|done]. rewrite (bind_ok _ _ _ _ _ Ei). cbv iota.
  unfold iderw_wait. cbn [head]. destruct (same_fields _ _ Hdone) as (F1 & _).
  assert (∀ k : Z → bool, (b0 ← gets (λ s, qbufs s b); mret (k (q_flags b0))) (set_idev d s2) = Ok (k (q_flags (qbufs s2 b)), set_idev d s2)) as Ek by done.
  rewrite (bind_ok _ _ _ _ _ (Ek (λ f, Z.land f (Z.lor B_VALID B_DIRTY) =? B_VALID))). rewrite F1. simpl q_flags. by rewrite flags_done.
Qed.

Lemma sim_client (s : ide D) a b x : sim s a → enabled (Client b x) a → ∃ s',
  do_event fuel (Client b x) s = Ok (None, s') ∧ sim s' (a_step (Client b x) a).
Proof.
  intros [[H1 H2 H3 H4 H5 H6 H7] Ha] Hb. eexists. split; [done|]. simpl in Hb.
  assert (∀ e, e ∈ a_queue a → e ≠ b) as Hne by (intros e He ->; done). split; [split; simpl; try done|].
  - eapply qchain_ext; [|exact H1]. intros e He. by rewrite nset_other by auto.
  - intros e. unfold nset. destruct (e =? b)%nat; [done|apply H4].
  - intros e He. rewrite nset_other by auto. auto.
  - intros e q E. simpl in E |- *. rewrite nset_other by (apply Hne; rewrite E; by left). by apply (Ha e q).
Qed.

(** C13: The driver is a queue.  On a disk that reports no errors and takes the
    data of a write as soon as it has the command, for every sequence of
    requests by processes that hold their buffers, interrupts and changes to
    buffers that are not queued: no call panics or fails to return; requests
    are done in the order they were made, one at each interrupt while there
    are any, and the process woken finds its request done; a read leaves the
    contents of its block in the buffer, a write leaves those of the buffer on
    the disk, and no other block or buffer changes. *)
Theorem ide_implements_queue (s : ide D) a es : good_disk → prompt_disk → sim s a → a_enabled es a → ∃ s',
  do_events fuel es s = Ok (a_served es a, s') ∧ sim s' (a_run es a).
Proof.
  intros Hg Hpr. revert s a. induction es as [|e es IH]; intros s a Hs He; [by exists s|]. destruct He as [He Hes].
  assert (∃ s1, do_event fuel e s = Ok (a_done e a, s1) ∧ sim s1 (a_step e a)) as (s1 & E1 & H1)
    by (destruct e; [by apply sim_enter|by apply sim_intr|by apply sim_client]).
  destruct (IH s1 _ H1 Hes) as (s2 & E2 & H2). exists s2. split; [|done].
  cbn [do_events]. by rewrite (bind_ok _ _ _ _ _ E1), (bind_ok _ _ _ _ _ E2).
Qed.

(** A read the disk reports as failed is marked valid all the same, with the
    old contents of the buffer. *)
Theorem ide_error_ignored (s : ide D) b : (∀ d : D, Z.land (inb 503 d).1 (Z.lor IDE_DF IDE_ERR) ≠ 0) →
  idequeue s = Some b → q_next (qbufs s b) = None → dirty (qbufs s b) = false → ∃ s',
  ideintr fuel s = Ok (Some b, s') ∧ q_data (qbufs s' b) = q_data (qbufs s b) ∧ iderw_wait b s' = Ok (true, s').
Proof.
  intros He Hq Hn Hd. unfold ideintr.
  assert (∀ n (t : ide D), (polls (idev t) < n)%nat → ∃ d, idewait_loop n true t = Ok (-1, set_idev d t)) as Hw.
  { induction n as [|n IH]; intros t Ht; [lia|]. cbn [idewait_loop]. pose proof (law_poll (idev t)) as Hp.
    rewrite in_port_eq.
    destruct (ready _); cbn [negb]; [rewrite (proj2 (Z.eqb_neq _ _) (He _)); by eexists|].
    destruct (IH (set_idev (inb 503 (idev t)).2 t)) as (d & E); [simpl; specialize (Hp eq_refl); lia|]. by exists d. }
  destruct (Hw fuel (set_queue None s) (law_bound _)) as (d & Ew).
  rewrite (bind_ok (gets _) _ _ _ _ eq_refl), Hq, (bind_ok (gets _) _ _ _ _ eq_refl), Hn, (bind_ok (modify _) _ _ _ _ eq_refl).
  fold (dirty (qbufs s b)). rewrite Hd. cbn [negb]. 
  assert ((r ← idewait fuel true; if 0 <=? r then d ← in_data 496; modify (updq b (set_qdata d)) else mret tt) (set_queue None s) =
    Ok (tt, set_idev d (set_queue None s))) as Ei by (by rewrite (bind_ok _ _ _ _ _ Ew)).
  rewrite (bind_ok _ _ _ _ _ Ei). eexists. split; [done|]. simpl. rewrite !nset_same. split; [done|].
  unfold iderw_wait. rewrite (bind_ok (gets _) _ _ _ _ eq_refl). simpl. rewrite !nset_same. simpl. by rewrite flags_done.
Qed.
End proofs.

(** ** A disk *)

(** A disk that is busy for two looks at its status after each command and
    each transfer, except that [wlag] says how long it takes to ask for the
    data of a write.  While it is busy it ignores what is sent to it. *)
Module IdeDemo.
Inductive lag := Now | Soon | Later.
Definition sooner (l : lag) : lag := match l with Later => Soon | _ => Now end.
Definition polls_left (l : lag) : nat := match l with Now => 0 | Soon => 1 | Later => 2 end.
Definition busy (l : lag) : bool := match l with Now => false | _ => true end.

Record ddisk_state := DDisk {
  d_regs : Z → Z;
  d_lag : lag;
  d_pend : option (bool * Z * Z);
  d_disk : Z → Z → block
}.

Section disk.
Context (wlag : lag).

#[local] Instance demo_dev : IdeDev ddisk_state := {
  inb p d := (if busy (d_lag d) then IDE_BSY else IDE_DRDY, DDisk (d_regs d) (sooner (d_lag d)) (d_pend d) (d_disk d));
  outb p v d :=
    if busy (d_lag d) then d
    else if (498 <=? p) && (p <=? 502) then DDisk (fset (d_regs d) p v) Now (d_pend d) (d_disk d)
    else if p =? 503 then
      let w := v =? IDE_CMD_WRITE in
      DDisk (d_regs d) (if w then wlag else Later) (Some (w, reg_drive (d_regs d), reg_sector (d_regs d))) (d_disk d)
    else d;
  insl p d :=
    match busy (d_lag d), d_pend d with
    | false, Some (false, w, n) => (d_disk d w n, DDisk (d_regs d) Later None (d_disk d))
    | _, _ => ([], d)
    end;
  outsl p b d :=
    match busy (d_lag d), d_pend d with
    | false, Some (true, w, n) => DDisk (d_regs d) Later None (fset2 (d_disk d) w n b)
    | _, _ => d
    end
}.

#[local] Instance demo_laws : IdeLaws ddisk_state 3.
Proof.
  refine {| view := λ d, DView (d_regs d) (busy (d_lag d)) (d_pend d) (d_disk d); polls := λ d, polls_left (d_lag d) |};
    cbn [dregs dbusy dpend ddisk].
  - intros [r l p k]. cbn. eexists. split; [done|]. destruct l; intros [?|?]; done.
  - intros [r l p k]. destruct l; cbn; [done|lia..].
  - intros [r l p k]. destruct l; cbn; lia.
  - intros v [r l p k] Hb. cbn in Hb. destruct l; done.
  - intros p v [r l q k] Hp Hb. cbn in Hb. destruct l; [|done..]. cbn.
    by rewrite (proj2 (Z.leb_le 498 p)), (proj2 (Z.leb_le p 502)) by lia.
  - intros c w [r l q k] Hc Hb _. cbn in Hb. destruct l; [|done..]. destruct Hc as [[-> ->]|[-> ->]]; cbn; by eexists.
  - intros b [r l q k] w n Hb Hq. cbn in Hb, Hq. destruct l; [|done..]. rewrite Hq. cbn. by eexists.
  - intros [r l q k] w n Hb Hq. cbn in Hb, Hq. destruct l; [|done..]. rewrite Hq. cbn. split; [done|]. by eexists.
Defined.

(** Buffer 0 holds a block to be written, buffer 1 is for reading it. *)
Definition demo_block : block := replicate 512 7.
Definition demo_bufs (i : nat) : qbuf :=
  if (i =? 0)%nat then QBuf B_DIRTY 1 5 true None demo_block else QBuf 0 1 5 true None zero_block.
Definition demo_ide : ide ddisk_state := Ide (DDisk (λ _, 0) Later None (λ _ _, zero_block)) demo_bufs None true.
Definition demo_spec : aide := AIde (λ _ _, zero_block) [] demo_bufs.
Definition demo_events : list event := [Enter 0; Enter 1; Intr; Intr; Intr].

Lemma demo_sim : sim 3 demo_ide demo_spec.
Proof. split; [split; simpl; try done|done]; [apply NoDup_nil_2|by intros b ?%not_elem_of_nil..]. Qed.
Lemma demo_enabled : a_enabled demo_events demo_spec.
Proof.
  split; [|split; [|done]].
  - split; [unfold NBUF; lia|]. split; [apply not_elem_of_nil|]. split; [done|vm_compute; intuition congruence|done].
  - split; [unfold NBUF; lia|]. split; [simpl; rewrite list_elem_of_singleton; lia|]. split; [done|vm_compute; intuition congruence|done].
Qed.
Lemma demo_good : good_disk (D := ddisk_state).
Proof. intros d. cbn. by destruct (busy _). Qed.
End disk.

(** The block written is the block read. *)
Lemma ide_implements_queue_witness : ∃ s', do_events (H := demo_dev Now) 3 demo_events demo_ide = Ok ([None; None; Some 0%nat; Some 1%nat; None], s') ∧
  q_data (qbufs s' 1) = demo_block.
Proof.
  assert (prompt_disk 3 (IdeLaws0 := demo_laws Now)) as Hp by (intros [r l q k]; cbn; by destruct l).
  destruct (ide_implements_queue 3 (IdeLaws0 := demo_laws Now) demo_ide demo_spec demo_events (demo_good Now) Hp (demo_sim Now) demo_enabled) as (s' & E & H).
  exists s'. split; [exact E|]. destruct (same_fields _ _ (s_bufs _ _ _ (proj1 H) 1%nat)) as (_ & _ & _ & _ & ->). reflexivity.
Defined.

(** On a disk that is as documented but asks for the data of a write a little
    after the command, the write is reported done and the block is not on the
    disk. *)
Theorem ide_slow_write_lost :
  match do_events (H := demo_dev Later) 3 [Enter 0; Intr] demo_ide with
  | Ok (r, s) => r = [None; Some 0%nat] ∧ d_disk (idev s) 1 5 = zero_block ∧ q_data (qbufs s 0) = demo_block
  | _ => False
  end.
Proof. vm_compute. done. Qed.
End IdeDemo.
