(* ===== verification/Boot.v ===== *)
(** * The boot loader

    [bootmain.c]: reads the kernel, an ELF file that starts at sector 1 of the
    disk, into memory.  The disk is the one of [Ide.v], reached through the
    same ports; memory is a function from physical addresses to bytes.

    Whole sectors are read, so a segment brings along bytes before and after
    it.  The theorem gives the layouts for which this does no harm, and says
    that memory then holds every segment as the file has it. *)

From S2P Require Import Prelude CString Layout Block Ide.

Definition SECTSIZE : Z := 512.
(** The scratch space for the header. *)
Definition SCRATCH : Z := 65536.

Section loader.
Context {D : Type} `{IdeDev D} (fuel : nat).

Record bootst := BootSt {
  bdev : D;
  bmem : mem
}.

Definition binb (p : Z) : M bootst Z := λ s, let '(r, d) := inb p (bdev s) in Ok (r, BootSt d (bmem s)).
Definition boutb (p v : Z) : M bootst unit := modify (λ s, BootSt (outb p (u8 v) (bdev s)) (bmem s)).

(** [waitdisk], given [n] rounds. *)
Fixpoint waitdisk (n : nat) : M bootst unit :=
  match n with
  | O => undef
  | S n' => r ← binb 503; if negb (Z.land r 192 =? 64) then waitdisk n' else mret tt
  end.

(** The bytes [l] stored from [a]. *)
Definition store_bytes (m : mem) (a : Z) (l : list Z) : mem :=
  λ x, if (a <=? x) && (x <? a + Z.of_nat (length l)) then l !!! Z.to_nat (x - a) else m x.

(** [insl(0x1F0, dst, SECTSIZE/4)] *)
Definition binsl (dst : Z) : M bootst unit := λ s,
  let '(l, d) := insl 496 (bdev s) in Ok (tt, BootSt d (store_bytes (bmem s) dst l)).

Definition readsect (dst offset : Z) : M bootst unit :=
  waitdisk fuel;;
  boutb 498 1;;
  boutb 499 offset;;
  boutb 500 (Z.shiftr offset 8);;
  boutb 501 (Z.shiftr offset 16);;
  boutb 502 (Z.lor (Z.shiftr offset 24) 224);;
  boutb 503 32;;
  waitdisk fuel;;
  binsl dst.

(** Pointers range over the 32-bit addresses; arithmetic that leaves them is
    undefined. *)
Definition ptr (a : Z) : M bootst Z := if (0 <=? a) && (a <? 2 ^ 32) then mret a else undef.

(** The loop of [readseg]. *)
Fixpoint readseg_loop (n : nat) (pa epa offset : Z) : M bootst unit :=
  if negb (pa <? epa) then mret tt else
  match n with
  | O => undef
  | S n' => readsect pa offset;; pa' ← ptr (pa + SECTSIZE); readseg_loop n' pa' epa (u32 (offset + 1))
  end.
Definition readseg (pa count offset : Z) : M bootst unit :=
  epa ← ptr (pa + count);
  pa ← ptr (pa - offset mod SECTSIZE);
  let offset := u32 (offset / SECTSIZE + 1) in
  readseg_loop (Z.to_nat ((epa - pa + SECTSIZE - 1) / SECTSIZE)) pa epa offset.

(** Members of the headers in memory. *)
Definition elf_magic (m : mem) (elf : Z) : Z := load32 m elf.
Definition elf_entry (m : mem) (elf : Z) : Z := load32 m (elf + 24).
Definition elf_phoff (m : mem) (elf : Z) : Z := load32 m (elf + 28).
Definition elf_phnum (m : mem) (elf : Z) : Z := m (elf + 44) + 2 ^ 8 * m (elf + 45).
Definition ph_off (m : mem) (ph : Z) : Z := load32 m (ph + 4).
Definition ph_paddr (m : mem) (ph : Z) : Z := load32 m (ph + 12).
Definition ph_filesz (m : mem) (ph : Z) : Z := load32 m (ph + 16).
Definition ph_memsz (m : mem) (ph : Z) : Z := load32 m (ph + 20).

(** The loop over the program headers, [n] of them left. *)
Fixpoint boot_segments (n : nat) (ph : Z) : M bootst unit :=
  match n with
  | O => mret tt
  | S n' =>
      m ← gets bmem;
      let pa := ph_paddr m ph in
      readseg pa (ph_filesz m ph) (ph_off m ph);;
      m ← gets bmem;
      (if ph_filesz m ph <? ph_memsz m ph then
         a ← ptr (pa + ph_filesz m ph);
         modify (λ s, BootSt (bdev s) (stosb (bmem s) a 0 (Z.to_nat (ph_memsz m ph - ph_filesz m ph))))
       else mret tt);;
      ph' ← ptr (ph + sizeof_proghdr);
      boot_segments n' ph'
  end.

(** [bootmain]: the address it jumps to, or [None] if it returns. *)
Definition bootmain : M bootst (option Z) :=
  readseg SCRATCH 4096 0;;
  m ← gets bmem;
  if negb (elf_magic m SCRATCH =? ELF_MAGIC) then mret None else
  ph ← ptr (SCRATCH + elf_phoff m SCRATCH);
  boot_segments (Z.to_nat (elf_phnum m SCRATCH)) ph;;
  m ← gets bmem;
  mret (Some (elf_entry m SCRATCH)).

End loader.
Arguments bootst D : clear implicits.

(** ** Reading sectors *)

Lemma u8_bit x n : 0 ≤ n → Z.testbit (u8 x) n = (n <? 8) && Z.testbit x n.
Proof.
  intros Hn. unfold u8. change 256 with (2 ^ 8). destruct (Z.ltb_spec n 8).
  - by rewrite Z.mod_pow2_bits_low.
  - by rewrite Z.mod_pow2_bits_high by lia.
Qed.

Lemma bit_224 n : 0 ≤ n → Z.testbit 224 n = (5 <=? n) && (n <? 8).
Proof.
  intros Hn. destruct (decide (n < 8)) as [Hlt|Hge].
  - assert (n ∈ seqZ 0 8) as Hin by (apply elem_of_seqZ; lia).
    assert (Forall (λ n, Z.testbit 224 n = (5 <=? n) && (n <? 8)) (seqZ 0 8)) as Hf by (apply (bool_decide_unpack _); vm_compute; done).
    rewrite Forall_forall in Hf. by apply Hf.
  - rewrite (proj2 (Z.ltb_ge n 8)), andb_false_r by lia. apply Z.bits_above_log2; [lia|]. simpl. lia.
Qed.

(** The registers [readsect] writes. *)
Definition sect_regs (o : Z) (r : Z → Z) : Z → Z :=
  fset (fset (fset (fset (fset r 498 (u8 1)) 499 (u8 o)) 500 (u8 (Z.shiftr o 8))) 501 (u8 (Z.shiftr o 16))) 502
    (u8 (Z.lor (Z.shiftr o 24) 224)).
Lemma sect_regs_ok o r : 0 ≤ o < 2 ^ 28 →
  reg_drive (sect_regs o r) = 0 ∧ reg_sector (sect_regs o r) = o ∧ sect_regs o r 498 = 1.
Proof.
  intros Ho. assert (∀ n, 28 ≤ n → Z.testbit o n = false) as Hhi.
  { intros n Hn. destruct (decide (o = 0)) as [->|]; [apply Z.bits_0|]. apply Z.bits_above_log2; [lia|].
    assert (Z.log2 o < 28) by (apply Z.log2_lt_pow2; lia). lia. }
  split; [|split; [|done]].
  - unfold reg_drive. change (sect_regs o r 502) with (u8 (Z.lor (Z.shiftr o 24) 224)). apply Z.bits_inj'. intros n Hn.
    rewrite Z.bits_0, Z.land_spec, Z.shiftr_spec, u8_bit, Z.lor_spec, Z.shiftr_spec, bit_224 by lia.
    destruct (decide (n = 0)) as [->|]; [rewrite Hhi by lia; done|].
    assert (Z.testbit 1 n = false) as -> by (apply Z.bits_above_log2; simpl; lia). apply andb_false_r.
  - unfold reg_sector. change (sect_regs o r 499) with (u8 o). change (sect_regs o r 500) with (u8 (Z.shiftr o 8)).
    change (sect_regs o r 501) with (u8 (Z.shiftr o 16)). change (sect_regs o r 502) with (u8 (Z.lor (Z.shiftr o 24) 224)).
    apply Z.bits_inj'. intros n Hn. rewrite !Z.lor_spec. rewrite !Z.shiftl_spec by lia.
    assert (∀ x k, Z.testbit (u8 (Z.shiftr x k)) (n - k) = (k <=? n) && (n <? k + 8) && Z.testbit x n) as Hb.
    { intros x k. destruct (Z.leb_spec k n); [|by rewrite Z.testbit_neg_r by lia].
      rewrite u8_bit, Z.shiftr_spec by lia. replace (n - k + k) with n by lia. cbn [andb]. f_equal. 
      destruct (Z.ltb_spec (n - k) 8), (Z.ltb_spec n (k + 8)); lia || done. }
    rewrite !Hb, (u8_bit o), Z.land_spec by done.
    assert (Z.testbit (u8 (Z.lor (Z.shiftr o 24) 224)) (n - 24) && Z.testbit 15 (n - 24) = (24 <=? n) && (n <? 28) && Z.testbit o n) as ->.
    { destruct (Z.leb_spec 24 n); [|by rewrite Z.testbit_neg_r by lia]. rewrite u8_bit, Z.lor_spec, Z.shiftr_spec, bit_224 by lia.
      replace (n - 24 + 24) with n by lia. change 15 with (Z.ones 4). destruct (Z.ltb_spec n 28).
      - rewrite Z.ones_spec_low by lia. rewrite (proj2 (Z.ltb_lt (n - 24) 8)), (proj2 (Z.leb_gt 5 (n - 24))) by lia. cbn [andb].
        by rewrite orb_false_r, andb_true_r.
      - by rewrite Z.ones_spec_high, andb_false_r by lia. }
    destruct (Z.testbit o n) eqn:E; rewrite ?andb_true_r, ?andb_false_r; [|done].
    assert (n < 28) by (destruct (decide (n < 28)); [done|]; rewrite Hhi in E by lia; done).
    destruct (Z.ltb_spec n 8), (Z.leb_spec 8 n), (Z.ltb_spec n (8 + 8)), (Z.leb_spec 16 n), (Z.ltb_spec n (16 + 8)),
      (Z.leb_spec 24 n), (Z.ltb_spec n 28); done || lia.
Qed.

(** Byte [o] of the kernel file. *)
Definition kbyte (disk : Z → Z → block) (o : Z) : Z := disk 0 (o / 512 + 1) !!! Z.to_nat (o mod 512).

Section loading.
Context {D : Type} (fuel : nat) `{!IdeDev D, !IdeLaws D fuel}.
Context (disk : Z → Z → block) (Hlen : ∀ w n, length (disk w n) = 512%nat).

(** The disk holds [disk]. *)
Definition on (s : bootst D) : Prop := ∀ w n, ddisk (view (bdev s)) w n = disk w n.

Lemma waitdisk_eq (s : bootst D) : ∃ d, waitdisk fuel s = Ok (tt, BootSt d (bmem s)) ∧ view d = idle (view (bdev s)).
Proof.
  pose proof (law_bound (bdev s)) as Hn. revert Hn. generalize fuel at 2 3. intros n. revert s.
  induction n as [|n IH]; intros s Hn; [lia|]. cbn [waitdisk].
  destruct (law_status (bdev s)) as (b & Hv & Hb). pose proof (law_poll (bdev s)) as Hp.
  assert (∀ k : Z → M (bootst D) unit, (binb 503 ≫= k) s = k (inb 503 (bdev s)).1 (BootSt (inb 503 (bdev s)).2 (bmem s))) as ->.
  { intros k. unfold binb, mbind, M_bind. by destruct (inb 503 (bdev s)). }
  change (Z.land ?r 192 =? 64) with (ready r). destruct (ready _) eqn:E; cbn [negb];
    [rewrite Hb in Hv by auto; by eexists|].
  destruct (IH (BootSt (inb 503 (bdev s)).2 (bmem s))) as (d & E1 & E2); [simpl; specialize (Hp eq_refl); lia|].
  exists d. split; [done|]. simpl in E2. by rewrite E2, Hv.
Qed.

Lemma boutb_eq p v (s : bootst D) : boutb p v s = Ok (tt, BootSt (outb p (u8 v) (bdev s)) (bmem s)).
Proof. done. Qed.

Lemma readsect_eq dst o (s : bootst D) : on s → 0 ≤ o < 2 ^ 28 → ∃ s', readsect fuel dst o s = Ok (tt, s') ∧ on s' ∧
  ∀ x, bmem s' x = if (dst <=? x) && (x <? dst + 512) then disk 0 o !!! Z.to_nat (x - dst) else bmem s x.
Proof using Hlen.
  intros Hon Ho. unfold readsect. destruct (waitdisk_eq s) as (d0 & E0 & V0). rewrite (bind_ok _ _ _ _ _ E0).
  rewrite !(bind_ok _ _ _ _ _ (boutb_eq _ _ _)). cbn [bdev bmem]. set (d1 := outb 502 _ _). set (d2 := outb 503 _ d1).
  set (R := sect_regs o (dregs (view (bdev s)))).
  assert (view d1 = DView R false (dpend (view (bdev s))) (ddisk (view (bdev s)))) as V1.
  { unfold d1, R, sect_regs. repeat (apply (reg_out fuel); [|lia]). exact V0. }
  destruct (sect_regs_ok o (dregs (view (bdev s))) Ho) as (R1 & R2 & R3). fold R in R1, R2, R3.
  destruct (law_cmd IDE_CMD_READ false d1) as (b2 & V2); [auto|by rewrite V1..|].
  change (outb 503 IDE_CMD_READ d1) with d2 in V2. rewrite V1 in V2. cbn [dregs ddisk] in V2. rewrite R1, R2 in V2.
  destruct (waitdisk_eq (BootSt d2 (bmem s))) as (d3 & E3 & V3). rewrite (bind_ok _ _ _ _ _ E3). cbn [bdev] in V3. rewrite V2 in V3.
  destruct (law_insl d3 0 o) as [L1 (b4 & L2)]; [by rewrite V3..|]. unfold binsl. cbn [bdev bmem]. destruct (insl 496 d3) as [l d4].
  cbn [fst snd] in L1, L2. eexists. split; [done|]. rewrite V3 in L1, L2. split.
  - intros w n. simpl. rewrite L2. apply Hon.
  - intros x. simpl. unfold store_bytes. rewrite L1. cbn [ddisk idle]. rewrite Hon, Hlen. done.
Qed.

Lemma ptr_eq a (s : bootst D) : 0 ≤ a < 2 ^ 32 → ptr a s = Ok (a, s).
Proof. intros Ha. unfold ptr. by rewrite (proj2 (Z.leb_le 0 a)), (proj2 (Z.ltb_lt a (2 ^ 32))) by lia. Qed.

(** The loop over [n] sectors. *)
Lemma readseg_loop_eq n pa epa o (s : bootst D) : on s → 0 ≤ o → o + Z.of_nat n < 2 ^ 28 →
  0 ≤ pa → pa + 512 * Z.of_nat n < 2 ^ 32 →
  n = Z.to_nat ((epa - pa + 511) / 512) → ∃ s', readseg_loop fuel n pa epa o s = Ok (tt, s') ∧ on s' ∧
  ∀ x, bmem s' x = if (pa <=? x) && (x <? pa + 512 * Z.of_nat n) then disk 0 (o + (x - pa) / 512) !!! Z.to_nat ((x - pa) mod 512) else bmem s x.
Proof using Hlen.
  revert pa o s. induction n as [|n IH]; intros pa o s Hon Ho Hn Hp Hp2 En; cbn [readseg_loop].
  - destruct (Z.ltb_spec pa epa); [exfalso; Z.div_mod_to_equations; lia|]. exists s. split; [done|]. split; [done|].
    intros x. destruct (Z.leb_spec pa x), (Z.ltb_spec x (pa + 512 * Z.of_nat 0)); try done; lia.
  - destruct (Z.ltb_spec pa epa); [|exfalso; Z.div_mod_to_equations; lia]. cbn [negb].
    destruct (readsect_eq pa o s Hon ltac:(lia)) as (s1 & E1 & H1 & M1). rewrite (bind_ok _ _ _ _ _ E1).
    rewrite (bind_ok _ _ _ _ _ (ptr_eq (pa + SECTSIZE) s1 ltac:(unfold SECTSIZE; lia))), (u32_small (o + 1)) by lia.
    destruct (IH (pa + SECTSIZE) (o + 1) s1) as (s2 & E2 & H2 & M2); unfold SECTSIZE in *; try done; try lia.
    { replace (epa - (pa + 512) + 511) with (epa - pa + 511 + (-1) * 512) by lia. rewrite Z.div_add by lia. lia. }
    exists s2. split; [done|]. split; [done|]. intros x. rewrite M2, M1.
    destruct (Z.leb_spec (pa + 512) x), (Z.ltb_spec x (pa + 512 + 512 * Z.of_nat n)), (Z.leb_spec pa x),
      (Z.ltb_spec x (pa + 512)), (Z.ltb_spec x (pa + 512 * Z.of_nat (S n))); cbn [andb]; try lia; try done.
    + replace (x - pa) with (x - (pa + 512) + 1 * 512) by lia. rewrite Z.div_add, Z.mod_add by lia. do 2 f_equal. lia.
    + rewrite Z.div_small, Z.mod_small, Z.add_0_r by lia. done.
Qed.

(** The memory [readseg] writes: from [lo], a whole number of sectors. *)
Definition seg_lo (pa offset : Z) : Z := pa - offset mod 512.
Definition seg_hi (pa count offset : Z) : Z := seg_lo pa offset + 512 * ((count + offset mod 512 + 511) / 512).

Lemma readseg_eq pa count o (s : bootst D) : on s → 0 ≤ o → 0 ≤ count → o + count < 2 ^ 32 →
  0 ≤ seg_lo pa o → seg_hi pa count o < 2 ^ 32 → ∃ s',
  readseg fuel pa count o s = Ok (tt, s') ∧ on s' ∧
  ∀ x, bmem s' x = if (seg_lo pa o <=? x) && (x <? seg_hi pa count o) then kbyte disk (x - pa + o) else bmem s x.
Proof using Hlen.
  intros Hon Ho Hc Hs Hlo Hhi. unfold readseg, SECTSIZE. unfold seg_hi, seg_lo in Hlo, Hhi.
  assert (0 ≤ o mod 512 < 512) as Hr by (apply Z.mod_pos_bound; lia).
  assert (count + o mod 512 ≤ 512 * ((count + o mod 512 + 511) / 512) ≤ count + o mod 512 + 511) as Hq by (Z.div_mod_to_equations; lia).
  rewrite (bind_ok _ _ _ _ _ (ptr_eq (pa + count) s ltac:(lia))), (bind_ok _ _ _ _ _ (ptr_eq (pa - o mod 512) s ltac:(lia))).
  cbv zeta. rewrite (u32_small (o / 512 + 1)) by (Z.div_mod_to_equations; lia).
  replace (pa + count - (pa - o mod 512) + 512 - 1) with (count + o mod 512 + 511) by lia.
  destruct (readseg_loop_eq (Z.to_nat ((count + o mod 512 + 511) / 512)) (pa - o mod 512) (pa + count) (o / 512 + 1) s)
    as (s' & E & H & Hm); try done.
  - Z.div_mod_to_equations. lia.
  - Z.div_mod_to_equations. lia.
  - lia.
  - do 2 f_equal. lia.
  - exists s'. split; [done|]. split; [done|]. intros x. rewrite Hm. unfold seg_hi, seg_lo.
    rewrite Z2Nat.id by (Z.div_mod_to_equations; lia). destruct (_ && _) eqn:E1; [|done]. apply andb_true_iff in E1 as [E1%Z.leb_le _].
    unfold kbyte. replace (x - pa + o) with (x - (pa - o mod 512) + (o / 512) * 512) by (Z.div_mod_to_equations; lia).
    rewrite Z.div_add, Z.mod_add by lia. do 2 f_equal. lia.
Qed.

(** ** Loading the segments *)

(** The first page of the file where [bootmain] puts it, and the program
    headers in it. *)
Definition hdr : mem := λ x, kbyte disk (x - SCRATCH).
Definition phs (i : nat) : Z := SCRATCH + elf_phoff hdr SCRATCH + 32 * Z.of_nat i.
Definition nph : nat := Z.to_nat (elf_phnum hdr SCRATCH).
Definition seg_pa (i : nat) : Z := ph_paddr hdr (phs i).
Definition seg_off (i : nat) : Z := ph_off hdr (phs i).
Definition seg_filesz (i : nat) : Z := ph_filesz hdr (phs i).
Definition seg_memsz (i : nat) : Z := ph_memsz hdr (phs i).

(** The memory that loading segment [i] writes, and the memory it is to fill. *)
Definition written (i : nat) (x : Z) : Prop :=
  seg_lo (seg_pa i) (seg_off i) ≤ x < Z.max (seg_hi (seg_pa i) (seg_filesz i) (seg_off i)) (seg_pa i + seg_memsz i).
Definition filled (i : nat) (x : Z) : Prop := seg_pa i ≤ x < seg_pa i + Z.max (seg_filesz i) (seg_memsz i).

Definition in_scratch (x : Z) : Prop := SCRATCH ≤ x < SCRATCH + 4096.

(** An ELF file with its program headers in the first page, whose segments
    stay away from that page, and of which none spoils an earlier one. *)
Record boot_layout : Prop := {
  bl_magic : elf_magic hdr SCRATCH = ELF_MAGIC;
  bl_phs : elf_phoff hdr SCRATCH + 32 * elf_phnum hdr SCRATCH ≤ 4096;
  bl_file i : (i < nph)%nat → seg_off i + seg_filesz i < 2 ^ 32;
  bl_lo i : (i < nph)%nat → 0 ≤ seg_lo (seg_pa i) (seg_off i);
  bl_hi i : (i < nph)%nat → seg_hi (seg_pa i) (seg_filesz i) (seg_off i) < 2 ^ 32 ∧ seg_pa i + seg_memsz i < 2 ^ 32;
  bl_scratch i x : (i < nph)%nat → written i x → in_scratch x → False;
  bl_later i j x : (i < j < nph)%nat → filled i x → written j x → False
}.

(** Segment [i] as the file has it, the rest of it zero. *)
Definition loaded (m : mem) (i : nat) : Prop :=
  (∀ x, seg_pa i ≤ x < seg_pa i + seg_filesz i → m x = kbyte disk (seg_off i + (x - seg_pa i))) ∧
  (∀ x, seg_pa i + seg_filesz i ≤ x < seg_pa i + seg_memsz i → m x = 0).

Definition header_kept (m : mem) : Prop := ∀ x, in_scratch x → m x = hdr x.

Context (Hbyte : ∀ w n, Forall (λ b, 0 ≤ b < 256) (disk w n)) (HL : boot_layout).

Lemma hdr_byte : byte_mem hdr.
Proof using Hlen Hbyte.
  intros x. unfold hdr, kbyte. set (b := disk _ _). assert (Z.to_nat ((x - SCRATCH) mod 512) < length b)%nat as Hi.
  { unfold b. rewrite Hlen. pose proof (Z.mod_pos_bound (x - SCRATCH) 512 ltac:(lia)). lia. }
  pose proof (Hbyte 0 ((x - SCRATCH) / 512 + 1)) as H. rewrite Forall_forall in H. apply H. fold b.
  by apply list_elem_of_lookup_total_2.
Qed.

Lemma field_kept m a : header_kept m → SCRATCH ≤ a → a + 4 ≤ SCRATCH + 4096 → load32 m a = load32 hdr a.
Proof. intros Hk H1 H2. apply load32_ext. intros x Hx. apply Hk. unfold in_scratch. lia. Qed.

Lemma ph_kept m i : header_kept m → (i < nph)%nat → ph_paddr m (phs i) = seg_pa i ∧ ph_filesz m (phs i) = seg_filesz i ∧
  ph_off m (phs i) = seg_off i ∧ ph_memsz m (phs i) = seg_memsz i.
Proof using Hlen Hbyte HL.
  intros Hk Hi. pose proof (load32_range hdr (SCRATCH + 28) hdr_byte). pose proof (bl_phs HL) as Hp.
  assert (0 ≤ elf_phoff hdr SCRATCH) by (unfold elf_phoff; lia). unfold nph in Hi.
  assert (SCRATCH ≤ phs i ∧ phs i + 32 ≤ SCRATCH + 4096) as [H1 H2] by (unfold phs; lia).
  unfold seg_pa, seg_filesz, seg_off, seg_memsz, ph_paddr, ph_filesz, ph_off, ph_memsz.
  repeat split; apply field_kept; try done; lia.
Qed.

Lemma seg_ranges i : 0 ≤ seg_pa i ∧ 0 ≤ seg_filesz i ∧ 0 ≤ seg_off i ∧ 0 ≤ seg_memsz i.
Proof using Hlen Hbyte.
  unfold seg_pa, seg_filesz, seg_off, seg_memsz, ph_paddr, ph_filesz, ph_off, ph_memsz.
  pose proof (λ a, load32_range hdr a hdr_byte) as H. repeat split; apply H.
Qed.

Lemma seg_hi_ge pa count o : 0 ≤ count → 0 ≤ o → seg_lo pa o ≤ pa ∧ pa + count ≤ seg_hi pa count o.
Proof. intros Hc Ho. unfold seg_hi, seg_lo. Z.div_mod_to_equations. lia. Qed.

Lemma kept_unless_written m m' i : header_kept m → (i < nph)%nat → (∀ x, ¬ written i x → m' x = m x) → header_kept m'.
Proof using HL. intros Hk Hi Hx x Hs. rewrite Hx; [by apply Hk|]. intros Hw. by apply (bl_scratch HL i x). Qed.

(** [readseg] for segment [i]. *)
Lemma segment_read i (s : bootst D) : on s → (i < nph)%nat → ∃ s',
  readseg fuel (seg_pa i) (seg_filesz i) (seg_off i) s = Ok (tt, s') ∧ on s' ∧
  (∀ x, seg_pa i ≤ x < seg_pa i + seg_filesz i → bmem s' x = kbyte disk (seg_off i + (x - seg_pa i))) ∧
  (∀ x, ¬ written i x → bmem s' x = bmem s x).
Proof using Hlen Hbyte HL.
  intros Hon Hi. destruct (seg_ranges i) as (R1 & R2 & R3 & R4).
  destruct (readseg_eq (seg_pa i) (seg_filesz i) (seg_off i) s) as (s' & E & H & Hm); try done; try by apply HL.
  destruct (seg_hi_ge (seg_pa i) (seg_filesz i) (seg_off i)) as [G1 G2]; [done..|].
  exists s'. split; [done|]. split; [done|]. split; intros x Hx; rewrite Hm.
  - rewrite (proj2 (Z.leb_le _ x)), (proj2 (Z.ltb_lt x _)) by lia. cbn [andb]. f_equal. lia.
  - unfold written in Hx. destruct (Z.leb_spec (seg_lo (seg_pa i) (seg_off i)) x), (Z.ltb_spec x (seg_hi (seg_pa i) (seg_filesz i) (seg_off i)));
      cbn [andb]; try done. lia.
Qed.

(** One round of the loop of [bootmain]. *)
Lemma segment_step n i (s : bootst D) : on s → header_kept (bmem s) → (i < nph)%nat → ∃ s',
  boot_segments fuel (S n) (phs i) s = boot_segments fuel n (phs (S i)) s' ∧ on s' ∧ loaded (bmem s') i ∧
  (∀ x, ¬ written i x → bmem s' x = bmem s x).
Proof using Hlen Hbyte HL.
  intros Hon Hk Hi. destruct (ph_kept _ i Hk Hi) as (P1 & P2 & P3 & P4). cbn [boot_segments].
  rewrite (bind_ok (gets _) _ _ _ _ eq_refl). cbv zeta. rewrite P1, P2, P3.
  destruct (segment_read i s Hon Hi) as (s1 & E1 & H1 & L1 & F1). rewrite (bind_ok _ _ _ _ _ E1).
  rewrite (bind_ok (gets _) _ _ _ _ eq_refl).
  destruct (ph_kept (bmem s1) i) as (_ & Q2 & _ & Q4); [by apply (kept_unless_written (bmem s) _ i)|done|]. rewrite Q2, Q4.
  assert (∀ s : bootst D, ptr (phs i + sizeof_proghdr) s = Ok (phs (S i), s)) as Hptr.
  { intros s0. rewrite ptr_eq; unfold phs, sizeof_proghdr; [do 2 f_equal; lia|]. pose proof (bl_phs HL). unfold nph in Hi.
    pose proof (load32_range hdr (SCRATCH + 28) hdr_byte). unfold elf_phoff, SCRATCH in *. lia. }
  destruct (seg_ranges i) as (R1 & R2 & R3 & R4). destruct (bl_hi HL i Hi) as [B1 B2].
  destruct (Z.ltb_spec (seg_filesz i) (seg_memsz i)) as [Hlt|Hge].
  - set (m' := stosb (bmem s1) (seg_pa i + seg_filesz i) 0 (Z.to_nat (seg_memsz i - seg_filesz i))).
    assert (∀ x, m' x = if (seg_pa i + seg_filesz i <=? x) && (x <? seg_pa i + seg_filesz i + (seg_memsz i - seg_filesz i)) then 0 else bmem s1 x) as Hm'.
    { intros x. unfold m'. by rewrite stosb_spec, Z2Nat.id by lia. }
    exists (BootSt (bdev s1) m'). rewrite (bind_ok _ _ s1 tt (BootSt (bdev s1) m'));
      [|by rewrite (bind_ok _ _ _ _ _ (ptr_eq (seg_pa i + seg_filesz i) s1 ltac:(lia)))].
    rewrite (bind_ok _ _ _ _ _ (Hptr _)). split; [reflexivity|]. split; [exact H1|]. cbn [bmem].
    destruct (seg_hi_ge (seg_pa i) (seg_filesz i) (seg_off i)) as [G1 G2]; [done..|].
    split; [split|]; intros x Hx; rewrite Hm'.
    + rewrite (proj2 (Z.leb_gt _ x)) by lia. by apply L1.
    + rewrite (proj2 (Z.leb_le _ x)), (proj2 (Z.ltb_lt x _)) by lia. done.
    + rewrite <- (F1 x Hx). unfold written in Hx. destruct (Z.leb_spec (seg_pa i + seg_filesz i) x),
        (Z.ltb_spec x (seg_pa i + seg_filesz i + (seg_memsz i - seg_filesz i))); cbn [andb]; try done. lia.
  - exists s1. rewrite (bind_ok (mret tt) _ s1 tt s1 eq_refl), (bind_ok _ _ _ _ _ (Hptr _)). split; [done|]. split; [done|].
    split; [|done]. split; [done|]. intros x Hx. lia.
Qed.

(** The headers from the [i]-th on. *)
Lemma segments_eq n i (s : bootst D) : on s → header_kept (bmem s) → (i + n = nph)%nat → ∃ s',
  boot_segments fuel n (phs i) s = Ok (tt, s') ∧ on s' ∧ header_kept (bmem s') ∧
  (∀ j, (i ≤ j < nph)%nat → loaded (bmem s') j) ∧
  (∀ x, (∀ j, (i ≤ j < nph)%nat → ¬ written j x) → bmem s' x = bmem s x).
Proof using Hlen Hbyte HL.
  revert i s. induction n as [|n IH]; intros i s Hon Hk Hn.
  - exists s. split; [done|]. split; [done|]. split; [done|]. split; [intros j Hj; lia|done].
  - destruct (segment_step n i s Hon Hk ltac:(lia)) as (s1 & E1 & H1 & L1 & F1). rewrite E1.
    destruct (IH (S i) s1) as (s2 & E2 & H2 & K2 & L2 & F2); [done|apply (kept_unless_written (bmem s) _ i); [done|lia|done]|lia|].
    exists s2. split; [done|]. split; [done|]. split; [done|]. split.
    + intros j Hj. destruct (decide (j = i)) as [->|]; [|apply L2; lia].
      assert (∀ x, filled i x → bmem s2 x = bmem s1 x) as Hf.
      { intros x Hx. apply F2. intros j Hj' Hw. apply (bl_later HL i j x); [lia|done|done]. }
      destruct L1 as [La Lb]. destruct (seg_ranges i) as (R1 & R2 & R3 & R4).
      split; intros x Hx; rewrite Hf by (unfold filled; lia); auto.
    + intros x Hx. rewrite F2, F1; [done| |]; [apply Hx; lia|intros j Hj; apply Hx; lia].
Qed.

(** C34: [bootmain] loads the kernel.  The disk holds an ELF file from sector 1
    on; its program headers are in its first page, its segments do not touch
    the page the loader uses for them, and the sectors read for a segment do
    not reach into an earlier one.  Then [bootmain] jumps to the entry point
    of the file, memory holds every segment as the file has it with the rest
    of the segment zero, and memory no segment claims is as it was. *)
Theorem bootmain_loads (s : bootst D) : on s → ∃ s', bootmain fuel s = Ok (Some (elf_entry hdr SCRATCH), s') ∧
  (∀ i, (i < nph)%nat → loaded (bmem s') i) ∧
  (∀ x, ¬ in_scratch x → (∀ i, (i < nph)%nat → ¬ written i x) → bmem s' x = bmem s x).
Proof using Hlen Hbyte HL.
  intros Hon. unfold bootmain. destruct (readseg_eq SCRATCH 4096 0 s) as (s1 & E1 & H1 & M1); try done; try lia.
  assert (header_kept (bmem s1) ∧ ∀ x, ¬ in_scratch x → bmem s1 x = bmem s x) as [K1 F1].
  { change (seg_lo SCRATCH 0) with SCRATCH in M1. change (seg_hi SCRATCH 4096 0) with (SCRATCH + 4096) in M1. unfold header_kept, in_scratch.
    split; intros x Hx; rewrite M1; destruct (Z.leb_spec SCRATCH x), (Z.ltb_spec x (SCRATCH + 4096)); cbn [andb]; try done; try lia.
    unfold hdr. f_equal. lia. }
  rewrite (bind_ok _ _ _ _ _ E1), (bind_ok (gets _) _ _ _ _ eq_refl).
  assert (∀ m, header_kept m → elf_magic m SCRATCH = elf_magic hdr SCRATCH ∧ elf_entry m SCRATCH = elf_entry hdr SCRATCH ∧
    elf_phoff m SCRATCH = elf_phoff hdr SCRATCH ∧ elf_phnum m SCRATCH = elf_phnum hdr SCRATCH) as Hf.
  { intros m Hm. repeat split; try (apply field_kept; [done|lia..]). unfold elf_phnum. rewrite !Hm by (unfold in_scratch; lia). done. }
  destruct (Hf _ K1) as (-> & _ & -> & ->). rewrite (bl_magic HL). cbn [Z.eqb negb]. rewrite Z.eqb_refl. cbn [negb].
  pose proof (load32_range hdr (SCRATCH + 28) hdr_byte) as Hr. pose proof (bl_phs HL) as Hp.
  assert (0 ≤ elf_phnum hdr SCRATCH) as Hq.
  { unfold elf_phnum. pose proof (hdr_byte (SCRATCH + 44)). pose proof (hdr_byte (SCRATCH + 45)). lia. }
  fold (elf_phoff hdr SCRATCH) in Hr. rewrite (bind_ok _ _ _ _ _ (ptr_eq (SCRATCH + elf_phoff hdr SCRATCH) s1 ltac:(unfold SCRATCH in *; lia))).
  destruct (segments_eq nph 0 s1 H1 K1 eq_refl) as (s2 & E2 & H2 & K2 & L2 & F2).
  replace (phs 0) with (SCRATCH + elf_phoff hdr SCRATCH) in E2 by (unfold phs; lia).
  rewrite (bind_ok _ _ _ _ _ E2), (bind_ok (gets _) _ _ _ _ eq_refl). destruct (Hf _ K2) as (_ & -> & _ & _).
  exists s2. split; [done|]. split; [intros i Hi; apply L2; lia|]. intros x Hx Hw. rewrite F2; [by apply F1|].
  intros j Hj. apply Hw. lia.
Qed.
End loading.

(** ** A kernel of two segments *)

Module BootDemo.
Definition le32 (v : Z) : list Z := [v mod 256; v / 2 ^ 8 mod 256; v / 2 ^ 16 mod 256; v / 2 ^ 24 mod 256].
(** Type, offset, virtual and physical address, sizes in the file and in
    memory, flags, alignment. *)
Definition demo_ph (off pa filesz memsz : Z) : list Z :=
  concat (map le32 [1; off; 2 ^ 31 + pa; pa; filesz; memsz; 7; 4096]).
Definition demo_elf : list Z :=
  le32 ELF_MAGIC ++ replicate 20 0 ++ le32 1048588 ++ le32 52 ++ replicate 12 0 ++ [2; 0] ++ replicate 6 0
  ++ demo_ph 4096 1048576 600 600 ++ demo_ph 5140 1049620 8 100.
Definition demo_data : list Z := [1; 2; 3; 4; 5; 6; 7; 8].
(** The sectors: the header, the text at byte 4096, the data at byte 5140. *)
Definition demo_sectors (n : Z) : block :=
  if n =? 1 then demo_elf ++ replicate (512 - length demo_elf) 0
  else if n =? 9 then replicate 512 144
  else if n =? 10 then replicate 88 144 ++ replicate 424 0
  else if n =? 11 then replicate 20 0 ++ demo_data ++ replicate 484 0
  else replicate 512 0.
Definition demo_disk (w n : Z) : block := if w =? 0 then demo_sectors n else replicate 512 0.
Definition demo_boot : bootst IdeDemo.ddisk_state := BootSt (IdeDemo.DDisk (λ _, 0) IdeDemo.Later None demo_disk) (λ _, 255).

#[local] Instance boot_dev : IdeDev IdeDemo.ddisk_state := IdeDemo.demo_dev IdeDemo.Later.
#[local] Instance boot_laws : IdeLaws IdeDemo.ddisk_state 3 := IdeDemo.demo_laws IdeDemo.Later.

Lemma demo_len w n : length (demo_disk w n) = 512%nat.
Proof. unfold demo_disk, demo_sectors. by repeat destruct (_ =? _). Qed.
Lemma demo_byte w n : Forall (λ b, 0 ≤ b < 256) (demo_disk w n).
Proof. unfold demo_disk, demo_sectors. repeat destruct (_ =? _); apply (bool_decide_unpack _); vm_compute; done. Qed.
Lemma demo_segs : nph demo_disk = 2%nat ∧
  (seg_pa demo_disk 0 = 1048576 ∧ seg_off demo_disk 0 = 4096 ∧ seg_filesz demo_disk 0 = 600 ∧ seg_memsz demo_disk 0 = 600) ∧
  (seg_pa demo_disk 1 = 1049620 ∧ seg_off demo_disk 1 = 5140 ∧ seg_filesz demo_disk 1 = 8 ∧ seg_memsz demo_disk 1 = 100).
Proof. repeat split; vm_compute; reflexivity. Qed.

Lemma demo_bounds : seg_lo 1048576 4096 = 1048576 ∧ seg_hi 1048576 600 4096 = 1049600 ∧
  seg_lo 1049620 5140 = 1049600 ∧ seg_hi 1049620 8 5140 = 1050112.
Proof. by vm_compute. Qed.

Lemma demo_layout : boot_layout demo_disk.
Proof.
  destruct demo_segs as (En & (P0 & O0 & F0 & M0) & P1 & O1 & F1 & M1).
  destruct demo_bounds as (S0 & T0 & S1 & T1).
  split; rewrite ?En.
  - by vm_compute.
  - by vm_compute.
  - intros [|[|i]] Hi; [rewrite O0, F0|rewrite O1, F1|]; clear -Hi; lia.
  - intros [|[|i]] Hi; [rewrite O0, P0|rewrite O1, P1|]; [clear; by vm_compute..|clear -Hi; lia].
  - intros [|[|i]] Hi; [rewrite O0, P0, F0, M0|rewrite O1, P1, F1, M1|]; [clear; by vm_compute..|clear -Hi; lia].
  - unfold written, in_scratch. intros [|[|i]] x Hi; [rewrite O0, P0, F0, M0|rewrite O1, P1, F1, M1|]; [rewrite S0, T0; clear; unfold SCRATCH; lia|rewrite S1, T1; clear; unfold SCRATCH; lia|clear -Hi; lia].
  - unfold written, filled. intros i j x Hij. assert (i = 0 ∧ j = 1)%nat as [-> ->] by (clear -Hij; lia).
    rewrite O1, P0, P1, F0, F1, M0, M1. rewrite S1, T1. clear. lia.
Qed.

Lemma demo_on : on 3 demo_disk demo_boot.
Proof. intros w n. reflexivity. Qed.

(** The second segment is in place, its last 92 bytes zero. *)
Lemma bootmain_loads_witness : ∃ s', bootmain 3 demo_boot = Ok (Some 1048588, s') ∧
  bmem s' 1049627 = 8 ∧ bmem s' 1049719 = 0 ∧ bmem s' 0 = 255.
Proof.
  destruct (bootmain_loads 3 demo_disk demo_len demo_byte demo_layout demo_boot demo_on) as (s' & E & L & F).
  exists s'. split; [exact E|]. destruct demo_segs as (En & (P0 & O0 & F0 & M0) & P1 & O1 & F1 & M1).
  destruct demo_bounds as (S0 & T0 & S1 & T1).
  destruct (L 1%nat ltac:(rewrite En; lia)) as [La Lb]. rewrite P1, O1, F1 in La. rewrite P1, F1, M1 in Lb.
  split; [rewrite La by lia; reflexivity|]. split; [apply Lb; lia|].
  apply F; [unfold in_scratch, SCRATCH; lia|]. unfold written. intros i Hi. rewrite En in Hi.
  destruct i as [|[|i]]; [rewrite O0, P0, F0, M0|rewrite O1, P1, F1, M1|]; [rewrite S0, T0; clear; unfold SCRATCH; lia|rewrite S1, T1; clear; unfold SCRATCH; lia|clear -Hi; lia].
Defined.
End BootDemo.
