(* ===== verification/Vm.v ===== *)
(** * Virtual memory

    Models [vm.c]: two-level page tables kept in pages of the allocator of
    [Kalloc.v], in the same memory as everything else.  Addresses are 32-bit
    and an entry is a 32-bit word. *)

From S2P Require Import Prelude CString Layout Kalloc.

Definition NPDENTRIES : nat := 1024.
Definition PTE_P : Z := 1.
Definition PTE_W : Z := 2.
Definition PTE_U : Z := 4.
Definition PDX (va : Z) : Z := Z.land (Z.shiftr va 22) 1023.
Definition PTX (va : Z) : Z := Z.land (Z.shiftr va 12) 1023.
Definition PGADDR (d t o : Z) : Z := u32 (Z.lor (Z.lor (Z.shiftl d 22) (Z.shiftl t 12)) o).
Definition PTE_ADDR (pte : Z) : Z := Z.land pte page_mask.
Definition PTE_FLAGS (pte : Z) : Z := Z.land pte 4095.

(** [*p] and [*p = v] for a pointer to a word. *)
Definition read32 (a : Z) : M kmem Z := gets (λ s, load32 (km s) a).
Definition write32 (a v : Z) : M kmem unit := modify (λ s, Kmem (store32 (km s) a v) (freelist s)).
Definition kmemset (a c n : Z) : M kmem unit := modify (λ s, Kmem (memset (km s) a c n) (freelist s)).
Definition kmemmove (dst src n : Z) : M kmem unit := modify (λ s, Kmem (memmove (km s) dst src n) (freelist s)).


(** Bytes stored one after the other from [a]. *)
Fixpoint storebytes (m : mem) (a : Z) (bs : list Z) : mem :=
  match bs with
  | [] => m
  | b :: bs' => storebytes (store m a b) (a + 1) bs'
  end.
Definition kwrite (a : Z) (bs : list Z) : M kmem unit := modify (λ s, Kmem (storebytes (km s) a bs) (freelist s)).

(** What a program that runs on the page directory reads at [va]; 0 where
    nothing is mapped. *)
Definition uview (m : mem) (pgdir : Z) : mem := λ va,
  let pde := load32 m (pgdir + 4 * PDX va) in
  if negb (truthy (Z.land pde PTE_P)) then 0 else
  let pte := load32 m (P2V (PTE_ADDR pde) + 4 * PTX va) in
  if negb (truthy (Z.land pte PTE_P)) then 0 else
  m (P2V (PTE_ADDR pte) + va mod PGSIZE).

Section vm.
(** The linker symbols [end] and [data]. *)
Context (end_ data : Z).

(** The address of the entry for [va], or 0. *)
Definition walkpgdir (pgdir va : Z) (alloc : bool) : M kmem Z :=
  let pde := pgdir + 4 * PDX va in
  e ← read32 pde;
  if truthy (Z.land e PTE_P) then mret (P2V (PTE_ADDR e) + 4 * PTX va)
  else if negb alloc then mret 0
  else
    pgtab ← kalloc;
    if pgtab =? 0 then mret 0 else
    kmemset pgtab 0 PGSIZE;;
    write32 pde (Z.lor (Z.lor (Z.lor (V2P pgtab) PTE_P) PTE_W) PTE_U);;
    mret (pgtab + 4 * PTX va).

(** The loop of [mappages] from page [a] to page [last]. *)
Fixpoint mappages_loop (fuel : nat) (pgdir a last pa perm : Z) : M kmem Z :=
  match fuel with
  | O => undef
  | S fuel' =>
      pte ← walkpgdir pgdir a true;
      if pte =? 0 then mret (-1) else
      e ← read32 pte;
      if truthy (Z.land e PTE_P) then panic "remap" else
      write32 pte (Z.lor (Z.lor pa perm) PTE_P);;
      if a =? last then mret 0
      else mappages_loop fuel' pgdir (u32 (a + PGSIZE)) last (u32 (pa + PGSIZE)) perm
  end.
Definition mappages (pgdir va size pa perm : Z) : M kmem Z :=
  let a := PGROUNDDOWN va in
  let last := PGROUNDDOWN (u32 (va + size - 1)) in
  mappages_loop (S (Z.to_nat (u32 (last - a) / PGSIZE))) pgdir a last pa perm.

(** [deallocuvm]; a round moves on by a page, or to the next page table. *)
Fixpoint deallocuvm_loop (fuel : nat) (pgdir a oldsz : Z) : M kmem unit :=
  if oldsz <=? a then mret tt else
  match fuel with
  | O => undef
  | S fuel' =>
      pte ← walkpgdir pgdir a false;
      if pte =? 0 then
        let a := u32 (PGADDR (PDX a + 1) 0 0 - PGSIZE) in
        deallocuvm_loop fuel' pgdir (u32 (a + PGSIZE)) oldsz
      else
        e ← read32 pte;
        (if truthy (Z.land e PTE_P) then
           let pa := PTE_ADDR e in
           if pa =? 0 then panic "kfree" else
           kfree end_ (P2V pa);;
           write32 pte 0
         else mret tt);;
        deallocuvm_loop fuel' pgdir (u32 (a + PGSIZE)) oldsz
  end.
Definition deallocuvm (pgdir oldsz newsz : Z) : M kmem Z :=
  if oldsz <=? newsz then mret oldsz else
  deallocuvm_loop (Z.to_nat (oldsz / PGSIZE + 1)) pgdir (PGROUNDUP newsz) oldsz;;
  mret newsz.

(** One round of the loop of [freevm] over the page directory. *)
Definition free_table (pgdir : Z) (i : nat) : M kmem unit :=
  e ← read32 (pgdir + 4 * Z.of_nat i);
  if truthy (Z.land e PTE_P) then kfree end_ (P2V (PTE_ADDR e)) else mret tt.
Definition freevm (pgdir : Z) : M kmem unit :=
  if pgdir =? 0 then panic "freevm: no pgdir" else
  deallocuvm pgdir KERNBASE 0;;
  mfor (seq 0 NPDENTRIES) (free_table pgdir);;
  kfree end_ pgdir.

(** [kmap]: virtual address, start, end, permissions. *)
Definition kmap : list (Z * Z * Z * Z) :=
  [(KERNBASE, 0, EXTMEM, PTE_W);
   (KERNLINK, V2P KERNLINK, V2P data, 0);
   (data, V2P data, PHYSTOP, PTE_W);
   (DEVSPACE, DEVSPACE, 0, PTE_W)].

Fixpoint setupkvm_loop (pgdir : Z) (ks : list (Z * Z * Z * Z)) : M kmem Z :=
  match ks with
  | [] => mret pgdir
  | (virt, phys_start, phys_end, perm) :: ks' =>
      r ← mappages pgdir virt (u32 (phys_end - phys_start)) phys_start perm;
      if r <? 0 then freevm pgdir;; mret 0
      else setupkvm_loop pgdir ks'
  end.
Definition setupkvm : M kmem Z :=
  pgdir ← kalloc;
  if pgdir =? 0 then mret 0 else
  kmemset pgdir 0 PGSIZE;;
  if DEVSPACE <? P2V PHYSTOP then panic "PHYSTOP too high" else
  setupkvm_loop pgdir kmap.

(** [inituvm]; [kalloc] is not checked, and page 0 is not kernel memory. *)
Definition inituvm (pgdir init sz : Z) : M kmem unit :=
  if PGSIZE <=? sz then panic "inituvm: more than a page" else
  mem ← kalloc;
  if mem =? 0 then undef else
  kmemset mem 0 PGSIZE;;
  mappages pgdir 0 PGSIZE (V2P mem) (Z.lor PTE_W PTE_U);;
  kmemmove mem init sz.

Fixpoint allocuvm_loop (fuel : nat) (pgdir a oldsz newsz : Z) : M kmem Z :=
  if newsz <=? a then mret newsz else
  match fuel with
  | O => undef
  | S fuel' =>
      mem ← kalloc;
      if mem =? 0 then deallocuvm pgdir newsz oldsz;; mret 0 else
      kmemset mem 0 PGSIZE;;
      r ← mappages pgdir a PGSIZE (V2P mem) (Z.lor PTE_W PTE_U);
      if r <? 0 then deallocuvm pgdir newsz oldsz;; kfree end_ mem;; mret 0
      else allocuvm_loop fuel' pgdir (u32 (a + PGSIZE)) oldsz newsz
  end.
Definition allocuvm (pgdir oldsz newsz : Z) : M kmem Z :=
  if KERNBASE <=? newsz then mret 0
  else if newsz <? oldsz then mret oldsz
  else allocuvm_loop (Z.to_nat (newsz / PGSIZE + 1)) pgdir (PGROUNDUP oldsz) oldsz newsz.

Definition clearpteu (pgdir uva : Z) : M kmem unit :=
  pte ← walkpgdir pgdir uva false;
  if pte =? 0 then panic "clearpteu" else
  e ← read32 pte;
  write32 pte (Z.land e (u32 (Z.lnot PTE_U))).

Fixpoint copyuvm_loop (fuel : nat) (pgdir d i sz : Z) : M kmem Z :=
  if sz <=? i then mret d else
  match fuel with
  | O => undef
  | S fuel' =>
      pte ← walkpgdir pgdir i false;
      if pte =? 0 then panic "copyuvm: pte should exist" else
      e ← read32 pte;
      if negb (truthy (Z.land e PTE_P)) then panic "copyuvm: page not present" else
      let pa := PTE_ADDR e in
      let flags := PTE_FLAGS e in
      mem ← kalloc;
      if mem =? 0 then freevm d;; mret 0 else
      kmemmove mem (P2V pa) PGSIZE;;
      r ← mappages d i PGSIZE (V2P mem) flags;
      if r <? 0 then kfree end_ mem;; freevm d;; mret 0
      else copyuvm_loop fuel' pgdir d (u32 (i + PGSIZE)) sz
  end.
Definition copyuvm (pgdir sz : Z) : M kmem Z :=
  d ← setupkvm;
  if d =? 0 then mret 0 else
  copyuvm_loop (Z.to_nat (sz / PGSIZE + 1)) pgdir d 0 sz.

(** [uva2ka]; a null pointer from [walkpgdir] is dereferenced. *)
Definition uva2ka (pgdir uva : Z) : M kmem Z :=
  pte ← walkpgdir pgdir uva false;
  if pte =? 0 then undef else
  e ← read32 pte;
  if negb (truthy (Z.land e PTE_P)) then mret 0
  else if negb (truthy (Z.land e PTE_U)) then mret 0
  else mret (P2V (PTE_ADDR e)).

(** [copyout] of the bytes [buf] to [va]. *)
Fixpoint copyout_loop (fuel : nat) (pgdir va : Z) (buf : list Z) : M kmem Z :=
  let len := Z.of_nat (length buf) in
  if len <=? 0 then mret 0 else
  match fuel with
  | O => undef
  | S fuel' =>
      let va0 := PGROUNDDOWN va in
      pa0 ← uva2ka pgdir va0;
      if pa0 =? 0 then mret (-1) else
      let n := PGSIZE - (va - va0) in
      let n := if len <? n then len else n in
      kwrite (pa0 + (va - va0)) (take (Z.to_nat n) buf);;
      copyout_loop fuel' pgdir (u32 (va0 + PGSIZE)) (drop (Z.to_nat n) buf)
  end.
Definition copyout (pgdir va : Z) (p : list Z) : M kmem Z :=
  copyout_loop (length p) pgdir va p.

End vm.
