(* ===== verification/VmInv.v ===== *)
(** * Page tables

    The two-level page tables of [Vm.v] as a map from virtual pages to
    entries, next to the free list of [Kalloc.v].  [mappages] adds exactly
    the entries it is asked for, takes the tables it needs from the free
    pages, and touches no other page; [allocuvm] gives a process fresh zeroed
    pages; and [copyuvm] makes a new address space with the same contents. *)

From S2P Require Import Prelude CString Layout Kalloc Vm.

(** ** Bits of entries *)

Lemma lor_low x f : x mod 4096 = 0 → 0 ≤ f < 4096 → Z.lor x f = x + f.
Proof.
  intros Hx Hf. assert (Z.land x f = 0) as Hl.
  { apply Z.bits_inj'. intros i Hi. rewrite Z.land_spec, Z.bits_0.
    assert (x = Z.shiftl (x / 4096) 12) as -> by (rewrite Z.shiftl_mul_pow2 by lia; Z.div_mod_to_equations; lia).
    destruct (Z.ltb_spec i 12); [by rewrite Z.shiftl_spec_low|].
    destruct (Z.eq_dec f 0) as [->|]; [by rewrite Z.bits_0, andb_false_r|].
    rewrite (Z.bits_above_log2 f i); [by rewrite andb_false_r|lia|].
    apply Z.log2_lt_pow2; [lia|]. assert (2 ^ 12 ≤ 2 ^ i) by (apply Z.pow_le_mono_r; lia). lia. }
  rewrite <- Z.lxor_lor by done. symmetry. by apply Z.add_nocarry_lxor.
Qed.

(** The address and the flags of an entry [x + f]. *)
Lemma PTE_ADDR_low x f : 0 ≤ x < 2 ^ 32 → x mod 4096 = 0 → 0 ≤ f < 4096 → PTE_ADDR (x + f) = x.
Proof.
  intros Hr Hx Hf. unfold PTE_ADDR. rewrite land_page_mask by (Z.div_mod_to_equations; lia).
  unfold PGSIZE. Z.div_mod_to_equations. lia.
Qed.
Lemma PTE_ADDR_bounds e : 0 ≤ e < 2 ^ 32 → 0 ≤ PTE_ADDR e ≤ e ∧ PTE_ADDR e mod 4096 = 0 ∧ e = PTE_ADDR e + e mod 4096.
Proof. intros He. unfold PTE_ADDR. rewrite land_page_mask by lia. unfold PGSIZE. Z.div_mod_to_equations. lia. Qed.
Lemma PTE_FLAGS_eq e : 0 ≤ e → PTE_FLAGS e = e mod 4096.
Proof. intros He. unfold PTE_FLAGS. change 4095 with (Z.ones 12). by rewrite Z.land_ones by lia. Qed.

(** The present bit. *)
Definition present (e : Z) : bool := truthy (Z.land e PTE_P).
Lemma present_mod e : present e = (e mod 2 =? 1).
Proof.
  unfold present, PTE_P, truthy. change 1 with (Z.ones 1) at 1. rewrite Z.land_ones by lia. change (2 ^ 1) with 2.
  pose proof (Z.mod_pos_bound e 2 ltac:(lia)). destruct (Z.eqb_spec (e mod 2) 0), (Z.eqb_spec (e mod 2) 1); simpl; done || lia.
Qed.
Lemma present_0 : present 0 = false.
Proof. done. Qed.

Lemma PDX_eq va : 0 ≤ va < 2 ^ 32 → PDX va = va / 2 ^ 22.
Proof.
  intros H. unfold PDX. rewrite Z.shiftr_div_pow2 by lia. change 1023 with (Z.ones 10).
  rewrite Z.land_ones by lia. apply Z.mod_small. split; [apply Z.div_pos; lia|]. apply Z.div_lt_upper_bound; lia.
Qed.
Lemma PTX_eq va : 0 ≤ va < 2 ^ 32 → PTX va = va / 2 ^ 12 mod 1024.
Proof.
  intros H. unfold PTX. rewrite Z.shiftr_div_pow2 by lia. change 1023 with (Z.ones 10). by rewrite Z.land_ones by lia.
Qed.
Lemma PDX_range va : 0 ≤ va < 2 ^ 32 → 0 ≤ PDX va < 1024.
Proof. intros H. rewrite PDX_eq by done. split; [apply Z.div_pos; lia|]. apply Z.div_lt_upper_bound; lia. Qed.
Lemma PTX_range va : 0 ≤ va < 2 ^ 32 → 0 ≤ PTX va < 1024.
Proof. intros H. rewrite PTX_eq by done. apply Z.mod_pos_bound. lia. Qed.
(** The two indices name the page. *)
Lemma same_page va va' : 0 ≤ va < 2 ^ 32 → 0 ≤ va' < 2 ^ 32 →
  PDX va = PDX va' → PTX va = PTX va' → va / 4096 = va' / 4096.
Proof.
  intros H H'. rewrite !PDX_eq, !PTX_eq by done. change (2 ^ 22) with (4096 * 1024). change (2 ^ 12) with 4096.
  rewrite <- !Z.div_div by lia. intros E1 E2.
  rewrite (Z.div_mod (va / 4096) 1024), (Z.div_mod (va' / 4096) 1024) by lia. congruence.
Qed.
Lemma page_same va va' : 0 ≤ va < 2 ^ 32 → 0 ≤ va' < 2 ^ 32 → va / 4096 = va' / 4096 → PDX va = PDX va' ∧ PTX va = PTX va'.
Proof.
  intros H H' E. rewrite !PDX_eq, !PTX_eq by done. change (2 ^ 22) with (4096 * 1024). change (2 ^ 12) with 4096.
  rewrite <- !Z.div_div by lia. by rewrite E.
Qed.

Lemma P2V_V2P p : KERNBASE ≤ p < KERNBASE + PHYSTOP → P2V (V2P p) = p.
Proof. unfold P2V, V2P, KERNBASE, PHYSTOP. intros H. rewrite (u32_small (p - _)), u32_small; lia. Qed.
Lemma V2P_eq p : KERNBASE ≤ p < KERNBASE + PHYSTOP → V2P p = p - KERNBASE.
Proof. unfold V2P, KERNBASE, PHYSTOP. intros H. rewrite u32_small; lia. Qed.

(** ** A page directory and its tables *)

(** The entry of the directory, the table it points to, and the entry for
    [va]; 0 where there is no table. *)
Definition pde (m : mem) (d i : Z) : Z := load32 m (d + 4 * i).
Definition table (e : Z) : Z := P2V (PTE_ADDR e).
Definition entry (m : mem) (d va : Z) : Z :=
  if present (pde m d (PDX va)) then load32 m (table (pde m d (PDX va)) + 4 * PTX va) else 0.

Section space.
Context (end_ : Z).
Abbreviation page_ok := (page_ok end_).

Record dir_ok (m : mem) (d : Z) (ts : list Z) : Prop := {
  do_pages : Forall page_ok (d :: ts);
  do_nodup : NoDup (d :: ts);
  do_in i : 0 ≤ i < 1024 → present (pde m d i) = true → table (pde m d i) ∈ ts;
  do_inj i j : 0 ≤ i < 1024 → 0 ≤ j < 1024 → present (pde m d i) = true → present (pde m d j) = true →
    table (pde m d i) = table (pde m d j) → i = j;
  do_ref t : t ∈ ts → ∃ i, 0 ≤ i < 1024 ∧ present (pde m d i) = true ∧ table (pde m d i) = t
}.

(** The directory beside the free pages [free]. *)
Record space (s : kmem) (d : Z) (ts free : list Z) : Prop := {
  sp_dir : dir_ok (km s) d ts;
  sp_free : flist (km s) (freelist s) free;
  sp_pages : Forall page_ok free;
  sp_nodup : NoDup (free ++ d :: ts)
}.

(** Bytes outside some pages. *)
Definition outside (ps : list Z) (x : Z) : Prop := ∀ p, p ∈ ps → ¬ in_page p x.

Lemma dir_frame m m' d ts : dir_ok m d ts → (∀ x, in_page d x → m' x = m x) → dir_ok m' d ts.
Proof.
  intros [H1 H2 H3 H4 H5] Hm. assert (∀ i, 0 ≤ i < 1024 → pde m' d i = pde m d i) as E.
  { intros i Hi. apply load32_ext. intros x Hx. apply Hm. unfold in_page, PGSIZE. lia. }
  split; [done|done| | |].
  - intros i Hi. rewrite E by done. auto.
  - intros i j Hi Hj. rewrite !E by done. auto.
  - intros t (i & Hi & Hp & Ht)%H5. exists i. by rewrite E.
Qed.

(** There are at most 1024 tables. *)
Lemma dir_size m d ts : dir_ok m d ts → (length ts ≤ 1024)%nat.
Proof.
  intros Hd. pose proof (do_nodup _ _ _ Hd) as [_ Hn]%NoDup_cons.
  assert (ts ⊆ (λ i, table (pde m d (Z.of_nat i))) <$> seq 0 1024) as Hs.
  { intros t (i & Hi & _ & <-)%(do_ref _ _ _ Hd). apply list_elem_of_fmap. exists (Z.to_nat i).
    rewrite Z2Nat.id by lia. split; [done|]. apply elem_of_seq. lia. }
  apply NoDup_submseteq, submseteq_length in Hs; [|done].
  rewrite length_fmap, length_seq in Hs. done.
Qed.

(** Entries depend on the directory and its tables only. *)
Lemma entry_frame m m' d ts va : dir_ok m d ts → 0 ≤ va < 2 ^ 32 →
  (∀ p x, p ∈ d :: ts → in_page p x → m' x = m x) → entry m' d va = entry m d va.
Proof.
  intros Hd Hva Hm. pose proof (PDX_range va Hva) as Hr. pose proof (PTX_range va Hva) as Ht. unfold entry.
  assert (pde m' d (PDX va) = pde m d (PDX va)) as ->.
  { apply load32_ext. intros x Hx. apply (Hm d); [by left|]. unfold in_page, PGSIZE. lia. }
  destruct (present _) eqn:E; [|done]. pose proof (do_in _ _ _ Hd _ Hr E) as Hin.
  apply load32_ext. intros x Hx. apply (Hm _ _ (list_elem_of_further _ _ _ Hin)). unfold in_page, PGSIZE. lia.
Qed.

(** Different pages have different bytes. *)
Lemma page_bytes p q x : page_ok p → page_ok q → p ≠ q → in_page p x → ¬ in_page q x.
Proof. intros (Hp & _) (Hq & _) Hne Hx Hx'. apply Hne. by eapply pages_disjoint. Qed.

(** The entry [walkpgdir] makes for a new table. *)
Lemma new_pde t : page_ok t → let e := Z.lor (Z.lor (Z.lor (V2P t) PTE_P) PTE_W) PTE_U in
  u32 e = e ∧ present e = true ∧ table e = t.
Proof.
  intros (Ha & He & Hr). simpl. rewrite <- !Z.lor_assoc. change (Z.lor PTE_P (Z.lor PTE_W PTE_U)) with 7.
  pose proof (V2P_eq t Hr) as E. unfold PGSIZE in Ha.
  assert (V2P t mod 4096 = 0 ∧ 0 ≤ V2P t < PHYSTOP) as [Hm Hb].
  { rewrite E. unfold KERNBASE in *. split; [|lia]. Z.div_mod_to_equations. lia. }
  rewrite lor_low by lia. unfold PHYSTOP in *. split; [apply u32_small; lia|]. split.
  - rewrite present_mod. apply Z.eqb_eq. Z.div_mod_to_equations. lia.
  - unfold table. rewrite PTE_ADDR_low by lia. by apply P2V_V2P.
Qed.

Lemma walk_found s d va alloc : present (pde (km s) d (PDX va)) = true →
  walkpgdir d va alloc s = Ok (table (pde (km s) d (PDX va)) + 4 * PTX va, s).
Proof. intros H. unfold walkpgdir, read32. mstep. unfold present, pde in H. by rewrite H. Qed.
Lemma walk_absent s d va : present (pde (km s) d (PDX va)) = false → walkpgdir d va false s = Ok (0, s).
Proof. intros H. unfold walkpgdir, read32. mstep. unfold present, pde in H. by rewrite H. Qed.
Lemma walk_nomem s d ts va : space s d ts [] → present (pde (km s) d (PDX va)) = false →
  walkpgdir d va true s = Ok (0, s).
Proof.
  intros Hs H. unfold walkpgdir, read32, kalloc. mstep. unfold present, pde in H. rewrite H. simpl.
  pose proof (sp_free _ _ _ _ Hs) as E. simpl in E. by rewrite E.
Qed.

(** A table with only zero entries. *)
Lemma load32_zero m a : (∀ x, a ≤ x < a + 4 → m x = 0) → load32 m a = 0.
Proof. intros H. unfold load32. rewrite !H by lia. done. Qed.

(** A directory with one more table. *)
Lemma dir_add m m' d ts t k e : dir_ok m d ts → page_ok t → (t ∉ d :: ts) → 0 ≤ k < 1024 →
  present (pde m d k) = false → (∀ i, 0 ≤ i < 1024 → pde m' d i = if i =? k then e else pde m d i) →
  present e = true ∧ table e = t → dir_ok m' d (t :: ts).
Proof.
  intros Hd Ht Htn Hk Hp Epde [Ep Et]. apply not_elem_of_cons in Htn as [Hdt Htn].
  pose proof (do_pages _ _ _ Hd) as [Hdp Hts]%Forall_cons. pose proof (do_nodup _ _ _ Hd) as [Hn1 Hn2]%NoDup_cons. split.
  - by rewrite !Forall_cons.
  - apply NoDup_cons. split; [set_solver|]. by apply NoDup_cons.
  - intros i Hi. rewrite Epde by done. destruct (Z.eqb_spec i k) as [->|Hne]; [intros _; rewrite Et; left|].
    intros Hpi. right. by apply (do_in _ _ _ Hd).
  - intros i j Hi Hj. rewrite !Epde by done. destruct (Z.eqb_spec i k) as [->|Hne], (Z.eqb_spec j k) as [->|Hne']; try done.
    + intros _ Hpj E. exfalso. rewrite Et in E. apply Htn. rewrite E. by apply (do_in _ _ _ Hd).
    + intros Hpi _ E. exfalso. rewrite Et in E. apply Htn. rewrite <- E. by apply (do_in _ _ _ Hd).
    + apply (do_inj _ _ _ Hd); done.
  - intros t' [->|Ht']%elem_of_cons.
    + exists k. rewrite Epde, Z.eqb_refl by done. done.
    + destruct (do_ref _ _ _ Hd _ Ht') as (i & Hi & Hpi & Hti). exists i. rewrite Epde by done.
      rewrite (proj2 (Z.eqb_neq i k)); [done|]. intros ->. congruence.
Qed.

(** A new table: the directory gets an entry, no translation changes. *)
Lemma walk_new s d ts t free va : space s d ts (t :: free) → 0 ≤ va < 2 ^ 32 →
  present (pde (km s) d (PDX va)) = false →
  ∃ s', walkpgdir d va true s = Ok (t + 4 * PTX va, s') ∧ space s' d (t :: ts) free ∧
    present (pde (km s') d (PDX va)) = true ∧ table (pde (km s') d (PDX va)) = t ∧
    (∀ va', 0 ≤ va' < 2 ^ 32 → entry (km s') d va' = entry (km s) d va') ∧
    (∀ x, outside [d; t] x → km s' x = km s x).
Proof.
  intros Hs Hva Hp. destruct Hs as [Hd Hf Hpg Hnd]. pose proof (PDX_range va Hva) as Hr.
  apply Forall_cons in Hpg as [Ht Hpg]. pose proof (page_pos _ _ Ht) as Htp.
  assert (page_ok d ∧ Forall page_ok ts) as [Hdp Hts] by (by apply Forall_cons, (do_pages _ _ _ Hd)).
  simpl in Hnd. apply NoDup_cons in Hnd as [Htn Hnd].
  assert (d ≠ t) as Hdt by (intros ->; apply Htn, elem_of_app; right; left).
  destruct (new_pde t Ht) as (Eu & Ep & Et). set (e := Z.lor _ PTE_U) in *.
  set (m1 := memset (km s) t 0 PGSIZE). set (m2 := store32 m1 (d + 4 * PDX va) e).
  assert (∀ x, in_page t x → m2 x = 0) as Hz.
  { intros x Hx. unfold m2. rewrite store32_other.
    - unfold m1. rewrite memset_spec by (unfold PGSIZE; lia). unfold in_page in Hx. bcase; simpl; [done|lia..].
    - intros Hx'. apply (page_bytes t d x Ht Hdp); [done|done|]. unfold in_page, PGSIZE. lia. }
  assert (∀ x, ¬ in_page t x → ¬ (d + 4 * PDX va ≤ x < d + 4 * PDX va + 4) → m2 x = km s x) as Ho.
  { intros x Hx Hx'. unfold m2. rewrite store32_other by done. unfold m1. rewrite memset_spec by (unfold PGSIZE; lia).
    unfold in_page in Hx. bcase; simpl; done || lia. }
  assert (∀ i, 0 ≤ i < 1024 → pde m2 d i = if i =? PDX va then e else pde (km s) d i) as Epde.
  { intros i Hi. unfold pde. destruct (Z.eqb_spec i (PDX va)) as [->|Hne]; [unfold m2; by rewrite load_store32_same|].
    apply load32_ext. intros x Hx. apply Ho; [|lia].
    intros Hx'. apply (page_bytes t d x Ht Hdp); [done|done|]. unfold in_page, PGSIZE. lia. }
  exists (Kmem m2 (load32 (km s) t)). split.
  { unfold walkpgdir, read32, kalloc, kmemset, write32. mstep. unfold present, pde in Hp. rewrite Hp. simpl.
    destruct Hf as (-> & _). unfold truthy. rewrite (proj2 (Z.eqb_neq t 0)) by lia. done. }
  simpl. split; [|split; [by rewrite Epde, Z.eqb_refl|split; [by rewrite Epde, Z.eqb_refl|split]]].
  - split; simpl.
    + eapply (dir_add (km s)); [done|done| |done|done|done|done]. intros Hin. by apply Htn, elem_of_app; right.
    + destruct Hf as (_ & _ & Hf). eapply flist_frame; [|exact Hf]. intros q x Hq Hx. symmetry. rewrite Forall_forall in Hpg.
      apply Ho.
      * apply (page_bytes q t); [by apply Hpg|done| |done]. intros ->. apply Htn, elem_of_app. by left.
      * intros Hx'. apply (page_bytes q d x); [by apply Hpg|done| |done|unfold in_page, PGSIZE; lia].
        intros ->. apply NoDup_app in Hnd as (_ & Hn & _). apply (Hn _ Hq). left.
    + done.
    + apply NoDup_app in Hnd as (Hn1 & Hn2 & Hn3). apply NoDup_app. split; [done|]. split.
      * intros q Hq. specialize (Hn2 q Hq). assert (q ≠ t) by (intros ->; apply Htn, elem_of_app; by left). set_solver.
      * apply NoDup_cons in Hn3 as [Hn3 Hn4]. apply NoDup_cons. split; [set_solver|]. apply NoDup_cons. split; [|done].
        intros Hin. apply Htn, elem_of_app. right. by right.
  - intros va' Hva'. unfold entry. pose proof (PDX_range va' Hva') as Hr'. pose proof (PTX_range va' Hva') as Ht'.
    rewrite Epde by done. destruct (Z.eqb_spec (PDX va') (PDX va)) as [E|Hne].
    + rewrite Ep, E, Hp, Et. apply load32_zero. intros x Hx. apply Hz. unfold in_page, PGSIZE. lia.
    + destruct (present (pde (km s) d (PDX va'))) eqn:E; [|done].
      pose proof (do_in _ _ _ Hd _ Hr' E) as Hin. rewrite Forall_forall in Hts.
      apply load32_ext. intros x Hx. assert (in_page (table (pde (km s) d (PDX va'))) x) as Hpx by (unfold in_page, PGSIZE; lia).
      apply Ho.
      * eapply page_bytes; [by apply Hts|done| |exact Hpx]. intros Ed. apply Htn, elem_of_app. right. right. by rewrite <- Ed.
      * intros Hx'. eapply page_bytes; [by apply Hts|exact Hdp| |exact Hpx|unfold in_page, PGSIZE; lia].
        intros Ed. pose proof (do_nodup _ _ _ Hd) as [Hn _]%NoDup_cons. by rewrite Ed in Hin.
  - intros x Hx. apply Ho; [apply Hx; set_solver|]. intros Hx'. apply (Hx d); [set_solver|]. unfold in_page, PGSIZE. lia.
Qed.

(** The address of the entry for [va] is in its table. *)
Lemma entry_in_table m d va x : 0 ≤ va < 2 ^ 32 →
  table (pde m d (PDX va)) + 4 * PTX va ≤ x < table (pde m d (PDX va)) + 4 * PTX va + 4 →
  in_page (table (pde m d (PDX va))) x.
Proof. intros Hva Hx. pose proof (PTX_range va Hva). unfold in_page, PGSIZE. lia. Qed.

(** Storing into the entry for [va] changes the translation of its page. *)
Lemma write_entry s d ts free va v : space s d ts free → 0 ≤ va < 2 ^ 32 →
  present (pde (km s) d (PDX va)) = true →
  let t := table (pde (km s) d (PDX va)) in
  let s' := Kmem (store32 (km s) (t + 4 * PTX va) v) (freelist s) in
  space s' d ts free ∧
  (∀ va', 0 ≤ va' < 2 ^ 32 → entry (km s') d va' = if va' / 4096 =? va / 4096 then u32 v else entry (km s) d va') ∧
  (∀ x, outside ts x → km s' x = km s x).
Proof.
  intros [Hd Hf Hpg Hnd] Hva Hp t s'. pose proof (PDX_range va Hva) as Hr. pose proof (do_in _ _ _ Hd _ Hr Hp) as Hin.
  fold t in Hin. pose proof (do_pages _ _ _ Hd) as Hpages. apply Forall_cons in Hpages as [Hdp Hts].
  pose proof (proj1 (Forall_forall _ _) Hts) as Htsf. pose proof (Htsf _ Hin) as Htp.
  assert (∀ x, ¬ in_page t x → km s' x = km s x) as Ho.
  { intros x Hx. apply store32_other. intros Hx'. apply Hx. by apply entry_in_table. }
  assert (dir_ok (km s') d ts) as Hd'.
  { apply (dir_frame (km s)); [done|]. intros x Hx. apply Ho. apply (page_bytes d t); [done..| |done].
    intros E. pose proof (do_nodup _ _ _ Hd) as [Hn _]%NoDup_cons. by rewrite E in Hn. }
  assert (∀ i, 0 ≤ i < 1024 → pde (km s') d i = pde (km s) d i) as Epde.
  { intros i Hi. apply load32_ext. intros x Hx. apply Ho. apply (page_bytes d t); [done..| |unfold in_page, PGSIZE; lia].
    intros E. pose proof (do_nodup _ _ _ Hd) as [Hn _]%NoDup_cons. by rewrite E in Hn. }
  split; [|split].
  - split; [done| |done|done]. eapply flist_frame; [|exact Hf]. intros q x Hq Hx. symmetry. apply Ho.
    rewrite Forall_forall in Hpg. apply (page_bytes q t); [by apply Hpg|done| |done]. intros ->.
    apply NoDup_app in Hnd as (_ & Hn & _). apply (Hn _ Hq). by right.
  - intros va' Hva'. pose proof (PDX_range va' Hva') as Hr'. unfold entry. rewrite Epde by done.
    destruct (Z.eqb_spec (va' / 4096) (va / 4096)) as [E|E].
    + destruct (page_same va' va) as [-> ->]; [done..|]. rewrite Hp. apply load_store32_same.
    + destruct (present (pde (km s) d (PDX va'))) eqn:Ep; [|done]. apply load_store32_ne. fold t.
      pose proof (PTX_range va Hva). pose proof (PTX_range va' Hva').
      destruct (decide (PDX va' = PDX va)) as [Ed|Ed].
      * rewrite Ed. fold t. assert (PTX va' ≠ PTX va) by (intros ?; apply E; by apply same_page). lia.
      * pose proof (do_in _ _ _ Hd _ Hr' Ep) as Hin'. pose proof (Htsf _ Hin') as (Ha' & _). destruct Htp as (Ha & _).
        assert (table (pde (km s) d (PDX va')) ≠ t) as Hne by (intros Et; apply Ed; by apply (do_inj _ _ _ Hd)).
        unfold PGSIZE in *. Z.div_mod_to_equations. lia.
  - intros x Hx. apply Ho. by apply Hx.
Qed.

(** The entry for one page is written, with a new table if need be. *)
Lemma map_one s d ts free va : space s d ts free → 0 ≤ va < 2 ^ 32 → present (entry (km s) d va) = false →
  (walkpgdir d va true s = Ok (0, s) ∧ free = []) ∨
  ∃ a s1 used free' ts', walkpgdir d va true s = Ok (a, s1) ∧ a ≠ 0 ∧ present (load32 (km s1) a) = false ∧
    free = used ++ free' ∧ ts' ≡ₚ used ++ ts ∧
    ∀ v, let s' := Kmem (store32 (km s1) a v) (freelist s1) in
      space s' d ts' free' ∧
      (∀ va', 0 ≤ va' < 2 ^ 32 → entry (km s') d va' = if va' / 4096 =? va / 4096 then u32 v else entry (km s) d va') ∧
      (∀ x, outside (d :: ts') x → km s' x = km s x).
Proof.
  intros Hs Hva He. pose proof (PTX_range va Hva) as Ht. pose proof (PDX_range va Hva) as Hr.
  destruct (present (pde (km s) d (PDX va))) eqn:Ep.
  - right. pose proof (do_in _ _ _ (sp_dir _ _ _ _ Hs) _ Hr Ep) as Hin.
    assert (page_ok (table (pde (km s) d (PDX va)))) as Htp%page_pos.
    { pose proof (do_pages _ _ _ (sp_dir _ _ _ _ Hs)) as [_ Hts]%Forall_cons. by eapply Forall_forall in Hts. }
    exists (table (pde (km s) d (PDX va)) + 4 * PTX va), s, [], free, ts.
    split; [by apply walk_found|]. split; [lia|]. split; [unfold entry in He; by rewrite Ep in He|].
    split; [done|]. split; [done|]. intros v s'.
    destruct (write_entry s d ts free va v Hs Hva Ep) as (H1 & H2 & H3). split; [done|]. split; [done|].
    intros x Hx. apply H3. intros p Hpp. apply Hx. by right.
  - destruct free as [|t free]; [left; split; [by eapply walk_nomem|done]|]. right.
    destruct (walk_new s d ts t free va Hs Hva Ep) as (s1 & Hw & Hs1 & Ep1 & Et & He1 & Ho1).
    assert (page_ok t) as Htp%page_pos by (by pose proof (sp_pages _ _ _ _ Hs) as [? _]%Forall_cons).
    exists (t + 4 * PTX va), s1, [t], free, (t :: ts). split; [done|]. split; [lia|]. split.
    { rewrite <- (He1 va Hva) in He. unfold entry in He. by rewrite Ep1, Et in He. }
    split; [done|]. split; [done|]. intros v s'.
    destruct (write_entry s1 d (t :: ts) free va v Hs1 Hva Ep1) as (H1 & H2 & H3). rewrite Et in H1, H2, H3.
    split; [done|]. split.
    + intros va' Hva'. unfold s'. rewrite H2, He1 by done. done.
    + intros x Hx. unfold s'. rewrite H3; [apply Ho1|]; intros p Hpp; apply Hx; set_solver.
Qed.

(** ** [mappages] *)

(** The entry for physical page [pa]. *)
Definition pteval (pa perm : Z) : Z := Z.lor (Z.lor pa perm) PTE_P.

(** In [m'] the virtual pages [i] to [i + k - 1] are mapped to [pa] on, the
    others as in [m]. *)
Definition mapped (m m' : mem) (d i k pa perm : Z) : Prop := ∀ va, 0 ≤ va < 2 ^ 32 →
  entry m' d va = if (i <=? va / 4096) && (va / 4096 <? i + k)
                  then u32 (pteval (pa + 4096 * (va / 4096 - i)) perm) else entry m d va.

(** The result of an operation on the tables that may use free pages. *)
Record grown (s s' : kmem) (d : Z) (ts free ts' free' : list Z) : Prop := {
  gr_space : space s' d ts' free';
  gr_pages : ∃ used, free = used ++ free' ∧ ts' ≡ₚ used ++ ts;
  gr_frame x : outside (d :: ts') x → km s' x = km s x
}.
Lemma grown_trans s s1 s2 d ts free ts1 free1 ts2 free2 :
  grown s s1 d ts free ts1 free1 → grown s1 s2 d ts1 free1 ts2 free2 → grown s s2 d ts free ts2 free2.
Proof.
  intros [A1 (u1 & E1 & P1) A3] [B1 (u2 & E2 & P2) B3]. split; [done| |].
  - exists (u1 ++ u2). subst. split; [by rewrite app_assoc|]. rewrite P2, P1. by rewrite !app_assoc, (Permutation_app_comm u2 u1).
  - intros x Hx. rewrite B3 by done. apply A3. intros p Hp. apply Hx. rewrite P2. set_solver.
Qed.

Lemma mapped_step m m1 m2 d i k pa perm :
  (∀ va, 0 ≤ va < 2 ^ 32 → entry m1 d va = if va / 4096 =? i then u32 (pteval pa perm) else entry m d va) →
  0 ≤ k → mapped m1 m2 d (i + 1) k (pa + 4096) perm → mapped m m2 d i (k + 1) pa perm.
Proof.
  intros H1 Hk H2 va Hva. rewrite (H2 va Hva), H1 by done.
  destruct (Z.eqb_spec (va / 4096) i) as [E|E].
  - rewrite E, Z.sub_diag, Z.mul_0_r, Z.add_0_r. bcase; simpl; done || lia.
  - replace (pa + 4096 + 4096 * (va / 4096 - (i + 1))) with (pa + 4096 * (va / 4096 - i)) by lia.
    bcase; simpl; done || lia.
Qed.

Lemma mappages_loop_spec fuel d i n pa perm s ts free : space s d ts free →
  0 ≤ i → 1 ≤ n → i + n ≤ 2 ^ 20 → 0 ≤ pa → pa + 4096 * n ≤ 2 ^ 32 → (Z.to_nat n ≤ fuel)%nat →
  (∀ va, 0 ≤ va < 2 ^ 32 → i ≤ va / 4096 < i + n → present (entry (km s) d va) = false) →
  ∃ r s' k ts' free', mappages_loop fuel d (4096 * i) (4096 * (i + n - 1)) pa perm s = Ok (r, s') ∧
    0 ≤ k ≤ n ∧ (r = 0 ∧ k = n ∨ r = -1 ∧ k < n ∧ free' = []) ∧
    grown s s' d ts free ts' free' ∧ mapped (km s) (km s') d i k pa perm.
Proof.
  revert i n pa s ts free. induction fuel as [|fuel IH]; intros i n pa s ts free Hs Hi Hn Hin Hpa Hpan Hf Hun; [lia|].
  cbn [mappages_loop]. assert (0 ≤ 4096 * i < 2 ^ 32) as Hva by lia.
  assert (4096 * i / 4096 = i) as Hdiv by (rewrite Z.mul_comm; apply Z.div_mul; lia).
  assert (present (entry (km s) d (4096 * i)) = false) as He by (apply Hun; lia).
  destruct (map_one s d ts free (4096 * i) Hs Hva He) as [[Hw ->]|(a & s1 & used & free' & ts' & Hw & Ha & Hp & Ef & Pt & Hwr)].
  - exists (-1), s, 0, ts, []. rewrite (bind_ok _ _ _ _ _ Hw). split; [done|]. split; [lia|].
    split; [right; repeat split; lia|]. split; [split; [done|by exists []|done]|].
    intros va Hva'. bcase; simpl; done || lia.
  - rewrite (bind_ok _ _ _ _ _ Hw), (proj2 (Z.eqb_neq a 0) Ha), (bind_ok (read32 a) _ s1 _ s1 eq_refl).
    unfold present in Hp. rewrite Hp.
    destruct (Hwr (pteval pa perm)) as (Hs2 & He2 & Ho2). set (s2 := Kmem _ _) in *.
    rewrite (bind_ok (write32 a (pteval pa perm)) _ s1 tt s2 eq_refl).
    assert (grown s s2 d ts free ts' free') as G1 by (split; [done|by exists used|done]). rewrite Hdiv in He2.
    destruct (Z.eqb_spec (4096 * i) (4096 * (i + n - 1))) as [E|E].
    + exists 0, s2, 1, ts', free'. split; [done|]. split; [lia|]. split; [left; lia|]. split; [done|].
      intros va Hva'. rewrite He2 by done. destruct (Z.eqb_spec (va / 4096) i) as [Ei|Ei].
      * rewrite Ei, Z.sub_diag, Z.mul_0_r, Z.add_0_r. bcase; simpl; done || lia.
      * bcase; simpl; done || lia.
    + unfold PGSIZE. rewrite !u32_small by lia. replace (4096 * i + 4096) with (4096 * (i + 1)) by lia.
      replace (i + n - 1) with (i + 1 + (n - 1) - 1) by lia.
      destruct (IH (i + 1) (n - 1) (pa + 4096) s2 ts' free') as (r & s3 & k & ts3 & free3 & H1 & H2 & H3 & H4 & H5);
        [done|lia..| |].
      { intros va Hva' Hr. rewrite He2 by done. rewrite (proj2 (Z.eqb_neq _ _)) by lia. apply Hun; lia. }
      exists r, s3, (k + 1), ts3, free3. split; [done|]. split; [lia|].
      split; [destruct H3 as [?|(?&?&?)]; [left|right; split_and!]; lia || done|].
      split; [by eapply grown_trans|]. eapply mapped_step; [exact He2|lia|exact H5].
Qed.

Lemma mappages_spec d va size pa perm s ts free : space s d ts free →
  0 ≤ va → va mod 4096 = 0 → 0 < size → size mod 4096 = 0 → va + size ≤ 2 ^ 32 → 0 ≤ pa → pa + size ≤ 2 ^ 32 →
  (∀ va', va ≤ va' < va + size → present (entry (km s) d va') = false) →
  ∃ r s' k ts' free', mappages d va size pa perm s = Ok (r, s') ∧
    0 ≤ k ≤ size / 4096 ∧ (r = 0 ∧ k = size / 4096 ∨ r = -1 ∧ k < size / 4096 ∧ free' = []) ∧
    grown s s' d ts free ts' free' ∧ mapped (km s) (km s') d (va / 4096) k pa perm.
Proof.
  intros Hs Hva Hal Hsz Hsm Hend Hpa Hpe Hun. unfold mappages.
  assert (∃ i n, va = 4096 * i ∧ size = 4096 * n ∧ 0 ≤ i ∧ 1 ≤ n) as (i & n & -> & -> & Hi & Hn).
  { exists (va / 4096), (size / 4096). Z.div_mod_to_equations. lia. }
  replace (4096 * n / 4096) with n by (rewrite Z.mul_comm, Z.div_mul; lia).
  replace (4096 * i / 4096) with i by (rewrite Z.mul_comm, Z.div_mul; lia).
  rewrite !PGROUNDDOWN_eq by (rewrite ?u32_small; lia). rewrite (u32_small (4096 * i + 4096 * n - 1)) by lia. unfold PGSIZE in *.
  replace (4096 * i - 4096 * i mod 4096) with (4096 * i) by (Z.div_mod_to_equations; lia).
  replace (4096 * i + 4096 * n - 1 - (4096 * i + 4096 * n - 1) mod 4096) with (4096 * (i + n - 1))
    by (Z.div_mod_to_equations; lia).
  apply mappages_loop_spec; [done|lia..| |].
  - rewrite u32_small by lia. replace ((4096 * (i + n - 1) - 4096 * i) / 4096) with (n - 1) by (Z.div_mod_to_equations; lia). lia.
  - intros va' Hva' Hr. apply Hun. Z.div_mod_to_equations. lia.
Qed.
End space.
