(* ===== verification/VmCopy.v ===== *)
(** * New address spaces

    [setupkvm] and [copyuvm] of [vm.c], with the invariant of [VmInv.v]: given
    enough free pages, [copyuvm] returns a page directory on which the program
    reads what it read on the old one, on pages of its own, and the old
    address space stays as it is. *)

From S2P Require Import Prelude CString Layout Kalloc Vm VmInv.

Section copy.
Context (end_ data : Z).
(** The kernel is linked between [KERNLINK] and the end of memory, its data on
    a page of its own ([kernel.ld] aligns [data]). *)
Context (Hdata : KERNLINK < data < KERNBASE + PHYSTOP) (Hal : data mod 4096 = 0).
Abbreviation page_ok := (page_ok end_).
Abbreviation space := (space end_).
Abbreviation grown := (grown end_).

(** Free pages with no address space in view. *)
Record pool (s : kmem) (free : list Z) : Prop := {
  po_list : flist (km s) (freelist s) free;
  po_pages : Forall page_ok free;
  po_nodup : NoDup free
}.
Lemma space_pool s d ts free : space s d ts free → pool s free.
Proof. intros [H1 H2 H3 H4]. split; [done..|]. by apply NoDup_app in H4 as (? & _). Qed.

Lemma kalloc_pool s p free : pool s (p :: free) → kalloc s = Ok (p, Kmem (km s) (load32 (km s) p)).
Proof.
  intros [Hf Hp _]. destruct Hf as (E & _). apply Forall_cons in Hp as [Hp _]. pose proof (page_pos _ _ Hp).
  unfold kalloc, truthy. rewrite E. by rewrite (proj2 (Z.eqb_neq p 0)) by lia.
Qed.
(** Writing to a page taken from the pool leaves the rest of it alone. *)
Lemma pool_write s p free m' : pool s (p :: free) → (∀ x, ¬ in_page p x → m' x = km s x) →
  pool (Kmem m' (load32 (km s) p)) free.
Proof.
  intros [Hf Hp Hn] Hm. apply Forall_cons in Hp as [Hp Hps]. apply NoDup_cons in Hn as [Hni Hn].
  destruct Hf as (_ & _ & Hf). split; simpl; [|done..]. eapply flist_frame; [|exact Hf].
  intros q x Hq Hx. symmetry. apply Hm. rewrite Forall_forall in Hps. eapply page_bytes; [by apply Hps|exact Hp| |exact Hx].
  by intros ->.
Qed.

(** A zeroed page is an empty directory. *)
Lemma new_dir s d free : pool s (d :: free) →
  let s' := Kmem (memset (km s) d 0 PGSIZE) (load32 (km s) d) in
  space s' d [] free ∧ (∀ va, 0 ≤ va < 2 ^ 32 → entry (km s') d va = 0) ∧ (∀ x, ¬ in_page d x → km s' x = km s x).
Proof.
  intros Hp s'. assert (∀ x, ¬ in_page d x → km s' x = km s x) as Ho.
  { intros x Hx. simpl. rewrite memset_spec by (unfold PGSIZE; lia). unfold in_page in Hx. bcase; simpl; done || lia. }
  assert (∀ i, 0 ≤ i < 1024 → pde (km s') d i = 0) as Hz.
  { intros i Hi. apply load32_zero. intros x Hx. simpl. rewrite memset_spec by (unfold PGSIZE; lia).
    unfold PGSIZE. bcase; simpl; done || lia. }
  destruct (pool_write s d free (km s') Hp Ho) as [H1 H2 H3].
  pose proof (po_pages _ _ Hp) as [Hd _]%Forall_cons. pose proof (po_nodup _ _ Hp) as [Hdn _]%NoDup_cons.
  split; [|split; [|done]].
  - split; [|done|done|].
    + split; [by apply Forall_singleton|by apply NoDup_singleton| | |].
      * intros i Hi. by rewrite Hz.
      * intros i j Hi Hj. by rewrite Hz.
      * by intros t ?%not_elem_of_nil.
    + apply NoDup_app. split; [done|]. split; [set_solver|apply NoDup_singleton].
  - intros va Hva. unfold entry. by rewrite Hz by (by apply PDX_range).
Qed.

(** ** The kernel part *)

(** Regions in ascending order from [lo] on. *)
Fixpoint regions_ok (lo : Z) (ks : list (Z * Z * Z * Z)) : Prop :=
  match ks with
  | [] => True
  | (virt, ps, pe, perm) :: ks' =>
      let size := u32 (pe - ps) in
      lo ≤ virt ∧ virt mod 4096 = 0 ∧ 0 < size ∧ size mod 4096 = 0 ∧ virt + size ≤ 2 ^ 32 ∧
      0 ≤ ps ∧ ps + size ≤ 2 ^ 32 ∧ regions_ok (virt + size) ks'
  end.

Lemma kmap_regions : regions_ok KERNBASE (kmap data).
Proof.
  assert (V2P data = data - KERNBASE) as Ed by (apply V2P_eq; unfold KERNLINK, EXTMEM, KERNBASE, PHYSTOP in *; lia).
  assert (V2P KERNLINK = EXTMEM) as El by reflexivity.
  unfold kmap, regions_ok. rewrite Ed, El. unfold KERNLINK, KERNBASE, EXTMEM, PHYSTOP, DEVSPACE in *.
  rewrite (u32_small (2 ^ 20 - 0)) by lia. rewrite (u32_small (data - 2 ^ 31 - 2 ^ 20)) by lia.
  rewrite (u32_small (14 * 2 ^ 24 - (data - 2 ^ 31))) by lia.
  change (u32 (0 - (2 ^ 32 - 2 ^ 25))) with (2 ^ 25). Z.div_mod_to_equations. lia.
Qed.

(** At most 1024 tables are needed in all. *)
Lemma grown_size s s' d ts free ts' free' : grown s s' d ts free ts' free' →
  (length ts' + length free' = length ts + length free)%nat ∧ (length ts' ≤ 1024)%nat.
Proof.
  intros [H1 (used & -> & P) _]. pose proof (dir_size _ _ _ _ (sp_dir _ _ _ _ _ H1)).
  apply Permutation_length in P. rewrite !length_app in *. lia.
Qed.
Lemma grown_refl s d ts free : space s d ts free → grown s s d ts free ts free.
Proof. intros H. split; [done|by exists []|done]. Qed.

Lemma setupkvm_loop_spec ks lo s d ts free : space s d ts free → regions_ok lo ks → 0 ≤ lo → d ≠ 0 →
  (1024 < length ts + length free)%nat →
  (∀ va, lo ≤ va < 2 ^ 32 → present (entry (km s) d va) = false) →
  ∃ s' ts' free', setupkvm_loop end_ d ks s = Ok (d, s') ∧ grown s s' d ts free ts' free' ∧
    ∀ va, 0 ≤ va < lo → entry (km s') d va = entry (km s) d va.
Proof.
  revert lo s ts free. induction ks as [|[[[virt ps] pe] perm] ks IH]; intros lo s ts free Hs Hr Hlo Hd Hlen Hun.
  { exists s, ts, free. split; [done|]. split; [by apply grown_refl|done]. }
  destruct Hr as (R1 & R2 & R3 & R4 & R5 & R6 & R7 & Hr). cbn [setupkvm_loop]. set (size := u32 (pe - ps)) in *.
  destruct (mappages_spec end_ d virt size ps perm s ts free Hs) as (r & s1 & k & ts1 & free1 & E & Hk & Hrk & G & Hm);
    [lia..| |]. { intros va Hva. apply Hun. lia. }
  destruct (grown_size _ _ _ _ _ _ _ G) as [L1 L2].
  destruct Hrk as [[-> ->]|(-> & _ & ->)]; [|simpl in L1; lia].
  rewrite (bind_ok _ _ _ _ _ E). cbn [Z.ltb Z.compare].
  assert (virt / 4096 * 4096 = virt ∧ size / 4096 * 4096 = size) as [Ev Es] by (Z.div_mod_to_equations; lia).
  destruct (IH (virt + size) s1 ts1 free1 (gr_space _ _ _ _ _ _ _ _ G) Hr) as (s2 & ts2 & free2 & E2 & G2 & H2); [lia|done|lia| |].
  { intros va Hva. rewrite Hm by lia. rewrite andb_false_intro2; [apply Hun; lia|].
    apply Z.ltb_ge. apply Z.div_le_lower_bound; lia. }
  exists s2, ts2, free2. split; [done|]. split; [by eapply grown_trans|]. intros va Hva.
  rewrite H2 by lia. rewrite Hm by lia. rewrite andb_false_intro1; [done|].
  apply Z.leb_gt. apply Z.div_lt_upper_bound; lia.
Qed.

Lemma setupkvm_spec s d free : pool s (d :: free) → (1024 < length free)%nat →
  ∃ s' ts' free', setupkvm end_ data s = Ok (d, s') ∧ space s' d ts' free' ∧
    (∃ used, free = used ++ free' ∧ ts' ≡ₚ used) ∧
    (∀ va, 0 ≤ va < KERNBASE → entry (km s') d va = 0) ∧
    (∀ x, outside (d :: ts') x → km s' x = km s x).
Proof.
  intros Hp Hl. destruct (new_dir s d free Hp) as (Hs1 & He1 & Ho1). set (s1 := Kmem _ _) in *.
  pose proof (po_pages _ _ Hp) as [Hd%page_pos _]%Forall_cons.
  destruct (setupkvm_loop_spec (kmap data) KERNBASE s1 d [] free Hs1 kmap_regions) as (s2 & ts2 & free2 & E2 & G2 & H2);
    [unfold KERNBASE; lia|lia|simpl; lia| |].
  { intros va Hva. rewrite He1 by (unfold KERNBASE in Hva; lia). done. }
  exists s2, ts2, free2. split.
  { unfold setupkvm. rewrite (bind_ok _ _ _ _ _ (kalloc_pool s d free Hp)). rewrite (proj2 (Z.eqb_neq d 0)) by lia.
    rewrite (bind_ok (kmemset d 0 PGSIZE) _ (Kmem (km s) (load32 (km s) d)) tt s1 eq_refl).
    change (DEVSPACE <? P2V PHYSTOP) with false. exact E2. }
  split; [by apply G2|]. split.
  { destruct (gr_pages _ _ _ _ _ _ _ _ G2) as (used & E & P). exists used. by rewrite app_nil_r in P. }
  split.
  - intros va Hva. rewrite H2 by done. apply He1. unfold KERNBASE in Hva. lia.
  - intros x Hx. rewrite (gr_frame _ _ _ _ _ _ _ _ G2) by done. apply Ho1. apply Hx. left.
Qed.

(** ** Copying the user part *)

Lemma entry_range m d va : byte_mem m → 0 ≤ entry m d va < 2 ^ 32.
Proof. intros Hm. unfold entry. destruct (present _); [by apply load32_range|lia]. Qed.
Lemma uview_entry m d va : uview m d va =
  if present (entry m d va) then m (P2V (PTE_ADDR (entry m d va)) + va mod PGSIZE) else 0.
Proof.
  unfold uview, entry, present, pde, table.
  destruct (truthy (Z.land (load32 m (d + 4 * PDX va)) PTE_P)); simpl; [|done]. by destruct (truthy _).
Qed.

(** The address space that is copied: directory [d0] in memory [m0], with all
    its pages in [own]; [free0] are the free pages at the start. *)
Context (m0 : mem) (d0 : Z) (ts0 own free0 : list Z) (sz : Z).
Record source : Prop := {
  so_bytes : byte_mem m0;
  so_dir : dir_ok end_ m0 d0 ts0;
  so_size : 0 ≤ sz ≤ KERNBASE;
  so_own : Forall page_ok own;
  so_free : ∀ p, p ∈ own → p ∉ free0;
  so_tabs : ∀ p, p ∈ d0 :: ts0 → p ∈ own;
  so_mapped va : 0 ≤ va < sz → present (entry m0 d0 va) = true ∧ P2V (PTE_ADDR (entry m0 d0 va)) ∈ own
}.
Context (Hsrc : source).

(** What [va] is in the new directory [d]: page [p] with the flags and the
    bytes of the old one. *)
Definition copy_of (m : mem) (d va p : Z) : Prop :=
  entry m d va = V2P p + entry m0 d0 va mod 4096 ∧
  ∀ o, 0 ≤ o < 4096 → m (p + o) = m0 (P2V (PTE_ADDR (entry m0 d0 va)) + o).

(** [i] pages have been copied, to the pages [frs]. *)
Record copying (d i : Z) (s : kmem) (ts free frs : list Z) : Prop := {
  cp_space : space s d ts free;
  cp_frs : Forall page_ok frs;
  cp_nodup : NoDup (frs ++ free ++ d :: ts);
  cp_sub p : p ∈ frs ++ free ++ d :: ts → p ∈ free0;
  cp_frame x : outside free0 x → km s x = m0 x;
  cp_done va : 0 ≤ va < sz → va / 4096 < i → ∃ p, p ∈ frs ∧ copy_of (km s) d va p;
  cp_todo va : 0 ≤ va < KERNBASE → i ≤ va / 4096 → entry (km s) d va = 0
}.

Lemma own_outside p x : p ∈ own → in_page p x → Forall page_ok free0 → outside free0 x.
Proof.
  intros Hp Hx Hf q Hq. rewrite Forall_forall in Hf. pose proof (proj1 (Forall_forall _ _) (so_own Hsrc) _ Hp) as Hpp.
  eapply page_bytes; [exact Hpp|by apply Hf| |exact Hx]. intros ->. by apply (so_free Hsrc q).
Qed.

(** The old address space stays. *)
Lemma source_kept m va : Forall page_ok free0 → (∀ x, outside free0 x → m x = m0 x) → 0 ≤ va < 2 ^ 32 →
  pde m d0 (PDX va) = pde m0 d0 (PDX va) ∧ entry m d0 va = entry m0 d0 va.
Proof.
  intros Hf Hm Hva. assert (∀ p x, p ∈ d0 :: ts0 → in_page p x → m x = m0 x) as Ho.
  { intros p x Hp Hx. apply Hm. eapply own_outside; [by apply (so_tabs Hsrc)|done|done]. }
  split; [|by apply (entry_frame end_ _ _ d0 ts0); [apply Hsrc| |]].
  pose proof (PDX_range va Hva). apply load32_ext. intros x Hx. apply (Ho d0); [left|]. unfold in_page, PGSIZE. lia.
Qed.

(** The entry [copyuvm] makes has the address of the new page and the old
    flags. *)
Lemma copied_pte p e : page_ok p → 0 ≤ e → present e = true → u32 (pteval (V2P p) (PTE_FLAGS e)) = V2P p + e mod 4096.
Proof.
  intros (Hp & _ & Hr) He Hpe. rewrite PTE_FLAGS_eq by done. unfold pteval, PGSIZE in *.
  pose proof (V2P_eq p Hr) as E. assert (V2P p mod 4096 = 0 ∧ 0 ≤ V2P p < PHYSTOP) as [Hm Hb].
  { rewrite E. unfold KERNBASE in *. split; [Z.div_mod_to_equations; lia|lia]. }
  pose proof (Z.mod_pos_bound e 4096 ltac:(lia)). rewrite <- Z.lor_assoc.
  assert (Z.lor (e mod 4096) PTE_P = e mod 4096) as ->.
  { apply Z.bits_inj'. intros j Hj. rewrite Z.lor_spec. destruct (Z.eq_dec j 0) as [->|].
    - change (Z.testbit PTE_P 0) with true. rewrite orb_true_r. rewrite present_mod in Hpe. apply Z.eqb_eq in Hpe.
      rewrite Z.bit0_odd. symmetry. rewrite Z.odd_spec. exists (e mod 4096 / 2). Z.div_mod_to_equations. lia.
    - unfold PTE_P. rewrite (Z.bits_above_log2 1 j); [by rewrite orb_false_r|lia|simpl; lia]. }
  rewrite lor_low by lia. apply u32_small. unfold PHYSTOP in *. lia.
Qed.

Context (Hfree0 : Forall page_ok free0).

(** A page of the pool is written while [d] is in view. *)
Lemma space_take s d ts p free m' : space s d ts (p :: free) → (∀ x, ¬ in_page p x → m' x = km s x) →
  space (Kmem m' (load32 (km s) p)) d ts free ∧ ∀ va, 0 ≤ va < 2 ^ 32 → entry m' d va = entry (km s) d va.
Proof.
  intros Hs Hm. pose proof Hs as [Hd Hf Hp Hn]. apply Forall_cons in Hp as [Hp Hps].
  simpl in Hn. apply NoDup_cons in Hn as [Hpn Hn]. rewrite not_elem_of_app in Hpn.
  assert (∀ q x, q ∈ d :: ts → in_page q x → m' x = km s x) as Ho.
  { intros q x Hq Hx. apply Hm. pose proof (do_pages _ _ _ _ Hd) as Hqs. rewrite Forall_forall in Hqs.
    eapply page_bytes; [by apply Hqs|exact Hp| |exact Hx]. intros ->. by apply Hpn. }
  split.
  - destruct (pool_write s p free m' (space_pool _ _ _ _ Hs) Hm) as [P1 P2 P3].
    split; [|done|done|done]. apply (dir_frame _ (km s)); [done|]. intros x. apply Ho. left.
  - intros va Hva. by apply (entry_frame end_ _ _ d ts).
Qed.

(** Pages of the list are apart from its other pages. *)
Lemma frs_apart d ts free frs q x : NoDup (frs ++ free ++ d :: ts) → Forall page_ok frs → Forall page_ok (d :: ts) →
  q ∈ frs → in_page q x → outside (d :: ts) x.
Proof.
  intros Hn Hf Hd Hq Hx r Hr. rewrite Forall_forall in Hf, Hd.
  eapply page_bytes; [by apply Hf|by apply Hd| |exact Hx]. intros ->.
  apply NoDup_app in Hn as (_ & Hn & _). apply (Hn r Hq), elem_of_app. by right.
Qed.

(** The page [p] now holds page [i] of the source, and is mapped. *)
Lemma copying_step d i s s1 s2 ts p free frs ts2 free2 :
  copying d i s ts (p :: free) frs → 0 ≤ i → 4096 * i < sz →
  (∀ x, ¬ in_page p x → km s1 x = km s x) →
  (∀ o, 0 ≤ o < 4096 → km s1 (p + o) = m0 (P2V (PTE_ADDR (entry m0 d0 (4096 * i))) + o)) →
  (∀ va, 0 ≤ va < 2 ^ 32 → entry (km s1) d va = entry (km s) d va) →
  grown s1 s2 d ts free ts2 free2 →
  mapped (km s1) (km s2) d i 1 (V2P p) (PTE_FLAGS (entry m0 d0 (4096 * i))) →
  copying d (i + 1) s2 ts2 free2 (p :: frs).
Proof.
  intros [Cs Cf Cn Csub Cfr Cd Ct] Hi Hsz Ho1 Hb1 He1 [G1 (used & -> & P) G3] Hm.
  pose proof (sp_pages _ _ _ _ _ Cs) as [Hp _]%Forall_cons.
  assert ((p :: frs) ++ free2 ++ d :: ts2 ≡ₚ frs ++ (p :: used ++ free2) ++ d :: ts) as Hperm
    by (rewrite P; solve_Permutation).
  pose proof (do_pages _ _ _ _ (sp_dir _ _ _ _ _ G1)) as Hdp. pose proof Cn as Cn2. rewrite <- Hperm in Cn2.
  assert (Forall page_ok (p :: frs)) as Cf2 by (by constructor).
  assert (∀ q x, q ∈ p :: frs → in_page q x → km s2 x = km s1 x) as Hk.
  { intros q x Hq Hx. apply G3. by eapply frs_apart. }
  assert (∀ va, 0 ≤ va < sz → va < 2 ^ 32) as Hlt by (intros; pose proof (so_size Hsrc); unfold KERNBASE in *; lia).
  split; [done|done|done| | | |].
  - intros q Hq. apply Csub. by rewrite <- Hperm.
  - intros x Hx. rewrite G3.
    + rewrite Ho1; [by apply Cfr|]. apply Hx, Csub. set_solver.
    + intros q Hq. apply Hx, Csub. rewrite <- Hperm. set_solver.
  - intros va Hva Hvi. specialize (Hlt va Hva). destruct (decide (va / 4096 = i)) as [Ei|Ei].
    + exists p. split; [left|]. assert (entry m0 d0 (4096 * i) = entry m0 d0 va) as Ee.
      { unfold entry. destruct (page_same (4096 * i) va) as [-> ->]; [Z.div_mod_to_equations; lia..|done]. }
      destruct (so_mapped Hsrc va Hva) as [Hpe _]. pose proof (entry_range m0 d0 va (so_bytes Hsrc)).
      rewrite Ee in *. split.
      * rewrite Hm by lia. rewrite Ei, Z.sub_diag, Z.mul_0_r, Z.add_0_r, Z.leb_refl, (proj2 (Z.ltb_lt i (i + 1))) by lia.
        apply copied_pte; [done|lia|done].
      * intros o Ho. rewrite (Hk p); [by apply Hb1|left|unfold in_page, PGSIZE; lia].
    + destruct (Cd va Hva ltac:(lia)) as (q & Hq & Hqe & Hqb). exists q. split; [by right|]. split.
      * rewrite Hm by lia. rewrite (proj2 (Z.leb_gt i _)) by lia. simpl. by rewrite He1 by lia.
      * intros o Ho. assert (in_page q (q + o)) as Hx by (unfold in_page, PGSIZE; lia).
        rewrite (Hk q); [|by right|done]. rewrite Ho1; [by apply Hqb|]. rewrite Forall_forall in Cf.
        eapply page_bytes; [by apply Cf|exact Hp| |exact Hx]. intros ->.
        apply NoDup_app in Cn as (_ & Cn & _). apply (Cn p Hq). set_solver.
  - intros va Hva Hvi. unfold KERNBASE in *. rewrite Hm by lia. rewrite (proj2 (Z.ltb_ge _ (i + 1))) by lia.
    rewrite andb_false_r, He1 by lia. apply Ct; lia.
Qed.

(** One page: after [kalloc] and [memmove], [mappages] succeeds. *)
Lemma copy_page d i s ts p free frs : copying d i s ts (p :: free) frs → 0 ≤ i → 4096 * i < sz →
  (1024 < length ts + length free)%nat →
  let e := entry m0 d0 (4096 * i) in
  let s1 := Kmem (memmove (km s) p (P2V (PTE_ADDR e)) PGSIZE) (load32 (km s) p) in
  ∃ s2 ts2 free2, mappages d (4096 * i) PGSIZE (V2P p) (PTE_FLAGS e) s1 = Ok (0, s2) ∧
    copying d (i + 1) s2 ts2 free2 (p :: frs) ∧ (length ts2 + length free2 = length ts + length free)%nat.
Proof.
  intros Hc Hi Hsz Hl e s1. pose proof Hc as [Cs Cf Cn Csub Cfr Cd Ct]. pose proof (so_size Hsrc) as Hs0.
  assert (0 ≤ 4096 * i < 2 ^ 32 ∧ 4096 * i / 4096 = i ∧ 4096 * i mod 4096 = 0) as (Hva & Hdiv & Hmod)
    by (unfold KERNBASE in *; Z.div_mod_to_equations; lia).
  destruct (so_mapped Hsrc (4096 * i)) as [He Hown]; [lia|]. fold e in He, Hown.
  pose proof (sp_pages _ _ _ _ _ Cs) as [Hp _]%Forall_cons.
  assert (∀ x, ¬ in_page p x → km s1 x = km s x) as Ho1.
  { intros x Hx. simpl. rewrite memmove_spec by (unfold PGSIZE; lia). unfold in_page in Hx. bcase; simpl; done || lia. }
  destruct (space_take s d ts p free (km s1) Cs Ho1) as [Hs1 He1]. change (space s1 d ts free) in Hs1.
  destruct (mappages_spec end_ d (4096 * i) PGSIZE (V2P p) (PTE_FLAGS e) s1 ts free Hs1)
    as (r & s2 & k & ts2 & free2 & E & Hk & Hrk & G & Hm); [unfold PGSIZE, KERNBASE in *; lia || done..| | | |].
  { apply u32_range. }
  { pose proof (V2P_eq p (proj2 (proj2 Hp))). destruct Hp as (_ & _ & ?). unfold PGSIZE, KERNBASE, PHYSTOP in *. lia. }
  { intros va' Hva'. unfold PGSIZE, KERNBASE in *. rewrite He1 by lia. rewrite Ct; [done|unfold KERNBASE; lia|Z.div_mod_to_equations; lia]. }
  destruct (grown_size _ _ _ _ _ _ _ G) as [L1 L2]. destruct Hrk as [[-> ->]|(_ & _ & ->)]; [|simpl in L1; lia].
  exists s2, ts2, free2. split; [exact E|]. split; [|done].
  change (PGSIZE / 4096) with 1 in Hm. rewrite Hdiv in Hm.
  eapply copying_step; [exact Hc|done|done|exact Ho1| |exact He1|exact G|exact Hm].
  intros o Ho. simpl. rewrite memmove_spec by (unfold PGSIZE; lia). unfold PGSIZE. bcase; simpl; [|lia..].
  replace (p + o - p) with o by lia. apply Cfr. eapply own_outside; [exact Hown| |done].
  unfold in_page, PGSIZE. fold e. lia.
Qed.

(** The new entry is present and has the address of the page. *)
Lemma copy_of_addr m d va p : copy_of m d va p → page_ok p → present (entry m0 d0 va) = true →
  present (entry m d va) = true ∧ PTE_ADDR (entry m d va) = V2P p.
Proof.
  intros [E _] (Hp & _ & Hr) He. rewrite E. pose proof (V2P_eq p Hr) as Ep. unfold PGSIZE, KERNBASE, PHYSTOP in *.
  pose proof (Z.mod_pos_bound (entry m0 d0 va) 4096 ltac:(lia)). split.
  - rewrite present_mod in *. apply Z.eqb_eq in He. apply Z.eqb_eq. Z.div_mod_to_equations. lia.
  - apply PTE_ADDR_low; [lia| |done]. Z.div_mod_to_equations. lia.
Qed.

Lemma copying_view d i s ts free frs va : copying d i s ts free frs → sz ≤ 4096 * i → 0 ≤ va < sz →
  uview (km s) d va = uview m0 d0 va ∧ uview (km s) d0 va = uview m0 d0 va.
Proof.
  intros Hc Hi Hva. pose proof (so_size Hsrc). assert (va < 2 ^ 32) by (unfold KERNBASE in *; lia).
  destruct (so_mapped Hsrc va Hva) as [He Hown]. rewrite !uview_entry, He. pose proof (Z.mod_pos_bound va 4096 ltac:(lia)).
  split.
  - destruct (cp_done _ _ _ _ _ _ Hc va Hva) as (p & Hp & Hcp); [Z.div_mod_to_equations; lia|].
    pose proof (proj1 (Forall_forall _ _) (cp_frs _ _ _ _ _ _ Hc) _ Hp) as Hpp.
    destruct (copy_of_addr _ _ _ _ Hcp Hpp He) as [-> ->]. destruct Hpp as (_ & _ & Hr). rewrite P2V_V2P by done.
    by apply Hcp.
  - destruct (source_kept (km s) va Hfree0 (cp_frame _ _ _ _ _ _ Hc)) as [_ ->]; [lia|]. rewrite He.
    apply (cp_frame _ _ _ _ _ _ Hc). eapply own_outside; [exact Hown| |done]. unfold in_page, PGSIZE. lia.
Qed.

Lemma copying_apart d i s ts free frs va va' : copying d i s ts free frs → sz ≤ 4096 * i → 0 ≤ va < sz → 0 ≤ va' < sz →
  PTE_ADDR (entry (km s) d va) ≠ PTE_ADDR (entry (km s) d0 va').
Proof.
  intros Hc Hi Hva Hva' Heq. pose proof (so_size Hsrc). assert (va' < 2 ^ 32) by (unfold KERNBASE in *; lia).
  destruct (so_mapped Hsrc va Hva) as [He _]. destruct (so_mapped Hsrc va' Hva') as [_ Hown].
  destruct (cp_done _ _ _ _ _ _ Hc va Hva) as (p & Hp & Hcp); [Z.div_mod_to_equations; lia|].
  pose proof (proj1 (Forall_forall _ _) (cp_frs _ _ _ _ _ _ Hc) _ Hp) as Hpp.
  destruct (copy_of_addr _ _ _ _ Hcp Hpp He) as [_ Ea].
  destruct (source_kept (km s) va' Hfree0 (cp_frame _ _ _ _ _ _ Hc)) as [_ E]; [lia|].
  rewrite <- E, <- Heq, Ea, P2V_V2P in Hown by apply Hpp. apply (so_free Hsrc _ Hown), (cp_sub _ _ _ _ _ _ Hc), elem_of_app. by left.
Qed.

(** Pages still to be copied. *)
Definition pages_left (i : Z) : nat := Z.to_nat ((sz + 4095) / 4096 - i).

Lemma copyuvm_loop_spec fuel d i s ts free frs : copying d i s ts free frs → 0 ≤ i →
  sz ≤ 4096 * (i + Z.of_nat fuel) → (1024 + pages_left i < length ts + length free)%nat →
  ∃ s' ts' free' frs' i', copyuvm_loop end_ fuel d0 d (4096 * i) sz s = Ok (d, s') ∧
    sz ≤ 4096 * i' ∧ copying d i' s' ts' free' frs'.
Proof.
  revert i s ts free frs. induction fuel as [|fuel IH]; intros i s ts free frs Hc Hi Hsz Hl; cbn [copyuvm_loop].
  { rewrite (proj2 (Z.leb_le sz (4096 * i))) by lia. exists s, ts, free, frs, i. split; [done|]. split; [lia|done]. }
  destruct (Z.leb_spec sz (4096 * i)) as [Hdone|Hmore].
  { exists s, ts, free, frs, i. done. }
  pose proof (so_size Hsrc) as Hs0. assert (0 ≤ 4096 * i < 2 ^ 32) as Hva by (unfold KERNBASE in *; lia).
  destruct (so_mapped Hsrc (4096 * i)) as [He _]; [lia|].
  destruct (source_kept (km s) (4096 * i) Hfree0 (cp_frame _ _ _ _ _ _ Hc) Hva) as [Ep Ee].
  assert (present (pde (km s) d0 (PDX (4096 * i))) = true) as Hpp.
  { rewrite Ep. unfold entry in He. by destruct (present (pde m0 d0 (PDX (4096 * i)))). }
  rewrite (bind_ok _ _ _ _ _ (walk_found s d0 (4096 * i) false Hpp)).
  pose proof (PTX_range (4096 * i) Hva). pose proof (PDX_range (4096 * i) Hva) as Hr.
  assert (0 < table (pde (km s) d0 (PDX (4096 * i)))) as Htp.
  { rewrite Ep in Hpp |- *. pose proof (do_in _ _ _ _ (so_dir Hsrc) _ Hr Hpp) as Hin.
    pose proof (do_pages _ _ _ _ (so_dir Hsrc)) as [_ Hts]%Forall_cons. rewrite Forall_forall in Hts.
    apply Hts, page_pos in Hin. lia. }
  rewrite (proj2 (Z.eqb_neq _ 0)) by lia.
  rewrite (bind_ok (read32 _) _ s (entry m0 d0 (4096 * i)) s).
  2: { unfold read32, gets. rewrite <- Ee. unfold entry. by rewrite Hpp. }
  unfold present in He. rewrite He. cbn [negb].
  assert (pages_left i = S (pages_left (i + 1))) as Epl.
  { unfold pages_left. rewrite <- Z2Nat.inj_succ; [f_equal; lia|]. Z.div_mod_to_equations. lia. }
  pose proof (dir_size _ _ _ _ (sp_dir _ _ _ _ _ (cp_space _ _ _ _ _ _ Hc))) as Hds.
  destruct free as [|p free]; [simpl in Hl; lia|].
  rewrite (bind_ok _ _ _ _ _ (kalloc_pool s p free (space_pool _ _ _ _ (cp_space _ _ _ _ _ _ Hc)))).
  pose proof (sp_pages _ _ _ _ _ (cp_space _ _ _ _ _ _ Hc)) as [Hp%page_pos _]%Forall_cons.
  rewrite (proj2 (Z.eqb_neq p 0)) by lia. simpl in Hl.
  destruct (copy_page d i s ts p free frs Hc Hi Hmore ltac:(lia)) as (s2 & ts2 & free2 & E & Hc2 & L).
  rewrite (bind_ok (kmemmove _ _ _) _ (Kmem (km s) (load32 (km s) p)) tt _ eq_refl).
  rewrite (bind_ok _ _ _ _ _ E). cbn [Z.ltb Z.compare]. unfold PGSIZE.
  rewrite u32_small by (unfold KERNBASE in *; lia). replace (4096 * i + 4096) with (4096 * (i + 1)) by lia.
  apply (IH (i + 1) s2 ts2 free2 (p :: frs)); [done|lia|lia|lia].
Qed.
End copy.

(** C4: with enough free pages (one for the directory, one for each of the
    at most 1024 tables, one for each page copied) [copyuvm] returns a new
    page directory.  A program reads there, below [sz], what it reads on the
    old one; no user page is shared between the two; and nothing changed
    outside the pages that were free, so that the old address space reads as
    before. *)
Theorem copyuvm_copies (end_ data : Z) (s : kmem) (d0 : Z) (ts0 own free : list Z) (sz : Z) :
  KERNLINK < data < KERNBASE + PHYSTOP → data mod 4096 = 0 →
  pool end_ s free → source end_ (km s) d0 ts0 own free sz →
  (1026 + pages_left sz 0 ≤ length free)%nat →
  ∃ d s', copyuvm end_ data d0 sz s = Ok (d, s') ∧ d ≠ 0 ∧
    (∀ va, 0 ≤ va < sz → uview (km s') d va = uview (km s) d0 va ∧ uview (km s') d0 va = uview (km s) d0 va) ∧
    (∀ va va', 0 ≤ va < sz → 0 ≤ va' < sz → PTE_ADDR (entry (km s') d va) ≠ PTE_ADDR (entry (km s') d0 va')) ∧
    (∀ x, outside free x → km s' x = km s x).
Proof.
  intros Hdata Hal Hp Hsrc Hl. destruct free as [|d free]; [simpl in Hl; lia|]. simpl in Hl.
  pose proof (po_pages _ _ _ Hp) as Hpages. pose proof (po_nodup _ _ _ Hp) as Hnd.
  destruct (setupkvm_spec end_ data Hdata Hal s d free Hp ltac:(lia)) as (s1 & ts1 & free1 & E1 & Hs1 & (used & -> & P1) & He1 & Ho1).
  assert (0 < d) as Hd0 by (apply Forall_cons in Hpages as [Hd%page_pos _]; lia).
  assert (free1 ++ d :: ts1 ≡ₚ d :: used ++ free1) as Hperm by (rewrite P1; solve_Permutation).
  assert (copying end_ (km s) d0 (d :: used ++ free1) sz d 0 s1 ts1 free1 []) as Hc.
  { split; [done|constructor| | | | |].
    - simpl. by rewrite Hperm.
    - intros p. simpl. by rewrite Hperm.
    - intros x Hx. apply Ho1. intros p Hpp. apply Hx. rewrite <- Hperm. set_solver.
    - intros va Hva Hlt. exfalso. assert (0 ≤ va / 4096) by (apply Z.div_pos; lia). lia.
    - intros va Hva _. apply He1. done. }
  pose proof (so_size _ _ _ _ _ _ _ Hsrc) as Hsz.
  destruct (copyuvm_loop_spec end_ data Hdata Hal (km s) d0 ts0 own (d :: used ++ free1) sz Hsrc Hpages
    (Z.to_nat (sz / PGSIZE + 1)) d 0 s1 ts1 free1 [] Hc) as (s2 & ts2 & free2 & frs & i & E2 & Hi & Hc2).
  { lia. }
  { unfold PGSIZE. rewrite Z2Nat.id by (Z.div_mod_to_equations; lia). Z.div_mod_to_equations. lia. }
  { apply Permutation_length in P1. rewrite length_app in Hl. lia. }
  exists d, s2. split.
  { unfold copyuvm. rewrite (bind_ok _ _ _ _ _ E1). rewrite (proj2 (Z.eqb_neq d 0)) by lia. exact E2. }
  split; [lia|]. split; [|split].
  - intros va Hva. by eapply copying_view.
  - intros va va' Hva Hva'. by eapply copying_apart.
  - apply (cp_frame _ _ _ _ _ _ _ _ _ _ _ Hc2).
Qed.
