(* ===== verification/VmDemo.v ===== *)
(** * A memory with one small process

    The theorem of [VmCopy.v] at a concrete memory: a process of one page and
    1027 free pages. *)

From S2P Require Import Prelude CString Layout Kalloc Vm VmInv VmCopy.

Definition npages : Z := 1027.
(** The first free page, and the three pages of the process. *)
Definition first : Z := KERNBASE + 2 ^ 22.
Definition dir : Z := KERNBASE + 2 ^ 21.
Definition tab : Z := dir + 4096.
Definition frm : Z := dir + 8192.

(** Free page [k] points to the next one. *)
Definition next (k : Z) : Z := if k =? npages - 1 then 0 else first + 4096 * (k + 1).
Definition free_mem : mem := λ x,
  if (first <=? x) && (x <? first + 4096 * npages) then
    let o := (x - first) mod 4096 in
    if o <? 4 then u8 (next ((x - first) / 4096) / 2 ^ (8 * o)) else 1
  else 0.
Definition mem0 : mem := store32 (store32 free_mem dir (V2P tab + 7)) tab (V2P frm + 7).
Definition kmem0 : kmem := Kmem mem0 first.

Fixpoint pages (k : Z) (n : nat) : list Z :=
  match n with
  | O => []
  | S n' => first + 4096 * k :: pages (k + 1) n'
  end.

Lemma elem_of_pages p k n : p ∈ pages k n → ∃ j, p = first + 4096 * j ∧ k ≤ j < k + Z.of_nat n.
Proof.
  revert k. induction n as [|n IH]; intros k; simpl; [by intros ?%elem_of_nil|].
  intros [->|H]%elem_of_cons; [exists k; lia|]. destruct (IH _ H) as (j & -> & Hj). exists j. lia.
Qed.
Lemma length_pages k n : length (pages k n) = n.
Proof. revert k. induction n as [|n IH]; intros k; simpl; auto. Qed.
Lemma nodup_pages k n : NoDup (pages k n).
Proof.
  revert k. induction n as [|n IH]; intros k; simpl; [constructor|]. constructor; [|done].
  intros (j & E & Hj)%elem_of_pages. lia.
Qed.

Lemma next_range k : 0 ≤ k < npages → 0 ≤ next k < 2 ^ 32.
Proof. unfold next, npages, first, KERNBASE. intros H. bcase; lia. Qed.

Lemma free_byte k o : 0 ≤ k < npages → 0 ≤ o < 4096 →
  free_mem (first + 4096 * k + o) = if o <? 4 then u8 (next k / 2 ^ (8 * o)) else 1.
Proof.
  intros Hk Ho. unfold free_mem. rewrite (proj2 (Z.leb_le _ _)), (proj2 (Z.ltb_lt _ _)) by lia. cbn [andb].
  replace (first + 4096 * k + o - first) with (o + k * 4096) by lia.
  rewrite Z_mod_plus_full, Z.div_add by lia. rewrite (Z.mod_small o), (Z.div_small o) by lia. by rewrite Z.add_0_l.
Qed.

(** Nothing of the process is in the free pages. *)
Lemma mem0_free x : first ≤ x → mem0 x = free_mem x.
Proof. intros H. unfold mem0. unfold first, frm, tab, dir, KERNBASE in *. rewrite !store32_other by lia. done. Qed.

Lemma mem0_flist n k : 0 ≤ k → k + Z.of_nat n = npages →
  flist mem0 (if (n =? 0)%nat then 0 else first + 4096 * k) (pages k n).
Proof.
  revert k. induction n as [|n IH]; intros k Hk Hn; [done|]. cbn [pages Nat.eqb flist].
  split; [done|]. split.
  - intros x Hx. rewrite mem0_free by lia. replace x with (first + 4096 * k + (x - (first + 4096 * k))) by lia.
    unfold PGSIZE in Hx. rewrite free_byte by lia. bcase; lia || done.
  - assert (load32 mem0 (first + 4096 * k) = next k) as ->.
    { unfold load32. rewrite !mem0_free by lia. rewrite <- (Z.add_0_r (first + 4096 * k)) at 1.
      rewrite !free_byte by lia. cbn [Z.ltb Z.compare Pos.compare Pos.compare_cont].
      pose proof (next_range k ltac:(lia)). unfold u8. change (2 ^ (8 * 0)) with 1. Z.div_mod_to_equations. lia. }
    specialize (IH (k + 1) ltac:(lia) ltac:(lia)). destruct n as [|n]; unfold next.
    + rewrite (proj2 (Z.eqb_eq k (npages - 1))) by lia. done.
    + rewrite (proj2 (Z.eqb_neq k (npages - 1))) by lia. exact IH.
Qed.

Lemma pages_ok k n : 0 ≤ k → k + Z.of_nat n ≤ npages → Forall (page_ok 0) (pages k n).
Proof.
  intros Hk Hn. apply Forall_forall. intros p (j & -> & Hj)%elem_of_pages.
  unfold page_ok, PGSIZE, first, KERNBASE, PHYSTOP, npages in *. split; [Z.div_mod_to_equations|]; lia.
Qed.

Lemma kmem0_pool : pool 0 kmem0 (pages 0 (Z.to_nat npages)).
Proof.
  split; [|apply pages_ok; unfold npages; lia|apply nodup_pages].
  pose proof (mem0_flist (Z.to_nat npages) 0 ltac:(lia) ltac:(unfold npages; lia)) as H.
  rewrite Z.mul_0_r, Z.add_0_r in H. exact H.
Qed.

Lemma mem0_bytes : byte_mem mem0.
Proof.
  intros x. unfold mem0, store32, store.
  repeat match goal with |- context [if ?b then _ else _] => destruct b end; try apply u8_range.
  unfold free_mem. repeat match goal with |- context [if ?b then _ else _] => destruct b end; try apply u8_range; lia.
Qed.

(** The words of the process. *)
Lemma mem0_word a : a < first → dir ≤ a → a mod 4 = 0 →
  load32 mem0 a = if a =? tab then V2P frm + 7 else if a =? dir then V2P tab + 7 else 0.
Proof.
  intros H1 H2 Ha. unfold mem0. destruct (Z.eqb_spec a tab) as [->|Ht]; [by rewrite load_store32_same|].
  rewrite load_store32_ne by (unfold tab, dir, KERNBASE in *; Z.div_mod_to_equations; lia).
  destruct (Z.eqb_spec a dir) as [->|Hd]; [by rewrite load_store32_same|].
  rewrite load_store32_ne by (unfold tab, dir, KERNBASE in *; Z.div_mod_to_equations; lia).
  apply load32_zero. intros x Hx. unfold free_mem. rewrite (proj2 (Z.leb_gt first x)); [done|].
  unfold first, KERNBASE in *. Z.div_mod_to_equations. lia.
Qed.
Lemma mem0_pde i : 0 ≤ i < 1024 → pde mem0 dir i = if i =? 0 then V2P tab + 7 else 0.
Proof.
  intros Hi. unfold pde. rewrite mem0_word by (unfold first, dir, KERNBASE; Z.div_mod_to_equations; lia).
  unfold tab. bcase; done || lia.
Qed.
Lemma mem0_entry : entry mem0 dir 0 = V2P frm + 7.
Proof. unfold entry. rewrite mem0_pde by done. vm_compute. reflexivity. Qed.

Lemma mem0_source : source 0 mem0 dir [tab] [dir; tab; frm] (pages 0 (Z.to_nat npages)) 4096.
Proof.
  split.
  - apply mem0_bytes.
  - split.
    + repeat constructor; vm_compute; congruence.
    + apply NoDup_cons. split; [|apply NoDup_singleton]. by intros ?%list_elem_of_singleton.
    + intros i Hi. rewrite mem0_pde by done. destruct (i =? 0); [|done]. intros _. apply list_elem_of_singleton. vm_compute. reflexivity.
    + intros i j Hi Hj. rewrite !mem0_pde by done. destruct (Z.eqb_spec i 0), (Z.eqb_spec j 0); subst; done.
    + intros t ->%list_elem_of_singleton. exists 0. rewrite mem0_pde by done. vm_compute. repeat split; congruence.
  - unfold KERNBASE. lia.
  - repeat constructor; vm_compute; congruence.
  - intros p Hp (j & -> & Hj)%elem_of_pages. unfold npages, first, frm, tab, dir, KERNBASE in *.
    repeat (apply elem_of_cons in Hp as [Hp|Hp]; [lia|]). by apply elem_of_nil in Hp.
  - intros p Hp. set_solver.
  - intros va Hva. assert (entry mem0 dir va = entry mem0 dir 0) as ->.
    { unfold entry. destruct (page_same va 0) as [-> ->]; [lia|lia|Z.div_mod_to_equations; lia|done]. }
    rewrite mem0_entry. split; [reflexivity|]. do 2 right. apply list_elem_of_singleton. vm_compute. reflexivity.
Qed.

Lemma copyuvm_copies_witness : ∃ d s', copyuvm 0 (KERNLINK + 4096) dir 4096 kmem0 = Ok (d, s') ∧ d ≠ 0 ∧
  (∀ va, 0 ≤ va < 4096 → uview (km s') d va = uview mem0 dir va ∧ uview (km s') dir va = uview mem0 dir va) ∧
  (∀ va va', 0 ≤ va < 4096 → 0 ≤ va' < 4096 → PTE_ADDR (entry (km s') d va) ≠ PTE_ADDR (entry (km s') dir va')) ∧
  (∀ x, outside (pages 0 (Z.to_nat npages)) x → km s' x = mem0 x).
Proof.
  apply (copyuvm_copies 0 (KERNLINK + 4096) kmem0 dir [tab] [dir; tab; frm] (pages 0 (Z.to_nat npages)) 4096).
  - vm_compute. done.
  - reflexivity.
  - exact kmem0_pool.
  - exact mem0_source.
  - rewrite length_pages. apply Nat.leb_le. vm_compute. reflexivity.
Defined.
