(* ===== verification/Seg.v ===== *)
(** * Descriptor tables and the running CPU

    The descriptors of [mmu.h] with their macros, [seginit], [switchuvm],
    [switchkvm] and [kvmalloc] of [vm.c], [tvinit] and [idtinit] of [trap.c],
    [mycpu], [cpuid] and [myproc] of [proc.c].  The state is [cpus] and [idt]
    with the registers of the CPU that runs; [tss] and [gate] are how the
    hardware reads the tables.

    The theorems: after [tvinit] every vector has its entry point, in the
    kernel's code segment, and user code may raise the system call alone;
    [switchuvm] makes the hardware use the kernel stack and the page table of
    the process, and leaves interrupts as they were. *)

From S2P Require Import Prelude CString Layout Kalloc Vm.
From S2P Require Proc.

(** ** Descriptors *)

Definition FL_IF : Z := 512.
Definition SEG_KCODE : Z := 1.
Definition SEG_KDATA : Z := 2.
Definition SEG_UCODE : Z := 3.
Definition SEG_UDATA : Z := 4.
Definition SEG_TSS : Z := 5.
Definition NSEGS : nat := 6.
Definition STA_X : Z := 8.
Definition STA_W : Z := 2.
Definition STA_R : Z := 2.
Definition STS_T32A : Z := 9.
Definition STS_IG32 : Z := 14.
Definition STS_TG32 : Z := 15.

Record segdesc := SegDesc {
  lim_15_0 : Z; base_15_0 : Z; base_23_16 : Z; sd_type : Z; sd_s : Z; sd_dpl : Z; sd_p : Z;
  lim_19_16 : Z; sd_avl : Z; sd_rsv1 : Z; sd_db : Z; sd_g : Z; base_31_24 : Z
}.
Definition zero_segdesc : segdesc := SegDesc 0 0 0 0 0 0 0 0 0 0 0 0 0.
#[export] Instance segdesc_inhabited : Inhabited segdesc := populate zero_segdesc.

(** A bit-field of [w] bits keeps the low bits of what it is given. *)
Definition field (w v : Z) : Z := v mod 2 ^ w.

Definition SEG (type base lim dpl : Z) : segdesc :=
  SegDesc (field 16 (Z.land (Z.shiftr lim 12) 65535)) (field 16 (Z.land base 65535))
    (field 8 (Z.land (Z.shiftr base 16) 255)) (field 4 type) 1 (field 2 dpl) 1
    (field 4 (Z.shiftr lim 28)) 0 0 1 1 (field 8 (Z.shiftr base 24)).
Definition SEG16 (type base lim dpl : Z) : segdesc :=
  SegDesc (field 16 (Z.land lim 65535)) (field 16 (Z.land base 65535))
    (field 8 (Z.land (Z.shiftr base 16) 255)) (field 4 type) 1 (field 2 dpl) 1
    (field 4 (Z.shiftr lim 16)) 0 0 1 0 (field 8 (Z.shiftr base 24)).
Definition set_s (v : Z) (d : segdesc) : segdesc :=
  SegDesc (lim_15_0 d) (base_15_0 d) (base_23_16 d) (sd_type d) (field 1 v) (sd_dpl d) (sd_p d) (lim_19_16 d) (sd_avl d)
    (sd_rsv1 d) (sd_db d) (sd_g d) (base_31_24 d).

(** Base and limit as the hardware puts them together. *)
Definition seg_base (d : segdesc) : Z := base_15_0 d + 2 ^ 16 * base_23_16 d + 2 ^ 24 * base_31_24 d.
Definition seg_limit (d : segdesc) : Z :=
  let l := lim_15_0 d + 2 ^ 16 * lim_19_16 d in if sd_g d =? 1 then l * 4096 + 4095 else l.

Record gatedesc := GateDesc {
  off_15_0 : Z; gd_cs : Z; gd_args : Z; gd_rsv1 : Z; gd_type : Z; gd_s : Z; gd_dpl : Z; gd_p : Z; off_31_16 : Z
}.
Definition zero_gatedesc : gatedesc := GateDesc 0 0 0 0 0 0 0 0 0.
#[export] Instance gatedesc_inhabited : Inhabited gatedesc := populate zero_gatedesc.
Definition SETGATE (istrap : bool) (sel off d : Z) : gatedesc :=
  GateDesc (field 16 (Z.land off 65535)) (field 16 sel) 0 0 (if istrap then STS_TG32 else STS_IG32) 0 (field 2 d) 1
    (field 16 (Z.shiftr off 16)).
Definition gate_off (g : gatedesc) : Z := off_15_0 g + 2 ^ 16 * off_31_16 g.

(** The members of [struct taskstate] the kernel sets. *)
Record taskstate := TaskState { ts_esp0 : Z; ts_ss0 : Z; ts_iomb : Z }.
Definition sizeof_taskstate : Z := 104.

(** ** State *)

Record cpu := KCpu {
  apicid : Z;
  ts : taskstate;
  gdt : list segdesc;
  ncli : Z;
  intena : bool;
  cproc : option nat
}.
(** The registers of the CPU that runs the code: the interrupt flag, the id
    its local APIC gives, the tables it uses. *)
Record hwregs := Hw { ifl : bool; lapicid : Z; gdtr : Z; idtr : Z; tr : Z; cr3 : Z }.
Record segst := SegSt { hw : hwregs; cpus : list cpu; idt : list gatedesc; kpgdir : Z }.

Definition set_hw (f : hwregs → hwregs) (s : segst) : segst := SegSt (f (hw s)) (cpus s) (idt s) (kpgdir s).
Definition updc (c : nat) (f : cpu → cpu) (s : segst) : segst := SegSt (hw s) (alter f c (cpus s)) (idt s) (kpgdir s).
Definition set_cli (n : Z) (i : bool) (c : cpu) : cpu := KCpu (apicid c) (ts c) (gdt c) n i (cproc c).
Definition set_gdt (i : Z) (d : segdesc) (c : cpu) : cpu := KCpu (apicid c) (ts c) (<[Z.to_nat i := d]> (gdt c)) (ncli c) (intena c) (cproc c).
Definition set_ts (t : taskstate) (c : cpu) : cpu := KCpu (apicid c) t (gdt c) (ncli c) (intena c) (cproc c).
Definition set_if (v : bool) (h : hwregs) : hwregs := Hw v (lapicid h) (gdtr h) (idtr h) (tr h) (cr3 h).

(** [struct cpu] has 176 bytes, [ts] is at byte 8 of it and [gdt] at byte 112. *)
Section layout.
Context (cpus_at idt_at : Z).
Definition ts_addr (c : nat) : Z := cpus_at + 176 * Z.of_nat c + 8.
Definition gdt_addr (c : nat) : Z := cpus_at + 176 * Z.of_nat c + 112.

(** [lgdt], [lidt], [ltr], [lcr3] *)
Definition lgdt (a : Z) : M segst unit := modify (set_hw (λ h, Hw (ifl h) (lapicid h) a (idtr h) (tr h) (cr3 h))).
Definition lidt (a : Z) : M segst unit := modify (set_hw (λ h, Hw (ifl h) (lapicid h) (gdtr h) a (tr h) (cr3 h))).
Definition ltr (sel : Z) : M segst unit := modify (set_hw (λ h, Hw (ifl h) (lapicid h) (gdtr h) (idtr h) (u16 sel) (cr3 h))).
Definition lcr3 (v : Z) : M segst unit := modify (set_hw (λ h, Hw (ifl h) (lapicid h) (gdtr h) (idtr h) (tr h) v)).

(** ** The running CPU *)

(** The loop of [mycpu]: the first CPU with the id. *)
Fixpoint find_cpu (id : Z) (l : list cpu) (i : nat) : option nat :=
  match l with
  | [] => None
  | c :: l' => if apicid c =? id then Some i else find_cpu id l' (S i)
  end.
Definition mycpu : M segst nat :=
  h ← gets hw;
  if ifl h then panic "mycpu called with interrupts enabled" else
  l ← gets cpus;
  match find_cpu (lapicid h) l 0 with
  | Some i => mret i
  | None => panic "unknown apicid"
  end.
Definition cpuid : M segst nat := mycpu.

(** The CPU's record. *)
Definition kcpu : M segst cpu :=
  c ← mycpu;
  l ← gets cpus;
  match l !! c with Some k => mret k | None => undef end.

Definition pushcli : M segst unit :=
  eflags ← gets (λ s, ifl (hw s));
  modify (set_hw (set_if false));;
  c ← mycpu;
  k ← kcpu;
  (if ncli k =? 0 then modify (updc c (set_cli (ncli k) eflags)) else mret tt);;
  k ← kcpu;
  if ncli k =? 2 ^ 31 - 1 then undef else modify (updc c (set_cli (ncli k + 1) (intena k))).
Definition popcli : M segst unit :=
  fl ← gets (λ s, ifl (hw s));
  if (fl : bool) then panic "popcli - interruptible" else
  c ← mycpu;
  k ← kcpu;
  modify (updc c (set_cli (ncli k - 1) (intena k)));;
  k ← kcpu;
  if ncli k <? 0 then panic "popcli" else
  if (ncli k =? 0) && intena k then modify (set_hw (set_if true)) else mret tt.

Definition myproc : M segst (option nat) :=
  pushcli;;
  c ← kcpu;
  popcli;;
  mret (cproc c).

(** ** Tables *)

Definition seginit : M segst unit :=
  c ← cpuid;
  modify (updc c (set_gdt SEG_KCODE (SEG (Z.lor STA_X STA_R) 0 4294967295 0)));;
  modify (updc c (set_gdt SEG_KDATA (SEG STA_W 0 4294967295 0)));;
  modify (updc c (set_gdt SEG_UCODE (SEG (Z.lor STA_X STA_R) 0 4294967295 DPL_USER)));;
  modify (updc c (set_gdt SEG_UDATA (SEG STA_W 0 4294967295 DPL_USER)));;
  lgdt (gdt_addr c).

(** [tvinit] with the 256 addresses in [vectors]. *)
Fixpoint set_gates (vectors : list Z) (i : nat) (t : list gatedesc) : list gatedesc :=
  match vectors with
  | [] => t
  | v :: vectors' => set_gates vectors' (S i) (<[i := SETGATE false (Z.shiftl SEG_KCODE 3) v 0]> t)
  end.
Definition tvinit (vectors : list Z) : M segst unit :=
  modify (λ s, SegSt (hw s) (cpus s) (set_gates vectors 0 (idt s)) (kpgdir s));;
  modify (λ s, SegSt (hw s) (cpus s)
    (<[Z.to_nat T_SYSCALL := SETGATE true (Z.shiftl SEG_KCODE 3) (vectors !!! Z.to_nat T_SYSCALL) DPL_USER]> (idt s)) (kpgdir s)).
Definition idtinit : M segst unit := lidt idt_at.

(** ** Address spaces *)

Definition switchkvm : M segst unit := d ← gets kpgdir; lcr3 (V2P d).
Definition kvmalloc (end_ data : Z) (s : kmem * segst) : outcome (unit * (kmem * segst)) :=
  match setupkvm end_ data s.1 with
  | Ok (d, k) =>
      match switchkvm (SegSt (hw s.2) (cpus s.2) (idt s.2) d) with
      | Ok (_, t) => Ok (tt, (k, t))
      | Panic m => Panic m | Blocked => Blocked | Undef => Undef
      end
  | Panic m => Panic m | Blocked => Blocked | Undef => Undef
  end.

(** [switchuvm] of a process with this kernel stack and page directory. *)
Definition switchuvm (p : option (Z * Z)) : M segst unit :=
  match p with
  | None => panic "switchuvm: no process"
  | Some (kstack, pgdir) =>
      if kstack =? 0 then panic "switchuvm: no kstack" else
      if pgdir =? 0 then panic "switchuvm: no pgdir" else
      pushcli;;
      c ← mycpu;
      modify (updc c (set_gdt SEG_TSS (SEG16 STS_T32A (ts_addr c) (sizeof_taskstate - 1) 0)));;
      c ← mycpu;
      modify (updc c (λ k, set_gdt SEG_TSS (set_s 0 (gdt k !!! Z.to_nat SEG_TSS)) k));;
      c ← mycpu;
      modify (updc c (λ k, set_ts (TaskState (ts_esp0 (ts k)) (Z.shiftl SEG_KDATA 3) (ts_iomb (ts k))) k));;
      c ← mycpu;
      modify (updc c (λ k, set_ts (TaskState (u32 (kstack + Proc.KSTACKSIZE)) (ts_ss0 (ts k)) (ts_iomb (ts k))) k));;
      c ← mycpu;
      modify (updc c (λ k, set_ts (TaskState (ts_esp0 (ts k)) (ts_ss0 (ts k)) 65535) k));;
      ltr (Z.shiftl SEG_TSS 3);;
      lcr3 (V2P pgdir);;
      popcli
  end.
End layout.

(** ** Descriptors as the hardware reads them *)

Lemma land_low w x : 0 ≤ w → Z.land x (Z.ones w) = x mod 2 ^ w.
Proof. intros H. by rewrite Z.land_ones. Qed.
Lemma field_eq w v : 0 ≤ v < 2 ^ w → field w v = v.
Proof. intros H. unfold field. by apply Z.mod_small. Qed.

Lemma base_parts base : 0 ≤ base < 2 ^ 32 →
  field 16 (Z.land base 65535) + 2 ^ 16 * field 8 (Z.land (Z.shiftr base 16) 255) + 2 ^ 24 * field 8 (Z.shiftr base 24) = base.
Proof.
  intros H. change 65535 with (Z.ones 16). change 255 with (Z.ones 8). rewrite !land_low, !Z.shiftr_div_pow2 by lia.
  unfold field. Z.div_mod_to_equations. lia.
Qed.
Lemma gate_off_SETGATE b sel off d : 0 ≤ off < 2 ^ 32 → gate_off (SETGATE b sel off d) = off.
Proof.
  intros H. unfold gate_off. simpl. change 65535 with (Z.ones 16). rewrite land_low, Z.shiftr_div_pow2 by lia.
  unfold field. Z.div_mod_to_equations. lia.
Qed.

(** ** The interrupt table *)

Lemma set_gates_lookup vs i t j : (i + length vs ≤ length t)%nat →
  set_gates vs i t !! j = if decide (i ≤ j < i + length vs)%nat then Some (SETGATE false 8 (vs !!! (j - i)%nat) 0) else t !! j.
Proof.
  revert i t. induction vs as [|v vs IH]; intros i t Hl; cbn [set_gates length] in *.
  - rewrite decide_False by lia. done.
  - rewrite IH by (rewrite length_insert; lia). destruct (decide (j = i)) as [->|Hne].
    + rewrite decide_False, decide_True, list_lookup_insert_eq, Nat.sub_diag by lia. done.
    + rewrite list_lookup_insert_ne by done. destruct (decide (S i ≤ j < S i + length vs)%nat).
      * rewrite decide_True by lia. replace (j - i)%nat with (S (j - S i)) by lia. done.
      * rewrite decide_False by lia. done.
Qed.

Lemma set_gates_length vs i t : length (set_gates vs i t) = length t.
Proof. revert i t. induction vs as [|v vs IH]; intros i t; simpl; [done|]. by rewrite IH, length_insert. Qed.

(** The table [tvinit] leaves. *)
Definition gates_of (vectors : list Z) (t : list gatedesc) : Prop :=
  ∀ i : nat, (i < 256)%nat → ∃ g, t !! i = Some g ∧ gate_off g = vectors !!! i ∧ gd_cs g = Z.shiftl SEG_KCODE 3 ∧ gd_p g = 1 ∧
    gd_dpl g = (if (i =? 64)%nat then DPL_USER else 0) ∧ gd_type g = (if (i =? 64)%nat then STS_TG32 else STS_IG32).

Lemma tvinit_eq vectors (s : segst) : length vectors = 256%nat → length (idt s) = 256%nat → Forall (λ v, 0 ≤ v < 2 ^ 32) vectors →
  ∃ t, tvinit vectors s = Ok (tt, SegSt (hw s) (cpus s) t (kpgdir s)) ∧ gates_of vectors t.
Proof.
  intros Hv Ht Hr. eexists. split; [reflexivity|]. intros i Hi. cbn [idt].
  assert (0 ≤ vectors !!! i < 2 ^ 32) as Hb.
  { rewrite Forall_forall in Hr. apply Hr, list_elem_of_lookup_total_2. lia. }
  change (Z.to_nat T_SYSCALL) with 64%nat. destruct (Nat.eqb_spec i 64) as [->|Hne].
  - eexists. rewrite list_lookup_insert_eq by (rewrite set_gates_length; lia).
    split; [reflexivity|]. split; [by apply gate_off_SETGATE|done].
  - eexists. rewrite list_lookup_insert_ne by done. rewrite set_gates_lookup, decide_True by lia.
    split; [reflexivity|]. rewrite Nat.sub_0_r. split; [by apply gate_off_SETGATE|done].
Qed.

(** ** The running CPU *)

Lemma find_cpu_alter id c (f : cpu → cpu) l i : (∀ k, l !! c = Some k → apicid (f k) = apicid k) →
  find_cpu id (alter f c l) i = find_cpu id l i.
Proof.
  revert c i. induction l as [|k l IH]; intros [|c] i Hf; simpl; try done.
  - by rewrite (Hf k eq_refl).
  - destruct (_ =? _); [done|]. by apply IH.
Qed.

Section running.
Context (cpus_at : Z) (s : segst) (c : nat) (k : cpu).
Context (Hc : find_cpu (lapicid (hw s)) (cpus s) 0 = Some c) (Hk : cpus s !! c = Some k).

(** The states in which only this CPU has changed. *)
Definition st (g : hwregs → hwregs) (k' : cpu) : segst := set_hw g (updc c (λ _, k') s).
Definition same_id (g : hwregs → hwregs) (k' : cpu) : Prop := lapicid (g (hw s)) = lapicid (hw s) ∧ apicid k' = apicid k.

Lemma st_init : s = st id k.
Proof using Hk.
  assert (alter (λ _, k) c (cpus s) = cpus s) as E.
  { apply list_eq. intros j. destruct (decide (j = c)) as [->|]; [by rewrite list_lookup_alter_eq, Hk|by rewrite list_lookup_alter_ne]. }
  unfold st, set_hw, updc, id. simpl. rewrite E. clear. by destruct s.
Qed.
Lemma mycpu_eq g k' : same_id g k' → ifl (g (hw s)) = false → mycpu (st g k') = Ok (c, st g k').
Proof using Hc Hk.
  intros [Hi Ha] Hf. unfold mycpu. rewrite (bind_ok (gets _) _ _ _ _ eq_refl). cbn [hw st set_hw updc]. rewrite Hf.
  rewrite (bind_ok (gets _) _ _ _ _ eq_refl). cbn [cpus st set_hw updc]. rewrite Hi, find_cpu_alter, Hc; [done|].
  intros k0 E. rewrite Hk in E. by injection E as <-.
Qed.
Lemma kcpu_eq g k' : same_id g k' → ifl (g (hw s)) = false → kcpu (st g k') = Ok (k', st g k').
Proof using Hc Hk.
  intros Hi Hf. unfold kcpu. rewrite (bind_ok _ _ _ _ _ (mycpu_eq _ _ Hi Hf)), (bind_ok (gets _) _ _ _ _ eq_refl).
  cbn [cpus st set_hw updc]. by rewrite list_lookup_alter_eq, Hk.
Qed.
Lemma updc_eq f g k' : modify (updc c f) (st g k') = Ok (tt, st g (f k')).
Proof using. unfold modify, st, set_hw, updc. simpl. by rewrite alter_alter. Qed.
Lemma set_hw_eq f g k' : modify (set_hw f) (st g k') = Ok (tt, st (f ∘ g) k').
Proof using. done. Qed.

Context (Hn : 0 ≤ ncli k < 2 ^ 31 - 1).

(** The record of the CPU between [pushcli] and [popcli]. *)
Definition pushed : cpu := set_cli (ncli k + 1) (if ncli k =? 0 then ifl (hw s) else intena k) k.

Lemma pushcli_eq : pushcli s = Ok (tt, st (set_if false) pushed).
Proof using Hc Hk Hn.
  rewrite st_init at 1. unfold pushcli. rewrite (bind_ok (gets _) _ _ _ _ eq_refl), (bind_ok _ _ _ _ _ (set_hw_eq _ _ _)).
  assert (∀ n i, same_id (set_if false ∘ id) (set_cli n i k)) as Hs by done.
  rewrite (bind_ok _ _ _ _ _ (mycpu_eq (set_if false ∘ id) k (conj eq_refl eq_refl) eq_refl)).
  rewrite (bind_ok _ _ _ _ _ (kcpu_eq (set_if false ∘ id) k (conj eq_refl eq_refl) eq_refl)).
  change (ifl (hw (st id k))) with (ifl (hw s)). unfold pushed. destruct (Z.eqb_spec (ncli k) 0) as [E|E].
  - rewrite (bind_ok _ _ _ _ _ (updc_eq _ _ _)), (bind_ok _ _ _ _ _ (kcpu_eq _ _ (Hs _ _) eq_refl)).
    cbn [set_cli ncli intena]. rewrite (proj2 (Z.eqb_neq (ncli k) (2 ^ 31 - 1))) by lia. etrans; [apply updc_eq|done].
  - rewrite (bind_ok (mret tt) _ _ _ _ eq_refl).
    rewrite (bind_ok _ _ _ _ _ (kcpu_eq (set_if false ∘ id) k (conj eq_refl eq_refl) eq_refl)).
    rewrite (proj2 (Z.eqb_neq (ncli k) (2 ^ 31 - 1))) by lia. apply updc_eq.
Qed.

(** With interrupts on no [pushcli] is pending. *)
Context (Hif : ifl (hw s) = true → ncli k = 0).

Lemma popcli_eq g k' : same_id g k' → ifl (g (hw s)) = false → ncli k' = ncli k + 1 →
  intena k' = (if ncli k =? 0 then ifl (hw s) else intena k) →
  popcli (st g k') = Ok (tt, st (set_if (ifl (hw s)) ∘ g) (set_cli (ncli k) (intena k') k')).
Proof using Hc Hk Hn Hif.
  intros Hs Hf En Ei. unfold popcli. rewrite (bind_ok (gets _) _ _ _ _ eq_refl). cbn [hw st set_hw updc]. rewrite Hf.
  rewrite (bind_ok _ _ _ _ _ (mycpu_eq _ _ Hs Hf)), (bind_ok _ _ _ _ _ (kcpu_eq _ _ Hs Hf)), (bind_ok _ _ _ _ _ (updc_eq _ _ _)).
  assert (same_id g (set_cli (ncli k' - 1) (intena k') k')) as Hs' by exact Hs.
  rewrite (bind_ok _ _ _ _ _ (kcpu_eq _ _ Hs' Hf)). cbn [set_cli ncli intena]. rewrite En.
  replace (ncli k + 1 - 1) with (ncli k) by lia. rewrite (proj2 (Z.ltb_ge (ncli k) 0)) by lia.
  destruct (Z.eqb_spec (ncli k) 0) as [E|E]; cbn [andb].
  - rewrite Ei. destruct (ifl (hw s)) eqn:Eh; [done|]. f_equal. unfold mret, M_ret. do 2 f_equal. unfold st. cbn.
    unfold set_hw. cbn. f_equal. unfold set_if. by destruct (g (hw s)); simpl in *; subst.
  - destruct (ifl (hw s)) eqn:Eh; [by specialize (Hif eq_refl)|]. unfold mret, M_ret. do 2 f_equal. unfold st, set_hw. cbn. f_equal.
    unfold set_if. by destruct (g (hw s)); simpl in *; subst.
Qed.

Definition intena' : bool := if ncli k =? 0 then ifl (hw s) else intena k.

Lemma myproc_eq : ∃ g, myproc s = Ok (cproc k, st g (set_cli (ncli k) intena' k)) ∧ g (hw s) = hw s.
Proof using Hc Hk Hn Hif.
  eexists. unfold myproc. rewrite (bind_ok _ _ _ _ _ pushcli_eq).
  rewrite (bind_ok _ _ _ _ _ (kcpu_eq (set_if false) pushed (conj eq_refl eq_refl) eq_refl)).
  rewrite (bind_ok _ _ _ _ _ (popcli_eq (set_if false) pushed (conj eq_refl eq_refl) eq_refl eq_refl eq_refl)).
  split; [reflexivity|]. simpl. unfold set_if. simpl. by destruct (hw s).
Qed.

Definition tss_desc : segdesc := set_s 0 (SEG16 STS_T32A (ts_addr cpus_at c) (sizeof_taskstate - 1) 0).
Definition switched (kstack : Z) : cpu :=
  KCpu (apicid k) (TaskState (u32 (kstack + Proc.KSTACKSIZE)) (Z.shiftl SEG_KDATA 3) 65535)
    (<[Z.to_nat SEG_TSS := tss_desc]> (gdt k)) (ncli k) intena' (cproc k).

Lemma switchuvm_eq kstack pgdir : kstack ≠ 0 → pgdir ≠ 0 → length (gdt k) = NSEGS →
  switchuvm cpus_at (Some (kstack, pgdir)) s =
    Ok (tt, st (λ h, Hw (ifl (hw s)) (lapicid h) (gdtr h) (idtr h) (Z.shiftl SEG_TSS 3) (V2P pgdir)) (switched kstack)).
Proof using Hc Hk Hn Hif.
  intros H1 H2 Hg. unfold switchuvm. rewrite (proj2 (Z.eqb_neq _ _) H1), (proj2 (Z.eqb_neq _ _) H2).
  rewrite (bind_ok _ _ _ _ _ pushcli_eq).
  assert (∀ k', apicid k' = apicid k → mycpu (st (set_if false) k') = Ok (c, st (set_if false) k')) as Hm.
  { intros k' Ha. by apply mycpu_eq. }
  do 5 (match goal with |- context [(mycpu ≫= _) (st _ ?k')] => rewrite (bind_ok _ _ _ _ _ (Hm k' eq_refl)) end;
    rewrite (bind_ok _ _ _ _ _ (updc_eq _ _ _))).
  unfold ltr, lcr3. rewrite !(bind_ok _ _ _ _ _ (set_hw_eq _ _ _)).
  set (k1 := set_ts _ _). set (g1 := _ ∘ (_ ∘ _)).
  rewrite (popcli_eq g1 k1 (conj eq_refl eq_refl) eq_refl eq_refl eq_refl). f_equal. f_equal. unfold st.
  assert (set_cli (ncli k) (intena k1) k1 = switched kstack) as ->; [|done].
  unfold k1, switched, set_cli, set_gdt, set_ts, pushed, intena', tss_desc. cbn. f_equal.
  rewrite list_insert_insert_eq. f_equal. f_equal. apply list_lookup_total_insert_eq. rewrite Hg. vm_compute. lia.
Qed.
End running.

(** ** What the hardware uses *)

(** The CPU whose table or task state is at an address. *)
Fixpoint find_addr (f : nat → Z) (n : nat) (a : Z) : option nat :=
  match n with
  | O => None
  | S n' => if f n' =? a then Some n' else find_addr f n' a
  end.
(** The task state that the task register selects. *)
Definition tss (cpus_at : Z) (s : segst) : option taskstate :=
  c ← find_addr (gdt_addr cpus_at) (length (cpus s)) (gdtr (hw s));
  k ← cpus s !! c;
  d ← gdt k !! Z.to_nat (Z.shiftr (tr (hw s)) 3);
  c' ← find_addr (ts_addr cpus_at) (length (cpus s)) (seg_base d);
  ts <$> cpus s !! c'.

Lemma find_addr_eq f n c : (∀ i j, f i = f j → i = j) → (c < n)%nat → find_addr f n (f c) = Some c.
Proof.
  intros Hf. induction n as [|n IH]; intros Hc; [lia|]. simpl. destruct (Z.eqb_spec (f n) (f c)) as [E|E].
  - by rewrite (Hf _ _ E).
  - apply IH. destruct (decide (c = n)) as [->|]; [done|lia].
Qed.

(** C38: [switchuvm] on a CPU of the machine makes its hardware take the top of
    the process's kernel stack on a trap and translate addresses with the
    process's page table; the interrupt flag and the depth of [pushcli] are as
    before, and so are the other CPUs. *)
Theorem switchuvm_selects cpus_at (s : segst) c k kstack pgdir :
  find_cpu (lapicid (hw s)) (cpus s) 0 = Some c → cpus s !! c = Some k → length (gdt k) = NSEGS →
  0 ≤ ncli k < 2 ^ 31 - 1 → (ifl (hw s) = true → ncli k = 0) →
  gdtr (hw s) = gdt_addr cpus_at c → 0 ≤ cpus_at → cpus_at + 176 * Z.of_nat (length (cpus s)) < 2 ^ 32 →
  0 < kstack → kstack + 4096 < 2 ^ 32 → pgdir ≠ 0 →
  ∃ s', switchuvm cpus_at (Some (kstack, pgdir)) s = Ok (tt, s') ∧
    tss cpus_at s' = Some (TaskState (kstack + 4096) (Z.shiftl SEG_KDATA 3) 65535) ∧ cr3 (hw s') = V2P pgdir ∧
    ifl (hw s') = ifl (hw s) ∧ (ncli <$> cpus s' !! c) = Some (ncli k) ∧ (∀ c', c' ≠ c → cpus s' !! c' = cpus s !! c').
Proof.
  intros Hc Hk Hg Hn Hif Hgd Ha1 Ha2 Hs1 Hs2 Hp.
  rewrite (switchuvm_eq cpus_at s c k Hc Hk Hn Hif kstack pgdir) by (done || lia).
  eexists. split; [reflexivity|]. cbn [hw cpus st set_hw updc ifl cr3]. pose proof (lookup_lt_Some _ _ _ Hk) as Hlt.
  split; [|split; [done|split; [done|split]]].
  - unfold tss. cbn [hw cpus st set_hw updc gdtr tr]. rewrite length_alter, Hgd.
    rewrite find_addr_eq; [|unfold gdt_addr; lia|done]. cbn [mbind option_bind].
    rewrite list_lookup_alter_eq, Hk. cbn [fmap option_fmap option_map mbind option_bind gdt switched].
    change (Z.to_nat (Z.shiftr (Z.shiftl SEG_TSS 3) 3)) with (Z.to_nat SEG_TSS).
    rewrite list_lookup_insert_eq by (rewrite Hg; unfold NSEGS, SEG_TSS; lia). cbn [mbind option_bind].
    assert (seg_base (tss_desc cpus_at c) = ts_addr cpus_at c) as -> by (apply base_parts; unfold ts_addr; lia).
    rewrite find_addr_eq; [|unfold ts_addr; lia|done]. cbn [mbind option_bind]. rewrite list_lookup_alter_eq, Hk.
    cbn [fmap option_fmap option_map ts switched]. by rewrite u32_small by (unfold Proc.KSTACKSIZE; lia).
  - by rewrite list_lookup_alter_eq, Hk.
  - intros c' Hne. by rewrite list_lookup_alter_ne.
Qed.

(** [seginit]: flat segments, the user's at privilege 3. *)
Theorem seginit_flat cpus_at (s : segst) c k : ifl (hw s) = false → find_cpu (lapicid (hw s)) (cpus s) 0 = Some c → cpus s !! c = Some k →
  length (gdt k) = NSEGS → ∃ s' k', seginit cpus_at s = Ok (tt, s') ∧ cpus s' !! c = Some k' ∧ gdtr (hw s') = gdt_addr cpus_at c ∧
    map (λ d, (seg_base d, seg_limit d, sd_dpl d, sd_type d)) (take 4 (drop 1 (gdt k'))) =
      [(0, 2 ^ 32 - 1, 0, 10); (0, 2 ^ 32 - 1, 0, 2); (0, 2 ^ 32 - 1, 3, 10); (0, 2 ^ 32 - 1, 3, 2)].
Proof.
  intros Hf Hc Hk Hg. assert (∃ k', seginit cpus_at s = Ok (tt, st s c (λ h, Hw (ifl h) (lapicid h) (gdt_addr cpus_at c) (idtr h) (tr h) (cr3 h)) k') ∧
    gdt k' = <[4%nat := SEG 2 0 4294967295 3]> (<[3%nat := SEG 10 0 4294967295 3]> (<[2%nat := SEG 2 0 4294967295 0]> (<[1%nat := SEG 10 0 4294967295 0]> (gdt k)))))
    as (k' & -> & Eg).
  { eexists. split.
    - etrans; [exact (f_equal _ (st_init s c k Hk))|]. unfold seginit, cpuid.
      rewrite (bind_ok _ _ _ _ _ (mycpu_eq s c k Hc Hk id k (conj eq_refl eq_refl) Hf)), !(bind_ok _ _ _ _ _ (updc_eq s c _ _ _)).
      unfold lgdt. by rewrite set_hw_eq.
    - reflexivity. }
  eexists _, k'. split; [reflexivity|]. cbn [cpus hw st set_hw updc gdtr]. rewrite list_lookup_alter_eq, Hk. split; [reflexivity|].
  split; [done|]. rewrite Eg. clear Eg k'.
  destruct k as [a t g n i p]. cbn [gdt set_gdt] in *. destruct g as [|g0 [|g1 [|g2 [|g3 [|g4 [|g5 [|]]]]]]]; try discriminate Hg.
  reflexivity.
Qed.

Module SegDemo.
(** Two CPUs; the second one runs, and lets process with a kernel stack at
    2 ^ 31 + 4096 run. *)
Definition demo_cpu (id : Z) : cpu := KCpu id (TaskState 0 0 0) (replicate NSEGS zero_segdesc) 0 false None.
Definition demo_segs : segst :=
  SegSt (Hw true 3 (gdt_addr 2148532224 1) 0 0 0) [demo_cpu 0; demo_cpu 3] (replicate 256 zero_gatedesc) 0.

Lemma switchuvm_selects_witness : ∃ s', switchuvm 2148532224 (Some (2147487744, 2147495936)) demo_segs = Ok (tt, s') ∧
  tss 2148532224 s' = Some (TaskState 2147491840 16 65535) ∧ cr3 (hw s') = 12288.
Proof.
  destruct (switchuvm_selects 2148532224 demo_segs 1 (demo_cpu 3) 2147487744 2147495936 eq_refl eq_refl eq_refl
    ltac:(simpl; lia) (λ _, eq_refl) eq_refl ltac:(lia) ltac:(simpl; lia) ltac:(lia) ltac:(lia) ltac:(lia)) as (s' & E & H1 & H2 & _).
  exists s'. split; [exact E|]. split; [exact H1|exact H2].
Defined.
End SegDemo.
