(* ===== verification/Asm.v ===== *)
(** * Traps and context switches in assembly

    [vectors.S] (as [vectors.pl] makes it), [trapasm.S], [swtch.S], [usys.S]
    and the stack that [allocproc] of [proc.c] prepares for a new process, on
    a model of the instructions they use.  The machine has the general and
    segment registers, [eip], [eflags] and memory; the flags that arithmetic
    sets are not part of it, since this code does not look at them.  C
    functions that the code calls are functions on the machine which obey the
    calling convention.

    The theorems: whatever the vector, [trap] is given the registers of the
    user as a [struct trapframe] (the record of [Proc.v]), and the user goes
    on with what the frame then holds; a context that [swtch] has saved is
    resumed with the registers and the stack it had; a new process starts in
    [forkret] and enters user code from its trap frame; a stub of [usys.S]
    passes the number of its call and returns the result. *)

From S2P Require Import Prelude CString Layout Proc.
From S2P Require Seg.

(** ** The machine *)

Record regs := Regs { eax : Z; ecx : Z; edx : Z; ebx : Z; esp : Z; ebp : Z; esi : Z; edi : Z }.
Record segs := Segs { cs : Z; ds : Z; es : Z; fs : Z; gs : Z; ss : Z }.
Record mach := Mach { gr : regs; sr : segs; eip : Z; eflags : Z; mm : mem }.

Inductive reg := EAX | ECX | EDX | EBX | ESP | EBP | ESI | EDI.
Inductive sreg := DS | ES | FS | GS.

Definition rget (r : reg) (g : regs) : Z :=
  match r with EAX => eax g | ECX => ecx g | EDX => edx g | EBX => ebx g | ESP => esp g | EBP => ebp g | ESI => esi g | EDI => edi g end.
Definition rset (r : reg) (v : Z) (g : regs) : regs :=
  match r with
  | EAX => Regs v (ecx g) (edx g) (ebx g) (esp g) (ebp g) (esi g) (edi g)
  | ECX => Regs (eax g) v (edx g) (ebx g) (esp g) (ebp g) (esi g) (edi g)
  | EDX => Regs (eax g) (ecx g) v (ebx g) (esp g) (ebp g) (esi g) (edi g)
  | EBX => Regs (eax g) (ecx g) (edx g) v (esp g) (ebp g) (esi g) (edi g)
  | ESP => Regs (eax g) (ecx g) (edx g) (ebx g) v (ebp g) (esi g) (edi g)
  | EBP => Regs (eax g) (ecx g) (edx g) (ebx g) (esp g) v (esi g) (edi g)
  | ESI => Regs (eax g) (ecx g) (edx g) (ebx g) (esp g) (ebp g) v (edi g)
  | EDI => Regs (eax g) (ecx g) (edx g) (ebx g) (esp g) (ebp g) (esi g) v
  end.
Definition sget (r : sreg) (g : segs) : Z := match r with DS => ds g | ES => es g | FS => fs g | GS => gs g end.
Definition sset (r : sreg) (v : Z) (g : segs) : segs :=
  match r with
  | DS => Segs (cs g) v (es g) (fs g) (gs g) (ss g)
  | ES => Segs (cs g) (ds g) v (fs g) (gs g) (ss g)
  | FS => Segs (cs g) (ds g) (es g) v (gs g) (ss g)
  | GS => Segs (cs g) (ds g) (es g) (fs g) v (ss g)
  end.
Definition setr (r : reg) (v : Z) (s : mach) : mach := Mach (rset r v (gr s)) (sr s) (eip s) (eflags s) (mm s).
Definition sets (r : sreg) (v : Z) (s : mach) : mach := Mach (gr s) (sset r v (sr s)) (eip s) (eflags s) (mm s).
Definition setip (v : Z) (s : mach) : mach := Mach (gr s) (sr s) v (eflags s) (mm s).

Definition push (v : Z) (s : mach) : mach :=
  let sp := u32 (esp (gr s) - 4) in
  Mach (rset ESP sp (gr s)) (sr s) (eip s) (eflags s) (store32 (mm s) sp v).
(** The word on top of the stack, and the machine without it. *)
Definition top (s : mach) : Z := load32 (mm s) (esp (gr s)).
Definition drop4 (s : mach) : mach := setr ESP (u32 (esp (gr s) + 4)) s.
Definition popr (r : reg) (s : mach) : mach := setr r (top s) (drop4 s).
Definition pops (r : sreg) (s : mach) : mach := sets r (u16 (top s)) (drop4 s).

Inductive instr :=
| PushI (v : Z) | PushR (r : reg) | PushS (r : sreg) | Pushal
| PopR (r : reg) | PopS (r : sreg) | Popal
| MovI (v : Z) (r : reg)               (* movl $v, r *)
| MovR (a b : reg)                     (* movl a, b *)
| Load (off : Z) (a b : reg)           (* movl off(a), b *)
| Store (a b : reg)                    (* movl a, (b) *)
| MovwI (v : Z)                        (* movw $v, %ax *)
| MovwS (r : sreg)                     (* movw %ax, r *)
| AddI (v : Z) (r : reg)
| Ret.

Definition exec (i : instr) (s : mach) : mach :=
  match i with
  | PushI v => push v s
  | PushR r => push (rget r (gr s)) s
  | PushS r => push (sget r (sr s)) s
  | Pushal =>
      let g := gr s in
      push (edi g) (push (esi g) (push (ebp g) (push (esp g) (push (ebx g) (push (edx g) (push (ecx g) (push (eax g) s)))))))
  | PopR r => popr r s
  | PopS r => pops r s
  | Popal => popr EAX (popr ECX (popr EDX (popr EBX (drop4 (popr EBP (popr ESI (popr EDI s)))))))
  | MovI v r => setr r v s
  | MovR a b => setr b (rget a (gr s)) s
  | Load off a b => setr b (load32 (mm s) (u32 (rget a (gr s) + off))) s
  | Store a b => Mach (gr s) (sr s) (eip s) (eflags s) (store32 (mm s) (rget b (gr s)) (rget a (gr s)))
  | MovwI v => setr EAX (eax (gr s) - u16 (eax (gr s)) + v) s
  | MovwS r => sets r (u16 (eax (gr s))) s
  | AddI v r => setr r (u32 (rget r (gr s) + v)) s
  | Ret => setip (top s) (drop4 s)
  end.
Definition run (l : list instr) (s : mach) : mach := foldl (λ s i, exec i s) s l.

(** The privilege level in a selector. *)
Definition rpl (sel : Z) : Z := Z.land sel 3.

(** The hardware takes gate [g]: coming from user code it takes the stack of
    the task state; an interrupt gate turns interrupts off. *)
Definition interrupt (g : Seg.gatedesc) (t : Seg.taskstate) (err : option Z) (s : mach) : mach :=
  let s1 :=
    if rpl (cs (sr s)) =? 0 then s
    else
      push (esp (gr s)) (push (ss (sr s))
        (Mach (rset ESP (Seg.ts_esp0 t) (gr s)) (Segs (cs (sr s)) (ds (sr s)) (es (sr s)) (fs (sr s)) (gs (sr s)) (Seg.ts_ss0 t))
           (eip s) (eflags s) (mm s))) in
  let s2 := push (eip s) (push (cs (sr s)) (push (eflags s) s1)) in
  let s3 := match err with Some e => push e s2 | None => s2 end in
  let q := sr s3 in
  Mach (gr s3) (Segs (Seg.gd_cs g) (ds q) (es q) (fs q) (gs q) (ss q)) (Seg.gate_off g)
    (if Seg.gd_type g =? Seg.STS_IG32 then Z.land (eflags s) (Z.lnot Seg.FL_IF) else eflags s) (mm s3).

(** The instruction [int]: the gate must be present and open to the code that
    executes it; otherwise there is a fault instead, [None]. *)
Definition soft_int (g : Seg.gatedesc) (t : Seg.taskstate) (s : mach) : option mach :=
  if (Seg.gd_p g =? 0) || (Seg.gd_dpl g <? rpl (cs (sr s))) then None else Some (interrupt g t None s).

(** [iret]: the stack too if it goes back to user code. *)
Definition iret (s : mach) : mach :=
  let ip := top s in let s1 := drop4 s in
  let c := u16 (top s1) in let s2 := drop4 s1 in
  let fl := top s2 in let s3 := drop4 s2 in
  let q := sr s in
  if rpl c =? 0 then Mach (gr s3) (Segs c (ds q) (es q) (fs q) (gs q) (ss q)) ip fl (mm s)
  else
    let sp := top s3 in let s4 := drop4 s3 in
    Mach (rset ESP sp (gr s4)) (Segs c (ds q) (es q) (fs q) (gs q) (u16 (top s4))) ip fl (mm s).

(** ** The code *)

(** The vectors for which the hardware pushes an error code. *)
Definition has_err (i : Z) : bool := (i =? 8) || ((10 <=? i) && (i <=? 14)) || (i =? 17).
Definition vector (i : Z) : list instr := if negb (has_err i) then [PushI 0; PushI i] else [PushI i].

(** [alltraps] up to the call of [trap]. *)
Definition alltraps : list instr :=
  [PushS DS; PushS ES; PushS FS; PushS GS; Pushal; MovwI (Z.shiftl Seg.SEG_KDATA 3); MovwS DS; MovwS ES; PushR ESP].
(** [trapret] up to [iret]. *)
Definition trapret : list instr := [Popal; PopS GS; PopS FS; PopS ES; PopS DS; AddI 8 ESP].

Definition swtch : list instr :=
  [Load 4 ESP EAX; Load 8 ESP EDX;
   PushR EBP; PushR EBX; PushR ESI; PushR EDI;
   Store ESP EAX; MovR EDX ESP;
   PopR EDI; PopR ESI; PopR EBX; PopR EBP; Ret].

(** A call of a C function: [ra] is the return address. *)
Definition call (f : mach → mach) (ra : Z) (s : mach) : mach := f (push ra s).

(** Vector [i], to the entry of [trap]; and from the return of [trap] to the
    interrupted code. *)
Definition enter_trap (i : Z) (s : mach) : mach := run alltraps (run (vector i) s).
Definition leave_trap (s : mach) : mach := iret (run trapret (exec (AddI 4 ESP) s)).

(** ** Words on the stack *)

Fixpoint pushall (m : mem) (top : Z) (l : list Z) : mem :=
  match l with
  | [] => m
  | v :: l' => pushall (store32 m (top - 4) v) (top - 4) l'
  end.
Definition pushes (l : list Z) (s : mach) : mach := foldl (λ s v, push v s) s l.

Lemma pushall_other m t l x : ¬ (t - 4 * Z.of_nat (length l) ≤ x < t) → pushall m t l x = m x.
Proof.
  revert m t. induction l as [|v l IH]; intros m t Hx; simpl in *; [done|].
  rewrite IH, store32_other by lia. done.
Qed.
Lemma pushall_word m t l i : (i < length l)%nat → load32 (pushall m t l) (t - 4 * Z.of_nat (S i)) = u32 (l !!! i).
Proof.
  revert m t i. induction l as [|v l IH]; intros m t i Hi; simpl in *; [lia|]. destruct i as [|i].
  - rewrite (load32_ext _ (store32 m (t - 4) v)).
    + replace (t - 4 * Z.of_nat 1) with (t - 4) by lia. apply load_store32_same.
    + intros x Hx. apply pushall_other. lia.
  - replace (t - 4 * Z.of_nat (S (S i))) with (t - 4 - 4 * Z.of_nat (S i)) by lia. apply IH. lia.
Qed.
Lemma pushall_app m t l l' : pushall m t (l ++ l') = pushall (pushall m t l) (t - 4 * Z.of_nat (length l)) l'.
Proof.
  revert m t. induction l as [|v l IH]; intros m t; simpl; [f_equal; lia|]. rewrite IH. f_equal. lia.
Qed.

Lemma pushes_eq l s : 4 * Z.of_nat (length l) ≤ esp (gr s) < 2 ^ 32 →
  pushes l s = Mach (rset ESP (esp (gr s) - 4 * Z.of_nat (length l)) (gr s)) (sr s) (eip s) (eflags s) (pushall (mm s) (esp (gr s)) l).
Proof.
  revert s. induction l as [|v l IH]; intros s Hs.
  - simpl. rewrite Z.sub_0_r. by destruct s as [[] ? ? ? ?].
  - cbn [length] in Hs. change (pushes (v :: l) s) with (pushes l (push v s)).
    assert (push v s = Mach (rset ESP (esp (gr s) - 4) (gr s)) (sr s) (eip s) (eflags s) (store32 (mm s) (esp (gr s) - 4) v)) as ->.
    { unfold push. by rewrite u32_small by lia. }
    rewrite IH by (simpl; lia). simpl. f_equal. f_equal. lia.
Qed.

Lemma pushes_set l q ip fl (b : mach) : Mach (gr (pushes l b)) q ip fl (mm (pushes l b)) = pushes l (Mach (gr b) q ip fl (mm b)).
Proof. revert b. induction l as [|v l IH]; intros b; [done|]. cbn [pushes foldl]. apply IH. Qed.
Lemma pushes_sr l s : sr (pushes l s) = sr s.
Proof. revert s. induction l as [|v l IH]; intros s; [done|]. exact (IH (push v s)). Qed.
Lemma pushes_gr l s : gr (pushes l s) = rset ESP (esp (gr (pushes l s))) (gr s).
Proof.
  revert s. induction l as [|v l IH]; intros s; [by destruct s as [[] ? ? ? ?]|].
  change (pushes (v :: l) s) with (pushes l (push v s)). rewrite (IH (push v s)) at 1. done.
Qed.
Lemma pushes_app l l' s : pushes l' (pushes l s) = pushes (l ++ l') s.
Proof. unfold pushes. by rewrite foldl_app. Qed.
Lemma pushes_snoc l v s : push v (pushes l s) = pushes (l ++ [v]) s.
Proof. unfold pushes. by rewrite foldl_app. Qed.

Lemma run_pushs r k l s : run (PushS r :: k) (pushes l s) = run k (pushes (l ++ [sget r (sr s)]) s).
Proof. change (run (PushS r :: k) (pushes l s)) with (run k (push (sget r (sr (pushes l s))) (pushes l s))). by rewrite pushes_snoc, pushes_sr. Qed.
Lemma run_pushal k l s : let g := gr s in run (Pushal :: k) (pushes l s) =
  run k (pushes (l ++ [eax g; ecx g; edx g; ebx g; esp (gr (pushes l s)); ebp g; esi g; edi g]) s).
Proof.
  intros g. unfold g. assert (∀ s', exec Pushal s' = pushes [eax (gr s'); ecx (gr s'); edx (gr s'); ebx (gr s'); esp (gr s'); ebp (gr s'); esi (gr s'); edi (gr s')] s') as E by done.
  unfold run. cbn [foldl]. rewrite E, pushes_app. do 3 f_equal.
  rewrite (pushes_gr l s). cbn [rset eax ecx edx ebx esp ebp esi edi]. done.
Qed.

Lemma pushes_esp l s : 4 * Z.of_nat (length l) ≤ esp (gr s) < 2 ^ 32 →
  esp (gr (pushes l s)) = esp (gr s) - 4 * Z.of_nat (length l).
Proof. intros Hs. by rewrite pushes_eq. Qed.

(** ** The trap frame *)

(** The [struct trapframe] at [a]. *)
Definition tf_at (m : mem) (a : Z) : trapframe :=
  TF (load32 m a) (load32 m (a + 4)) (load32 m (a + 8)) (load32 m (a + 12)) (load32 m (a + 16)) (load32 m (a + 20))
    (load32 m (a + 24)) (load32 m (a + 28)) (load16 m (a + 32)) (load16 m (a + 36)) (load16 m (a + 40)) (load16 m (a + 44))
    (load32 m (a + 48)) (load32 m (a + 52)) (load32 m (a + 56)) (load16 m (a + 60)) (load32 m (a + 64)) (load32 m (a + 68))
    (load16 m (a + 72)).

(** The machine's registers have their width. *)
Record wide (s : mach) : Prop := {
  w_regs r : 0 ≤ rget r (gr s) < 2 ^ 32;
  w_segs : Forall (λ v, 0 ≤ v < 2 ^ 16) [cs (sr s); ds (sr s); es (sr s); fs (sr s); gs (sr s); ss (sr s)];
  w_eip : 0 ≤ eip s < 2 ^ 32;
  w_eflags : 0 ≤ eflags s < 2 ^ 32
}.

(** The words of the frame, in the order they are pushed. *)
Definition frame_words (s : mach) (esp0 i err : Z) : list Z :=
  [ss (sr s); esp (gr s); eflags s; cs (sr s); eip s; err; i; ds (sr s); es (sr s); fs (sr s); gs (sr s);
   eax (gr s); ecx (gr s); edx (gr s); ebx (gr s); esp0 - 44; ebp (gr s); esi (gr s); edi (gr s)].
(** The frame [trap] is to see. *)
Definition frame_of (s : mach) (esp0 i err : Z) : trapframe :=
  TF (edi (gr s)) (esi (gr s)) (ebp (gr s)) (esp0 - 44) (ebx (gr s)) (edx (gr s)) (ecx (gr s)) (eax (gr s))
    (gs (sr s)) (fs (sr s)) (es (sr s)) (ds (sr s)) i err (eip s) (cs (sr s)) (eflags s) (esp (gr s)) (ss (sr s)).

Section trap.
Context (g : Seg.gatedesc) (t : Seg.taskstate) (s : mach) (i e : Z).
Context (Hu : rpl (cs (sr s)) = DPL_USER) (Ht : 84 ≤ Seg.ts_esp0 t < 2 ^ 32).

Definition err : Z := if has_err i then e else 0.
Definition taken : mach := interrupt g t (if has_err i then Some e else None) s.

Lemma interrupt_eq er : interrupt g t er s =
  pushes ([ss (sr s); esp (gr s); eflags s; cs (sr s); eip s] ++ option_list er)
    (Mach (rset ESP (Seg.ts_esp0 t) (gr s)) (Segs (Seg.gd_cs g) (ds (sr s)) (es (sr s)) (fs (sr s)) (gs (sr s)) (Seg.ts_ss0 t))
      (Seg.gate_off g) (if Seg.gd_type g =? Seg.STS_IG32 then Z.land (eflags s) (Z.lnot Seg.FL_IF) else eflags s) (mm s)).
Proof using Hu.
  unfold interrupt. rewrite Hu. change (DPL_USER =? 0) with false. cbv zeta iota.
  set (b := Mach (rset ESP _ _) _ _ _ _).
  assert (push (eip s) (push (cs (sr s)) (push (eflags s) (push (esp (gr s)) (push (ss (sr s)) b)))) =
    pushes [ss (sr s); esp (gr s); eflags s; cs (sr s); eip s] b) as -> by reflexivity.
  destruct er as [v|]; cbn [option_list]; rewrite ?pushes_snoc, ?app_nil_r, pushes_sr, pushes_set; reflexivity.
Qed.

(** The state in which [trap] is called, before its return address. *)
Lemma enter_trap_eq : enter_trap i taken =
  Mach (Regs (eax (gr s) - u16 (eax (gr s)) + 16) (ecx (gr s)) (edx (gr s)) (ebx (gr s)) (Seg.ts_esp0 t - 80) (ebp (gr s)) (esi (gr s)) (edi (gr s)))
    (Segs (Seg.gd_cs g) (u16 (eax (gr s) - u16 (eax (gr s)) + 16)) (u16 (eax (gr s) - u16 (eax (gr s)) + 16)) (fs (sr s)) (gs (sr s)) (Seg.ts_ss0 t))
    (Seg.gate_off g) (if Seg.gd_type g =? Seg.STS_IG32 then Z.land (eflags s) (Z.lnot Seg.FL_IF) else eflags s)
    (pushall (mm s) (Seg.ts_esp0 t) (frame_words s (Seg.ts_esp0 t) i err ++ [Seg.ts_esp0 t - 76])).
Proof using Hu Ht.
  set (s0 := Mach (rset ESP (Seg.ts_esp0 t) (gr s)) (Segs (Seg.gd_cs g) (ds (sr s)) (es (sr s)) (fs (sr s)) (gs (sr s)) (Seg.ts_ss0 t))
    (Seg.gate_off g) (if Seg.gd_type g =? Seg.STS_IG32 then Z.land (eflags s) (Z.lnot Seg.FL_IF) else eflags s) (mm s)).
  assert (enter_trap i taken = run alltraps (pushes [ss (sr s); esp (gr s); eflags s; cs (sr s); eip s; err; i] s0)) as ->.
  { unfold enter_trap, taken, err, vector. rewrite interrupt_eq by done. fold s0.
    destruct (has_err i); cbn [negb run foldl exec option_list app]; rewrite !pushes_snoc; done. }
  unfold alltraps. rewrite !run_pushs, run_pushal. cbn [app].
  rewrite (pushes_esp [_; _; _; _; _; _; _; _; _; _; _] s0), pushes_eq by (simpl; lia).
  cbn [length run foldl exec]. unfold push, setr, sets, s0.
  cbn [gr sr eip eflags mm rset rget sset sget eax ecx edx ebx esp ebp esi edi cs ds es fs gs ss].
  rewrite u32_small by lia. unfold frame_words. rewrite pushall_app. cbn [pushall length].
  f_equal. f_equal. lia.
Qed.
End trap.

Lemma byte_mem_store32 m a v : byte_mem m → byte_mem (store32 m a v).
Proof. intros Hm. unfold store32. repeat (apply byte_mem_store; [|apply Z.mod_pos_bound; lia]). done. Qed.
Lemma byte_mem_pushall m t l : byte_mem m → byte_mem (pushall m t l).
Proof. revert m t. induction l as [|v l IH]; intros m t Hm; simpl; [done|]. apply IH. by apply byte_mem_store32. Qed.
Lemma load16_eq m a : byte_mem m → load16 m a = u16 (load32 m a).
Proof.
  intros Hm. unfold load16, load32, u16. pose proof (Hm a). pose proof (Hm (a + 1)). pose proof (Hm (a + 2)). pose proof (Hm (a + 3)).
  Z.div_mod_to_equations. lia.
Qed.

(** The frame is the registers of the user. *)
Lemma frame_words_eq m s t i err l : byte_mem m → wide s → 84 ≤ t < 2 ^ 32 → 0 ≤ i < 2 ^ 32 → 0 ≤ err < 2 ^ 32 →
  tf_at (pushall m t (frame_words s t i err ++ l)) (t - 76) = frame_of s t i err.
Proof.
  intros Hm [Hr Hs Hip Hfl] Ht Hi He. rewrite pushall_app. set (m1 := pushall m t (frame_words s t i err)).
  assert (∀ n : nat, (n < 19)%nat → load32 (pushall m1 (t - 4 * Z.of_nat (length (frame_words s t i err))) l) (t - 76 + 4 * Z.of_nat n) =
    u32 (frame_words s t i err !!! (18 - n)%nat)) as Hw.
  { intros n Hn. rewrite (load32_ext _ m1); [|intros x Hx; apply pushall_other; simpl; lia].
    replace (t - 76 + 4 * Z.of_nat n) with (t - 4 * Z.of_nat (S (18 - n))) by lia. apply pushall_word. simpl. lia. }
  assert (byte_mem m1) as Hm1 by by apply byte_mem_pushall. clearbody m1.
  pose proof (Hr EAX). pose proof (Hr ECX). pose proof (Hr EDX). pose proof (Hr EBX). pose proof (Hr ESP). pose proof (Hr EBP).
  pose proof (Hr ESI). pose proof (Hr EDI). decompose_Forall. cbn [rget] in *.
  set (m2 := pushall m1 _ l) in *. assert (byte_mem m2) as Hb by by apply byte_mem_pushall.
  assert (∀ o n, o = 4 * Z.of_nat n → (n < 19)%nat → load32 m2 (t - 76 + o) = u32 (frame_words s t i err !!! (18 - n)%nat)) as Hw'.
  { intros o n -> Hn. by apply Hw. }
  unfold tf_at. rewrite !load16_eq by done. pose proof (Hw 0%nat ltac:(lia)) as H0'. rewrite Z.add_0_r in H0'. rewrite H0'.
  rewrite (Hw' 4 1%nat eq_refl ltac:(lia)), (Hw' 8 2%nat eq_refl ltac:(lia)), (Hw' 12 3%nat eq_refl ltac:(lia)), (Hw' 16 4%nat eq_refl ltac:(lia)), (Hw' 20 5%nat eq_refl ltac:(lia)), (Hw' 24 6%nat eq_refl ltac:(lia)), (Hw' 28 7%nat eq_refl ltac:(lia)), (Hw' 32 8%nat eq_refl ltac:(lia)), (Hw' 36 9%nat eq_refl ltac:(lia)),
    (Hw' 40 10%nat eq_refl ltac:(lia)), (Hw' 44 11%nat eq_refl ltac:(lia)), (Hw' 48 12%nat eq_refl ltac:(lia)), (Hw' 52 13%nat eq_refl ltac:(lia)), (Hw' 56 14%nat eq_refl ltac:(lia)), (Hw' 60 15%nat eq_refl ltac:(lia)), (Hw' 64 16%nat eq_refl ltac:(lia)), (Hw' 68 17%nat eq_refl ltac:(lia)), (Hw' 72 18%nat eq_refl ltac:(lia)).
  unfold frame_words, frame_of. simpl. unfold u16. rewrite !u32_small by lia. by rewrite !(Z.mod_small _ 65536) by lia.
Qed.

(** ** Back from a trap *)

(** The user's state that a frame describes. *)
Definition user_of (f : trapframe) (m : mem) : mach :=
  Mach (Regs (tf_eax f) (tf_ecx f) (tf_edx f) (tf_ebx f) (tf_esp f) (tf_ebp f) (tf_esi f) (tf_edi f))
    (Segs (tf_cs f) (tf_ds f) (tf_es f) (tf_fs f) (tf_gs f) (tf_ss f)) (tf_eip f) (tf_eflags f) m.

(** Sums of constants in addresses, without the wrapping inside. *)
Ltac addresses :=
  repeat match goal with
  | |- context [u32 (u32 ?a + ?b)] => rewrite (u32_add_l a b)
  | |- context [?a + Zpos ?p + Zpos ?q] => rewrite <- (Z.add_assoc a (Zpos p) (Zpos q))
  | |- context [Z.add (Zpos ?p) (Zpos ?q)] =>
      let r := eval vm_compute in (Z.add (Zpos p) (Zpos q)) in change (Z.add (Zpos p) (Zpos q)) with r
  end.

(** [trapret] at the frame [a]. *)
Lemma trapret_eq a s : esp (gr s) = a → 0 ≤ a → a + 76 < 2 ^ 32 → byte_mem (mm s) → rpl (tf_cs (tf_at (mm s) a)) = DPL_USER →
  iret (run trapret s) = user_of (tf_at (mm s) a) (mm s).
Proof.
  intros Ha H1 H2 Hm Hu. destruct s as [[] [] ip fl m]. cbn [gr esp mm] in *. subst a.
  cbv [run foldl exec trapret popr pops setr sets drop4 top rset rget sset gr sr eip eflags mm eax ecx edx ebx esp ebp esi edi cs ds es fs gs ss].
  addresses. unfold iret. cbv [top drop4 setr rset gr sr eip eflags mm eax ecx edx ebx esp ebp esi edi ds es fs gs ss].
  addresses.
  rewrite !u32_small by lia.
  unfold tf_at in *. cbn [tf_cs] in Hu. rewrite !load16_eq in * by done. rewrite Hu. reflexivity.
Qed.

(** A C function entered in [s] has come back: it has taken its return address
    off the stack and left bytes in memory. *)
Definition returned (s s' : mach) : Prop := esp (gr s') = u32 (esp (gr s) + 4) ∧ byte_mem (mm s').

(** [trap] called in [s2], where its argument is on top of the stack. *)
Lemma leave_trap_eq tf ra (f : mach → mach) s2 : let s3 := call f ra s2 in
  esp (gr s2) = tf - 4 → 8 ≤ tf → tf + 76 < 2 ^ 32 → returned (push ra s2) s3 → rpl (tf_cs (tf_at (mm s3) tf)) = DPL_USER →
  leave_trap s3 = user_of (tf_at (mm s3) tf) (mm s3).
Proof.
  intros s3 E H1 H2 [Hsp Hb] Hu. assert (esp (gr s3) = tf - 4) as Esp.
  { rewrite Hsp. unfold push. cbn [gr rset esp]. rewrite E, u32_add_l, u32_small by lia. lia. }
  unfold leave_trap. cbn [exec]. rewrite (trapret_eq tf); cbn [setr rget gr mm rset esp]; rewrite ?Esp, ?u32_small by lia; try done; lia.
Qed.

(** C14: a trap hands the user's state to [trap] and takes it back from there.
    Vector [i] of the table [tvinit] has made leads to entry point [i], with
    interrupts off unless it is the system call; there [trap] is called with
    the address of a [struct trapframe] on the kernel stack of the process
    that holds the user's registers, the number of the vector and the error
    code, if the hardware gives one; the rest of memory is as it was.  When
    [trap] has returned, the user goes on with the registers the frame then
    holds. *)
Theorem trap_roundtrip vs tb (tk : Seg.taskstate) g (s : mach) (i : nat) (e ra : Z) (f : mach → mach) :
  Seg.gates_of vs tb → tb !! i = Some g → (i < 256)%nat → rpl (cs (sr s)) = DPL_USER → wide s → byte_mem (mm s) →
  84 ≤ Seg.ts_esp0 tk < 2 ^ 32 - 1 → 0 ≤ e < 2 ^ 32 →
  let tf := Seg.ts_esp0 tk - 76 in
  let s1 := interrupt g tk (if has_err (Z.of_nat i) then Some e else None) s in
  let s2 := enter_trap (Z.of_nat i) s1 in
  let s3 := call f ra s2 in
  (eip s1 = vs !!! i ∧ (i ≠ 64%nat → Z.land (eflags s1) Seg.FL_IF = 0)) ∧
  (top s2 = tf ∧ tf_at (mm s2) tf = frame_of s (Seg.ts_esp0 tk) (Z.of_nat i) (if has_err (Z.of_nat i) then e else 0)) ∧
  (∀ x, ¬ (tf - 4 ≤ x < Seg.ts_esp0 tk) → mm s2 x = mm s x) ∧
  (returned (push ra s2) s3 → rpl (tf_cs (tf_at (mm s3) tf)) = DPL_USER → leave_trap s3 = user_of (tf_at (mm s3) tf) (mm s3)).
Proof.
  intros Hg Hi Hlt Hu Hw Hm Ht He tf s1 s2 s3. destruct (Hg i Hlt) as (g' & Hg1 & Hoff & _ & _ & _ & Hty).
  assert (g' = g) as -> by congruence. pose proof (enter_trap_eq g tk s (Z.of_nat i) e Hu ltac:(lia)) as E2. fold s1 in E2. unfold taken in E2. fold s1 s2 in E2.
  assert (eip s1 = Seg.gate_off g ∧ eflags s1 = if Seg.gd_type g =? Seg.STS_IG32 then Z.land (eflags s) (Z.lnot Seg.FL_IF) else eflags s) as [E3 E4] by done.
  split; [split|split; [|split]].
  - by rewrite E3.
  - intros Hne. rewrite E4, Hty. destruct (Nat.eqb_spec i 64); [done|]. change (Seg.STS_IG32 =? Seg.STS_IG32) with true. cbv iota.
    rewrite <- Z.land_assoc. change (Z.land (Z.lnot Seg.FL_IF) Seg.FL_IF) with 0. apply Z.land_0_r.
  - unfold top. rewrite E2. cbn [mm gr esp]. split.
    + pose proof (pushall_word (mm s) (Seg.ts_esp0 tk) (frame_words s (Seg.ts_esp0 tk) (Z.of_nat i) (err (Z.of_nat i) e) ++ [Seg.ts_esp0 tk - 76]) 19 ltac:(simpl; lia)) as H.
      rewrite u32_small in H by (simpl; lia). exact H.
    + apply frame_words_eq; try done; try lia. unfold err. by destruct (has_err (Z.of_nat i)); lia.
  - intros x Hx. rewrite E2. cbn [mm]. apply pushall_other. simpl. unfold tf in Hx. lia.
  - apply leave_trap_eq; [rewrite E2; cbn [gr esp]|..]; unfold tf; lia.
Qed.

(** ** Context switches *)

(** The [struct context] at [a]. *)
Definition ctx_at (m : mem) (a : Z) : context :=
  Ctx (load32 m a) (load32 m (a + 4)) (load32 m (a + 8)) (load32 m (a + 12)) (load32 m (a + 16)).

(** The arguments of [swtch]. *)
Definition arg_old (s : mach) : Z := load32 (mm s) (esp (gr s) + 4).
Definition arg_new (s : mach) : Z := load32 (mm s) (esp (gr s) + 8).

(** A call of [swtch]: its stack, the cell for the old context and the new
    context do not overlap. *)
Record swtch_call (s : mach) : Prop := {
  sc_bytes : byte_mem (mm s);
  sc_regs r : 0 ≤ rget r (gr s) < 2 ^ 32;
  sc_stack : 16 ≤ esp (gr s) ∧ esp (gr s) + 12 < 2 ^ 32;
  sc_new : arg_new s + 20 < 2 ^ 32;
  sc_stack_new : arg_new s + 20 ≤ esp (gr s) - 16 ∨ esp (gr s) ≤ arg_new s;
  sc_old_new : arg_new s + 20 ≤ arg_old s ∨ arg_old s + 4 ≤ arg_new s;
  sc_old_stack : esp (gr s) + 4 ≤ arg_old s ∨ arg_old s + 4 ≤ esp (gr s) - 16
}.

Definition swtch_mem (s : mach) : mem :=
  store32 (pushall (mm s) (esp (gr s)) [ebp (gr s); ebx (gr s); esi (gr s); edi (gr s)]) (arg_old s) (esp (gr s) - 16).

Lemma swtch_eq s : swtch_call s → let c := ctx_at (mm s) (arg_new s) in
  run swtch s = Mach (Regs (arg_old s) (ecx (gr s)) (arg_new s) (c_ebx c) (arg_new s + 20) (c_ebp c) (c_esi c) (c_edi c))
    (sr s) (c_eip c) (eflags s) (swtch_mem s).
Proof.
  intros [Hb Hr Hs Hn H1 H2 H3] c. pose proof (load32_range _ (esp (gr s) + 8) Hb) as Hnr. fold (arg_new s) in Hnr.
  assert (∀ a, arg_new s ≤ a → a + 4 ≤ arg_new s + 20 → load32 (swtch_mem s) a = load32 (mm s) a) as Hl.
  { intros a Ha1 Ha2. apply load32_ext. intros x Hx. unfold swtch_mem. rewrite store32_other by lia. apply pushall_other. simpl. lia. }
  assert (run [Load 4 ESP EAX; Load 8 ESP EDX; PushR EBP; PushR EBX; PushR ESI; PushR EDI; Store ESP EAX; MovR EDX ESP] s =
    Mach (Regs (arg_old s) (ecx (gr s)) (arg_new s) (ebx (gr s)) (arg_new s) (ebp (gr s)) (esi (gr s)) (edi (gr s)))
      (sr s) (eip s) (eflags s) (swtch_mem s)) as E.
  { unfold swtch_mem, arg_old, arg_new. clear -Hs. destruct s as [[] q ip fl m]. cbn [gr esp] in Hs.
    cbv [run foldl exec setr push rset rget gr sr eip eflags mm eax ecx edx ebx esp ebp esi edi].
    rewrite !(u32_small (_ + _)) by lia. rewrite (u32_small (esp0 - 4)) by lia. rewrite (u32_small (esp0 - 4 - 4)) by lia.
    rewrite (u32_small (esp0 - 4 - 4 - 4)) by lia. rewrite (u32_small (esp0 - 4 - 4 - 4 - 4)) by lia. cbn [pushall].
    f_equal. f_equal. lia. }
  change swtch with ([Load 4 ESP EAX; Load 8 ESP EDX; PushR EBP; PushR EBX; PushR ESI; PushR EDI; Store ESP EAX; MovR EDX ESP] ++
    [PopR EDI; PopR ESI; PopR EBX; PopR EBP; Ret]).
  unfold run in *. rewrite foldl_app, E. unfold c, ctx_at. rewrite <- !Hl by lia. clear -Hn Hnr.
  generalize dependent (arg_new s). intros n Hn Hnr.
  generalize (swtch_mem s), (arg_old s), (ecx (gr s)), (ebx (gr s)), (ebp (gr s)), (esi (gr s)), (edi (gr s)), (eip s), (sr s), (eflags s). intros.
  cbv [foldl exec popr top drop4 setr setip rset rget gr sr eip eflags mm eax ecx edx ebx esp ebp esi edi c_edi c_esi c_ebx c_ebp c_eip].
  addresses. by rewrite !u32_small by lia.
Qed.

(** The old context is saved below the stack, with the return address. *)
Lemma swtch_saves s : swtch_call s →
  ctx_at (swtch_mem s) (esp (gr s) - 16) = Ctx (edi (gr s)) (esi (gr s)) (ebx (gr s)) (ebp (gr s)) (top s) ∧
  load32 (swtch_mem s) (arg_old s) = esp (gr s) - 16.
Proof.
  intros [Hb Hr Hs Hn H1 H2 H3]. pose proof (Hr EBP). pose proof (Hr EBX). pose proof (Hr ESI). pose proof (Hr EDI). cbn [rget] in *.
  set (l := [ebp (gr s); ebx (gr s); esi (gr s); edi (gr s)]).
  assert (∀ a, esp (gr s) - 16 ≤ a → a + 4 ≤ esp (gr s) + 4 → load32 (swtch_mem s) a = load32 (pushall (mm s) (esp (gr s)) l) a) as Hl.
  { intros a Ha1 Ha2. apply load32_ext. intros x Hx. apply store32_other. lia. }
  pose proof (pushall_word (mm s) (esp (gr s)) l) as Hw. split.
  - unfold ctx_at. rewrite !Hl by lia. f_equal.
    + rewrite <- (u32_small (edi (gr s))) by lia. apply (Hw 3%nat). simpl. lia.
    + replace (esp (gr s) - 16 + 4) with (esp (gr s) - 4 * Z.of_nat 3) by lia. rewrite (Hw 2%nat) by (simpl; lia). by apply u32_small.
    + replace (esp (gr s) - 16 + 8) with (esp (gr s) - 4 * Z.of_nat 2) by lia. rewrite (Hw 1%nat) by (simpl; lia). by apply u32_small.
    + replace (esp (gr s) - 16 + 12) with (esp (gr s) - 4 * Z.of_nat 1) by lia. rewrite (Hw 0%nat) by (simpl; lia). by apply u32_small.
    + replace (esp (gr s) - 16 + 16) with (esp (gr s)) by lia. apply load32_ext. intros x Hx. apply pushall_other. simpl. lia.
  - unfold swtch_mem. rewrite load_store32_same. apply u32_small. lia.
Qed.

(** C16: [swtch] stores the address of the old context and continues with the
    new one.  When someone later switches to the address it stored, and the
    stack there is as it was left, the call of [swtch] that was suspended
    returns: to its return address, with its stack and with the registers a
    C function has to preserve. *)
Theorem swtch_roundtrip (s1 s2 : mach) : swtch_call s1 → swtch_call s2 →
  let s1' := run swtch s1 in let s2' := run swtch s2 in
  arg_new s2 = load32 (mm s1') (arg_old s1) →
  (∀ x, esp (gr s1) - 16 ≤ x < esp (gr s1) + 4 → mm s2 x = mm s1' x) →
  ctx_at (mm s1) (arg_new s1) = Ctx (edi (gr s1')) (esi (gr s1')) (ebx (gr s1')) (ebp (gr s1')) (eip s1') ∧
  (edi (gr s2'), esi (gr s2'), ebx (gr s2'), ebp (gr s2')) = (edi (gr s1), esi (gr s1), ebx (gr s1), ebp (gr s1)) ∧
  eip s2' = top s1 ∧ esp (gr s2') = esp (gr s1) + 4.
Proof.
  intros H1 H2 s1' s2' Hn Hx. pose proof (swtch_eq s1 H1) as E1. pose proof (swtch_eq s2 H2) as E2. cbv zeta in E1, E2. fold s1' in E1. fold s2' in E2.
  destruct (swtch_saves s1 H1) as [Hc Ho]. assert (mm s1' = swtch_mem s1) as Em by (by rewrite E1).
  rewrite Em, Ho in Hn. split; [by rewrite E1|].
  assert (ctx_at (mm s2) (arg_new s2) = Ctx (edi (gr s1)) (esi (gr s1)) (ebx (gr s1)) (ebp (gr s1)) (top s1)) as Hc2.
  { rewrite Hn, <- Hc, <- Em. unfold ctx_at. f_equal; apply load32_ext; intros x Hx'; apply Hx; lia. }
  rewrite E2, Hc2. cbn [gr eip esp edi esi ebx ebp c_edi c_esi c_ebx c_ebp c_eip]. split; [done|]. split; [done|]. lia.
Qed.

(** ** A new process *)

(** What [allocproc] writes on the new kernel stack: the address of [trapret]
    below the trap frame and a context that starts at [forkret]. *)
Definition new_stack (m : mem) (kstack trapret forkret : Z) : mem :=
  let sp := kstack + KSTACKSIZE - sizeof_trapframe in
  let sp := sp - 4 in
  let m := store32 m sp trapret in
  let sp := sp - sizeof_context in
  let m := memset m sp 0 sizeof_context in
  store32 m (sp + 16) forkret.

Lemma new_stack_eq m k tr fr : 0 ≤ tr < 2 ^ 32 → 0 ≤ fr < 2 ^ 32 →
  let a := k + KSTACKSIZE - sizeof_trapframe - 4 - sizeof_context in
  ctx_at (new_stack m k tr fr) a = Ctx 0 0 0 0 fr ∧ load32 (new_stack m k tr fr) (a + 20) = tr.
Proof.
  intros Ht Hf a. unfold new_stack. fold a. replace (k + KSTACKSIZE - sizeof_trapframe - 4) with (a + 20) by (unfold a, sizeof_context; lia).
  set (m1 := store32 m (a + 20) tr). replace (a + 20 - sizeof_context) with a by (unfold sizeof_context; lia).
  assert (∀ x, a ≤ x < a + 16 → store32 (memset m1 a 0 sizeof_context) (a + 16) fr x = 0) as Hz.
  { intros x Hx. rewrite store32_other, memset_spec by (unfold sizeof_context; lia).
    rewrite (proj2 (Z.leb_le a x)), (proj2 (Z.ltb_lt x (a + sizeof_context))) by (unfold sizeof_context; lia). done. }
  assert (∀ y, a ≤ y → y + 4 ≤ a + 16 → load32 (store32 (memset m1 a 0 sizeof_context) (a + 16) fr) y = 0) as Hl.
  { intros y Hy1 Hy2. unfold load32. rewrite !Hz by lia. done. }
  split.
  - unfold ctx_at. rewrite !Hl by lia. by rewrite load_store32_same, u32_small.
  - rewrite (load32_ext _ m1); [unfold m1; by rewrite load_store32_same, u32_small|].
    intros x Hx. rewrite store32_other, memset_spec by (unfold sizeof_context; lia).
    rewrite (proj2 (Z.ltb_ge x (a + sizeof_context))) by (unfold sizeof_context; lia). by rewrite andb_false_r.
Qed.

(** C36: a process that [allocproc] has made starts in user code.  When the
    scheduler switches to its context, [forkret] runs on its stack and returns
    to [trapret], and that loads the user's registers from the trap frame of
    the process. *)
Theorem new_process_starts (s : mach) (m : mem) kstack tr fr (f : mach → mach) : swtch_call s →
  0 < kstack → kstack + 4096 < 2 ^ 32 → 0 ≤ tr < 2 ^ 32 → 0 ≤ fr < 2 ^ 32 →
  let tf := kstack + KSTACKSIZE - sizeof_trapframe in
  arg_new s = tf - 4 - sizeof_context →
  (∀ x, arg_new s ≤ x < tf → mm s x = new_stack m kstack tr fr x) →
  (esp (gr s) ≤ kstack ∨ kstack + 4096 ≤ esp (gr s) - 16) → (arg_old s + 4 ≤ kstack ∨ kstack + 4096 ≤ arg_old s) →
  let s1 := run swtch s in
  (eip s1 = fr ∧ top s1 = tr) ∧
  (returned s1 (f s1) → rpl (tf_cs (tf_at (mm (f s1)) tf)) = DPL_USER →
   iret (run trapret (f s1)) = user_of (tf_at (mm (f s1)) tf) (mm (f s1))).
Proof.
  intros Hc Hk1 Hk2 Ht Hf tf Ha Hx Hd1 Hd2 s1. pose proof (swtch_eq s Hc) as E. cbv zeta in E. fold s1 in E.
  destruct (new_stack_eq m kstack tr fr Ht Hf) as [N1 N2]. fold tf in N1, N2. rewrite <- Ha in N1, N2.
  assert (ctx_at (mm s) (arg_new s) = Ctx 0 0 0 0 fr) as Hc1.
  { rewrite <- N1. unfold ctx_at. f_equal; apply load32_ext; intros x Hx'; apply Hx; unfold sizeof_context in *; lia. }
  assert (load32 (mm s) (arg_new s + 20) = tr) as Hc2.
  { rewrite <- N2. apply load32_ext. intros x Hx'. apply Hx. unfold sizeof_context in *. lia. }
  split; [split|].
  - by rewrite E, Hc1.
  - unfold top. rewrite E. cbn [gr esp mm]. rewrite <- Hc2. apply load32_ext. intros x Hx'. unfold swtch_mem.
    unfold tf, KSTACKSIZE, sizeof_trapframe, sizeof_context in Ha. rewrite store32_other by lia. apply pushall_other. simpl. lia.
  - intros [Hsp Hb] Hu. assert (esp (gr s1) = arg_new s + 20) as Esp by (by rewrite E).
    assert (0 ≤ tf ∧ tf + 76 < 2 ^ 32) as Htf by (unfold tf, KSTACKSIZE, sizeof_trapframe; lia).
    apply trapret_eq; try done; try lia. rewrite Hsp, Esp, Ha, u32_small by (unfold sizeof_context; lia). unfold sizeof_context. lia.
Qed.

(** ** System calls from user code *)

(** [usys.S]: the stubs and the numbers they load. *)
Definition usys : list (string * Z) :=
  [("fork", 1); ("exit", 2); ("wait", 3); ("pipe", 4); ("read", 5); ("write", 16); ("close", 21); ("kill", 6); ("exec", 7);
   ("open", 15); ("mknod", 17); ("unlink", 18); ("fstat", 8); ("link", 19); ("mkdir", 20); ("chdir", 9); ("dup", 10);
   ("getpid", 11); ("sbrk", 12); ("sleep", 13); ("uptime", 14); ("gethistory", 22); ("block", 23); ("unblock", 24); ("chmod", 25)]%string.

(** A stub: [movl $num, %eax], [int $T_SYSCALL], [ret]; [next] is the address
    of the [ret], [f] the function [trap], [ra] its return address. *)
Definition stub (g : Seg.gatedesc) (tk : Seg.taskstate) (f : mach → mach) (ra next num : Z) (s : mach) : option mach :=
  let s1 := setip next (exec (MovI num EAX) s) in
  s2 ← soft_int g tk s1;
  Some (exec Ret (leave_trap (call f ra (enter_trap T_SYSCALL s2)))).

(** [trap] has put [r] into [eax] of the frame at [tf] it was given in [s],
    and has not touched the rest of it nor the memory of the caller at [sp]. *)
Definition answers (f : mach → mach) (tf sp r : Z) (s : mach) : Prop :=
  returned s (f s) ∧ tf_at (mm (f s)) tf = set_eax r (tf_at (mm s) tf) ∧ load32 (mm (f s)) sp = load32 (mm s) sp.

(** C37: a system call through its stub.  The gate that [tvinit] has made lets
    user code raise the call.  [trap] gets a frame with the number
    of the call in [eax] and the vector of system calls; if it answers [r],
    the stub returns [r] to its caller, with every other register unchanged
    and its return address taken off the stack. *)
Theorem usys_returns vs tb (tk : Seg.taskstate) g (s : mach) (f : mach → mach) (ra next num r : Z) :
  Seg.gates_of vs tb → tb !! 64%nat = Some g → rpl (cs (sr s)) = DPL_USER → wide s → byte_mem (mm s) →
  84 ≤ Seg.ts_esp0 tk < 2 ^ 32 - 1 → 0 ≤ next < 2 ^ 32 → 0 ≤ num < 2 ^ 32 →
  esp (gr s) + 4 ≤ Seg.ts_esp0 tk - 84 →
  let tf := Seg.ts_esp0 tk - 76 in
  let entry := push ra (enter_trap T_SYSCALL (interrupt g tk None (setip next (setr EAX num s)))) in
  answers f tf (esp (gr s)) r entry →
  (tf_eax (tf_at (mm entry) tf) = num ∧ tf_trapno (tf_at (mm entry) tf) = T_SYSCALL) ∧
  stub g tk f ra next num s = Some (Mach (rset ESP (esp (gr s) + 4) (rset EAX r (gr s))) (sr s) (top s) (eflags s) (mm (f entry))).
Proof.
  intros Hg Hi Hu Hw Hm Ht Hnx Hnum Hsp tf entry (Hr & Hf & Hmem).
  assert (84 ≤ Seg.ts_esp0 tk < 2 ^ 32) as Ht1 by (clear -Ht; lia).
  assert (stub g tk f ra next num s = Some (exec Ret (leave_trap (f entry)))) as ->.
  { destruct (Hg 64%nat ltac:(lia)) as (g' & Hi' & _ & _ & Hp & Hd & _). rewrite Hi in Hi'. injection Hi' as <-.
    unfold stub, soft_int. cbn [exec setip setr sr]. rewrite Hp, Hd, Hu. done. }
  set (s1 := setip next (setr EAX num s)) in *. assert (wide s1) as Hw1.
  { destruct Hw as [W1 W2 W3 W4]. split; try done. intros r'. pose proof (W1 r'). by destruct r'. }
  pose proof (enter_trap_eq g tk s1 64 0 Hu Ht1) as E. unfold taken in E. change (has_err 64) with false in E.
  change (err 64 0) with 0 in E. fold T_SYSCALL in E. set (s2 := enter_trap T_SYSCALL _) in *.
  assert (entry = push ra s2) as En by reflexivity. clearbody entry. clearbody s2.
  assert (mm entry = pushall (mm s) (Seg.ts_esp0 tk) (frame_words s1 (Seg.ts_esp0 tk) 64 0 ++ [Seg.ts_esp0 tk - 76; ra])) as Em.
  { rewrite En. unfold push. rewrite E. cbn [gr esp mm]. rewrite u32_small by lia. rewrite !pushall_app. cbn [pushall length frame_words]. f_equal. lia. }
  assert (tf_at (mm entry) tf = frame_of s1 (Seg.ts_esp0 tk) 64 0) as Ef.
  { rewrite Em. apply (frame_words_eq (mm s) s1 _ 64 0 _ Hm Hw1 Ht1); clear; lia. }
  rewrite Ef in *. split; [done|]. f_equal. assert (esp (gr s2) = tf - 4) as Esp by (rewrite E; cbn [gr esp]; unfold tf; lia).
  pose proof (leave_trap_eq tf ra f s2 Esp) as L. cbv zeta in L. unfold call in L. rewrite <- En, Hf in L.
  rewrite L by (done || unfold tf; lia). pose proof (w_regs s Hw ESP) as Hesp. cbn [rget] in Hesp.
  assert (load32 (mm (f entry)) (esp (gr s)) = top s) as Etop.
  { rewrite Hmem, Em. apply load32_ext. intros x Hx. apply pushall_other. simpl. lia. }
  unfold exec, drop4, top, user_of, setip, setr, frame_of, set_eax, s1. cbn [gr sr eip eflags mm esp].
  cbn [tf_eax tf_ecx tf_edx tf_ebx tf_esp tf_ebp tf_esi tf_edi tf_cs tf_ds tf_es tf_fs tf_gs tf_ss tf_eip tf_eflags].
  unfold s1, setip, setr. cbn [gr sr eip eflags mm rset esp ecx edx ebx ebp esi edi].
  rewrite Etop, u32_small by lia. unfold top. f_equal. by destruct (sr s).
Qed.

(** Every call from 1 to 25 has a stub. *)
Lemma usys_numbers : map snd usys ≡ₚ seqZ 1 25.
Proof. apply (bool_decide_unpack _). by vm_compute. Qed.

(** [start] of [initcode.S], up to its [int]: the arguments are where
    [syscall] looks for them. *)
Definition initcode (init argv : Z) : list instr := [PushI argv; PushI init; PushI 0; MovI 7 EAX].
Lemma initcode_args init argv s : 0 ≤ init < 2 ^ 32 → 0 ≤ argv < 2 ^ 32 → 12 ≤ esp (gr s) < 2 ^ 32 → let s' := run (initcode init argv) s in
  eax (gr s') = 7 ∧ load32 (mm s') (esp (gr s') + 4) = init ∧ load32 (mm s') (esp (gr s') + 8) = argv.
Proof.
  intros Hi Ha Hs s'. assert (s' = setr EAX 7 (pushes [argv; init; 0] s)) as -> by done. rewrite pushes_eq by (simpl; lia).
  cbn [setr gr mm rset eax esp length]. split; [done|].
  pose proof (pushall_word (mm s) (esp (gr s)) [argv; init; 0]) as Hw. split.
  - replace (esp (gr s) - 4 * Z.of_nat 3 + 4) with (esp (gr s) - 4 * Z.of_nat 2) by lia. rewrite (Hw 1%nat) by (simpl; lia). by apply u32_small.
  - replace (esp (gr s) - 4 * Z.of_nat 3 + 8) with (esp (gr s) - 4 * Z.of_nat 1) by lia. rewrite (Hw 0%nat) by (simpl; lia). by apply u32_small.
Qed.

(** ** Examples *)

Module AsmDemo.
(** A user process at address 100 with its stack at 4000; its kernel stack
    ends at 2 ^ 31 + 8192. *)
Definition demo_vectors : list Z := seqZ 2148532224 256.
Definition demo_tk : Seg.taskstate := Seg.TaskState 2147491840 16 65535.
Definition demo_user : mach := Mach (Regs 1 2 3 4 4000 6 7 8) (Segs 27 35 35 0 0 35) 100 512 (λ _, 1).
(** A [trap] that answers 42. *)
Definition demo_trap (s : mach) : mach :=
  Mach (rset ESP (u32 (esp (gr s) + 4)) (gr s)) (sr s) (eip s) (eflags s) (store32 (mm s) (2147491764 + 28) 42).

Lemma demo_gates : ∃ tb, Seg.gates_of demo_vectors tb.
Proof.
  destruct (Seg.tvinit_eq demo_vectors (Seg.SegSt (Seg.Hw false 0 0 0 0 0) [] (replicate 256 Seg.zero_gatedesc) 0)) as (t & _ & Hg);
    [done|done| |by exists t].
  apply Forall_forall. intros v Hv. apply elem_of_seqZ in Hv. lia.
Qed.
Lemma demo_wide : wide demo_user.
Proof. split; simpl; try lia; [by intros []; simpl; lia|repeat constructor; lia]. Qed.
Lemma demo_bytes : byte_mem (mm demo_user).
Proof. intros x. simpl. lia. Qed.

Lemma load16_ext m m' a : (∀ x, a ≤ x < a + 2 → m x = m' x) → load16 m a = load16 m' a.
Proof. intros H. unfold load16. rewrite !H by lia. done. Qed.
Lemma tf_at_set_eax m a v : 0 ≤ v < 2 ^ 32 → tf_at (store32 m (a + 28) v) a = set_eax v (tf_at m a).
Proof.
  intros Hv. unfold tf_at, set_eax. cbn [tf_edi tf_esi tf_ebp tf_oesp tf_ebx tf_edx tf_ecx tf_gs tf_fs tf_es tf_ds tf_trapno tf_err tf_eip tf_cs tf_eflags tf_esp tf_ss].
  rewrite load_store32_same, u32_small by done.
  f_equal; first [apply load_store32_ne; lia|apply load16_ext; intros x Hx; apply store32_other; lia].
Qed.
Lemma demo_answers s : byte_mem (mm s) → answers demo_trap (2147491840 - 76) 4000 42 s.
Proof.
  intros Hb. split; [split; [done|by apply byte_mem_store32]|]. split; [by apply tf_at_set_eax|]. apply load_store32_ne. lia.
Qed.

(** [getpid] through its stub. *)
Lemma usys_returns_witness : ∃ g m, stub g demo_tk demo_trap 5 107 11 demo_user =
  Some (Mach (Regs 42 2 3 4 4004 6 7 8) (Segs 27 35 35 0 0 35) 16843009 512 m).
Proof.
  destruct demo_gates as [tb Hg]. destruct (Hg 64%nat ltac:(lia)) as (g & Hi & _).
  assert (byte_mem (mm (push 5 (enter_trap T_SYSCALL (interrupt g demo_tk None (setip 107 (setr EAX 11 demo_user))))))) as Hb.
  { apply byte_mem_store32. rewrite (enter_trap_eq g demo_tk (setip 107 (setr EAX 11 demo_user)) 64 0 eq_refl ltac:(simpl; lia) :
      enter_trap T_SYSCALL (interrupt g demo_tk None (setip 107 (setr EAX 11 demo_user))) = _).
    apply byte_mem_pushall, demo_bytes. }
  destruct (usys_returns demo_vectors tb demo_tk g demo_user demo_trap 5 107 11 42 Hg Hi eq_refl demo_wide demo_bytes
    ltac:(simpl; lia) ltac:(lia) ltac:(lia) ltac:(simpl; lia) (demo_answers _ Hb)) as [_ E].
  exists g. eexists. exact E.
Defined.

(** A page fault: the frame has its vector and its error code. *)
Lemma trap_roundtrip_witness : ∃ g, let s2 := enter_trap 14 (interrupt g demo_tk (Some 7) demo_user) in
  (tf_trapno (tf_at (mm s2) 2147491764), tf_err (tf_at (mm s2) 2147491764), tf_esp (tf_at (mm s2) 2147491764)) = (14, 7, 4000) ∧
  eax (gr (leave_trap (call demo_trap 5 s2))) = 42.
Proof.
  destruct demo_gates as [tb Hg]. destruct (Hg 14%nat ltac:(lia)) as (g & Hi & _). exists g. intros s2.
  destruct (trap_roundtrip demo_vectors tb demo_tk g demo_user 14 7 5 demo_trap Hg Hi ltac:(lia) eq_refl demo_wide demo_bytes
    ltac:(simpl; lia) ltac:(lia)) as (_ & [_ E] & _ & H).
  change (enter_trap (Z.of_nat 14) _) with s2 in E, H. change (Seg.ts_esp0 demo_tk - 76) with 2147491764 in E, H.
  split; [by rewrite E|]. assert (byte_mem (mm (push 5 s2))) as Hb.
  { apply byte_mem_store32. unfold s2. rewrite (enter_trap_eq g demo_tk demo_user 14 7 eq_refl ltac:(simpl; lia) :
      enter_trap 14 (interrupt g demo_tk (Some 7) demo_user) = _). apply byte_mem_pushall, demo_bytes. }
  assert (tf_at (mm (call demo_trap 5 s2)) 2147491764 = set_eax 42 (frame_of demo_user 2147491840 14 7)) as Ef.
  { destruct (demo_answers _ Hb) as (_ & Ef & _). change (2147491840 - 76) with 2147491764 in Ef. unfold call. rewrite Ef. f_equal. }
  rewrite H; [by rewrite Ef| |by rewrite Ef]. split; [done|by apply byte_mem_store32].
Defined.

(** One thread with its stack at 5000 switches to a context at 7000, and back. *)
Definition thread1 : mach := Mach (Regs 1 2 3 4 5000 6 7 8) (Segs 8 16 16 0 0 16) 100 2
  (store32 (store32 (λ _, 1) 5004 9000) 5008 7000).
Definition thread2 : mach := Mach (Regs 0 0 0 0 7100 0 0 0) (Segs 8 16 16 0 0 16) 100 2
  (store32 (store32 (mm (run swtch thread1)) 7104 9004) 7108 4984).

Lemma thread1_args : arg_old thread1 = 9000 ∧ arg_new thread1 = 7000.
Proof. by vm_compute. Qed.
Lemma thread1_call : swtch_call thread1.
Proof.
  destruct thread1_args as [E1 E2]. split; rewrite ?E1, ?E2; cbn [thread1 gr esp]; try lia.
  - apply byte_mem_store32, byte_mem_store32. intros x. lia.
  - intros []; simpl; lia.
Qed.
Lemma thread2_args : arg_old thread2 = 9004 ∧ arg_new thread2 = 4984.
Proof. by vm_compute. Qed.
Lemma thread2_call : swtch_call thread2.
Proof.
  assert (byte_mem (mm (run swtch thread1))) as Hb.
  { rewrite (swtch_eq thread1 thread1_call). apply byte_mem_store32, byte_mem_pushall. apply thread1_call. }
  destruct thread2_args as [E1 E2]. split; rewrite ?E1, ?E2; cbn [thread2 gr esp]; try lia.
  - apply byte_mem_store32, byte_mem_store32, Hb.
  - intros []; simpl; lia.
Qed.
Lemma swtch_roundtrip_witness : let s := run swtch thread2 in
  (edi (gr s), esi (gr s), ebx (gr s), ebp (gr s)) = (8, 7, 4, 6) ∧ eip s = 16843009 ∧ esp (gr s) = 5004.
Proof.
  refine (proj2 (swtch_roundtrip thread1 thread2 thread1_call thread2_call _ _)).
  - by vm_compute.
  - intros x Hx. cbn [thread1 gr esp] in Hx. cbn [thread2 mm]. rewrite !store32_other by lia. done.
Defined.

(** A process with its kernel stack at 8192, whose frame has 1 in every byte
    but for the code segment. *)
Definition new_thread : mach := Mach (Regs 1 2 3 4 5000 6 7 8) (Segs 8 16 16 0 0 16) 100 2
  (store32 (store32 (store32 (new_stack (λ _, 1) 8192 300 200) 12272 27) 5004 20000) 5008 12188).
Lemma new_thread_args : arg_old new_thread = 20000 ∧ arg_new new_thread = 12188.
Proof. by vm_compute. Qed.
Lemma new_thread_call : swtch_call new_thread.
Proof.
  destruct new_thread_args as [E1 E2]. split; rewrite ?E1, ?E2; cbn [new_thread gr esp]; try lia.
  - do 3 apply byte_mem_store32. unfold new_stack. apply byte_mem_store32. intros x. rewrite memset_spec by (unfold sizeof_context; lia).
    destruct (_ && _); [by vm_compute|]. apply byte_mem_store32. intros y. lia.
  - intros []; simpl; lia.
Qed.
Lemma new_process_starts_witness : let s1 := run swtch new_thread in
  eip s1 = 200 ∧ eip (iret (run trapret (drop4 s1))) = 16843009 ∧ cs (sr (iret (run trapret (drop4 s1)))) = 27.
Proof.
  intros s1. destruct new_thread_args as [E1 E2].
  destruct (new_process_starts new_thread (λ _, 1) 8192 300 200 drop4 new_thread_call ltac:(lia) ltac:(lia) ltac:(lia) ltac:(lia) E2)
    as [[E _] H]; rewrite ?E1, ?E2; cbn [new_thread gr esp]; try lia.
  - intros x Hx. cbn [new_thread mm]. unfold KSTACKSIZE, sizeof_trapframe in Hx. rewrite !store32_other by lia. done.
  - split; [exact E|]. fold s1 in H. change (8192 + KSTACKSIZE - sizeof_trapframe) with 12212 in H.
    assert (tf_cs (tf_at (mm (drop4 s1)) 12212) = 27) as A1 by by vm_compute.
    assert (tf_eip (tf_at (mm (drop4 s1)) 12212) = 16843009) as A2 by by vm_compute.
    assert (byte_mem (mm (drop4 s1))) as Hb.
    { unfold s1. rewrite (swtch_eq new_thread new_thread_call). apply byte_mem_store32, byte_mem_pushall, new_thread_call. }
    assert (esp (gr (drop4 s1)) = u32 (esp (gr s1) + 4)) as Hsp by reflexivity. clearbody s1.
    rewrite (H (conj Hsp Hb) ltac:(rewrite A1; reflexivity)). unfold user_of. cbn [eip sr cs]. split; [exact A2|exact A1].
Defined.
End AsmDemo.
