(* ===== verification/File.v ===== *)
(** * Open files

    Models [file.c] and [pipealloc]: the table of open files with their
    reference counts, on top of the file system ([Fs.v]), pipes ([Pipe.v])
    and the page allocator ([Kalloc.v]).

    Operations that call [wakeup] return the channels they woke; a call that
    goes to sleep on a pipe says so in its result. *)

From S2P Require Import Prelude CString Layout Kalloc Proc Block Log Fs.
From S2P Require Pipe.

Definition NFILE : nat := 100.

Inductive ftype := FD_NONE | FD_PIPE | FD_INODE.
Global Instance ftype_eq_dec : EqDecision ftype.
Proof. solve_decision. Defined.

(** [struct file]; [f_pipe] is the page of the pipe, 0 for none. *)
Record file := File {
  f_type : ftype;
  f_ref : Z;
  f_readable : Z;
  f_writable : Z;
  f_pipe : Z;
  f_ip : option nat;
  f_off : Z
}.
Definition zero_file : file := File FD_NONE 0 0 0 0 None 0.
Global Instance file_inhabited : Inhabited file := populate zero_file.

Definition set_fref (r : Z) (f : file) : file :=
  File (f_type f) r (f_readable f) (f_writable f) (f_pipe f) (f_ip f) (f_off f).
Definition set_ftype (t : ftype) (f : file) : file :=
  File t (f_ref f) (f_readable f) (f_writable f) (f_pipe f) (f_ip f) (f_off f).
Definition set_foff (o : Z) (f : file) : file :=
  File (f_type f) (f_ref f) (f_readable f) (f_writable f) (f_pipe f) (f_ip f) o.

(** The state below the process table; [last_failed_fd] is the variable of
    [sysfile.c], [fmsgs] what [cprintf] wrote, the last message first. *)
Record fsys := Fsys {
  fk : kmem;
  ffs : fss;
  ftab : list file;
  fpipes : gmap Z Pipe.pipe;
  last_failed_fd : Z;
  fmsgs : list string
}.

Definition upd_file (i : nat) (g : file → file) (s : fsys) : fsys :=
  Fsys (fk s) (ffs s) (alter g i (ftab s)) (fpipes s) (last_failed_fd s) (fmsgs s).
Definition set_pipes (ps : gmap Z Pipe.pipe) (s : fsys) : fsys :=
  Fsys (fk s) (ffs s) (ftab s) ps (last_failed_fd s) (fmsgs s).
Definition set_last_failed (d : Z) (s : fsys) : fsys :=
  Fsys (fk s) (ffs s) (ftab s) (fpipes s) d (fmsgs s).
Definition cprintf (m : string) : M fsys unit :=
  modify (λ s, Fsys (fk s) (ffs s) (ftab s) (fpipes s) (last_failed_fd s) (m :: fmsgs s)).

(** Calls into the file system and into the page allocator. *)
Definition fs_do {A} (c : M fss A) : M fsys A := λ s,
  match c (ffs s) with
  | Ok (a, x) => Ok (a, Fsys (fk s) x (ftab s) (fpipes s) (last_failed_fd s) (fmsgs s))
  | Panic m => Panic m
  | Blocked => Blocked
  | Undef => Undef
  end.
Definition km_do {A} (c : M kmem A) : M fsys A := λ s,
  match c (fk s) with
  | Ok (a, x) => Ok (a, Fsys x (ffs s) (ftab s) (fpipes s) (last_failed_fd s) (fmsgs s))
  | Panic m => Panic m
  | Blocked => Blocked
  | Undef => Undef
  end.

(** The two channels of a pipe.  A call that would wait for an inode lock or
    for the log is [Blocked], nobody sleeps on those channels. *)
Definition pipe_chan (p : Z) (c : Pipe.pchan) : vptr :=
  match c with
  | Pipe.CNread => ObjPtr (p + 564)
  | Pipe.CNwrite => ObjPtr (p + 568)
  end.

(** [ilock] and [iunlock] of a pointer that may be null. *)
Definition ilock_ptr (ip : option nat) : M fsys unit :=
  match ip with Some i => fs_do (ilock i) | None => panic "ilock" end.
Definition iunlock_ptr (ip : option nat) : M fsys unit :=
  match ip with Some i => fs_do (iunlock i) | None => panic "iunlock" end.

Section file.
Context (end_ : Z) (devs : Z → devsw).

Definition filealloc : M fsys (option nat) := λ s,
  match find_index (λ f, f_ref f =? 0) (ftab s) with
  | Some i => Ok (Some i, upd_file i (set_fref 1) s)
  | None => Ok (None, s)
  end.

Definition filedup (i : nat) : M fsys nat := λ s,
  if f_ref (ftab s !!! i) <? 1 then Panic "filedup"
  else Ok (i, upd_file i (λ f, set_fref (f_ref f + 1) f) s).

(** [pipeclose(p, writable)] with the page it may free. *)
Definition pipeclose_at (p : Z) (writable : bool) : M fsys (list vptr) :=
  ps ← gets fpipes;
  match ps !! p with
  | None => undef
  | Some pi =>
      let '(pi', wk, freed) := Pipe.pipeclose pi writable in
      (if (freed : bool) then modify (set_pipes (delete p ps));; km_do (kfree end_ p)
       else modify (set_pipes (<[p := pi']> ps)));;
      mret (pipe_chan p <$> wk)
  end.

Definition fileclose (i : nat) : M fsys (list vptr) :=
  f ← gets (λ s, ftab s !!! i);
  if f_ref f <? 1 then panic "fileclose"
  else if 0 <? f_ref f - 1 then modify (upd_file i (set_fref (f_ref f - 1)));; mret []
  else
    modify (upd_file i (λ f, set_ftype FD_NONE (set_fref 0 f)));;
    match f_type f with
    | FD_PIPE => pipeclose_at (f_pipe f) (truthy (f_writable f))
    | FD_INODE =>
        match f_ip f with
        | None => undef
        | Some ip =>
            fs_do (fcall begin_op);;
            fs_do (iput ip);;
            fs_do (fcall end_op);;
            mret []
        end
    | FD_NONE => mret []
    end.

(** [filestat]; [None] is the result -1. *)
Definition filestat (i : nat) : M fsys (option stat) :=
  f ← gets (λ s, ftab s !!! i);
  if decide (f_type f = FD_INODE) then
    match f_ip f with
    | None => panic "ilock"
    | Some ip =>
        fs_do (ilock ip);;
        st ← fs_do (stati ip);
        fs_do (iunlock ip);;
        mret (Some st)
    end
  else mret None.

(** How a read or write ended: the result and the bytes read, or asleep. *)
Inductive fret :=
| FRet (r : Z) (bs : list Z)
| FSleep (c : vptr).

(** [piperead] and [pipewrite] from the start, until they return or sleep. *)
Definition piperead_at (p : Z) (killed : bool) (n : Z) : M fsys (fret * list vptr) :=
  ps ← gets fpipes;
  match ps !! p with
  | None => undef
  | Some pi =>
      let '(pi', bs, wk, r) := Pipe.piperead pi killed n in
      modify (set_pipes (<[p := pi']> ps));;
      mret (match r with
            | Pipe.PRet v => FRet v bs
            | Pipe.PSleep c _ => FSleep (pipe_chan p c)
            end, pipe_chan p <$> wk)
  end.
Definition pipewrite_at (p : Z) (killed : bool) (addr : list Z) : M fsys (fret * list vptr) :=
  ps ← gets fpipes;
  match ps !! p with
  | None => undef
  | Some pi =>
      let '(pi', wk, r) := Pipe.pipewrite pi killed addr in
      modify (set_pipes (<[p := pi']> ps));;
      mret (match r with
            | Pipe.PRet v => FRet v []
            | Pipe.PSleep c _ => FSleep (pipe_chan p c)
            end, pipe_chan p <$> wk)
  end.

Definition fileread (i : nat) (killed : bool) (n : Z) : M fsys (fret * list vptr) :=
  f ← gets (λ s, ftab s !!! i);
  if f_readable f =? 0 then mret (FRet (-1) [], []) else
  match f_type f with
  | FD_PIPE => piperead_at (f_pipe f) killed n
  | FD_INODE =>
      match f_ip f with
      | None => panic "ilock"
      | Some ip =>
          fs_do (ilock ip);;
          r ← fs_do (readi devs ip (f_off f) (u32 n));
          (if 0 <? r.1 then modify (upd_file i (set_foff (u32 (f_off f + r.1)))) else mret tt);;
          fs_do (iunlock ip);;
          mret (FRet r.1 r.2, [])
      end
  | FD_NONE => panic "fileread"
  end.

(** The largest piece [filewrite] writes in one transaction. *)
Definition write_max : Z := (MAXOPBLOCKS - 1 - 1 - 2) / 2 * 512.

(** The loop of [filewrite] from byte [done] of [n]; returns the last [i]. *)
Fixpoint filewrite_loop (fuel : nat) (i ip : nat) (src : list Z) (n done : Z) : M fsys Z :=
  if n <=? done then mret done else
  match fuel with
  | O => undef
  | S fuel' =>
      let n1 := if write_max <? n - done then write_max else n - done in
      fs_do (fcall begin_op);;
      fs_do (ilock ip);;
      off ← gets (λ s, f_off (ftab s !!! i));
      r ← fs_do (writei devs ip src off (u32 n1));
      (if 0 <? r then modify (upd_file i (set_foff (u32 (off + r)))) else mret tt);;
      fs_do (iunlock ip);;
      fs_do (fcall end_op);;
      if r <? 0 then mret done
      else if negb (r =? n1) then panic "short filewrite"
      else filewrite_loop fuel' i ip (drop (Z.to_nat r) src) n (done + r)
  end.
Definition filewrite (i : nat) (killed : bool) (src : list Z) (n : Z) : M fsys (fret * list vptr) :=
  f ← gets (λ s, ftab s !!! i);
  if f_writable f =? 0 then mret (FRet (-1) [], []) else
  match f_type f with
  | FD_PIPE => pipewrite_at (f_pipe f) killed (take (Z.to_nat n) src)
  | FD_INODE =>
      match f_ip f with
      | None => panic "ilock"
      | Some ip =>
          d ← filewrite_loop (Z.to_nat n) i ip src n 0;
          mret (FRet (if d =? n then n else -1) [], [])
      end
  | FD_NONE => panic "filewrite"
  end.

(** [pipealloc]: the read end and the write end, or [None]. *)
Definition pipealloc : M fsys (option (nat * nat)) :=
  f0 ← filealloc;
  match f0 with
  | None => mret None
  | Some i0 =>
      f1 ← filealloc;
      match f1 with
      | None => fileclose i0;; mret None
      | Some i1 =>
          p ← km_do kalloc;
          if p =? 0 then fileclose i0;; fileclose i1;; mret None
          else
            junk ← gets (λ s, bytes (km (fk s)) (p + 52) 512);
            modify (λ s, set_pipes (<[p := Pipe.pipe_init junk]> (fpipes s)) s);;
            modify (upd_file i0 (λ f, File FD_PIPE (f_ref f) 1 0 p (f_ip f) (f_off f)));;
            modify (upd_file i1 (λ f, File FD_PIPE (f_ref f) 0 1 p (f_ip f) (f_off f)));;
            mret (Some (i0, i1))
      end
  end.

End file.
