(* ===== verification/Sysfile.v ===== *)
(** * File system calls

    Models [sysfile.c]: argument checking and the calls into [File.v] and
    [Fs.v].  A handler returns [Some r] with the result of the call, or
    [None] when the process went to sleep before returning.  The work a call
    does on the file system between [begin_op] and [end_op] is a definition
    on the file system state alone. *)

From S2P Require Import Prelude CString Layout Kalloc Proc Syscall Block Log Fs Vm File.
From S2P Require Pipe.

Definition O_RDONLY : Z := 0.
Definition O_WRONLY : Z := 1.
Definition O_RDWR : Z := 2.
Definition O_CREATE : Z := 512.

Definition set_nlink (n : Z) (p : inode) : inode :=
  Inode (i_dev p) (i_inum p) (i_ref p) (i_lock p) (i_valid p) (i_type p) (i_major p) (i_minor p) n
    (i_size p) (i_addrs p) (i_mode p).
Definition set_mode (m : Z) (p : inode) : inode :=
  Inode (i_dev p) (i_inum p) (i_ref p) (i_lock p) (i_valid p) (i_type p) (i_major p) (i_minor p) (i_nlink p)
    (i_size p) (i_addrs p) m.
Definition set_new (major minor : Z) (p : inode) : inode :=
  Inode (i_dev p) (i_inum p) (i_ref p) (i_lock p) (i_valid p) (i_type p) major minor 1
    (i_size p) (i_addrs p) 7.
(** [ip->nlink++] and [ip->nlink--] *)
Definition add_nlink (d : Z) (p : inode) : inode := set_nlink (s16 (i_nlink p + d)) p.

(** The names [.] and [..]. *)
Definition str_dot : list Z := [46; 0].
Definition str_dotdot : list Z := [46; 46; 0].

Section ops.
Context (devs : Z → devsw).
(** Contents of the array [name] before [nameiparent] writes it. *)
Context (name0 : list Z).

(** From [namei(old)] to before [end_op]. *)
Definition link_bad (ip : nat) : M fss Z :=
  ilock ip;; modify (upd_ino ip (add_nlink (-1)));; iupdate ip;; iunlockput ip;; mret (-1).
Definition link_op (cwd : nat) (old new : list Z) : M fss Z :=
  o ← namei devs cwd old;
  match o with
  | None => mret (-1)
  | Some ip =>
      ilock ip;;
      type ← gets (λ s, i_type (ino s ip));
      if type =? T_DIR then iunlockput ip;; mret (-1) else
      modify (upd_ino ip (add_nlink 1));;
      iupdate ip;;
      iunlock ip;;
      r ← nameiparent devs cwd new name0;
      match r with
      | (None, _) => link_bad ip
      | (Some dp, name) =>
          ilock dp;;
          ddev ← gets (λ s, i_dev (ino s dp));
          idev ← gets (λ s, i_dev (ino s ip));
          inum ← gets (λ s, i_inum (ino s ip));
          l ← (if negb (ddev =? idev) then mret (-1) else dirlink devs dp name inum);
          iunlockput dp;;
          if l <? 0 then link_bad ip else iput ip;; mret 0
      end
  end.

(** The loop of [isdirempty] from [off]. *)
Fixpoint isdirempty_loop (fuel : nat) (dp : nat) (off : Z) : M fss bool :=
  size ← gets (λ s, i_size (ino s dp));
  if size <=? off then mret true else
  match fuel with
  | O => undef
  | S fuel' =>
      r ← readi devs dp off 16;
      if negb (r.1 =? 16) then panic "isdirempty: readi" else
      if negb (de_inum r.2 =? 0) then mret false else isdirempty_loop fuel' dp (off + 16)
  end.
Definition isdirempty (dp : nat) : M fss bool :=
  size ← gets (λ s, i_size (ino s dp));
  isdirempty_loop (dir_fuel size) dp 32.

(** From [nameiparent] to before [end_op]. *)
Definition unlink_op (cwd : nat) (path : list Z) : M fss Z :=
  r ← nameiparent devs cwd path name0;
  match r with
  | (None, _) => mret (-1)
  | (Some dp, name) =>
      ilock dp;;
      if (namecmp name str_dot =? 0) || (namecmp name str_dotdot =? 0) then iunlockput dp;; mret (-1) else
      e ← dirlookup devs dp name;
      match e with
      | None => iunlockput dp;; mret (-1)
      | Some (ip, off) =>
          ilock ip;;
          p ← gets (λ s, ino s ip);
          if i_nlink p <? 1 then panic "unlink: nlink < 1" else
          empty ← (if i_type p =? T_DIR then isdirempty ip else mret true);
          if negb empty then iunlockput ip;; iunlockput dp;; mret (-1) else
          w ← writei devs dp (replicate 16 0) off 16;
          if negb (w =? 16) then panic "unlink: writei" else
          (if i_type p =? T_DIR then modify (upd_ino dp (add_nlink (-1)));; iupdate dp else mret tt);;
          iunlockput dp;;
          modify (upd_ino ip (add_nlink (-1)));;
          iupdate ip;;
          iunlockput ip;;
          mret 0
      end
  end.

(** [create]; the inode it returns is locked. *)
Definition create_dots (ip dp : nat) : M fss unit :=
  modify (upd_ino dp (add_nlink 1));;
  iupdate dp;;
  inum ← gets (λ s, i_inum (ino s ip));
  r ← dirlink devs ip str_dot inum;
  if r <? 0 then panic "create dots" else
  dinum ← gets (λ s, i_inum (ino s dp));
  r ← dirlink devs ip str_dotdot dinum;
  if r <? 0 then panic "create dots" else mret tt.
Definition create (cwd : nat) (path : list Z) (type major minor : Z) : M fss (option nat) :=
  r ← nameiparent devs cwd path name0;
  match r with
  | (None, _) => mret None
  | (Some dp, name) =>
      ilock dp;;
      e ← dirlookup devs dp name;
      match e with
      | Some (ip, _) =>
          iunlockput dp;;
          ilock ip;;
          t ← gets (λ s, i_type (ino s ip));
          if (type =? T_FILE) && (t =? T_FILE) then mret (Some ip)
          else iunlockput ip;; mret None
      | None =>
          dev ← gets (λ s, i_dev (ino s dp));
          ip ← ialloc dev type;
          ilock ip;;
          modify (upd_ino ip (set_new (s16 major) (s16 minor)));;
          iupdate ip;;
          (if type =? T_DIR then create_dots ip dp else mret tt);;
          inum ← gets (λ s, i_inum (ino s ip));
          l ← dirlink devs dp name inum;
          if l <? 0 then panic "create: dirlink" else
          iunlockput dp;;
          mret (Some ip)
      end
  end.

(** The first half of [sys_open]: the inode to open, locked, or whether the
    permission message is printed. *)
Definition open_inode (cwd : nat) (path : list Z) (omode : Z) : M fss (nat + bool) :=
  if truthy (Z.land omode O_CREATE) then
    o ← create cwd path T_FILE 0 0;
    mret (match o with Some ip => inl ip | None => inr false end)
  else
    o ← namei devs cwd path;
    match o with
    | None => mret (inr false)
    | Some ip =>
        ilock ip;;
        p ← gets (λ s, ino s ip);
        if truthy (Z.land omode O_RDONLY) && negb (truthy (Z.land (i_mode p) 4)) then
          iunlockput ip;; mret (inr true)
        else if truthy (Z.land omode O_WRONLY) && negb (truthy (Z.land (i_mode p) 2)) then
          iunlockput ip;; mret (inr true)
        else if (i_type p =? T_DIR) && negb (omode =? O_RDONLY) then
          iunlockput ip;; mret (inr false)
        else mret (inl ip)
    end.

(** [chmod_op]: [namei] runs before [begin_op]. *)
Definition chmod_op (cwd : nat) (path : list Z) (mode : Z) : M fss Z :=
  o ← namei devs cwd path;
  match o with
  | None => mret (-1)
  | Some ip =>
      fcall begin_op;;
      ilock ip;;
      modify (upd_ino ip (set_mode mode));;
      iupdate ip;;
      iunlock ip;;
      fcall end_op;;
      mret 0
  end.

(** The lookup of [sys_chdir]. *)
Definition chdir_op (cwd : nat) (path : list Z) : M fss (option nat) :=
  o ← namei devs cwd path;
  match o with
  | None => mret None
  | Some ip =>
      ilock ip;;
      type ← gets (λ s, i_type (ino s ip));
      if negb (type =? T_DIR) then iunlockput ip;; mret None
      else iunlock ip;; iput cwd;; mret (Some ip)
  end.

(** The permission check of [sys_exec]: whether it passed, [None] when the
    file does not exist. *)
Definition exec_check (cwd : nat) (path : list Z) : M fss (option bool) :=
  o ← namei devs cwd path;
  match o with
  | None => mret None
  | Some ip =>
      ilock ip;;
      mode ← gets (λ s, i_mode (ino s ip));
      if negb (truthy (Z.land mode 1)) then iunlockput ip;; mret (Some false)
      else iunlock ip;; mret (Some true)
  end.

End ops.

(** ** The handlers *)

Section handlers.
Context (end_ : Z) (devs : Z → devsw) (name0 : list Z).
Abbreviation KS := (ksys fsys).

(** Calls into [file.c] and into the file system. *)
Definition fcalls {A} (c : M fsys A) : M KS A := pcall (kcall c).
Definition fsk {A} (c : M fss A) : M KS A := fcalls (fs_do c).
Definition wake (cs : list vptr) : M KS unit := pcall (wakeups cs).
(** [begin_op(); c; end_op()] *)
Definition in_op {A} (c : M fss A) : M KS A :=
  fsk (fcall begin_op);; a ← fsk c; fsk (fcall end_op);; mret a.

Definition with_ptr (cur : nat) (n size : Z) (k : Z → M KS (option Z)) : M KS (option Z) :=
  o ← argptr cur n size;
  match o with None => mret (Some (-1)) | Some v => k v end.
(** The string argument, without its final 0. *)
Definition arg_path (cur : nat) (n : Z) : M KS (option (list Z)) :=
  o ← argstr cur n;
  um ← curmem cur;
  mret ((λ al : Z * Z, bytes um al.1 (Z.to_nat al.2)) <$> o).
Definition with_path (cur : nat) (n : Z) (k : list Z → M KS (option Z)) : M KS (option Z) :=
  o ← arg_path cur n;
  match o with None => mret (Some (-1)) | Some v => k v end.
(** [curproc->cwd] *)
Definition cwd_of (cur : nat) : M KS nat :=
  p ← curproc cur;
  match p_cwd p with Some d => mret d | None => undef end.
Definition set_fd (cur fd : nat) (o : option nat) : M KS unit :=
  pcall (modify (upd cur (λ p, set_ofile (<[fd := o]> (p_ofile p)) p))).

(** [argfd]: the descriptor and the file. *)
Definition argfd (cur : nat) (n : Z) : M KS (option (nat * nat)) :=
  o ← argint cur n;
  p ← curproc cur;
  match o with
  | None => mret None
  | Some fd =>
      if (fd <? 0) || (Z.of_nat NOFILE <=? fd) then mret None else
      match p_ofile p !! Z.to_nat fd with
      | Some (Some f) => mret (Some (Z.to_nat fd, f))
      | _ => mret None
      end
  end.
Definition with_fd (cur : nat) (n : Z) (k : nat → nat → M KS (option Z)) : M KS (option Z) :=
  o ← argfd cur n;
  match o with None => mret (Some (-1)) | Some (fd, f) => k fd f end.

Definition fdalloc (cur f : nat) : M KS (option nat) :=
  p ← curproc cur;
  match find_index (λ o, bool_decide (o = None)) (p_ofile p) with
  | None => mret None
  | Some fd => set_fd cur fd (Some f);; mret (Some fd)
  end.

Definition sys_dup (cur : nat) : M KS (option Z) :=
  with_fd cur 0 (λ _ f,
    o ← fdalloc cur f;
    match o with
    | None => mret (Some (-1))
    | Some fd => fcalls (filedup f);; mret (Some (Z.of_nat fd))
    end).

(** The end of a read or write: wake the others, then return or sleep. *)
Definition finish (cur : nat) (r : fret * list vptr) (k : Z → list Z → M KS (option Z)) : M KS (option Z) :=
  wake r.2;;
  match r.1 with
  | FRet v bs => k v bs
  | FSleep c => pcall (sleep_enter cur c);; mret None
  end.

(** The mode of the file, read under its lock. *)
Definition file_mode (f : nat) : M KS Z :=
  ip ← fcalls (gets (λ s, f_ip (ftab s !!! f)));
  fcalls (ilock_ptr ip);;
  m ← fcalls (gets (λ s, match ip with Some i => i_mode (ino (ffs s) i) | None => 0 end));
  fcalls (iunlock_ptr ip);;
  mret m.
Definition file_inum (f : nat) : M KS Z :=
  fcalls (gets (λ s, match f_ip (ftab s !!! f) with Some i => i_inum (ino (ffs s) i) | None => 0 end)).

Definition sys_read (cur : nat) : M KS (option Z) :=
  with_fd cur 0 (λ _ f, with_int cur 2 (λ n, with_ptr cur 1 n (λ p,
    m ← file_mode f;
    if negb (truthy (Z.land m 4)) then
      fcalls (cprintf "Operation read failed");; mret (Some (-1))
    else
      pr ← curproc cur;
      r ← fcalls (fileread devs f (truthy (p_killed pr)) n);
      finish cur r (λ v bs,
        modify (λ s, set_umem cur (storebytes (umem s cur) p bs) s);;
        mret (Some v))))).

Definition sys_write (cur : nat) : M KS (option Z) :=
  with_fd cur 0 (λ _ f, with_int cur 2 (λ n, with_ptr cur 1 n (λ p,
    m ← file_mode f;
    if negb (truthy (Z.land m 2)) then
      inum ← file_inum f;
      last ← fcalls (gets last_failed_fd);
      (if negb (u32 last =? inum) then
         fcalls (cprintf "Operation write failed");;
         fcalls (modify (set_last_failed (s32 inum)))
       else mret tt);;
      mret (Some (-1))
    else
      fcalls (modify (set_last_failed (-1)));;
      pr ← curproc cur;
      um ← curmem cur;
      r ← fcalls (filewrite devs f (truthy (p_killed pr)) (bytes um p (Z.to_nat n)) n);
      finish cur r (λ v _, mret (Some v))))).

Definition sys_close (cur : nat) : M KS (option Z) :=
  with_fd cur 0 (λ fd f,
    set_fd cur fd None;;
    wk ← fcalls (fileclose end_ f);
    wake wk;;
    mret (Some 0)).

(** [struct stat] at [a]; its padding is left alone. *)
Definition store16 (m : mem) (a v : Z) : mem := store (store m a (u8 v)) (a + 1) (u8 (v / 2 ^ 8)).
Definition put_stat (m : mem) (a : Z) (st : stat) : mem :=
  let m := store16 m a (st_type st) in
  let m := store32 m (a + 4) (st_dev st) in
  let m := store32 m (a + 8) (st_ino st) in
  let m := store16 m (a + 12) (st_nlink st) in
  store32 m (a + 16) (st_size st).
Definition sizeof_stat : Z := 20.
Definition sys_fstat (cur : nat) : M KS (option Z) :=
  with_fd cur 0 (λ _ f, with_ptr cur 1 sizeof_stat (λ a,
    o ← fcalls (filestat f);
    match o with
    | None => mret (Some (-1))
    | Some st => modify (λ s, set_umem cur (put_stat (umem s cur) a st) s);; mret (Some 0)
    end)).

Definition sys_link (cur : nat) : M KS (option Z) :=
  with_path cur 0 (λ old, with_path cur 1 (λ new,
    cwd ← cwd_of cur;
    r ← in_op (link_op devs name0 cwd old new);
    mret (Some r))).

Definition sys_unlink (cur : nat) : M KS (option Z) :=
  with_path cur 0 (λ path,
    cwd ← cwd_of cur;
    r ← in_op (unlink_op devs name0 cwd path);
    mret (Some r)).

(** [filealloc] and [fdalloc] of [sys_open]. *)
Definition open_fd (cur : nat) : M KS (option (nat * nat)) :=
  o ← fcalls filealloc;
  match o with
  | None => mret None
  | Some f =>
      d ← fdalloc cur f;
      match d with
      | None => wk ← fcalls (fileclose end_ f); wake wk;; mret None
      | Some fd => mret (Some (f, fd))
      end
  end.
Definition sys_open (cur : nat) : M KS (option Z) :=
  with_path cur 0 (λ path, with_int cur 1 (λ omode,
    cwd ← cwd_of cur;
    fsk (fcall begin_op);;
    r ← fsk (open_inode devs name0 cwd path omode);
    match r with
    | inr say =>
        fsk (fcall end_op);;
        (if (say : bool) then fcalls (cprintf "Operation open failed") else mret tt);;
        mret (Some (-1))
    | inl ip =>
        o ← open_fd cur;
        match o with
        | None => fsk (iunlockput ip);; fsk (fcall end_op);; mret (Some (-1))
        | Some (f, fd) =>
            fsk (iunlock ip);;
            fsk (fcall end_op);;
            fcalls (modify (upd_file f (λ x,
              File FD_INODE (f_ref x) (Z.b2z (negb (truthy (Z.land omode O_WRONLY))))
                (Z.b2z (truthy (Z.land omode O_WRONLY) || truthy (Z.land omode O_RDWR)))
                (f_pipe x) (Some ip) 0)));;
            mret (Some (Z.of_nat fd))
        end
    end)).

(** [create] and the unlock of the new inode, in [sys_mkdir] and [sys_mknod]. *)
Definition make_op (cwd : nat) (path : list Z) (type major minor : Z) : M fss Z :=
  o ← create devs name0 cwd path type major minor;
  match o with
  | None => mret (-1)
  | Some ip => iunlockput ip;; mret 0
  end.
Definition sys_mkdir (cur : nat) : M KS (option Z) :=
  fsk (fcall begin_op);;
  o ← arg_path cur 0;
  r ← match o with
      | None => mret (-1)
      | Some path => cwd ← cwd_of cur; fsk (make_op cwd path T_DIR 0 0)
      end;
  fsk (fcall end_op);;
  mret (Some r).
Definition sys_mknod (cur : nat) : M KS (option Z) :=
  fsk (fcall begin_op);;
  o ← arg_path cur 0;
  a ← argint cur 1;
  b ← argint cur 2;
  r ← match o, a, b with
      | Some path, Some major, Some minor => cwd ← cwd_of cur; fsk (make_op cwd path T_DEV major minor)
      | _, _, _ => mret (-1)
      end;
  fsk (fcall end_op);;
  mret (Some r).

Definition sys_chdir (cur : nat) : M KS (option Z) :=
  fsk (fcall begin_op);;
  o ← arg_path cur 0;
  match o with
  | None => fsk (fcall end_op);; mret (Some (-1))
  | Some path =>
      cwd ← cwd_of cur;
      r ← fsk (chdir_op devs cwd path);
      fsk (fcall end_op);;
      match r with
      | None => mret (Some (-1))
      | Some ip => pcall (modify (upd cur (set_cwd (Some ip))));; mret (Some 0)
      end
  end.

Definition sys_pipe (cur : nat) : M KS (option Z) :=
  with_ptr cur 0 8 (λ fd,
    o ← fcalls (pipealloc end_);
    match o with
    | None => mret (Some (-1))
    | Some (rf, wf) =>
        let bad := wk ← fcalls (fileclose end_ rf); wake wk;;
                   wk ← fcalls (fileclose end_ wf); wake wk;;
                   mret (Some (-1)) in
        o ← fdalloc cur rf;
        match o with
        | None => bad
        | Some fd0 =>
            o ← fdalloc cur wf;
            match o with
            | None => set_fd cur fd0 None;; bad
            | Some fd1 =>
                modify (λ s, set_umem cur (store32 (store32 (umem s cur) fd (Z.of_nat fd0)) (fd + 4) (Z.of_nat fd1)) s);;
                mret (Some 0)
            end
        end
    end).

Definition sys_chmod (cur : nat) : M KS (option Z) :=
  with_path cur 0 (λ path, with_int cur 1 (λ mode,
    cwd ← cwd_of cur;
    r ← fsk (chmod_op devs cwd path mode);
    mret (Some r))).

End handlers.
