(* ===== verification/Exec.v ===== *)
(** * Loading programs, and the whole kernel

    Models [exec.c], [loaduvm] and [sys_exec], and puts the components
    together: the operations [proc.c] calls as an instance of [Kernel], and
    the table of system calls with the handlers of [Sysfile.v] in it. *)

From S2P Require Import Prelude CString Layout Kalloc Proc Syscall Block Log Fs Vm File Sysfile.
From S2P Require Pipe.

Definition MAXARG : nat := 32.
Definition ELF_PROG_LOAD : Z := 1.

(** The fields of [struct elfhdr] and [struct proghdr] that are used. *)
Record elfhdr := Elf { elf_magic : Z; elf_entry : Z; elf_phoff : Z; elf_phnum : Z }.
Record proghdr := Ph { ph_type : Z; ph_off : Z; ph_vaddr : Z; ph_filesz : Z; ph_memsz : Z }.
Definition sizeof_elfhdr : Z := 52.
Definition elf_of (b : list Z) : elfhdr := Elf (get32 b 0) (get32 b 24) (get32 b 28) (get16 b 44).
Definition ph_of (b : list Z) : proghdr := Ph (get32 b 0) (get32 b 4) (get32 b 8) (get32 b 16) (get32 b 20).

Section exec.
Context (end_ data : Z) (devs : Z → devsw).

Fixpoint loaduvm_loop (fuel : nat) (pgdir addr : Z) (ip : nat) (offset sz i : Z) : M fsys Z :=
  if sz <=? i then mret 0 else
  match fuel with
  | O => undef
  | S fuel' =>
      pte ← km_do (walkpgdir pgdir (u32 (addr + i)) false);
      if pte =? 0 then panic "loaduvm: address should exist" else
      e ← km_do (read32 pte);
      let pa := PTE_ADDR e in
      let n := if sz - i <? PGSIZE then sz - i else PGSIZE in
      r ← fs_do (readi devs ip (u32 (offset + i)) n);
      km_do (kwrite (P2V pa) r.2);;
      if negb (r.1 =? n) then mret (-1)
      else loaduvm_loop fuel' pgdir addr ip offset sz (u32 (i + PGSIZE))
  end.
Definition loaduvm (pgdir addr : Z) (ip : nat) (offset sz : Z) : M fsys Z :=
  if negb (addr mod PGSIZE =? 0) then panic "loaduvm: addr must be page aligned"
  else loaduvm_loop (Z.to_nat (sz / PGSIZE + 1)) pgdir addr ip offset sz 0.

(** The loop over the program headers; the size, or [None] for [goto bad]. *)
Fixpoint load_segments (n : nat) (pgdir : Z) (ip : nat) (off sz : Z) : M fsys (option Z) :=
  match n with
  | O => mret (Some sz)
  | S n' =>
      r ← fs_do (readi devs ip (u32 off) sizeof_proghdr);
      if negb (r.1 =? sizeof_proghdr) then mret None else
      let ph := ph_of r.2 in
      if negb (ph_type ph =? ELF_PROG_LOAD) then load_segments n' pgdir ip (off + sizeof_proghdr) sz else
      if ph_memsz ph <? ph_filesz ph then mret None else
      if u32 (ph_vaddr ph + ph_memsz ph) <? ph_vaddr ph then mret None else
      sz' ← km_do (allocuvm end_ pgdir sz (u32 (ph_vaddr ph + ph_memsz ph)));
      if sz' =? 0 then mret None else
      if negb (ph_vaddr ph mod PGSIZE =? 0) then mret None else
      l ← loaduvm pgdir (ph_vaddr ph) ip (ph_off ph) (ph_filesz ph);
      if l <? 0 then mret None else load_segments n' pgdir ip (off + sizeof_proghdr) sz'
  end.

(** From the ELF header to [end_op]: the page directory, the size and the
    entry point.  [ip] is locked at the start and put at the end. *)
Definition exec_bad (pgdir : Z) : M fsys unit := if pgdir =? 0 then mret tt else km_do (freevm end_ pgdir).
Definition put_op (ip : nat) : M fsys unit := fs_do (iunlockput ip);; fs_do (fcall end_op).
Definition exec_load (ip : nat) : M fsys (option (Z * Z * Z)) :=
  r ← fs_do (readi devs ip 0 sizeof_elfhdr);
  let elf := elf_of r.2 in
  if negb (r.1 =? sizeof_elfhdr) || negb (elf_magic elf =? ELF_MAGIC) then put_op ip;; mret None else
  pgdir ← km_do (setupkvm end_ data);
  if pgdir =? 0 then put_op ip;; mret None else
  o ← load_segments (Z.to_nat (elf_phnum elf)) pgdir ip (s32 (elf_phoff elf)) 0;
  match o with
  | None => exec_bad pgdir;; put_op ip;; mret None
  | Some sz => put_op ip;; mret (Some (pgdir, sz, elf_entry elf))
  end.

(** Push the argument strings: the stack pointer and the pointers. *)
Fixpoint push_args (pgdir sp : Z) (argc : nat) (argv : list (list Z)) : M kmem (option (Z * list Z)) :=
  match argv with
  | [] => mret (Some (sp, []))
  | a :: argv' =>
      if (MAXARG <=? argc)%nat then mret None else
      let sp := Z.land (u32 (sp - (Z.of_nat (length a) + 1))) (u32 (Z.lnot 3)) in
      r ← copyout pgdir sp (a ++ [0]);
      if r <? 0 then mret None else
      o ← push_args pgdir sp (S argc) argv';
      mret (match o with Some (sp', us) => Some (sp', sp :: us) | None => None end)
  end.

(** A word as bytes. *)
Definition le32 (v : Z) : list Z := [u8 v; u8 (v / 2 ^ 8); u8 (v / 2 ^ 16); u8 (v / 2 ^ 24)].

(** The user stack: two pages and [ustack]; the size and stack pointer. *)
Definition exec_stack (pgdir sz : Z) (argv : list (list Z)) : M kmem (option (Z * Z)) :=
  let sz := PGROUNDUP sz in
  sz ← allocuvm end_ pgdir sz (u32 (sz + 2 * PGSIZE));
  if sz =? 0 then mret None else
  clearpteu pgdir (u32 (sz - 2 * PGSIZE));;
  o ← push_args pgdir sz 0 argv;
  match o with
  | None => mret None
  | Some (sp, us) =>
      let argc := Z.of_nat (length us) in
      let ustack := [2 ^ 32 - 1; argc; u32 (sp - (argc + 1) * 4)] ++ us ++ [0] in
      let sp := u32 (sp - (3 + argc + 1) * 4) in
      r ← copyout pgdir sp (concat (le32 <$> ustack));
      if r <? 0 then mret None else mret (Some (sz, sp))
  end.

(** The part of [path] after the last slash. *)
Fixpoint last_elem (last s : list Z) : list Z :=
  match s with
  | [] => last
  | c :: s' => last_elem (if c =? slash then s' else last) s'
  end.

Definition set_entry (eip esp : Z) (t : trapframe) : trapframe :=
  TF (tf_edi t) (tf_esi t) (tf_ebp t) (tf_oesp t) (tf_ebx t) (tf_edx t) (tf_ecx t) (tf_eax t)
    (tf_gs t) (tf_fs t) (tf_es t) (tf_ds t) (tf_trapno t) (tf_err t) eip (tf_cs t) (tf_eflags t) esp (tf_ss t).

(** [switchuvm] is its checks and the load of the page directory. *)
Definition switchuvm (kstack pgdir : Z) : M fsys unit :=
  if kstack =? 0 then panic "switchuvm: no kstack"
  else if pgdir =? 0 then panic "switchuvm: no pgdir" else mret tt.

Definition exec (cur : nat) (path : list Z) (argv : list (list Z)) : M (ksys fsys) Z :=
  fsk (fcall begin_op);;
  cwd ← cwd_of cur;
  o ← fsk (namei devs cwd path);
  match o with
  | None => fsk (fcall end_op);; fcalls (cprintf "exec: fail");; mret (-1)
  | Some ip =>
      fsk (ilock ip);;
      o ← fcalls (exec_load ip);
      match o with
      | None => mret (-1)
      | Some (pgdir, sz, entry) =>
          o ← fcalls (km_do (exec_stack pgdir sz argv));
          match o with
          | None => fcalls (exec_bad pgdir);; mret (-1)
          | Some (sz, sp) =>
              p ← curproc cur;
              pcall (modify (upd cur (λ q,
                set_tfv (set_entry entry sp (p_tfv q)) (set_sz sz (set_pgdir pgdir
                  (set_name (arr_safestrcpy (p_name q) (last_elem path path ++ [0]) 16) q))))));;
              fcalls (switchuvm (p_kstack p) pgdir);;
              fcalls (km_do (freevm end_ (p_pgdir p)));;
              modify (λ s, set_umem cur (uview (km (fk (krest (kps s)))) pgdir) s);;
              mret 0
          end
      end
  end.

(** The loop of [sys_exec] that fetches [argv]; [None] is the result -1. *)
Fixpoint fetch_argv (sz : Z) (um : mem) (uargv : Z) (i : Z) (n : nat) : option (list (list Z)) :=
  match n with
  | O => None
  | S n' =>
      match fetchint sz um (u32 (uargv + 4 * i)) with
      | None => None
      | Some uarg =>
          if uarg =? 0 then Some [] else
          match fetchstr sz um (u32 uarg) with
          | None => None
          | Some (a, l) => (bytes um a (Z.to_nat l) ::.) <$> fetch_argv sz um uargv (i + 1) n'
          end
      end
  end.
Definition sys_exec (cur : nat) : M (ksys fsys) (option Z) :=
  with_path cur 0 (λ path, with_int cur 1 (λ uargv,
    p ← curproc cur;
    um ← curmem cur;
    match fetch_argv (p_sz p) um (u32 uargv) 0 MAXARG with
    | None => mret (Some (-1))
    | Some argv =>
        cwd ← cwd_of cur;
        o ← in_op (exec_check devs cwd path);
        match o with
        | None => mret (Some (-1))
        | Some false => fcalls (cprintf "Operation execute failed");; mret (Some (-1))
        | Some true => r ← exec cur path argv; mret (Some r)
        end
    end)).

End exec.

(** ** The kernel put together *)

Section system.
(** Link addresses: [end], [data], the first program and its size, [forkret]
    and [trapret]; the device table; the uninitialised [name]. *)
Context (end_ data initcode initsz forkret trapret : Z) (devs : Z → devsw) (name0 : list Z).

#[local] Instance xv6_kernel : Kernel fsys := {
  k_kalloc := km_do kalloc;
  k_kfree p := km_do (kfree end_ p);
  k_setupkvm := km_do (setupkvm end_ data);
  k_inituvm d := km_do (inituvm d initcode initsz);
  k_copyuvm d sz := km_do (copyuvm end_ data d sz);
  k_freevm d := km_do (freevm end_ d);
  k_allocuvm d old new := km_do (allocuvm end_ d old new);
  k_deallocuvm d old new := km_do (deallocuvm end_ d old new);
  k_switchuvm := switchuvm;
  k_filedup f := filedup f;; mret tt;
  k_fileclose := fileclose end_;
  k_idup i := fs_do (idup i);; mret tt;
  k_iput i := fs_do (iput i);; mret [];
  k_begin_op := fs_do (fcall begin_op);
  k_end_op := fs_do (fcall end_op);; mret [];
  k_namei_root := fs_do (namei devs 0 [slash]);
  k_forkret := forkret;
  k_trapret := trapret
}.

(** The entries of [syscalls[]] that are in [sysfile.c]. *)
Definition file_call (num : Z) : nat → M (ksys fsys) (option Z) :=
  match num with
  | 4 => sys_pipe end_
  | 5 => sys_read devs
  | 7 => sys_exec end_ data devs
  | 8 => sys_fstat
  | 9 => sys_chdir devs
  | 10 => sys_dup
  | 15 => sys_open end_ devs name0
  | 16 => sys_write devs
  | 17 => sys_mknod devs name0
  | 18 => sys_unlink devs name0
  | 19 => sys_link devs name0
  | 20 => sys_mkdir devs name0
  | 21 => sys_close end_
  | 25 => sys_chmod devs
  | _ => λ _, undef
  end.

(** [syscall()] of the whole kernel. *)
Definition xv6_syscall : nat → M (ksys fsys) unit := syscall file_call.

End system.
