(* ===== verification/FileInv.v ===== *)
(** * Counting references to open files

    The reference count of every entry of the file table is the number of
    descriptors, of all processes, that name the entry.  Proved of every
    system call of the whole kernel ([Exec.v]), so that [filedup] and
    [fileclose] never find an entry that is not in use.

    Code that holds a reference in a local variable, or has given one away
    before counting it, is covered by a balance [d]: entry [f] counts [d f]
    more than its descriptors. *)

From S2P Require Import Prelude CString Layout Kalloc Proc ProcInv Syscall Block Log Fs FsDir Vm File Sysfile Exec.
From S2P Require Pipe.

(** Occurrences of [f] in a table of descriptors, and in all of them. *)
Definition cnt (f : nat) (l : list (option nat)) : nat := length (filter (λ o, o = Some f) l).
Definition fds (ps : list proc) (f : nat) : nat := sum_list ((λ p, cnt f (p_ofile p)) <$> ps).

(** A slot that no process uses any more. *)
Definition dead (p : proc) : Prop := p_state p = UNUSED ∨ p_state p = ZOMBIE.
Definition nofd (p : proc) : Prop := ∀ f, Some f ∉ p_ofile p.

Definition one (f g : nat) : Z := if decide (g = f) then 1 else 0.

Record files_inv (d : nat → Z) (s : pst fsys) : Prop := {
  fi_len : length (ftab (krest s)) = NFILE;
  fi_ofile i p : procs s !! i = Some p → length (p_ofile p) = NOFILE;
  fi_range i p f : procs s !! i = Some p → Some f ∈ p_ofile p → (f < NFILE)%nat;
  fi_ref f : (f < NFILE)%nat → f_ref (ftab (krest s) !!! f) = Z.of_nat (fds (procs s) f) + d f;
  fi_dead i p : procs s !! i = Some p → dead p → nofd p
}.
Abbreviation files_ok := (files_inv (λ _, 0)).

Lemma files_inv_ext d d' s : (∀ f, d f = d' f) → files_inv d s → files_inv d' s.
Proof. intros E []. split; eauto. intros f Hf. rewrite <- E. auto. Qed.

(** ** Counting *)

Lemma cnt_cons f o l : cnt f (o :: l) = ((if decide (o = Some f) then 1 else 0) + cnt f l)%nat.
Proof. unfold cnt. rewrite filter_cons. by destruct (decide (o = Some f)). Qed.
Lemma cnt_pos f l : Some f ∈ l → (0 < cnt f l)%nat.
Proof.
  induction l as [|o l IH]; rewrite ?elem_of_nil; [done|]. rewrite elem_of_cons, cnt_cons.
  intros [<-|H]; [rewrite decide_True by done; lia|]. specialize (IH H). lia.
Qed.
Lemma cnt_none f l : (Some f ∉ l) → cnt f l = 0%nat.
Proof.
  induction l as [|o l IH]; [done|]. rewrite not_elem_of_cons, cnt_cons. intros [Ho Hl].
  rewrite decide_False by congruence. by apply IH.
Qed.
Lemma cnt_insert f l i o o' : l !! i = Some o →
  (cnt f (<[i := o']> l) + (if decide (o = Some f) then 1 else 0) = cnt f l + (if decide (o' = Some f) then 1 else 0))%nat.
Proof.
  revert i. induction l as [|x l IH]; intros [|i] Hi; simplify_eq/=; rewrite !cnt_cons; [lia|].
  specialize (IH _ Hi). lia.
Qed.

Lemma fds_alter ps i p g f : ps !! i = Some p →
  (fds (alter g i ps) f + cnt f (p_ofile p) = fds ps f + cnt f (p_ofile (g p)))%nat.
Proof.
  unfold fds. revert i. induction ps as [|q ps IH]; intros [|i] Hi; simplify_eq/=; [lia|].
  specialize (IH _ Hi). lia.
Qed.
Lemma fds_same ps ps' f : p_ofile <$> ps' = p_ofile <$> ps → fds ps' f = fds ps f.
Proof.
  unfold fds. intros E. f_equal.
  change (λ p, cnt f (p_ofile p)) with (cnt f ∘ p_ofile). by rewrite !list_fmap_compose, E.
Qed.
Lemma fds_pos ps i p f : ps !! i = Some p → Some f ∈ p_ofile p → (0 < fds ps f)%nat.
Proof.
  unfold fds. revert i. induction ps as [|q ps IH]; intros [|i] Hi Hf; simplify_eq/=.
  - pose proof (cnt_pos _ _ Hf). lia.
  - specialize (IH _ Hi Hf). lia.
Qed.

(** ** Steps that leave files alone *)

(** A process keeps its descriptors and does not die. *)
Definition calm (p p' : proc) : Prop := p_ofile p' = p_ofile p ∧ (dead p' → dead p).
#[export] Instance calm_preorder : PreOrder calm.
Proof. split; [by intros p; split|]. intros p q r [H1 H2] [H3 H4]. split; [congruence|auto]. Qed.

(** So do all processes, and the counts are the same. *)
Record frame (s s' : pst fsys) : Prop := {
  fr_refs : f_ref <$> ftab (krest s') = f_ref <$> ftab (krest s);
  fr_procs : Forall2 calm (procs s) (procs s')
}.
Lemma frame_refl s : frame s s.
Proof. by split. Qed.
Lemma frame_trans s s1 s2 : frame s s1 → frame s1 s2 → frame s s2.
Proof. intros [A1 A2] [B1 B2]. split; [by rewrite B1|by etrans]. Qed.

Lemma calm_fds ps ps' f : Forall2 calm ps ps' → fds ps' f = fds ps f.
Proof. intros H. apply fds_same. induction H as [|p p' ps ps' [E _] H IH]; [done|]. by rewrite !fmap_cons, E, IH. Qed.

Lemma ref_total (t t' : list file) f : f_ref <$> t' = f_ref <$> t → f_ref (t' !!! f) = f_ref (t !!! f).
Proof.
  intros E. rewrite !list_lookup_total_alt.
  assert ((f_ref <$> t') !! f = (f_ref <$> t) !! f) as H by (by rewrite E). rewrite !list_lookup_fmap in H.
  destruct (t' !! f), (t !! f); simpl in *; congruence.
Qed.

Lemma files_frame d s s' : frame s s' → files_inv d s → files_inv d s'.
Proof.
  intros [F1 F2] [H1 H2 H3 H4 H5].
  assert (∀ i p', procs s' !! i = Some p' → ∃ p, procs s !! i = Some p ∧ calm p p') as Hp
    by (intros i p' Hp; eapply Forall2_lookup_r in Hp; [|done]; naive_solver).
  split.
  - by rewrite <- (length_fmap f_ref), F1, length_fmap.
  - intros i p' (p & Hi & -> & _)%Hp. eauto.
  - intros i p' f (p & Hi & -> & _)%Hp. eauto.
  - intros f Hl. rewrite (ref_total _ _ f F1), (calm_fds _ _ f F2). auto.
  - intros i p' (p & Hi & E & Hd)%Hp Hd'. unfold nofd. rewrite E. exact (H5 i p Hi (Hd Hd')).
Qed.

(** ** Computations that stay within a relation *)

Definition within {S} (R : relation S) {A} (c : M S A) : Prop := ∀ s a s', c s = Ok (a, s') → R s s'.

Section within.
Context {S : Type} (R : relation S) `{!PreOrder R}.
Lemma within_ret {A} (a : A) : within R (mret a).
Proof. intros s b s' [= _ <-]. reflexivity. Qed.
Lemma within_gets {A} (f : S → A) : within R (gets f).
Proof. intros s b s' [= _ <-]. reflexivity. Qed.
Lemma within_modify f : (∀ s, R s (f s)) → within R (modify f).
Proof. intros H s b s' [= _ <-]. done. Qed.
Lemma within_panic {A} m : within R (Prelude.panic m : M S A).
Proof. by intros s b s' H. Qed.
Lemma within_undef {A} : within R (undef : M S A).
Proof. by intros s b s' H. Qed.
Lemma within_bind {A B} (c : M S A) (k : A → M S B) : within R c → (∀ a, within R (k a)) → within R (c ≫= k).
Proof. intros Hc Hk s b s' (a & s1 & H1 & H2)%bind_inv. etrans; [by eapply Hc|by eapply Hk]. Qed.
End within.

(** Splits a computation into its calls. *)
Ltac wi_step :=
  match goal with
  | |- within _ (mbind _ _) => apply (within_bind _ _ _); [|intros ?]
  | |- within _ (mret _) => apply (within_ret _)
  | |- within _ (gets _) => apply (within_gets _)
  | |- within _ (Prelude.panic _) => apply within_panic
  | |- within _ undef => apply within_undef
  | |- within _ (if ?b then _ else _) => destruct b
  | |- within _ (match ?x with _ => _ end) => destruct x
  | |- within _ (let '_ := ?x in _) => destruct x
  end.
Create HintDb within.
Ltac wi := repeat (wi_step || (solve [eauto with within])).

(** The counts of the file table stay. *)
Definition same_refs (s s' : fsys) : Prop := f_ref <$> ftab s' = f_ref <$> ftab s.
#[export] Instance same_refs_preorder : PreOrder same_refs.
Proof. split; [done|]. intros s1 s2 s3 H1 H2. unfold same_refs in *. by rewrite H2. Qed.
#[export] Instance frame_preorder : PreOrder frame.
Proof. split; [intros s; apply frame_refl|intros s1 s2 s3; apply frame_trans]. Qed.
Definition kframe (s s' : ksys fsys) : Prop := frame (kps s) (kps s').
#[export] Instance kframe_preorder : PreOrder kframe.
Proof. split; [intros s; apply frame_refl|intros s1 s2 s3; apply frame_trans]. Qed.

Lemma fs_do_refs {A} (c : M fss A) : within same_refs (fs_do c).
Proof. intros s a s'. unfold fs_do. destruct (c (ffs s)) as [[]| | |]; [|done..]. by intros [= _ <-]. Qed.
Lemma km_do_refs {A} (c : M kmem A) : within same_refs (km_do c).
Proof. intros s a s'. unfold km_do. destruct (c (fk s)) as [[]| | |]; [|done..]. by intros [= _ <-]. Qed.
Lemma upd_file_refs i g : (∀ f, f_ref (g f) = f_ref f) → within same_refs (modify (upd_file i g)).
Proof.
  intros Hg. apply within_modify. intros s. unfold same_refs. simpl. apply list_eq. intros j.
  rewrite !list_lookup_fmap. destruct (decide (i = j)) as [->|].
  - rewrite list_lookup_alter_eq. destruct (ftab s !! j); [|done]. simpl. by rewrite Hg.
  - by rewrite list_lookup_alter_ne.
Qed.
Lemma set_pipes_refs f : within same_refs (modify (λ s, set_pipes (f s) s)).
Proof. by apply within_modify. Qed.
Lemma set_pipes_refs' ps : within same_refs (modify (set_pipes ps)).
Proof. by apply within_modify. Qed.
Lemma set_last_failed_refs z : within same_refs (modify (set_last_failed z)).
Proof. by apply within_modify. Qed.
Lemma cprintf_refs m : within same_refs (cprintf m).
Proof. by apply within_modify. Qed.
#[export] Hint Resolve fs_do_refs km_do_refs set_pipes_refs set_pipes_refs' set_last_failed_refs cprintf_refs : within.
#[export] Hint Extern 1 (within same_refs (modify (upd_file _ _))) => (by apply upd_file_refs) : within.

Section refs.
Context (end_ data : Z) (devs : Z → devsw).
Lemma ilock_ptr_refs ip : within same_refs (ilock_ptr ip).
Proof. unfold ilock_ptr. wi. Qed.
Lemma iunlock_ptr_refs ip : within same_refs (iunlock_ptr ip).
Proof. unfold iunlock_ptr. wi. Qed.
Lemma pipeclose_at_refs p w : within same_refs (pipeclose_at end_ p w).
Proof. unfold pipeclose_at. wi. Qed.
Lemma filestat_refs i : within same_refs (filestat i).
Proof. unfold filestat. wi. Qed.
Lemma fileread_refs i k n : within same_refs (fileread devs i k n).
Proof. unfold fileread, piperead_at. wi. Qed.
Lemma filewrite_loop_refs fuel i ip src n d : within same_refs (filewrite_loop devs fuel i ip src n d).
Proof. revert src d. induction fuel as [|fuel IH]; intros src d; cbn [filewrite_loop]; wi. Qed.
#[local] Hint Resolve filewrite_loop_refs : within.
Lemma filewrite_refs i k src n : within same_refs (filewrite devs i k src n).
Proof. unfold filewrite, pipewrite_at. wi. Qed.
Lemma loaduvm_loop_refs fuel d a ip off sz i : within same_refs (loaduvm_loop devs fuel d a ip off sz i).
Proof. revert i. induction fuel as [|fuel IH]; intros i; cbn [loaduvm_loop]; wi. Qed.
#[local] Hint Resolve loaduvm_loop_refs : within.
Lemma loaduvm_refs d a ip off sz : within same_refs (loaduvm devs d a ip off sz).
Proof. unfold loaduvm. wi. Qed.
#[local] Hint Resolve loaduvm_refs : within.
Lemma load_segments_refs n d ip off sz : within same_refs (load_segments end_ devs n d ip off sz).
Proof. revert off sz. induction n as [|n IH]; intros off sz; cbn [load_segments]; wi. Qed.
#[local] Hint Resolve load_segments_refs : within.
Lemma exec_load_refs ip : within same_refs (exec_load end_ data devs ip).
Proof. unfold exec_load, put_op, exec_bad. wi. Qed.
Lemma exec_bad_refs d : within same_refs (exec_bad end_ d).
Proof. unfold exec_bad. wi. Qed.
Lemma switchuvm_refs k d : within same_refs (switchuvm k d).
Proof. unfold switchuvm. wi. Qed.
End refs.
#[export] Hint Resolve ilock_ptr_refs iunlock_ptr_refs pipeclose_at_refs filestat_refs fileread_refs filewrite_refs
  exec_load_refs exec_bad_refs switchuvm_refs : within.

(** ** Frames of [proc.c] *)

Lemma kcall_frame {A} (c : M fsys A) : within same_refs c → within frame (kcall c).
Proof.
  intros Hc s a s'. unfold kcall. destruct (c (krest s)) as [[b k]| | |] eqn:E; [|done..].
  intros [= _ <-]. split; [by apply (Hc _ _ _ E)|done].
Qed.
#[export] Hint Resolve kcall_frame : within.

Lemma alter_calm ps i g : (∀ p, calm p (g p)) → Forall2 calm ps (alter g i ps).
Proof.
  intros Hg. apply Forall2_same_length_lookup. split; [by rewrite length_alter|]. intros j p p' Hp Hp'.
  destruct (decide (i = j)) as [->|]; [rewrite list_lookup_alter_eq, Hp in Hp'|rewrite list_lookup_alter_ne, Hp in Hp' by done];
    simplify_eq/=; [apply Hg|done].
Qed.
Lemma upd_frame i g : (∀ p, calm p (g p)) → within frame (modify (upd i g)).
Proof. intros Hg. apply within_modify. intros s. split; [done|]. by apply alter_calm. Qed.
Lemma wakeup1_calm c ps : Forall2 calm ps (wakeup1 c ps).
Proof.
  unfold wakeup1. induction ps as [|p ps IH]; [constructor|]. rewrite fmap_cons. constructor; [|done].
  unfold wake_proc. destruct (_ && _); [|done]. split; [done|]. by intros [?|?].
Qed.
Lemma wakeup_frame c s : frame s (wakeup c s).
Proof. split; [done|apply wakeup1_calm]. Qed.
Lemma wakeups_frame cs : within frame (wakeups cs).
Proof.
  apply within_modify. intros s. revert s. induction cs as [|c cs IH]; intros s; simpl; [done|].
  etrans; [apply wakeup_frame|apply IH].
Qed.
Lemma reparent_calm cur init is_ ps : Forall2 calm ps (reparent cur init is_ ps).
Proof.
  revert ps. induction is_ as [|i is_ IH]; intros ps; cbn [reparent]; [done|]. etrans; [|apply IH].
  assert (Forall2 calm ps (alter (set_parent init) i ps)) as Ha by (by apply alter_calm).
  destruct (bool_decide _); [|done]. destruct (state_is _ _); [|done]. etrans; [done|apply wakeup1_calm].
Qed.
Lemma reparent_frame cur is_ :
  within frame (modify (λ s, with_procs (reparent cur (initproc s) is_ (procs s)) s)).
Proof. apply within_modify. intros s. split; [done|apply reparent_calm]. Qed.
Lemma wake_parent_frame cur : within frame (modify (λ s, wakeup (ptr (p_parent (procs s !!! cur))) s)).
Proof. apply within_modify. intros s. apply wakeup_frame. Qed.
Lemma sched_frame cur : within frame (sched cur).
Proof. intros s a s'. unfold sched. destruct (state_is _ _); [done|]. by intros [= _ <-]. Qed.
Lemma exit_history_frame cur : within frame (modify (exit_history cur)).
Proof. by apply within_modify. Qed.
Lemma with_cpus_frame f : within frame (modify (λ s, with_cpus (f s) s)).
Proof. by apply within_modify. Qed.
Lemma with_initproc_frame o : within frame (modify (with_initproc o)).
Proof. by apply within_modify. Qed.

(** Updates that only touch other fields, or set a state of the living. *)
Ltac calm := intros ?; split; [reflexivity|]; simpl; first [done | by intros [?|?]].
#[export] Hint Extern 1 (within frame (modify (upd _ _))) => (apply upd_frame; calm) : within.
#[export] Hint Resolve wakeups_frame sched_frame exit_history_frame with_cpus_frame with_initproc_frame : within.

Lemma proc_at_frame i : within frame (proc_at i).
Proof. apply (within_gets _). Qed.
#[export] Hint Resolve proc_at_frame : within.

Lemma sleep_enter_frame cur c : within frame (sleep_enter cur c).
Proof. unfold sleep_enter. wi. Qed.
Lemma yield_frame cur : within frame (yield cur).
Proof. unfold yield. wi. Qed.
Lemma kill_frame pid : within frame (kill pid : M (pst fsys) Z).
Proof. unfold kill. wi. Qed.

(** ** References taken and given up *)

Lemma fsys_set_inv d d' t s k : files_inv d s → ftab k = t → length t = NFILE →
  (∀ f, (f < NFILE)%nat → f_ref (t !!! f) = f_ref (ftab (krest s) !!! f) + d' f) →
  files_inv (λ f, d f + d' f) (with_rest k s).
Proof.
  intros [H1 H2 H3 H4 H5] Ht Hl Hr. split; simpl; eauto; [by rewrite Ht|].
  intros f Hf. rewrite Ht, Hr, H4 by done. lia.
Qed.

Lemma alter_ref (t : list file) i g f r : (i < length t)%nat → f_ref (g (t !!! i)) = f_ref (t !!! i) + r →
  f_ref (alter g i t !!! f) = f_ref (t !!! f) + r * one i f.
Proof.
  intros Hi Hg. unfold one. rewrite !list_lookup_total_alt in *. destruct (decide (f = i)) as [->|Hne].
  - rewrite list_lookup_alter_eq. destruct (lookup_lt_is_Some_2 _ _ Hi) as [x Hx]. rewrite Hx in *. simpl in *. lia.
  - rewrite list_lookup_alter_ne by done. lia.
Qed.

Lemma filealloc_inv d s o s' : files_inv d s → kcall filealloc s = Ok (o, s') →
  match o with
  | None => s' = s
  | Some f => (f < NFILE)%nat ∧ files_inv (λ g, d g + one f g) s' ∧ procs s' = procs s
  end.
Proof.
  intros Hi. unfold kcall, filealloc. pose proof (fi_len _ _ Hi) as Hl.
  destruct (find_index _ (ftab (krest s))) as [i|] eqn:E; intros [= <- <-]; [|by destruct s].
  apply find_index_Some in E as [(x & Hx & Hr) _]. apply Z.eqb_eq in Hr.
  pose proof (lookup_lt_Some _ _ _ Hx) as Hlt. split; [lia|]. split; [|done].
  eapply fsys_set_inv; [done|reflexivity|simpl; by rewrite length_alter|]. intros f Hf. simpl.
  rewrite (alter_ref _ i _ _ 1); [lia|done|]. rewrite list_lookup_total_alt, Hx. simpl. lia.
Qed.

Lemma filedup_inv d s f r s' : files_inv d s → kcall (filedup f) s = Ok (r, s') →
  files_inv (λ g, d g + one f g) s' ∧ procs s' = procs s.
Proof.
  intros Hi. unfold kcall, filedup. pose proof (fi_len _ _ Hi) as Hl.
  destruct (Z.ltb_spec (f_ref (ftab (krest s) !!! f)) 1) as [Hlt|Hge]; [done|]. intros [= <- <-]. split; [|done].
  assert (f < length (ftab (krest s)))%nat as Hf.
  { apply Nat.nle_gt. intros Hf. rewrite list_lookup_total_alt, lookup_ge_None_2 in Hge by done. simpl in Hge. lia. }
  eapply fsys_set_inv; [done|reflexivity|simpl; by rewrite length_alter|]. intros g Hg. simpl.
  rewrite (alter_ref _ f _ _ 1); [lia|done|]. simpl. lia.
Qed.

(** [fileclose] takes one off the count. *)
Lemma fileclose_refs end_ f k r k' : fileclose end_ f k = Ok (r, k') →
  length (ftab k') = length (ftab k) ∧ ∀ g, f_ref (ftab k' !!! g) = f_ref (ftab k !!! g) - one f g.
Proof.
  unfold fileclose. intros H. apply bind_inv in H as (x & k1 & [= <- <-] & H).
  destruct (Z.ltb_spec (f_ref (ftab k !!! f)) 1) as [|Hge]; [done|].
  assert (f < length (ftab k))%nat as Hf.
  { apply Nat.nle_gt. intros Hf. rewrite list_lookup_total_alt, lookup_ge_None_2 in Hge by done. simpl in Hge. lia. }
  assert (∃ h, f_ref (h (ftab k !!! f)) = f_ref (ftab k !!! f) - 1 ∧ same_refs (upd_file f h k) k') as (h & Hh & Hs).
  { destruct (Z.ltb_spec 0 (f_ref (ftab k !!! f) - 1)).
    - apply bind_inv in H as ([] & k2 & [= <-] & [= <- <-]). eexists. split; [|reflexivity]. done.
    - apply bind_inv in H as ([] & k2 & [= <-] & H). 
      match type of H with ?c _ = _ => assert (within same_refs c) as Hc by wi end.
      eexists. split; [|exact (Hc _ _ _ H)]. simpl. lia. }
  assert (length (ftab k') = length (ftab k)) as Hl.
  { rewrite <- (length_fmap f_ref), Hs, length_fmap. simpl. by rewrite length_alter. }
  split; [done|]. intros g. rewrite (ref_total _ _ g Hs). simpl. rewrite (alter_ref _ f _ _ (-1)); [lia|done|lia].
Qed.

Lemma fileclose_inv end_ d s f r s' : files_inv d s → kcall (fileclose end_ f) s = Ok (r, s') →
  files_inv (λ g, d g - one f g) s' ∧ procs s' = procs s.
Proof.
  intros Hi. unfold kcall. destruct (fileclose end_ f (krest s)) as [[r' k]| | |] eqn:E; [|done..].
  intros [= <- <-]. split; [|done]. apply fileclose_refs in E as [Hl Hr].
  eapply (fsys_set_inv d (λ g, - one f g)); [done|reflexivity|by rewrite Hl, (fi_len _ _ Hi)|].
  intros g Hg. rewrite Hr. lia.
Qed.

(** A descriptor is set, or cleared. *)
Definition set_fd_at (i j : nat) (o : option nat) (s : pst fsys) : pst fsys :=
  upd i (λ p, set_ofile (<[j := o]> (p_ofile p)) p) s.
Definition opt_one (o : option nat) (g : nat) : Z := match o with Some f => one f g | None => 0 end.

Lemma set_fd_inv d s i p j o o' : files_inv d s → procs s !! i = Some p → p_ofile p !! j = Some o →
  match o' with Some f => (f < NFILE)%nat ∧ ¬ dead p | None => True end →
  files_inv (λ g, d g + opt_one o g - opt_one o' g) (set_fd_at i j o' s).
Proof.
  intros [H1 H2 H3 H4 H5] Hp Hj Ho.
  assert (∀ k q', procs (set_fd_at i j o' s) !! k = Some q' →
    (k ≠ i ∧ procs s !! k = Some q') ∨ (k = i ∧ q' = set_ofile (<[j := o']> (p_ofile p)) p)) as Hk.
  { intros k q'. simpl. destruct (decide (i = k)) as [->|]; [rewrite list_lookup_alter_eq, Hp|rewrite list_lookup_alter_ne by done];
      simpl; intros; simplify_eq; auto. }
  split.
  - done.
  - intros k q' [[_ Hq]|[-> ->]]%Hk; [eauto|]. simpl. rewrite length_insert. eauto.
  - intros k q' f [[_ Hq]|[-> ->]]%Hk; [eauto|]. simpl. intros [x Hx]%list_elem_of_lookup.
    apply list_lookup_insert_Some in Hx as [(_ & E & _)|[_ Hx]]; [subst o'; by destruct Ho|].
    eapply H3; [done|]. by eapply list_elem_of_lookup_2.
  - intros f Hf. simpl. rewrite H4 by done. pose proof (fds_alter _ _ _ (λ p, set_ofile (<[j := o']> (p_ofile p)) p) f Hp) as E.
    pose proof (cnt_insert f _ _ _ o' Hj) as E2. simpl in E. unfold opt_one, one.
    destruct o as [a|], o' as [b|]; repeat case_decide; simplify_eq; lia.
  - intros k q' [[_ Hq]|[-> ->]]%Hk Hd; [eauto|]. destruct o' as [f|].
    + by destruct Ho as [_ []].
    + intros f [x Hx]%list_elem_of_lookup. simpl in Hx.
      apply list_lookup_insert_Some in Hx as [(_ & E & _)|[_ Hx]]; [done|].
      eapply (H5 i p Hp Hd). by eapply list_elem_of_lookup_2.
Qed.

(** No descriptors and no counts: the state the kernel boots in. *)
Lemma files_ok_start s : ftab (krest s) = replicate NFILE zero_file →
  Forall (λ p, length (p_ofile p) = NOFILE ∧ nofd p) (procs s) → files_ok s.
Proof.
  intros Ht Hp. rewrite Forall_lookup in Hp. split.
  - by rewrite Ht, length_replicate.
  - intros i p H. by destruct (Hp _ _ H).
  - intros i p f H. by destruct (Hp _ _ H) as [_ Hn%(λ h, h f)].
  - intros f Hf. rewrite Ht, lookup_total_replicate_2 by done. simpl.
    assert (fds (procs s) f = 0%nat) as ->; [|done]. rewrite <- Forall_lookup in Hp.
    unfold fds. induction Hp as [|p ps [_ Hn] _ IH]; [done|]. rewrite fmap_cons. simpl. rewrite IH.
    by rewrite cnt_none.
  - intros i p H _. by destruct (Hp _ _ H).
Qed.

(** A process without descriptors may die. *)
Lemma upd_nofd_inv d s i g : files_inv d s → (∀ p, procs s !! i = Some p → nofd p ∧ p_ofile (g p) = p_ofile p) →
  files_inv d (upd i g s).
Proof.
  intros [H1 H2 H3 H4 H5] Hg.
  assert (∀ k q', procs (upd i g s) !! k = Some q' →
    ∃ q, procs s !! k = Some q ∧ p_ofile q' = p_ofile q ∧ (k ≠ i ∧ q' = q ∨ nofd q)) as Hk.
  { intros k q'. simpl. destruct (decide (i = k)) as [->|].
    - rewrite list_lookup_alter_eq. destruct (procs s !! k) as [q|] eqn:Eq; [|done]. intros [= <-].
      destruct (Hg q eq_refl). exists q. auto.
    - rewrite list_lookup_alter_ne by done. intros Hq. exists q'. auto. }
  split.
  - done.
  - intros k q' (q & Hq & -> & _)%Hk. eauto.
  - intros k q' f (q & Hq & -> & _)%Hk. eauto.
  - intros f Hf. rewrite H4 by done. do 2 f_equal. symmetry. apply fds_same. apply list_eq. intros k.
    rewrite !list_lookup_fmap. simpl. destruct (decide (i = k)) as [->|]; [|by rewrite list_lookup_alter_ne].
    rewrite list_lookup_alter_eq. destruct (procs s !! k) as [q|] eqn:Eq; [|done]. simpl. by rewrite (proj2 (Hg q eq_refl)).
  - intros k q' (q & Hq & E & [[_ ->]|Hn])%Hk Hd; [eauto|]. intros f. rewrite E. apply Hn.
Qed.

(** ** The operations of [proc.c] *)

Section system.
Context (end_ data initcode initsz forkret trapret : Z) (devs : Z → devsw) (name0 : list Z).
#[local] Instance kernel : Kernel fsys := xv6_kernel end_ data initcode initsz forkret trapret devs.

(** The operations of the kernel that are not about files. *)
Ltac krefs := first [apply km_do_refs | apply switchuvm_refs | simpl; wi].
Lemma kernel_refs :
  within same_refs k_kalloc ∧ (∀ p, within same_refs (k_kfree p)) ∧ within same_refs k_setupkvm ∧
  (∀ d, within same_refs (k_inituvm d)) ∧ (∀ d n, within same_refs (k_copyuvm d n)) ∧
  (∀ d, within same_refs (k_freevm d)) ∧ (∀ d n m, within same_refs (k_allocuvm d n m)) ∧
  (∀ d n m, within same_refs (k_deallocuvm d n m)) ∧ (∀ k d, within same_refs (k_switchuvm k d)) ∧
  (∀ i, within same_refs (k_idup i)) ∧ (∀ i, within same_refs (k_iput i)) ∧ within same_refs k_begin_op ∧
  within same_refs k_end_op ∧ within same_refs k_namei_root.
Proof. repeat split; intros; krefs. Qed.
#[local] Hint Extern 1 (within same_refs _) => (apply kernel_refs) : within.

Lemma alloc_slot_frame : within frame (alloc_slot : M (pst fsys) _).
Proof.
  intros s o s'. unfold alloc_slot. destruct (scan _ _ _) as [i|]; [|by intros [= _ <-]].
  destruct (_ =? _); [done|]. intros [= _ <-]. split; [done|]. apply alter_calm. calm.
Qed.
#[local] Hint Resolve alloc_slot_frame : within.

(** The new process has no descriptors, and the others are as before. *)
Lemma allocproc_inv d s o s' : files_inv d s → allocproc s = Ok (o, s') →
  files_inv d s' ∧
  match o with
  | None => True
  | Some i => frame s s' ∧ ∃ p p', procs s !! i = Some p ∧ p_state p = UNUSED ∧ procs s' !! i = Some p' ∧
      p_state p' = EMBRYO ∧ nofd p'
  end.
Proof.
  intros Hi. unfold allocproc. intros (o1 & s1 & E1 & H)%bind_inv.
  pose proof (alloc_slot_frame _ _ _ E1) as F1. unfold alloc_slot in E1.
  destruct (scan _ (procs s) 0) as [i|] eqn:Es; [|by injection E1 as <- <-; injection H as <- <-].
  destruct (_ =? _) in E1; [done|]. injection E1 as <- E1.
  apply scan_0_Some in Es as (p & Hp & Hu & _). apply bool_decide_eq_true in Hu.
  assert (nofd p) as Hn by (eapply fi_dead; [done|done|by left]).
  apply bind_inv in H as (k & s2 & E2 & H). pose proof (kcall_frame _ (proj1 kernel_refs) _ _ _ E2) as F2.
  apply kcall_Ok in E2 as [r ->]. apply bind_inv in H as ([] & s3 & [= <-] & H).
  assert (F : frame s (upd i (set_kstack k) (with_rest r s1))).
  { etrans; [exact F1|]. etrans; [exact F2|]. split; [done|]. apply alter_calm. calm. }
  set (s3 := upd i (set_kstack k) (with_rest r s1)) in *.
  assert (∃ p', procs s3 !! i = Some p' ∧ p_state p' = EMBRYO ∧ p_ofile p' = p_ofile p) as (p' & Hp' & He & Eo).
  { subst s3. rewrite <- E1. simpl. rewrite !list_lookup_alter_eq, Hp. eexists. split; [reflexivity|done]. }
  assert (nofd p') as Hn' by (unfold nofd; by rewrite Eo). clearbody s3.
  pose proof (files_frame d _ _ F Hi) as Hi3. destruct (k =? 0).
  - apply bind_inv in H as ([] & s4 & [= <-] & [= <- <-]). split; [|done].
    apply upd_nofd_inv; [done|]. intros q Hq. rewrite Hp' in Hq. injection Hq as <-. done.
  - apply bind_inv in H as ([] & s4 & [= <-] & [= <- <-]).
    assert (frame s3 (upd i (set_frames (k + KSTACKSIZE - sizeof_trapframe) k_trapret
      (k + KSTACKSIZE - sizeof_trapframe - 4 - sizeof_context) (Ctx 0 0 0 0 k_forkret)) s3)) as F4
      by (split; [done|]; apply alter_calm; calm).
    split; [by eapply files_frame|]. split; [by etrans|]. eexists p, _. split; [done|]. split; [done|].
    split; [simpl; by rewrite list_lookup_alter_eq, Hp'|done].
Qed.

Lemma userinit_inv d s s' : files_inv d s → userinit s = Ok (tt, s') → files_inv d s'.
Proof.
  intros Hi. unfold userinit. intros (o & s1 & E1 & H)%bind_inv.
  destruct (allocproc_inv _ _ _ _ Hi E1) as [Hi1 _]. destruct o as [i|]; [|done].
  match type of H with ?c _ = _ => assert (within frame c) as Hc by wi end.
  eapply files_frame; [by eapply Hc|done].
Qed.
Lemma growproc_frame cur n : within frame (growproc cur n).
Proof. unfold growproc. wi. Qed.

Lemma dispatch_frame c i : within frame (dispatch c i).
Proof. unfold dispatch. wi. Qed.

Lemma open_range d s i j f : files_inv d s → p_ofile (procs s !!! i) !!! j = Some f →
  (f < NFILE)%nat ∧ ∃ p, procs s !! i = Some p ∧ p_ofile p !! j = Some (Some f).
Proof.
  intros Hi Ef. rewrite list_lookup_total_alt in Ef.
  destruct (p_ofile _ !! j) as [o|] eqn:Eo; simpl in Ef; [subst o|done].
  rewrite list_lookup_total_alt in Eo. destruct (procs s !! i) as [q|] eqn:Eq; [|by apply lookup_replicate in Eo as [? _]].
  split; [|eauto]. eapply (fi_range _ _ Hi); [done|]. by eapply list_elem_of_lookup_2.
Qed.
Lemma frame_lookup s s' i p : frame s s' → procs s !! i = Some p → ∃ p', procs s' !! i = Some p' ∧ calm p p'.
Proof. intros [_ F] Hp. eapply Forall2_lookup_l in Hp; [|done]. naive_solver. Qed.

(** [dup_files] gives the new process a reference for each descriptor. *)
Lemma dup_files_inv d cur np l s s' p : files_inv d s → NoDup l → cur ≠ np →
  procs s !! np = Some p → ¬ dead p → (∀ j, j ∈ l → p_ofile p !! j = Some None) →
  dup_files cur np l s = Ok (tt, s') →
  files_inv d s' ∧ ∃ p', procs s' !! np = Some p' ∧ ¬ dead p'.
Proof.
  intros Hi Hnd Hne. revert s p Hi Hnd. induction l as [|j l IH]; intros s p Hi Hnd Hp Hd Hl H; cbn [dup_files] in H.
  { injection H as <-. eauto. }
  apply NoDup_cons in Hnd as [Hj Hnd]. apply bind_inv in H as (c & s1 & [= <- <-] & H).
  destruct (p_ofile (procs s !!! cur) !!! j) as [f|] eqn:Ef.
  - apply bind_inv in H as ([] & s2 & H2 & H). apply bind_inv in H2 as (x & s3 & E3 & [= <-]).
    assert (∃ y, kcall (filedup f) s = Ok (y, s3)) as [y E3'].
    { revert E3. simpl. unfold kcall. destruct ((filedup f ≫= _) (krest s)) as [[u r]| | |] eqn:E; [|done..].
      intros [= _ <-]. apply bind_inv in E as (y & r' & -> & [= _ <-]). eauto. }
    destruct (filedup_inv _ _ _ _ _ Hi E3') as [Hi3 Hp3].
    destruct (open_range _ _ _ _ _ Hi Ef) as [Hf _].
    rewrite <- Hp3 in Hp. assert (p_ofile p !! j = Some None) as Hpj by (apply Hl; left).
    pose proof (set_fd_inv _ _ _ _ _ _ (Some f) Hi3 Hp Hpj (conj Hf Hd)) as Hi4. simpl in Hi4.
    eapply (IH _ (set_ofile (<[j := Some f]> (p_ofile p)) p)); [|done| | | |exact H].
    + eapply files_inv_ext; [|exact Hi4]. intros g. simpl. lia.
    + simpl. by rewrite list_lookup_alter_eq, Hp.
    + done.
    + intros k Hk. simpl. rewrite list_lookup_insert_ne by (intros <-; done). apply Hl. by right.
  - apply bind_inv in H as ([] & s2 & [= <-] & H). eapply (IH s p); eauto. intros k Hk. apply Hl. by right.
Qed.

Lemma fork_inv d cur s r s' pc : files_inv d s → procs s !! cur = Some pc → p_state pc ≠ UNUSED →
  fork cur s = Ok (r, s') → files_inv d s'.
Proof.
  intros Hi Hc Hu. unfold fork. intros (o & s1 & E1 & H)%bind_inv.
  destruct (allocproc_inv _ _ _ _ Hi E1) as [Hi1 Ho]. destruct o as [np|]; [|by injection H as <- <-].
  destruct Ho as (F1 & p & p1 & Hp & Hpu & Hp1 & He & Hn).
  assert (cur ≠ np) as Hne by (intros ->; congruence).
  assert (¬ dead p1) as Hd by (intros [?|?]; congruence).
  unfold fork_child in H. apply bind_inv in H as (x & s2 & [= <- <-] & H).
  apply bind_inv in H as (dir & s3 & E3 & H). apply kcall_frame in E3; [|auto with within].
  apply bind_inv in H as ([] & s4 & [= <-] & H).
  assert (frame s1 (upd np (set_pgdir dir) s3)) as F4 by (etrans; [exact E3|split; [done|apply alter_calm; calm]]).
  set (s4 := upd np (set_pgdir dir) s3) in *. clearbody s4. clear E3 s3.
  destruct (frame_lookup _ _ _ _ F4 Hp1) as (p4 & Hp4 & E4 & D4).
  assert (nofd p4) as Hn4 by (unfold nofd; by rewrite E4).
  pose proof (files_frame _ _ _ F4 Hi1) as Hi4. destruct (dir =? 0).
  - apply bind_inv in H as (y & s5 & [= <- <-] & H). apply bind_inv in H as (y & s6 & E6 & H).
    apply kcall_frame in E6; [|auto with within]. apply bind_inv in H as ([] & s7 & [= <-] & H).
    apply bind_inv in H as ([] & s8 & [= <-] & [= <- <-]).
    assert (frame s4 (upd np (set_kstack 0) s6)) as F7 by (etrans; [exact E6|split; [done|apply alter_calm; calm]]).
    apply upd_nofd_inv; [by eapply files_frame|]. intros q Hq.
    destruct (frame_lookup _ _ _ _ F7 Hp4) as (p7 & Hp7 & E7 & _). rewrite Hp7 in Hq. injection Hq as <-.
    split; [|done]. unfold nofd. by rewrite E7.
  - apply bind_inv in H as ([] & s5 & E5 & H). apply bind_inv in H as ([] & s6 & E6 & H).
    apply bind_inv in H as ([] & s7 & E7 & H).
    assert (frame s4 s7) as F7.
    { etrans; [eapply upd_frame, E5; calm|]. etrans; [eapply upd_frame, E6; calm|]. eapply upd_frame, E7. calm. }
    destruct (frame_lookup _ _ _ _ F7 Hp4) as (p7 & Hp7 & E7' & D7).
    apply bind_inv in H as ([] & s8 & E8 & H).
    destruct (dup_files_inv d cur np (seq 0 NOFILE) s7 s8 p7) as [Hi8 _]; [by eapply files_frame|apply NoDup_seq|done|done|auto| |done|].
    { intros j Hj%elem_of_seq. rewrite E7'. destruct (p_ofile p4 !! j) as [[f|]|] eqn:Ej; [|done|].
      - exfalso. apply (Hn4 f). by eapply list_elem_of_lookup_2.
      - apply lookup_ge_None in Ej. rewrite (fi_ofile _ _ Hi4 _ _ Hp4) in Ej. lia. }
    match type of H with ?c _ = _ => assert (within frame c) as Hc' by wi end.
    eapply files_frame; [by eapply Hc'|done].
Qed.

(** [close_files] gives the references of the process back. *)
Lemma close_files_inv d cur l s s' p : files_inv d s → procs s !! cur = Some p →
  close_files cur l s = Ok (tt, s') →
  files_inv d s' ∧ ∃ p', procs s' !! cur = Some p' ∧
    ∀ j f, p_ofile p' !! j = Some (Some f) → (j ∉ l) ∧ p_ofile p !! j = Some (Some f).
Proof.
  revert s p. induction l as [|j l IH]; intros s p Hi Hp H; cbn [close_files] in H.
  { injection H as <-. split; [done|]. exists p. split; [done|]. intros j f Hj. split; [apply not_elem_of_nil|done]. }
  apply bind_inv in H as (c & s1 & [= <- <-] & H).
  destruct (p_ofile (procs s !!! cur) !!! j) as [f|] eqn:Ef.
  - destruct (open_range _ _ _ _ _ Hi Ef) as (_ & q & Hq & Hj). rewrite Hp in Hq. injection Hq as <-.
    apply bind_inv in H as ([] & s2 & H2 & H). apply bind_inv in H2 as (cs & s3 & E3 & H2).
    apply bind_inv in H2 as ([] & s4 & E4 & [= <-]).
    destruct (fileclose_inv _ _ _ _ _ _ Hi E3) as [Hi3 Hp3]. rewrite <- Hp3 in Hp.
    pose proof (wakeups_frame _ _ _ _ E4) as F4. destruct (frame_lookup _ _ _ _ F4 Hp) as (p4 & Hp4 & E4' & D4).
    rewrite <- E4' in Hj. pose proof (set_fd_inv _ _ _ _ _ _ None (files_frame _ _ _ F4 Hi3) Hp4 Hj I) as Hi5. simpl in Hi5.
    apply (files_inv_ext _ d) in Hi5; [|intros g; lia].
    destruct (IH _ (set_ofile (<[j := None]> (p_ofile p4)) p4) Hi5) as (Hi6 & p6 & Hp6 & Hj6); [|exact H|].
    { simpl. by rewrite list_lookup_alter_eq, Hp4. }
    split; [done|]. exists p6. split; [done|]. intros k g Hk. apply Hj6 in Hk as [Hk1 Hk2]. simpl in Hk2.
    apply list_lookup_insert_Some in Hk2 as [(_ & ? & _)|[Hne Hk2]]; [done|]. rewrite E4' in Hk2.
    split; [|done]. apply not_elem_of_cons. split; [congruence|done].
  - apply bind_inv in H as ([] & s2 & [= <-] & H). destruct (IH s p Hi Hp H) as (Hi' & p' & Hp' & Hj').
    split; [done|]. exists p'. split; [done|]. intros k g Hk. apply Hj' in Hk as [Hk1 Hk2]. split; [|done].
    apply not_elem_of_cons. split; [|done]. intros ->. rewrite !list_lookup_total_alt, Hp in Ef. simpl in Ef.
    rewrite Hk2 in Ef. done.
Qed.

Lemma exit_final_files d cur s s' p : files_inv d s → procs s !! cur = Some p → nofd p →
  exit_final cur s = Ok (tt, s') → files_inv d s'.
Proof.
  intros Hi Hp Hn. unfold exit_final. generalize (seq 0 NPROC). intros is_ H.
  apply bind_inv in H as ([] & s1 & E1%wake_parent_frame & H).
  apply bind_inv in H as ([] & s2 & E2%reparent_frame & H).
  apply bind_inv in H as ([] & s3 & [= <-] & H%sched_frame). eapply files_frame; [exact H|].
  assert (frame s s2) as F by (etrans; [exact E1|exact E2]).
  apply upd_nofd_inv; [by eapply files_frame|]. intros q Hq.
  destruct (frame_lookup _ _ _ _ F Hp) as (p2 & Hp2 & E & _). rewrite Hp2 in Hq. injection Hq as <-.
  split; [|done]. unfold nofd. by rewrite E.
Qed.

Lemma exit_inv d cur s s' p : files_inv d s → procs s !! cur = Some p → exit cur s = Ok (tt, s') → files_inv d s'.
Proof.
  intros Hi Hp. unfold exit. intros (o & s1 & [= <- <-] & H)%bind_inv. destruct (bool_decide _); [done|].
  apply bind_inv in H as ([] & s2 & E2 & H). pose proof (exit_history_frame _ _ _ _ E2) as F2.
  destruct (frame_lookup _ _ _ _ F2 Hp) as (p2 & Hp2 & E2' & _).
  apply bind_inv in H as ([] & s3 & E3 & H).
  destruct (close_files_inv d cur _ s2 s3 p2 (files_frame _ _ _ F2 Hi) Hp2 E3) as (Hi3 & p3 & Hp3 & Hj3).
  assert (nofd p3) as Hn3.
  { intros f [j Hj]%list_elem_of_lookup. pose proof (Hj3 _ _ Hj) as [Hn _]. apply Hn, elem_of_seq.
    apply lookup_lt_Some in Hj. rewrite (fi_ofile _ _ Hi3 _ _ Hp3) in Hj. lia. }
  clear E3 Hj3 Hi Hp F2 Hp2. apply bind_inv in H as (y & s4 & E4 & H). apply kcall_frame in E4; [|auto with within].
  apply bind_inv in H as (q & s5 & [= <- <-] & H). destruct (p_cwd _) as [c|]; [|done].
  apply bind_inv in H as (cs & s6 & E6 & H). apply kcall_frame in E6; [|auto with within].
  apply bind_inv in H as ([] & s7 & E7%wakeups_frame & H).
  apply bind_inv in H as (cs' & s8 & E8 & H). apply kcall_frame in E8; [|auto with within].
  apply bind_inv in H as ([] & s9 & E9%wakeups_frame & H).
  apply bind_inv in H as ([] & s10 & E10 & H). eapply upd_frame in E10; [|calm].
  assert (frame s3 s10) as F.
  { etrans; [exact E4|]. etrans; [exact E6|]. etrans; [exact E7|]. etrans; [exact E8|]. etrans; [exact E9|exact E10]. }
  destruct (frame_lookup _ _ _ _ F Hp3) as (p5 & Hp5 & E5 & _).
  eapply (exit_final_files d cur s10); [by eapply files_frame|done| |done]. unfold nofd. by rewrite E5.
Qed.

Lemma wait_round_files d cur s r s' : files_inv d s → wait_round cur s = Ok (r, s') → files_inv d s'.
Proof.
  intros Hi. unfold wait_round. intros (ps & s1 & [= <- <-] & H)%bind_inv.
  destruct (wait_scan cur (procs s) 0 false) as [hk z] eqn:Ew. apply wait_scan_spec in Ew. destruct z as [i|].
  - destruct Ew as (_ & _ & p & Hp & _ & Hz). rewrite Nat.sub_0_r in Hp.
    assert (nofd p) as Hn by (eapply fi_dead; [done|done|by right]).
    apply bind_inv in H as (q & s2 & [= <- <-] & H). apply bind_inv in H as (y & s3 & E3 & H).
    apply kcall_frame in E3; [|auto with within]. apply bind_inv in H as ([] & s4 & E4 & H).
    eapply upd_frame in E4; [|calm]. apply bind_inv in H as (y' & s5 & E5 & H).
    apply kcall_frame in E5; [|auto with within]. apply bind_inv in H as ([] & s6 & [= <-] & [= <- <-]).
    assert (frame s s5) as F by (etrans; [exact E3|]; etrans; [exact E4|exact E5]).
    apply upd_nofd_inv; [by eapply files_frame|]. intros q Hq.
    destruct (frame_lookup _ _ _ _ F Hp) as (p5 & Hp5 & E5' & _). rewrite Hp5 in Hq. injection Hq as <-.
    split; [|done]. unfold nofd. by rewrite E5'.
  - destruct (_ || _); [by injection H as <- <-|].
    match type of H with ?c _ = _ => assert (within frame c) as Hc by (wi; apply sleep_enter_frame) end.
    eapply files_frame; [by eapply Hc|done].
Qed.
End system.
