(* ===== verification/FileCalls.v ===== *)
(** * File references and the system calls

    Every system call of the kernel keeps the reference counts of open files
    equal to the number of descriptors ([FileInv.v]): those that do not touch
    descriptors stay within [kframe], the others balance what they take and
    give up. *)

From S2P Require Import Prelude CString Layout Kalloc Proc ProcInv Syscall Block Log Fs FsDir Vm File Sysfile Exec FileInv.
From S2P Require Pipe.

Lemma pcall_kframe {A} (c : M (pst fsys) A) : within frame c → within kframe (pcall c).
Proof. intros Hc s a s' (p & H & ->)%pcall_Ok. exact (Hc _ _ _ H). Qed.
Lemma fcalls_kframe {A} (c : M fsys A) : within same_refs c → within kframe (fcalls c).
Proof. intros Hc. by apply pcall_kframe, kcall_frame. Qed.
Lemma fsk_kframe {A} (c : M fss A) : within kframe (fsk c).
Proof. apply fcalls_kframe, fs_do_refs. Qed.
Lemma wake_kframe cs : within kframe (wake cs).
Proof. apply pcall_kframe, wakeups_frame. Qed.
Lemma set_umem_kframe cur f : within kframe (modify (λ s, set_umem cur (f s) s)).
Proof. apply within_modify. intros s. apply frame_refl. Qed.
Lemma set_umem_kframe' cur m : within kframe (modify (set_umem cur m)).
Proof. apply within_modify. intros s. apply frame_refl. Qed.
Lemma set_blocked_kframe f : within kframe (modify (λ s, set_blocked (f s) s)).
Proof. apply within_modify. intros s. apply frame_refl. Qed.
Lemma put_eax_kframe cur v : within kframe (put_eax cur v).
Proof. apply within_modify. intros s. split; [done|]. apply alter_calm. calm. Qed.
Lemma copy_umem_kframe cur pid : within kframe (modify (copy_umem cur pid)).
Proof. apply within_modify. intros s. unfold copy_umem. destruct (scan _ _ _); apply frame_refl. Qed.
Lemma curproc_kframe cur : within kframe (curproc cur).
Proof. apply (within_gets _). Qed.
Lemma curmem_kframe cur : within kframe (curmem cur).
Proof. apply (within_gets _). Qed.
#[export] Hint Resolve fsk_kframe wake_kframe set_umem_kframe set_umem_kframe' set_blocked_kframe put_eax_kframe
  copy_umem_kframe curproc_kframe curmem_kframe : within.
#[export] Hint Extern 2 (within kframe (fcalls _)) => (apply fcalls_kframe; wi) : within.
#[export] Hint Extern 2 (within kframe (pcall _)) => (apply pcall_kframe; wi) : within.

Section calls.
Context (end_ data initcode initsz forkret trapret : Z) (devs : Z → devsw) (name0 : list Z).
#[local] Instance kernel : Kernel fsys := xv6_kernel end_ data initcode initsz forkret trapret devs.

Lemma argint_kframe cur n : within kframe (argint cur n : M (ksys fsys) _).
Proof. unfold argint. wi. Qed.
#[local] Hint Resolve argint_kframe : within.
Lemma argptr_kframe cur n sz : within kframe (argptr cur n sz : M (ksys fsys) _).
Proof. unfold argptr. wi. Qed.
Lemma argstr_kframe cur n : within kframe (argstr cur n : M (ksys fsys) _).
Proof. unfold argstr. wi. Qed.
#[local] Hint Resolve argptr_kframe argstr_kframe : within.
Lemma arg_path_kframe cur n : within kframe (arg_path cur n).
Proof. unfold arg_path. wi. Qed.
Lemma argfd_kframe cur n : within kframe (argfd cur n).
Proof. unfold argfd. wi. Qed.
Lemma cwd_of_kframe cur : within kframe (cwd_of cur).
Proof. unfold cwd_of. wi. Qed.
#[local] Hint Resolve arg_path_kframe argfd_kframe cwd_of_kframe : within.
Lemma in_op_kframe {A} (c : M fss A) : within kframe (in_op c).
Proof. unfold in_op. wi. Qed.
Lemma finish_kframe cur r k : (∀ v bs, within kframe (k v bs)) → within kframe (finish cur r k).
Proof. intros Hk. unfold finish. wi; first [apply Hk|apply pcall_kframe, sleep_enter_frame]. Qed.
Lemma file_mode_kframe f : within kframe (file_mode f).
Proof. unfold file_mode. wi. Qed.
Lemma file_inum_kframe f : within kframe (file_inum f).
Proof. unfold file_inum. wi. Qed.
#[local] Hint Resolve in_op_kframe file_mode_kframe file_inum_kframe : within.

(** The wrappers that fetch an argument. *)
Ltac args := repeat first
  [ progress unfold with_fd, with_int, with_ptr, with_path
  | wi_step | apply finish_kframe; intros ?; intros ? | solve [eauto 3 with within] ].

Lemma sys_read_kframe cur : within kframe (sys_read devs cur).
Proof. unfold sys_read. args. Qed.
Lemma sys_write_kframe cur : within kframe (sys_write devs cur).
Proof. unfold sys_write. args. Qed.
Lemma sys_fstat_kframe cur : within kframe (sys_fstat cur).
Proof. unfold sys_fstat. args. Qed.
Lemma sys_link_kframe cur : within kframe (sys_link devs name0 cur).
Proof. unfold sys_link. args. Qed.
Lemma sys_unlink_kframe cur : within kframe (sys_unlink devs name0 cur).
Proof. unfold sys_unlink. args. Qed.
Lemma sys_mkdir_kframe cur : within kframe (sys_mkdir devs name0 cur).
Proof. unfold sys_mkdir. args. Qed.
Lemma sys_mknod_kframe cur : within kframe (sys_mknod devs name0 cur).
Proof. unfold sys_mknod. args. Qed.
Lemma sys_chdir_kframe cur : within kframe (sys_chdir devs cur).
Proof. unfold sys_chdir. args. Qed.
Lemma sys_chmod_kframe cur : within kframe (sys_chmod devs cur).
Proof. unfold sys_chmod. args. Qed.
Lemma exec_kframe cur path argv : within kframe (exec end_ data devs cur path argv).
Proof. unfold exec. args. Qed.
#[local] Hint Resolve exec_kframe : within.
Lemma sys_exec_kframe cur : within kframe (sys_exec end_ data devs cur).
Proof. unfold sys_exec. args. Qed.

(** ** Calls that move references *)

(** The caller is a live process. *)
Definition caller (s : ksys fsys) (cur : nat) : Prop := ∃ p, procs (kps s) !! cur = Some p ∧ ¬ dead p.
Abbreviation kinv d s := (files_inv d (kps s)).

Lemma caller_kframe s s' cur : kframe s s' → caller s cur → caller s' cur.
Proof. intros F (p & Hp & Hd). destruct (frame_lookup _ _ _ _ F Hp) as (p' & Hp' & _ & D). exists p'. auto. Qed.
Lemma kinv_kframe d s s' : kframe s s' → kinv d s → kinv d s'.
Proof. apply files_frame. Qed.

(** [argfd] changes nothing and finds an open descriptor. *)
Lemma argfd_spec cur n s o s' : argfd cur n s = Ok (o, s') →
  s' = s ∧ match o with
           | Some (fd, f) => ∃ p, procs (kps s) !! cur = Some p ∧ p_ofile p !! fd = Some (Some f)
           | None => True
           end.
Proof.
  unfold argfd, argint, curproc, curmem. intros H. minv.
  destruct (fetchint _ _ _) as [fd|]; [|by injection H as <- <-]. destruct (_ || _); [by injection H as <- <-|].
  destruct (p_ofile _ !! Z.to_nat fd) as [[f|]|] eqn:E; injection H as <- <-; split; try done.
  rewrite list_lookup_total_alt in E. destruct (procs _ !! cur) as [p|] eqn:Ep; [eauto|].
  by apply lookup_replicate in E as [? _].
Qed.

Lemma fdalloc_inv d cur f s o s' : kinv d s → caller s cur → (f < NFILE)%nat → fdalloc cur f s = Ok (o, s') →
  match o with
  | None => s' = s
  | Some fd => kinv (λ g, d g - one f g) s' ∧ caller s' cur ∧
      ∃ p, procs (kps s') !! cur = Some p ∧ p_ofile p !! fd = Some (Some f)
  end.
Proof.
  intros Hi (p & Hp & Hd) Hf. unfold fdalloc. intros (q & s1 & [= <- <-] & H)%bind_inv.
  rewrite list_lookup_total_alt, Hp in H. simpl in H.
  destruct (find_index _ (p_ofile p)) as [fd|] eqn:E; [|by injection H as <- <-].
  apply find_index_Some in E as [(x & Hx & Hn) _]. apply bool_decide_eq_true in Hn as ->.
  apply bind_inv in H as ([] & s2 & (k & E2 & ->)%pcall_Ok & [= <- <-]). injection E2 as <-.
  assert (procs (set_fd_at cur fd (Some f) (kps s)) !! cur = Some (set_ofile (<[fd := Some f]> (p_ofile p)) p)) as Hp'
    by (simpl; by rewrite list_lookup_alter_eq, Hp).
  split; [|split].
  - eapply files_inv_ext; [|eapply (set_fd_inv _ _ _ _ _ _ (Some f) Hi Hp Hx (conj Hf Hd))]. intros g. simpl. lia.
  - exists (set_ofile (<[fd := Some f]> (p_ofile p)) p). done.
  - exists (set_ofile (<[fd := Some f]> (p_ofile p)) p). split; [done|].
    apply list_lookup_insert_eq. by eapply lookup_lt_Some.
Qed.

Lemma set_fd_none_inv d cur fd f s p s' : kinv d s → procs (kps s) !! cur = Some p →
  p_ofile p !! fd = Some (Some f) → set_fd cur fd None s = Ok (tt, s') → kinv (λ g, d g + one f g) s'.
Proof.
  intros Hi Hp Hfd (k & E & ->)%pcall_Ok. injection E as <-.
  eapply files_inv_ext; [|eapply (set_fd_inv _ _ _ _ _ _ None Hi Hp Hfd I)]. intros g. simpl. lia.
Qed.

Lemma fileclose_kinv d f s r s' : kinv d s → fcalls (fileclose end_ f) s = Ok (r, s') →
  kinv (λ g, d g - one f g) s' ∧ procs (kps s') = procs (kps s).
Proof. intros Hi (k & E & ->)%pcall_Ok. by eapply fileclose_inv. Qed.
Lemma filedup_kinv d f s r s' : kinv d s → fcalls (filedup f) s = Ok (r, s') → kinv (λ g, d g + one f g) s'.
Proof. intros Hi (k & E & ->)%pcall_Ok. by eapply filedup_inv. Qed.
Lemma filealloc_kinv d s o s' : kinv d s → fcalls filealloc s = Ok (o, s') →
  match o with
  | None => kframe s s'
  | Some f => (f < NFILE)%nat ∧ kinv (λ g, d g + one f g) s' ∧ procs (kps s') = procs (kps s)
  end.
Proof.
  intros Hi (k & E & ->)%pcall_Ok. pose proof (filealloc_inv _ _ _ _ Hi E) as H. destruct o; [done|].
  subst k. apply frame_refl.
Qed.

Lemma sys_dup_inv d cur s r s' : kinv d s → caller s cur → sys_dup cur s = Ok (r, s') → kinv d s'.
Proof.
  intros Hi Hc. unfold sys_dup, with_fd. intros (o & s1 & E1 & H)%bind_inv.
  apply argfd_spec in E1 as [-> Ho]. destruct o as [[fd f]|]; [|by injection H as <- <-].
  destruct Ho as (p & Hp & Hfd). apply bind_inv in H as (o & s2 & E2 & H).
  assert (f < NFILE)%nat as Hf by (eapply (fi_range _ _ Hi); [done|by eapply list_elem_of_lookup_2]).
  pose proof (fdalloc_inv _ _ _ _ _ _ Hi Hc Hf E2) as H2. destruct o as [fd'|].
  - destruct H2 as (Hi2 & _). apply bind_inv in H as (x & s3 & E3 & [= <- <-]).
    eapply files_inv_ext; [|by eapply filedup_kinv]. intros g. simpl. lia.
  - subst. by injection H as <- <-.
Qed.

Lemma sys_close_inv d cur s r s' : kinv d s → sys_close end_ cur s = Ok (r, s') → kinv d s'.
Proof.
  intros Hi. unfold sys_close, with_fd. intros (o & s1 & E1 & H)%bind_inv.
  apply argfd_spec in E1 as [-> Ho]. destruct o as [[fd f]|]; [|by injection H as <- <-].
  destruct Ho as (p & Hp & Hfd). apply bind_inv in H as ([] & s2 & E2 & H).
  apply bind_inv in H as (wk & s3 & E3 & H). apply bind_inv in H as ([] & s4 & E4 & [= <- <-]).
  eapply kinv_kframe; [by eapply wake_kframe|].
  eapply files_inv_ext; [|eapply fileclose_kinv; [eapply (set_fd_none_inv _ _ _ _ _ _ _ Hi Hp Hfd E2)|exact E3]].
  intros g. simpl. lia.
Qed.

(** A call of several steps into [file.c]. *)
Lemma kcall_bind_inv {A B} (c : M fsys A) (k : A → M fsys B) (s : pst fsys) b s' :
  kcall (c ≫= k) s = Ok (b, s') → ∃ a s1, kcall c s = Ok (a, s1) ∧ kcall (k a) s1 = Ok (b, s').
Proof.
  unfold kcall. destruct ((c ≫= k) (krest s)) as [[b' r]| | |] eqn:E; [|done..]. intros [= <- <-].
  apply bind_inv in E as (a & r1 & -> & E). exists a, (with_rest r1 s). split; [done|]. simpl. by rewrite E.
Qed.

Lemma pipealloc_inv d s o s' : files_inv d s → kcall (pipealloc end_) s = Ok (o, s') →
  match o with
  | None => files_inv d s'
  | Some (rf, wf) => (rf < NFILE)%nat ∧ (wf < NFILE)%nat ∧ files_inv (λ g, d g + one rf g + one wf g) s'
  end ∧ Forall2 calm (procs s) (procs s').
Proof.
  intros Hi. unfold pipealloc. intros (o0 & s1 & E1 & H)%kcall_bind_inv.
  pose proof (filealloc_inv _ _ _ _ Hi E1) as H1. destruct o0 as [i0|].
  2: { subst s1. unfold kcall in H. simpl in H. injection H as <- <-. split; [|done].
       apply (files_frame _ s); [by split|done]. }
  destruct H1 as (Hl0 & Hi1 & Ep1). apply kcall_bind_inv in H as (o1 & s2 & E2 & H).
  pose proof (filealloc_inv _ _ _ _ Hi1 E2) as H2. destruct o1 as [i1|].
  2: { subst s2. apply kcall_bind_inv in H as (wk & s3 & E3 & H). destruct (fileclose_inv _ _ _ _ _ _ Hi1 E3) as [Hi3 Ep3].
       unfold kcall in H. simpl in H. injection H as <- <-. simpl. rewrite Ep3, Ep1. split; [|done].
       apply (files_frame _ s3); [by split|]. eapply files_inv_ext; [|exact Hi3]. intros g. simpl. lia. }
  destruct H2 as (Hl1 & Hi2 & Ep2). apply kcall_bind_inv in H as (p & s3 & E3 & H).
  apply (kcall_frame _ (km_do_refs _)) in E3 as F3. pose proof (files_frame _ _ _ F3 Hi2) as Hi3.
  assert (Forall2 calm (procs s) (procs s3)) as C3 by (rewrite <- Ep1, <- Ep2; apply F3). destruct (p =? 0).
  - apply kcall_bind_inv in H as (wk & s4 & E4 & H). destruct (fileclose_inv _ _ _ _ _ _ Hi3 E4) as [Hi4 Ep4].
    apply kcall_bind_inv in H as (wk' & s5 & E5 & H). destruct (fileclose_inv _ _ _ _ _ _ Hi4 E5) as [Hi5 Ep5].
    unfold kcall in H. simpl in H. injection H as <- <-. simpl. rewrite Ep5, Ep4. split; [|done].
    apply (files_frame _ s5); [by split|]. eapply files_inv_ext; [|exact Hi5]. intros g. simpl. lia.
  - match type of H with kcall ?c _ = _ => assert (within frame (kcall c)) as Hc end.
    { apply kcall_frame. wi. }
    assert (o = Some (i0, i1)) as ->.
    { repeat (apply kcall_bind_inv in H as (? & ? & _ & H)). unfold kcall in H. simpl in H. by injection H as <- _. }
    pose proof (Hc _ _ _ H) as F. split; [|etrans; [exact C3|apply F]]. split; [done|]. split; [done|]. by eapply files_frame.
Qed.

Lemma open_fd_inv d cur s o s' : kinv d s → caller s cur → open_fd end_ cur s = Ok (o, s') → kinv d s'.
Proof.
  intros Hi Hc. unfold open_fd. intros (o0 & s1 & E1 & H)%bind_inv.
  pose proof (filealloc_kinv _ _ _ _ Hi E1) as H1. destruct o0 as [f|].
  2: { injection H as <- <-. by eapply kinv_kframe. }
  destruct H1 as (Hf & Hi1 & Ep1). assert (caller s1 cur) as Hc1 by (unfold caller; by rewrite Ep1).
  apply bind_inv in H as (o1 & s2 & E2 & H). pose proof (fdalloc_inv _ _ _ _ _ _ Hi1 Hc1 Hf E2) as H2.
  destruct o1 as [fd|].
  - injection H as <- <-. destruct H2 as (Hi2 & _). eapply files_inv_ext; [|exact Hi2]. intros g. simpl. lia.
  - subst s2. apply bind_inv in H as (wk & s3 & E3 & H). apply bind_inv in H as ([] & s4 & E4 & [= <- <-]).
    eapply kinv_kframe; [by eapply wake_kframe|]. eapply files_inv_ext; [|by eapply fileclose_kinv]. intros g. simpl. lia.
Qed.

(** The step [E] of a handler stays within [kframe]. *)
Ltac framed E F :=
  match type of E with ?c _ = _ => assert (within kframe c) as F by args; apply F in E; clear F end.

Lemma sys_open_inv d cur s r s' : kinv d s → caller s cur → sys_open end_ devs name0 cur s = Ok (r, s') → kinv d s'.
Proof.
  intros Hi Hc. unfold sys_open, with_path. intros (o & s1 & E1 & H)%bind_inv. framed E1 F.
  destruct o as [path|]; [|injection H as <- <-; by eapply kinv_kframe].
  unfold with_int in H. apply bind_inv in H as (o & s2 & E2 & H). framed E2 F.
  destruct o as [omode|]; [|injection H as <- <-; by do 2 (eapply kinv_kframe; [done|])].
  apply bind_inv in H as (cwd & s3 & E3 & H). framed E3 F. apply bind_inv in H as (u & s4 & E4 & H). framed E4 F.
  apply bind_inv in H as (ri & s5 & E5 & H). framed E5 F.
  assert (kframe s s5) as F5 by (do 4 (etrans; [eassumption|]); done).
  pose proof (kinv_kframe _ _ _ F5 Hi) as Hi5. pose proof (caller_kframe _ _ _ F5 Hc) as Hc5.
  destruct ri as [ip|say]; [|framed H F; by eapply kinv_kframe].
  apply bind_inv in H as (o & s6 & E6 & H). pose proof (open_fd_inv _ _ _ _ _ Hi5 Hc5 E6) as Hi6.
  eapply kinv_kframe; [|exact Hi6]. destruct o as [[f fd]|]; framed H F; exact H.
Qed.

Lemma sys_pipe_inv d cur s r s' : kinv d s → caller s cur → sys_pipe end_ cur s = Ok (r, s') → kinv d s'.
Proof.
  intros Hi Hc. unfold sys_pipe, with_ptr. intros (o & s1 & E1 & H)%bind_inv. framed E1 F.
  pose proof (kinv_kframe _ _ _ E1 Hi) as Hi1. pose proof (caller_kframe _ _ _ E1 Hc) as Hc1.
  destruct o as [fd|]; [|by injection H as <- <-]. clear E1 Hi Hc.
  apply bind_inv in H as (o & s2 & (k & E2 & ->)%pcall_Ok & H).
  destruct (pipealloc_inv _ _ _ _ Hi1 E2) as [H2 C2].
  assert (caller (set_kps k s1) cur) as Hc2.
  { destruct Hc1 as (p & Hp & Hd). eapply Forall2_lookup_l in C2 as (p' & Hp' & _ & D); [|done]. exists p'. auto. }
  destruct o as [[rf wf]|]; [|by injection H as <- <-]. destruct H2 as (Hrf & Hwf & Hi2).
  set (s2 := set_kps k s1) in *. change k with (kps s2) in Hi2. clearbody s2.
  assert (∀ d s3 s4, kinv (λ g, d g + one rf g + one wf g) s3 →
    (wk ← fcalls (fileclose end_ rf); wake wk;; wk ← fcalls (fileclose end_ wf); wake wk;; mret (Some (-1))) s3 = Ok (r, s4) →
    kinv d s4) as Hbad.
  { intros d' s3 s4 H3 (wk & t1 & T1 & T)%bind_inv. apply (fileclose_kinv _ _ _ _ _ H3) in T1 as [H4 _].
    apply bind_inv in T as ([] & t2 & T2%wake_kframe & T). apply (kinv_kframe _ _ _ T2) in H4.
    apply bind_inv in T as (wk' & t3 & T3 & T). apply (fileclose_kinv _ _ _ _ _ H4) in T3 as [H5 _].
    apply bind_inv in T as ([] & t4 & T4%wake_kframe & [= _ <-]). apply (kinv_kframe _ _ _ T4) in H5.
    eapply files_inv_ext; [|exact H5]. intros g. simpl. lia. }
  apply bind_inv in H as (o & s3 & E3 & H). pose proof (fdalloc_inv _ _ _ _ _ _ Hi2 Hc2 Hrf E3) as H3.
  destruct o as [fd0|]; [|subst s3; by eapply Hbad]. destruct H3 as (Hi3 & Hc3 & p3 & Hp3 & Hfd3).
  apply bind_inv in H as (o & s4 & E4 & H). pose proof (fdalloc_inv _ _ _ _ _ _ Hi3 Hc3 Hwf E4) as H4.
  destruct o as [fd1|].
  - destruct H4 as (Hi4 & _). framed H F. eapply kinv_kframe; [exact H|].
    eapply files_inv_ext; [|exact Hi4]. intros g. simpl. lia.
  - subst s4. apply bind_inv in H as ([] & s5 & E5 & H).
    eapply Hbad; [|exact H]. eapply files_inv_ext; [|eapply (set_fd_none_inv _ _ _ _ _ _ _ Hi3 Hp3 Hfd3 E5)]. intros g. simpl. lia.
Qed.

(** ** Every system call *)

Lemma file_call_inv d num cur s r s' : kinv d s → caller s cur →
  file_call end_ data devs name0 num cur s = Ok (r, s') → kinv d s'.
Proof.
  intros Hi Hc H.
  assert (∀ c : M (ksys fsys) (option Z), within kframe c → c s = Ok (r, s') → kinv d s') as Hf
    by (intros c Hw E; eapply kinv_kframe; [by eapply Hw|done]).
  assert (num = 4 ∨ num = 10 ∨ num = 15 ∨ num = 21 ∨ within kframe (file_call end_ data devs name0 num cur)) as Hn.
  { unfold file_call. repeat case_match; auto; do 4 right;
      first [apply sys_read_kframe|apply sys_exec_kframe|apply sys_fstat_kframe|apply sys_chdir_kframe|apply sys_write_kframe
        |apply sys_mknod_kframe|apply sys_unlink_kframe|apply sys_link_kframe|apply sys_mkdir_kframe|apply sys_chmod_kframe
        |apply within_undef]. }
  destruct Hn as [->|[->|[->|[->|Hn]]]]; [by eapply sys_pipe_inv|by eapply sys_dup_inv|by eapply sys_open_inv|by eapply sys_close_inv|].
  by eapply Hf.
Qed.

(** The calls of [sysproc.c] that are not about processes being made. *)
Lemma kill_kframe cur : within kframe (sys_kill cur).
Proof. unfold sys_kill. args. apply pcall_kframe, kill_frame. Qed.
Lemma sbrk_kframe cur : within kframe (sys_sbrk cur).
Proof. unfold sys_sbrk. args. apply pcall_kframe, growproc_frame. Qed.
Lemma sleep_kframe cur : within kframe (sys_sleep cur : M (ksys fsys) _).
Proof. unfold sys_sleep, sleep_round. args. apply pcall_kframe, sleep_enter_frame. Qed.
Lemma gethistory_kframe cur : within kframe (sys_gethistory cur : M (ksys fsys) _).
Proof. unfold sys_gethistory, user_store. args. Qed.
Lemma block_kframe cur : within kframe (sys_block cur : M (ksys fsys) _).
Proof. unfold sys_block. args. Qed.
Lemma unblock_kframe cur : within kframe (sys_unblock cur : M (ksys fsys) _).
Proof. unfold sys_unblock. args. Qed.

Lemma handler_files_inv d num f cur s r s' : kinv d s → caller s cur →
  syscalls (file_call end_ data devs name0) num = Some f → f cur s = Ok (r, s') → kinv d s'.
Proof.
  intros Hi Hc Hf H. unfold syscalls in Hf.
  assert (within kframe (f cur) → kinv d s') as Hw by (intros Hw; eapply kinv_kframe; [by eapply Hw|done]).
  repeat match type of Hf with (if ?b then _ else _) = _ => destruct b; [injection Hf as <-|] end; try done.
  - unfold sys_fork in H. apply bind_inv in H as (pid & s1 & (k & E & ->)%pcall_Ok & H).
    destruct Hc as (p & Hp & Hd). assert (files_inv d k) as Hk
      by (eapply fork_inv; [exact Hi|exact Hp|intros ?; apply Hd; by left|exact E]).
    match type of H with ?c _ = _ => assert (within kframe c) as F by args; apply F in H end.
    by eapply kinv_kframe.
  - unfold sys_exit in H. apply bind_inv in H as ([] & s1 & (k & E & ->)%pcall_Ok & [= <- <-]).
    destruct Hc as (p & Hp & Hd). by eapply exit_inv.
  - unfold sys_wait in H. apply pcall_Ok in H as (k & E & ->). by eapply wait_round_files.
  - apply Hw, kill_kframe.
  - apply Hw. unfold sys_getpid. args.
  - apply Hw, sbrk_kframe.
  - apply Hw, sleep_kframe.
  - apply Hw. unfold sys_uptime. args.
  - apply Hw, gethistory_kframe.
  - apply Hw, block_kframe.
  - apply Hw, unblock_kframe.
  - by eapply file_call_inv.
Qed.

Lemma syscall_files_inv d cur s s' : kinv d s → caller s cur →
  xv6_syscall end_ data initcode initsz forkret trapret devs name0 cur s = Ok (tt, s') → kinv d s'.
Proof.
  intros Hi Hc. unfold xv6_syscall, syscall. intros (p & s1 & [= <- <-] & H)%bind_inv.
  assert (∀ v s, kinv d s → put_eax cur v s = Ok (tt, s') → kinv d s') as Hput
    by (intros v t Ht E; eapply kinv_kframe; [by eapply put_eax_kframe|done]).
  destruct (if _ && _ then _ else None) as [f|] eqn:Ef; [|by eapply Hput].
  destruct (_ && _); [|done]. apply bind_inv in H as (b & s1 & [= <- <-] & H).
  destruct (_ && negb _); [by eapply Hput|]. apply bind_inv in H as (r & s2 & E2 & H).
  pose proof (handler_files_inv _ _ _ _ _ _ _ Hi Hc Ef E2) as Hi2.
  destruct r as [v|]; [by eapply Hput|by injection H as <-].
Qed.

(** The steps of the kernel between which files are looked at: a system call
    of a live process, the start of the first process, the scheduler, and
    user code, which changes memory and the registers of a process. *)
Inductive sys_step : ksys fsys → ksys fsys → Prop :=
| ss_call cur s s' : caller s cur →
    xv6_syscall end_ data initcode initsz forkret trapret devs name0 cur s = Ok (tt, s') → sys_step s s'
| ss_init s s' : pcall userinit s = Ok (tt, s') → sys_step s s'
| ss_dispatch c i s b s' : pcall (dispatch c i) s = Ok (b, s') → sys_step s s'
| ss_yield cur s s' : pcall (yield cur) s = Ok (tt, s') → sys_step s s'
| ss_user cur s m t : sys_step s (set_umem cur m (set_kps (upd cur (set_tfv t) (kps s)) s)).
End calls.

(** C2: from a state in which the reference count of every open file is the
    number of descriptors that name it, every state the kernel reaches by
    system calls, scheduling and user code is such a state.  So no sequence of
    calls loses an open file or frees one that is in use, and [filedup] and
    [fileclose] of an open descriptor do not panic. *)
Theorem files_counted (end_ data initcode initsz forkret trapret : Z) (devs : Z → devsw) (name0 : list Z)
    (s0 s : ksys fsys) : files_ok (kps s0) →
  rtc (sys_step end_ data initcode initsz forkret trapret devs name0) s0 s →
  files_ok (kps s) ∧
  ∀ i p j f, procs (kps s) !! i = Some p → p_ofile p !! j = Some (Some f) → 1 ≤ f_ref (ftab (krest (kps s)) !!! f).
Proof.
  intros Hi Hr. assert (files_ok (kps s)) as Hs.
  { induction Hr as [s|s1 s2 s3 H12 _ IH]; [done|]. apply IH. clear IH.
    destruct H12 as [cur s1 s2 Hc H|s1 s2 H|c i s1 b s2 H|cur s1 s2 H|cur s1 m t].
    - by eapply syscall_files_inv.
    - apply pcall_Ok in H as (k & H & ->). by eapply userinit_inv.
    - eapply files_frame; [|exact Hi]. revert H. apply pcall_kframe. eapply dispatch_frame.
    - eapply files_frame; [|exact Hi]. revert H. apply pcall_kframe, yield_frame.
    - eapply files_frame; [|exact Hi]. split; [done|]. apply alter_calm. calm. }
  split; [done|]. intros i p j f Hp Hj. apply list_elem_of_lookup_2 in Hj.
  rewrite (fi_ref _ _ Hs) by (by eapply (fi_range _ _ Hs)). pose proof (fds_pos _ _ _ _ Hp Hj). lia.
Qed.
