(* ===== verification/Blocked.v ===== *)
(** * Blocked system calls in the whole kernel

    [block] and [unblock] of [Syscall.v] in the kernel put together in
    [Exec.v]: no handler of [sysfile.c], nor [exec], touches the table of
    blocked calls, so the calls a shell needs to get out of a blocked state
    stay available whatever processes do. *)

From S2P Require Import Prelude CString Layout Proc Syscall Fs Vm File Sysfile Exec FileInv FileCalls.

Definition same_blocked : relation (ksys fsys) := λ s s', blocked s' = blocked s.
#[local] Instance same_blocked_preorder : PreOrder same_blocked.
Proof. split; [done|]. intros x y z H1 H2. unfold same_blocked in *. congruence. Qed.

(** A call into the rest of the kernel cannot reach the table. *)
Lemma pcall_blocked {A} (c : M (pst fsys) A) : within same_blocked (pcall c).
Proof. exact (keeps_pcall c). Qed.
Lemma umem_blocked cur f : within same_blocked (modify (λ s, set_umem cur (f s) s)).
Proof. by apply within_modify. Qed.

(** Splits a handler into the calls it is made of. *)
Ltac unblocked := repeat first
  [ progress unfold with_fd, with_int, with_ptr, with_path, arg_path, argstr, argptr, argfd, argint, curproc, curmem,
      fcalls, fsk, wake, in_op, cwd_of, set_fd, fdalloc, open_fd, finish, file_mode, file_inum
  | apply pcall_blocked | apply umem_blocked | wi_step ].

Section blocked.
Context (end_ data initcode initsz forkret trapret : Z) (devs : Z → devsw) (name0 : list Z).
#[local] Instance kernel : Kernel fsys := xv6_kernel end_ data initcode initsz forkret trapret devs.

Lemma exec_blocked cur path argv : within same_blocked (exec end_ data devs cur path argv).
Proof. unfold exec. unblocked. Qed.
Lemma sys_exec_blocked cur : within same_blocked (sys_exec end_ data devs cur).
Proof. unfold sys_exec. unblocked. apply exec_blocked. Qed.
Lemma file_call_blocked num cur : within same_blocked (file_call end_ data devs name0 num cur).
Proof.
  unfold file_call. repeat case_match; try apply within_undef; try apply sys_exec_blocked;
    unfold sys_pipe, sys_read, sys_fstat, sys_chdir, sys_dup, sys_open, sys_write, sys_mknod, sys_unlink, sys_link,
      sys_mkdir, sys_close, sys_chmod; unblocked.
Qed.

Lemma sys_step_block_inv s s' : block_inv s → sys_step end_ data initcode initsz forkret trapret devs name0 s s' → block_inv s'.
Proof.
  intros Hi Hs. destruct Hs as [cur s s' _ H|s s' H|c i s b s' H|cur s s' H|cur s m t].
  - exact (syscall_inv _ file_call_blocked cur s s' Hi H).
  - apply (block_inv_same s); [exact (pcall_blocked _ _ _ _ H)|done].
  - apply (block_inv_same s); [exact (pcall_blocked _ _ _ _ H)|done].
  - apply (block_inv_same s); [exact (pcall_blocked _ _ _ _ H)|done].
  - by apply (block_inv_same s).
Qed.
End blocked.

(** C25: from a kernel in which nothing is blocked, whatever system calls
    processes make (all of them, those on files and [exec] included), however
    they are scheduled and whatever user code does, [fork], [exit] and
    [unblock] are never blocked. *)
Theorem critical_calls_never_blocked (end_ data initcode initsz forkret trapret : Z) (devs : Z → devsw) (name0 : list Z)
    (s0 s : ksys fsys) (n : Z) : blocked s0 = replicate (Z.to_nat MAX_SYSCALLS) 0 →
  rtc (sys_step end_ data initcode initsz forkret trapret devs name0) s0 s → n ∈ critical →
  blocked s !! Z.to_nat n = Some 0.
Proof.
  intros Hb Hs Hn. apply bi_free; [|done]. assert (block_inv s0) as Hi by by apply block_inv_boot. clear Hb.
  induction Hs as [|s s1 s2 H1 _ IH]; [done|]. apply IH. by eapply sys_step_block_inv.
Qed.
