(* ===== verification/Perm.v ===== *)
(** * Permissions

    What the permission checks added to [sysfile.c] do: reads and writes
    without permission are refused and change nothing; a file opened for
    reading is never checked; and the checks go through the inode of the
    file, which a pipe does not have. *)

From S2P Require Import Prelude CString Layout Kalloc Proc ProcInv Syscall Block Log Fs Vm File Sysfile Exec.
From S2P Require Pipe.

(** The open files and the file system, as a system call sees them. *)
Abbreviation sys_files s := (krest (kps s)).
Definition set_ffs (x : fss) (s : ksys fsys) : ksys fsys :=
  let k := sys_files s in
  set_kps (with_rest (Fsys (fk k) x (ftab k) (fpipes k) (last_failed_fd k) (fmsgs k)) (kps s)) s.

Lemma fcalls_gets {A} (g : fsys → A) s : fcalls (gets g) s = Ok (g (sys_files s), s).
Proof. by destruct s as [[] um b t]. Qed.
Lemma fcalls_fs {A} (c : M fss A) s a x : c (ffs (sys_files s)) = Ok (a, x) → fcalls (fs_do c) s = Ok (a, set_ffs x s).
Proof. intros H. unfold fcalls, pcall, kcall, fs_do. by rewrite H. Qed.

(** The arguments of [read] and [write]: an open descriptor and a buffer in
    the memory of the process. *)
Record io_args (cur : nat) (s : ksys fsys) (fd f : nat) (n p : Z) : Prop := {
  io_fd : argfd cur 0 s = Ok (Some (fd, f), s);
  io_n : arg_word cur 2 s = Some n;
  io_buf : argptr cur 1 n s = Ok (Some p, s)
}.

Section perm.
Context (devs : Z → devsw).

(** Both calls up to the permission check. *)
Lemma io_start cur s fd f n p (k : Z → Z → nat → M (ksys fsys) (option Z)) : io_args cur s fd f n p →
  with_fd cur 0 (λ _ f, with_int cur 2 (λ n, with_ptr cur 1 n (λ p, k n p f))) s = k n p f s.
Proof.
  intros [H1 H2 H3]. unfold with_fd. rewrite (bind_ok _ _ _ _ _ H1). rewrite with_int_eq, H2.
  unfold with_ptr. by rewrite (bind_ok _ _ _ _ _ H3).
Qed.

(** The mode of a file with an inode. *)
Lemma file_mode_eq f s ip x x' : f_ip (ftab (sys_files s) !!! f) = Some ip →
  ilock ip (ffs (sys_files s)) = Ok (tt, x) → iunlock ip x = Ok (tt, x') →
  file_mode f s = Ok (i_mode (ino x ip), set_ffs x' s).
Proof.
  intros Hip Hl Hu. unfold file_mode. rewrite (bind_ok _ _ _ _ _ (fcalls_gets _ s)). rewrite Hip.
  unfold ilock_ptr, iunlock_ptr. cbn match. rewrite (bind_ok _ _ _ _ _ (fcalls_fs _ _ _ _ Hl)).
  rewrite (bind_ok _ _ _ _ _ (fcalls_gets _ _)).
  rewrite (bind_ok _ _ _ _ _ (fcalls_fs (iunlock ip) (set_ffs x s) tt x' Hu)). done.
Qed.

(** C40: [read] and [write] of a file whose mode lacks the permission return
    -1: the open files, the pipes, the processes and the memory of the caller
    stay, and nothing happens in the file system but that the inode is locked
    and unlocked. *)
Theorem permission_denied (cur : nat) (s : ksys fsys) (fd f : nat) (n p : Z) (ip : nat) (x x' : fss) :
  io_args cur s fd f n p → f_ip (ftab (sys_files s) !!! f) = Some ip →
  ilock ip (ffs (sys_files s)) = Ok (tt, x) → iunlock ip x = Ok (tt, x') →
  let unchanged s' := ffs (sys_files s') = x' ∧ ftab (sys_files s') = ftab (sys_files s) ∧
    fpipes (sys_files s') = fpipes (sys_files s) ∧ procs (kps s') = procs (kps s) ∧ umem s' = umem s in
  (Z.land (i_mode (ino x ip)) 4 = 0 → ∃ s', sys_read devs cur s = Ok (Some (-1), s') ∧ unchanged s') ∧
  (Z.land (i_mode (ino x ip)) 2 = 0 → ∃ s', sys_write devs cur s = Ok (Some (-1), s') ∧ unchanged s').
Proof.
  intros Ha Hip Hl Hu. pose proof (file_mode_eq f s ip x x' Hip Hl Hu) as Hm. split; intros Hz.
  - unfold sys_read. rewrite (io_start _ _ _ _ _ _ _ Ha). rewrite (bind_ok _ _ _ _ _ Hm), Hz. simpl.
    eexists. split; [reflexivity|]. done.
  - unfold sys_write. rewrite (io_start _ _ _ _ _ _ _ Ha). rewrite (bind_ok _ _ _ _ _ Hm), Hz. cbn [truthy Z.eqb negb].
    unfold file_inum. rewrite (bind_ok _ _ _ _ _ (fcalls_gets _ _)), (bind_ok _ _ _ _ _ (fcalls_gets _ _)).
    destruct (negb _); (eexists; split; [reflexivity|done]).
Qed.

(** [read] and [write] of a descriptor whose file has no inode, which is
    what [pipealloc] leaves in an entry used for the first time, panic: the
    permission check locks the inode of the file before looking at its type. *)
Theorem pipe_io_panics (cur : nat) (s : ksys fsys) (fd f : nat) (n p : Z) :
  io_args cur s fd f n p → f_ip (ftab (sys_files s) !!! f) = None →
  sys_read devs cur s = Panic "ilock" ∧ sys_write devs cur s = Panic "ilock".
Proof.
  intros Ha Hip. assert (file_mode f s = Panic "ilock") as Hm.
  { unfold file_mode. rewrite (bind_ok _ _ _ _ _ (fcalls_gets _ s)). by rewrite Hip. }
  split; [unfold sys_read|unfold sys_write]; rewrite (io_start _ _ _ _ _ _ _ Ha); unfold mbind, M_bind; by rewrite Hm.
Qed.

(** [open] for reading never looks at the read permission, and [open] for
    reading and writing at neither: when the path exists and is not a
    directory, the call goes on with the inode whatever its mode is. *)
Theorem open_unchecked (name0 : list Z) (cwd : nat) (path : list Z) (omode : Z) (s s1 s2 : fss) (ip : nat) :
  omode = O_RDONLY ∨ omode = O_RDWR →
  namei devs cwd path s = Ok (Some ip, s1) → ilock ip s1 = Ok (tt, s2) → i_type (ino s2 ip) ≠ T_DIR →
  open_inode devs name0 cwd path omode s = Ok (inl ip, s2).
Proof.
  intros Ho Hn Hl Ht. unfold open_inode.
  assert (truthy (Z.land omode O_CREATE) = false ∧ truthy (Z.land omode O_RDONLY) = false ∧
    truthy (Z.land omode O_WRONLY) = false) as (-> & -> & ->) by (by destruct Ho as [->| ->]).
  rewrite (bind_ok _ _ _ _ _ Hn), (bind_ok _ _ _ _ _ Hl), (bind_ok (gets _) _ s2 _ s2 eq_refl).
  cbn [andb]. by rewrite (proj2 (Z.eqb_neq _ _) Ht).
Qed.
End perm.
