(* ===== verification/FileDemo.v ===== *)
(** * A small machine

    A running process with an open file, a free page and a directory with one
    file: the theorems of [FileCalls.v], [Blocked.v] and [Perm.v] at concrete
    states. *)

From S2P Require Import Prelude CString Layout Kalloc Proc ProcInv Syscall Block Log Fs FsDemo Vm File Sysfile Exec.
From S2P Require Import FileInv FileCalls Blocked Perm.

(** The state after a call, if it returns. *)
Definition final {S A} (c : M S A) (s : S) : S := match c s with Ok (_, s') => s' | _ => s end.
Definition returns {S A} (c : M S A) (s : S) (ok : A → bool) : bool := match c s with Ok (a, _) => ok a | _ => false end.
Lemma returns_final {S} (c : M S unit) s : returns c s (λ _, true) = true → c s = Ok (tt, final c s).
Proof. unfold returns, final. by destruct (c s) as [[[] s']| | |]. Qed.

(** A root directory with the file [f], whose mode is 0. *)
Definition disk (b : Z) : block :=
  if b =? 34 then img_bitmap else if b =? 35 then dirent 2 [102; 0] ++ replicate 496 0 else replicate 512 0.
Definition root_ino : inode := Inode 1 1 1 false true T_DIR 0 0 1 16 (35 :: replicate 12 0) 7.
Definition file_ino : inode := Inode 1 2 1 false true T_FILE 0 0 1 0 (replicate 13 0) 0.
Definition fs0 : fss :=
  FS (LSt (blk_boot disk 200) 2 30 1 false 0 (replicate 30 0)) img_sb (root_ino :: file_ino :: replicate 48 zero_inode).

(** One page on the free list. *)
Definition page : Z := KERNBASE + 2 ^ 22.
Definition km0 : kmem := Kmem (λ _, 0) page.
(** Descriptor 0 of the process is file 0 of the table when [open] is set. *)
Definition fsys0 (open : bool) : fsys :=
  Fsys km0 fs0 (if open then File FD_INODE 1 1 1 0 (Some 1%nat) 0 :: replicate 99 zero_file else replicate NFILE zero_file)
    ∅ (-1) [].

(** The process makes the call [num] with the arguments [a], [b] and [c]. *)
Definition user_mem (a b c : Z) : mem := store32 (store32 (store32 (λ _, 0) 4 a) 8 b) 12 c.
Definition tf0 (num : Z) : trapframe := set_eax num zero_tf.
Definition proc0 (num : Z) (open : bool) : proc :=
  Proc 4096 page page RUNNING 1 None 0 (tf0 num) 0 0 (Ctx 0 0 0 0 0) Null 0
    (if open then Some 0%nat :: replicate 15 None else replicate NOFILE None) (Some 0%nat) (replicate 16 0).
Definition machine (num a b c : Z) (open : bool) : ksys fsys :=
  KSys (PSt (proc0 num open :: replicate 63 empty_proc) 2 (Some 0%nat) [Some 0%nat] (replicate 100 empty_hentry) 0 0 (fsys0 open))
    (λ _, user_mem a b c) (replicate 26 0) 0.

Abbreviation call := (xv6_syscall 0 0 0 0 0 0 no_devs []).
Abbreviation step := (sys_step 0 0 0 0 0 0 no_devs []).

(** [pipe(100)] on the machine without open files. *)
Definition m0 : ksys fsys := machine 4 100 0 0 false.
Definition m1 : ksys fsys := final (call 0%nat) m0.

Lemma m0_ok : files_ok (kps m0).
Proof.
  apply files_ok_start; [done|]. assert (∀ n f, (Some f : option nat) ∉ replicate n None) as Hr
    by (intros n f [? _]%elem_of_replicate; done).
  constructor; [by split; [|intros f; apply Hr]|]. apply Forall_replicate. by split; [|intros f; apply Hr].
Qed.

Lemma m1_step : step m0 m1.
Proof.
  apply (ss_call 0 0 0 0 0 0 no_devs [] 0%nat).
  - exists (proc0 4 false). split; [done|]. by intros [?|?].
  - apply returns_final. vm_compute. reflexivity.
Qed.

Lemma files_counted_witness :
  (files_ok (kps m1) ∧
   ∀ i p j f, procs (kps m1) !! i = Some p → p_ofile p !! j = Some (Some f) → 1 ≤ f_ref (ftab (krest (kps m1)) !!! f)) ∧
  p_ofile (procs (kps m1) !!! 0%nat) = Some 0%nat :: Some 1%nat :: replicate 14 None.
Proof.
  split; [|vm_compute; reflexivity].
  apply (files_counted 0 0 0 0 0 0 no_devs [] m0 m1); [exact m0_ok|]. apply rtc_once, m1_step.
Defined.

(** [block(16)], which blocks [write], and then [pipe]. *)
Definition b0 : ksys fsys := machine SYS_block 16 0 0 false.
Definition b1 : ksys fsys := final (call 0%nat) b0.
Definition b2 : ksys fsys := set_umem 0 (user_mem 100 0 0) (set_kps (upd 0 (set_tfv (tf0 4)) (kps b1)) b1).
Definition b3 : ksys fsys := final (call 0%nat) b2.
Lemma call_step b : returns (call 0%nat) b (λ _, true) = true →
  match procs (kps b) !! 0%nat with Some p => state_is RUNNING p | None => false end = true → step b (final (call 0%nat) b).
Proof.
  intros Hr Hc. apply (ss_call 0 0 0 0 0 0 no_devs [] 0%nat); [|by apply returns_final].
  destruct (procs (kps b) !! 0%nat) as [p|] eqn:Ep; [|done]. exists p. split; [done|]. apply bool_decide_eq_true in Hc.
  unfold dead. rewrite Hc. by intros [?|?].
Qed.

Lemma critical_calls_never_blocked_witness :
  (blocked b3 !! 1%nat = Some 0 ∧ blocked b3 !! 16%nat = Some 1) ∧
  p_ofile (procs (kps b3) !!! 0%nat) = Some 0%nat :: Some 1%nat :: replicate 14 None.
Proof.
  split; [split|]; [|vm_compute; reflexivity..].
  apply (critical_calls_never_blocked 0 0 0 0 0 0 no_devs [] b0 b3 SYS_fork); [reflexivity| |by left].
  apply rtc_l with b1; [apply call_step; vm_compute; reflexivity|].
  apply rtc_l with b2; [apply (ss_user 0 0 0 0 0 0 no_devs [])|].
  apply rtc_once, call_step; vm_compute; reflexivity.
Defined.

(** [read(0, 0, 16)] on the machine after [pipe]: the process has put the
    arguments in its memory. *)
Definition m2 : ksys fsys := set_umem 0 (user_mem 0 0 16) m1.
Lemma pipe_io_panics_witness :
  (sys_read no_devs 0 m2 = Panic "ilock" ∧ sys_write no_devs 0 m2 = Panic "ilock") ∧
  f_type (ftab (krest (kps m2)) !!! 0%nat) = FD_PIPE.
Proof.
  split; [|vm_compute; reflexivity]. apply (pipe_io_panics no_devs 0 m2 0 0 16 0).
  - split.
    + assert (argfd 0 0 m2 = Ok (Some (0%nat, 0%nat), final (argfd 0 0) m2)) as ->; [|done].
      unfold final. destruct (argfd 0 0 m2) as [[o s]| | |] eqn:E; apply (f_equal (λ r, match r with Ok (a, _) => Some a | _ => None end)) in E;
        vm_compute in E; by simplify_eq.
    + vm_compute. reflexivity.
    + done.
  - vm_compute. reflexivity.
Defined.

(** [read(0, 0, 16)] and [write(0, 0, 16)] of the file with mode 0. *)
Definition m3 : ksys fsys := machine 5 0 0 16 true.
Definition fs1 : fss := final (ilock 1) fs0.
Definition fs2 : fss := final (iunlock 1) fs1.
Lemma permission_denied_witness :
  let unchanged s' := ffs (krest (kps s')) = fs2 ∧ ftab (krest (kps s')) = ftab (krest (kps m3)) ∧
    fpipes (krest (kps s')) = fpipes (krest (kps m3)) ∧ procs (kps s') = procs (kps m3) ∧ umem s' = umem m3 in
  (0 = 0 → ∃ s', sys_read no_devs 0 m3 = Ok (Some (-1), s') ∧ unchanged s') ∧
  (0 = 0 → ∃ s', sys_write no_devs 0 m3 = Ok (Some (-1), s') ∧ unchanged s').
Proof.
  apply (permission_denied no_devs 0 m3 0 0 16 0 1 fs1 fs2).
  - split; [reflexivity|vm_compute; reflexivity|reflexivity].
  - reflexivity.
  - reflexivity.
  - reflexivity.
Defined.

(** [open("f", O_RDONLY)], from the root directory. *)
Definition fs3 : fss := final (namei no_devs 0 [102]) fs0.
Definition fs4 : fss := final (ilock 1) fs3.
Lemma open_unchecked_witness :
  open_inode no_devs [] 0 [102] O_RDONLY fs0 = Ok (inl 1%nat, fs4) ∧ i_mode (ino fs4 1) = 0.
Proof.
  assert (namei no_devs 0 [102] fs0 = Ok (Some 1%nat, fs3)) as Hn.
  { unfold fs3, final. destruct (namei no_devs 0 [102] fs0) as [[o s]| | |] eqn:E;
      apply (f_equal (λ r, match r with Ok (a, _) => Some a | _ => None end)) in E; vm_compute in E; by simplify_eq. }
  split; [|vm_compute; reflexivity].
  apply (open_unchecked no_devs [] 0 [102] O_RDONLY fs0 fs3 fs4 1); [by left|exact Hn| |].
  - apply returns_final. vm_compute. reflexivity.
  - vm_compute. done.
Defined.
