(* ===== verification/Mp.v ===== *)
(** * Finding the processors

    [mp.c]: the kernel looks for the multiprocessor tables the firmware leaves
    in memory and learns from them which processors and I/O APICs there are.

    Memory is a function from kernel addresses to bytes.  The loop over the
    entries of the table is given a number of rounds and is [None] when it
    needs more.

    The theorems: a table made of the entries the kernel knows is read back as
    written, within as many rounds as it has bytes; a table with an entry of
    another type makes [mpinit] loop for ever, although the code means to
    report it. *)

From S2P Require Import Prelude CString Layout.

Definition MPPROC : Z := 0.
Definition MPBUS : Z := 1.
Definition MPIOAPIC : Z := 2.
Definition MPIOINTR : Z := 3.
Definition MPLINTR : Z := 4.

(** Sizes of [struct mp], [struct mpconf], [struct mpproc], [struct mpioapic]. *)
Definition sizeof_mp : Z := 16.
Definition sizeof_mpconf : Z := 44.
Definition sizeof_mpproc : Z := 20.
Definition sizeof_mpioapic : Z := 8.

(** [sum]: the last byte of the sum of [len] bytes. *)
Definition sum (m : mem) (addr : Z) (len : nat) : Z :=
  u8 (foldl (λ s i, s + m (addr + Z.of_nat i)) 0 (seq 0 len)).

(** [memcmp(p, sig, 4) == 0] *)
Definition sig_at (m : mem) (p : Z) (sig : list Z) : bool :=
  forallb (λ x : nat * Z, m (p + Z.of_nat x.1) =? x.2) (imap pair sig).
Definition sig_MP : list Z := [95; 77; 80; 95].
Definition sig_PCMP : list Z := [80; 67; 77; 80].

(** The loop of [mpsearch1] at [p], [n] structures before the end. *)
Fixpoint mpsearch1_loop (m : mem) (n : nat) (p : Z) : Z :=
  match n with
  | O => 0
  | S n' =>
      if sig_at m p sig_MP && (sum m p (Z.to_nat sizeof_mp) =? 0) then p
      else mpsearch1_loop m n' (p + sizeof_mp)
  end.
Definition mpsearch1 (m : mem) (a len : Z) : Z := mpsearch1_loop m (Z.to_nat ((len + sizeof_mp - 1) / sizeof_mp)) (P2V a).

Definition mpsearch (m : mem) : Z :=
  let bda := P2V 1024 in
  let p := Z.shiftl (Z.lor (Z.shiftl (m (bda + 15)) 8) (m (bda + 14))) 4 in
  let mp :=
    if truthy p then mpsearch1 m p 1024
    else
      let p := Z.lor (Z.shiftl (m (bda + 20)) 8) (m (bda + 19)) * 1024 in
      mpsearch1 m (u32 (p - 1024)) 1024 in
  if truthy mp then mp else mpsearch1 m 983040 65536.

(** Members of [struct mp] and [struct mpconf]. *)
Definition mp_physaddr (m : mem) (mp : Z) : Z := load32 m (mp + 4).
Definition mp_imcrp (m : mem) (mp : Z) : Z := m (mp + 12).
Definition conf_length (m : mem) (conf : Z) : Z := load16 m (conf + 4).
Definition conf_version (m : mem) (conf : Z) : Z := m (conf + 6).
Definition conf_lapicaddr (m : mem) (conf : Z) : Z := load32 m (conf + 36).

(** [mpconfig]: [struct mp] and the table. *)
Definition mpconfig (m : mem) : option (Z * Z) :=
  let mp := mpsearch m in
  if negb (truthy mp) || (mp_physaddr m mp =? 0) then None else
  let conf := P2V (mp_physaddr m mp) in
  if negb (sig_at m conf sig_PCMP) then None else
  if negb (conf_version m conf =? 1) && negb (conf_version m conf =? 4) then None else
  if truthy (sum m conf (Z.to_nat (conf_length m conf))) then None else
  Some (mp, conf).

(** [cpus[].apicid] of the first [ncpu] processors, [ioapicid]. *)
Record mpst := MpSt {
  cpus : list Z;
  ioapicid : Z
}.

(** The loop of [mpinit]: the state and [ismp]. *)
Fixpoint mpinit_loop (fuel : nat) (m : mem) (p e : Z) (s : mpst) (ismp : bool) : option (mpst * bool) :=
  if negb (p <? e) then Some (s, ismp) else
  match fuel with
  | O => None
  | S fuel' =>
      let t := m p in
      if t =? MPPROC then
        mpinit_loop fuel' m (p + sizeof_mpproc) e
          (if (length (cpus s) <? NCPU)%nat then MpSt (cpus s ++ [m (p + 1)]) (ioapicid s) else s) ismp
      else if t =? MPIOAPIC then
        mpinit_loop fuel' m (p + sizeof_mpioapic) e (MpSt (cpus s) (m (p + 1))) ismp
      else if (t =? MPBUS) || (t =? MPIOINTR) || (t =? MPLINTR) then
        mpinit_loop fuel' m (p + 8) e s ismp
      else mpinit_loop fuel' m p e s false
  end.

(** What [mpinit] has found: the processors and the I/O APIC, the address of
    the local APIC, the bytes it sent to ports. *)
Record mpresult := MpResult {
  r_state : mpst;
  r_lapic : Z;
  r_ports : list (Z * Z)
}.

(** [mpinit]; [imcr] is the byte port 0x23 gives.  [Blocked] is a loop that
    did not end in [fuel] rounds. *)
Definition mpinit (fuel : nat) (m : mem) (imcr : Z) : outcome mpresult :=
  match mpconfig m with
  | None => Panic "Expect to run on an SMP"
  | Some (mp, conf) =>
      match mpinit_loop fuel m (conf + sizeof_mpconf) (conf + conf_length m conf) (MpSt [] 0) true with
      | None => Blocked
      | Some (s, ismp) =>
          if negb ismp then Panic "Didn't find a suitable machine"
          else Ok (MpResult s (conf_lapicaddr m conf)
                     (if truthy (mp_imcrp m mp) then [(34, 112); (35, Z.lor imcr 1)] else []))
      end
  end.

(** ** Searching *)

(** [p] is the address of a structure with the right signature and sum. *)
Definition mp_at (m : mem) (p : Z) : bool := sig_at m p sig_MP && (sum m p (Z.to_nat sizeof_mp) =? 0).

(** [mpsearch1] finds the first structure. *)
Lemma mpsearch1_loop_spec m n p : 0 < p → let r := mpsearch1_loop m n p in
  (r = 0 ∧ ∀ k, (k < n)%nat → mp_at m (p + 16 * Z.of_nat k) = false) ∨
  (∃ k, (k < n)%nat ∧ r = p + 16 * Z.of_nat k ∧ mp_at m r = true ∧ ∀ j, (j < k)%nat → mp_at m (p + 16 * Z.of_nat j) = false).
Proof.
  revert p. induction n as [|n IH]; intros p Hp; cbv zeta; simpl mpsearch1_loop.
  { left. split; [done|]. intros; lia. }
  fold (mp_at m p). destruct (mp_at m p) eqn:E.
  - right. exists 0%nat. split; [lia|]. split; [lia|]. split; [done|]. intros; lia.
  - assert (∀ k, mp_at m (p + sizeof_mp + 16 * Z.of_nat k) = mp_at m (p + 16 * Z.of_nat (S k))) as Es
      by (intros k; f_equal; unfold sizeof_mp; lia).
    assert (∀ Q : nat → Prop, (∀ k, Q (S k) → mp_at m (p + 16 * Z.of_nat (S k)) = false) →
      ∀ k, (k = 0%nat ∨ Q k) → mp_at m (p + 16 * Z.of_nat k) = false) as H0.
    { intros Q HQ [|k] Hk; [by rewrite Z.add_0_r|]. apply HQ. by destruct Hk. }
    destruct (IH (p + sizeof_mp)) as [[Hr Hk]|(k & Hk & Hr & Ha & Hj)]; [unfold sizeof_mp; lia|left|right].
    + split; [done|]. intros k Hk'. apply (H0 (λ k, k < S n)%nat); [|by right]. intros j Hjn. rewrite <- Es. apply Hk. lia.
    + exists (S k). split; [lia|]. split; [unfold sizeof_mp in Hr |- *; lia|]. split; [done|].
      intros j Hjk. apply (H0 (λ j, j < S k)%nat); [|by right]. intros i Hi. rewrite <- Es. apply Hj. lia.
Qed.

(** ** Tables *)

(** The entries of a table; what the kernel does not look at is carried
    along. *)
Inductive entry :=
| EProc (apicid : Z) (rest : list Z)
| EIoapic (apicno : Z) (rest : list Z)
| EOther (type : Z) (rest : list Z).

Definition encode (e : entry) : list Z :=
  match e with
  | EProc apicid rest => MPPROC :: apicid :: rest
  | EIoapic apicno rest => MPIOAPIC :: apicno :: rest
  | EOther type rest => type :: rest
  end.
(** Entries of the types the kernel knows, of their sizes. *)
Definition entry_ok (e : entry) : Prop :=
  match e with
  | EProc _ rest => length rest = 18%nat
  | EIoapic _ rest => length rest = 6%nat
  | EOther type rest => (type = MPBUS ∨ type = MPIOINTR ∨ type = MPLINTR) ∧ length rest = 7%nat
  end.

(** What the table says. *)
Definition apicids (es : list entry) : list Z := omap (λ e, match e with EProc a _ => Some a | _ => None end) es.
Definition ioapics (es : list entry) : list Z := omap (λ e, match e with EIoapic a _ => Some a | _ => None end) es.

(** The bytes [l] are in memory at [p]. *)
Definition bytes_at (m : mem) (p : Z) (l : list Z) : Prop := ∀ i x, l !! i = Some x → m (p + Z.of_nat i) = x.

Lemma bytes_at_app m p l k : bytes_at m p (l ++ k) → bytes_at m p l ∧ bytes_at m (p + Z.of_nat (length l)) k.
Proof.
  intros H. split; intros i x Hi.
  - apply H. by apply lookup_app_l_Some.
  - rewrite <- Z.add_assoc, <- Nat2Z.inj_add. apply H. by rewrite lookup_app_r, Nat.add_sub' by lia.
Qed.

Lemma encode_length e : entry_ok e → (8 ≤ length (encode e) ≤ 20)%nat.
Proof. destruct e; simpl; intros H; [lia|lia|]. destruct H as [_ H]. lia. Qed.

(** One entry, with enough rounds left. *)
Definition step_entry (s : mpst) (e : entry) : mpst :=
  match e with
  | EProc a _ => if (length (cpus s) <? NCPU)%nat then MpSt (cpus s ++ [a]) (ioapicid s) else s
  | EIoapic a _ => MpSt (cpus s) a
  | EOther _ _ => s
  end.
Lemma mpinit_loop_entry fuel m p e s ismp x : entry_ok x → bytes_at m p (encode x) → p < e →
  mpinit_loop (S fuel) m p e s ismp = mpinit_loop fuel m (p + Z.of_nat (length (encode x))) e (step_entry s x) ismp.
Proof.
  intros Hx Hb Hp. cbn [mpinit_loop]. rewrite (proj2 (Z.ltb_lt p e) Hp). cbn [negb].
  assert (∀ y, encode x !! 0%nat = Some y → m p = y) as H0 by (intros y Hy; rewrite <- (Hb 0%nat y Hy); f_equal; lia).
  assert (∀ y, encode x !! 1%nat = Some y → m (p + 1) = y) as H1 by (intros y Hy; exact (Hb 1%nat y Hy)).
  destruct x as [a r|a r|t r]; simpl in Hx.
  - rewrite (H0 MPPROC eq_refl), (H1 a eq_refl). cbn [encode length]. rewrite Hx. reflexivity.
  - rewrite (H0 MPIOAPIC eq_refl), (H1 a eq_refl). cbn [encode length]. rewrite Hx. reflexivity.
  - rewrite (H0 t eq_refl). cbn [encode length]. destruct Hx as [[->|[->| ->]] ->]; reflexivity.
Qed.

Lemma mpinit_loop_table es fuel m p s ismp : Forall entry_ok es → bytes_at m p (concat (encode <$> es)) →
  (length (concat (encode <$> es)) ≤ fuel)%nat →
  mpinit_loop fuel m p (p + Z.of_nat (length (concat (encode <$> es)))) s ismp = Some (foldl step_entry s es, ismp).
Proof.
  revert fuel p s. induction es as [|x es IH]; intros fuel p s Hok Hb Hf.
  { simpl. rewrite Z.add_0_r. destruct fuel; simpl; by rewrite Z.ltb_irrefl. }
  apply Forall_cons in Hok as [Hx Hok]. rewrite fmap_cons in *. cbn [concat] in *. rewrite length_app in *.
  pose proof (encode_length x Hx). destruct (bytes_at_app _ _ _ _ Hb) as [Hb1 Hb2]. destruct fuel as [|fuel]; [lia|].
  rewrite (mpinit_loop_entry fuel m p _ s ismp x Hx Hb1) by lia.
  rewrite Nat2Z.inj_add, Z.add_assoc. rewrite IH by (done || lia). done.
Qed.

Lemma last_default (l : list Z) z a b : List.last (z :: l) a = List.last (z :: l) b.
Proof. revert z. induction l as [|y l IH]; intros z; [done|]. apply (IH y). Qed.

(** The state after the entries: the first [NCPU] processors and the last I/O
    APIC. *)
Lemma foldl_step es s : (length (cpus s) ≤ NCPU)%nat →
  foldl step_entry s es = MpSt (take NCPU (cpus s ++ apicids es)) (List.last (ioapics es) (ioapicid s)).
Proof.
  revert s. induction es as [|x es IH]; intros s Hs; simpl.
  { rewrite app_nil_r, take_ge by done. by destruct s. }
  destruct x as [a r|a r|t r]; simpl.
  - destruct (Nat.ltb_spec (length (cpus s)) NCPU).
    + rewrite IH by (simpl; rewrite length_app; simpl; lia). simpl. by rewrite <- app_assoc.
    + rewrite IH by done. f_equal. rewrite !take_app_le by lia. done.
  - rewrite IH by done. simpl. f_equal. fold (ioapics es). destruct (ioapics es) as [|z l]; [done|]. apply last_default.
  - by rewrite IH.
Qed.

(** C35: [mpinit] reads the tables.  Where [mpsearch] finds a structure that
    points to a table with the right signature, version and sum, whose entries
    are of known types, [mpinit] returns, in at most as many rounds as
    the table has bytes, with exactly the processors the table lists, up to
    [NCPU], the last I/O APIC, and the address of the local APIC. *)
Theorem mpinit_reads_table m imcr mp conf es fuel : mpsearch m = mp → mp ≠ 0 → mp_physaddr m mp ≠ 0 →
  conf = P2V (mp_physaddr m mp) → sig_at m conf sig_PCMP = true → conf_version m conf ∈ [1; 4] →
  sum m conf (Z.to_nat (conf_length m conf)) = 0 → Forall entry_ok es →
  conf_length m conf = sizeof_mpconf + Z.of_nat (length (concat (encode <$> es))) →
  bytes_at m (conf + sizeof_mpconf) (concat (encode <$> es)) → conf_length m conf ≤ Z.of_nat fuel →
  ∃ r, mpinit fuel m imcr = Ok r ∧ cpus (r_state r) = take NCPU (apicids es) ∧
    ioapicid (r_state r) = List.last (ioapics es) 0 ∧ r_lapic r = conf_lapicaddr m conf.
Proof.
  intros Hs H0 Hp Hc Hsig Hv Hsum Hok Hl Hb Hf.
  assert (mpconfig m = Some (mp, conf)) as Ec.
  { unfold mpconfig. rewrite Hs. rewrite (proj2 (truthy_true mp)) by done. rewrite (proj2 (Z.eqb_neq _ _) Hp). cbn [negb orb].
    rewrite <- Hc, Hsig. cbn [negb]. apply elem_of_cons in Hv as [->| ->%list_elem_of_singleton]; cbn; by rewrite Hsum. }
  unfold mpinit. rewrite Ec, Hl, Z.add_assoc. rewrite mpinit_loop_table by (done || (unfold sizeof_mpconf in Hl; lia)). cbn [negb].
  eexists. split; [done|]. rewrite foldl_step by (simpl; lia). done.
Qed.

(** An entry of another type: [ismp] is cleared, but [break] leaves only the
    [switch], and the loop looks at the same entry for ever. *)
Theorem mpinit_unknown_entry_loops m p e s ismp fuel : p < e →
  (m p ∉ [MPPROC; MPIOAPIC; MPBUS; MPIOINTR; MPLINTR]) → mpinit_loop fuel m p e s ismp = None.
Proof.
  intros Hp Ht. rewrite !not_elem_of_cons in Ht. destruct Ht as (H1 & H2 & H3 & H4 & H5 & _).
  revert ismp. induction fuel as [|fuel IH]; intros ismp; cbn [mpinit_loop]; rewrite (proj2 (Z.ltb_lt p e) Hp); [done|]. cbn [negb].
  rewrite !(proj2 (Z.eqb_neq _ _)) by done. cbn [orb]. apply IH.
Qed.

(** ** A machine with two processors *)

Lemma sig_bytes m p l : sig_at m p l = true → bytes_at m p l.
Proof.
  intros H i x Hi. unfold sig_at in H. rewrite forallb_forall in H. specialize (H (i, x)). cbn [fst snd] in H.
  apply Z.eqb_eq, H. apply list_elem_of_In, (list_elem_of_lookup_2 _ i). by rewrite list_lookup_imap, Hi.
Qed.

Definition demo_entries : list entry := [EProc 0 (replicate 18 0); EProc 1 (replicate 18 0); EIoapic 2 (replicate 6 0)].
(** The structure and the table, from physical address 0x9fc00. *)
Definition demo_tables : list Z :=
  sig_MP ++ [16; 252; 9; 0; 1; 4; 139; 0; 0; 0; 0; 0] ++
  sig_PCMP ++ [92; 0; 4; 138] ++ replicate 20 0 ++ [0; 0; 0; 0; 0; 0; 3; 0; 0; 0; 224; 254; 0; 0; 0; 0] ++
  concat (encode <$> demo_entries).
Definition demo_mem (a : Z) : Z :=
  if a =? P2V 1038 then 192 else if a =? P2V 1039 then 159
  else if (P2V 654336 <=? a) && (a <? P2V 654336 + 108) then demo_tables !!! Z.to_nat (a - P2V 654336) else 0.

Lemma demo_table_ok : mpsearch demo_mem = P2V 654336 ∧ mp_physaddr demo_mem (P2V 654336) = 654352 ∧
  sig_at demo_mem (P2V 654352) sig_PCMP = true ∧ conf_version demo_mem (P2V 654352) = 4 ∧
  sum demo_mem (P2V 654352) (Z.to_nat (conf_length demo_mem (P2V 654352))) = 0 ∧ conf_length demo_mem (P2V 654352) = 92 ∧
  conf_lapicaddr demo_mem (P2V 654352) = 4276092928 ∧
  sig_at demo_mem (P2V 654352 + sizeof_mpconf) (concat (encode <$> demo_entries)) = true.
Proof. vm_compute. repeat split. Qed.

Lemma mpinit_reads_table_witness : ∃ r, mpinit 92 demo_mem 0 = Ok r ∧ cpus (r_state r) = [0; 1] ∧ ioapicid (r_state r) = 2 ∧
  r_lapic r = 4276092928.
Proof.
  destruct demo_table_ok as (H1 & H2 & H3 & H4 & H5 & H6 & H7 & H8). rewrite <- H7.
  assert (P2V 654336 ≠ 0) as Hmp by done.
  apply (mpinit_reads_table demo_mem 0 (P2V 654336) (P2V 654352) demo_entries 92 H1 Hmp).
  - by rewrite H2.
  - by rewrite H2.
  - exact H3.
  - rewrite H4. right. left.
  - exact H5.
  - repeat constructor.
  - exact H6.
  - by apply sig_bytes.
  - rewrite H6. lia.
Defined.
