(* ===== verification/Devices.v ===== *)
(** * Interrupt controller and clock

    [ioapic.c], [picirq.c], the output part of [uart.c] and the clock part of
    [lapic.c].  The devices are parameters: the I/O APIC as registers reached
    through an index register, the serial port and the clock as what their
    registers hold at the time of each read.

    The theorems: after [ioapicinit] and any calls of [ioapicenable] exactly
    the interrupts asked for are enabled, each with its vector and for the CPU
    of the last call; [cmostime] returns, with the date the clock showed at a
    moment between the start and the end of the call. *)

From S2P Require Import Prelude Layout.

(** ** I/O APIC *)

Definition REG_ID : Z := 0.
Definition REG_VER : Z := 1.
Definition REG_TABLE : Z := 16.
Definition INT_DISABLED : Z := 65536.

(** Storing to [reg] and [data], loading from [data]. *)
Class IoApic (D : Type) := {
  set_reg : Z → D → D;
  get_data : D → Z * D;
  set_data : Z → D → D
}.
(** Reading and writing go to the register selected; writing a register of the
    table changes no other one.  [nregs] is the end of the table. *)
Class IoApicLaws (D : Type) `{IoApic D} (nregs : Z) := {
  reg : D → Z → Z;
  law_get r d : (get_data (set_reg r d)).1 = reg d r ∧ ∀ r', reg (get_data (set_reg r d)).2 r' = reg d r';
  law_set r v d r' : REG_TABLE ≤ r < nregs → reg (set_data v (set_reg r d)) r' = if r' =? r then v else reg d r'
}.

Section ioapic.
Context {D : Type} `{IoApic D}.

Definition ioapicread (r : Z) (d : D) : Z * D := get_data (set_reg r d).
Definition ioapicwrite (r v : Z) (d : D) : D := set_data v (set_reg r d).

(** The loop of [ioapicinit], [n] interrupts from [i] on. *)
Fixpoint ioapicinit_loop (n : nat) (i : Z) (d : D) : D :=
  match n with
  | O => d
  | S n' =>
      let d := ioapicwrite (REG_TABLE + 2 * i) (Z.lor INT_DISABLED (T_IRQ0 + i)) d in
      ioapicinit_loop n' (i + 1) (ioapicwrite (REG_TABLE + 2 * i + 1) 0 d)
  end.
(** [ioapicinit]; the result is whether it complains about the id. *)
Definition ioapicinit (ioapicid : Z) (d : D) : bool * D :=
  let '(v, d) := ioapicread REG_VER d in
  let maxintr := Z.land (Z.shiftr v 16) 255 in
  let '(id, d) := ioapicread REG_ID d in
  (negb (Z.shiftr id 24 =? ioapicid), ioapicinit_loop (Z.to_nat (maxintr + 1)) 0 d).

Definition ioapicenable (irq cpunum : Z) (d : D) : D :=
  let d := ioapicwrite (REG_TABLE + 2 * irq) (T_IRQ0 + irq) d in
  ioapicwrite (REG_TABLE + 2 * irq + 1) (u32 (Z.shiftl cpunum 24)) d.
Definition enable_all (l : list (Z * Z)) (d : D) : D := foldl (λ d p, ioapicenable p.1 p.2 d) d l.

Context (maxintr : Z) (Hmax : 0 ≤ maxintr < 256).
Context `{!IoApicLaws D (REG_TABLE + 2 * (maxintr + 1))}.

Lemma init_loop_eq n i d : 0 ≤ i → i + Z.of_nat n = maxintr + 1 →
  (∀ j, i ≤ j ≤ maxintr → reg (ioapicinit_loop n i d) (REG_TABLE + 2 * j) = Z.lor INT_DISABLED (T_IRQ0 + j) ∧
     reg (ioapicinit_loop n i d) (REG_TABLE + 2 * j + 1) = 0) ∧
  (∀ r, ¬ (REG_TABLE + 2 * i ≤ r < REG_TABLE + 2 * (maxintr + 1)) → reg (ioapicinit_loop n i d) r = reg d r).
Proof using Hmax.
  revert i d. induction n as [|n IH]; intros i d Hi Hn; cbn [ioapicinit_loop]; [split; [intros j Hj; lia|done]|].
  set (d1 := ioapicwrite _ _ d). set (d2 := ioapicwrite _ 0 d1).
  assert (∀ r, reg d1 r = if r =? REG_TABLE + 2 * i then Z.lor INT_DISABLED (T_IRQ0 + i) else reg d r) as E1.
  { intros r. apply law_set. lia. }
  assert (∀ r, reg d2 r = if r =? REG_TABLE + 2 * i + 1 then 0 else reg d1 r) as E2 by (intros r; apply law_set; lia).
  destruct (IH (i + 1) d2) as [IH1 IH2]; [lia|lia|]. split.
  - intros j Hj. destruct (decide (j = i)) as [->|]; [|apply IH1; lia]. rewrite !IH2 by lia. rewrite !E2, E1, !Z.eqb_refl.
    by rewrite (proj2 (Z.eqb_neq (REG_TABLE + 2 * i) _)) by lia.
  - intros r Hr. rewrite IH2 by lia. rewrite E2, E1. rewrite !(proj2 (Z.eqb_neq r _)) by lia. done.
Qed.
Lemma enable_eq irq cpu d : 0 ≤ irq ≤ maxintr → ∀ j, 0 ≤ j ≤ maxintr →
  reg (ioapicenable irq cpu d) (REG_TABLE + 2 * j) = (if j =? irq then T_IRQ0 + irq else reg d (REG_TABLE + 2 * j)) ∧
  reg (ioapicenable irq cpu d) (REG_TABLE + 2 * j + 1) = (if j =? irq then u32 (Z.shiftl cpu 24) else reg d (REG_TABLE + 2 * j + 1)).
Proof using Hmax.
  intros Hi j Hj. unfold ioapicenable, ioapicwrite. split; rewrite !law_set by lia; bcase; try done; lia.
Qed.

(** The CPU that [l] asks for last for interrupt [j]. *)
Definition wanted (l : list (Z * Z)) (j : Z) : option Z := snd <$> last (filter (λ p : Z * Z, p.1 = j) l).

(** After [ioapicinit] and a sequence of calls of [ioapicenable] the
    table enables the interrupts that were asked for and no other one, each
    with its own vector and for the CPU of the last call. *)
Theorem ioapic_routes (l : list (Z * Z)) (d : D) ioapicid : reg d REG_VER = Z.shiftl maxintr 16 →
  Forall (λ p, 0 ≤ p.1 ≤ maxintr) l → ∀ j, 0 ≤ j ≤ maxintr →
  let d' := enable_all l (ioapicinit ioapicid d).2 in
  (reg d' (REG_TABLE + 2 * j), reg d' (REG_TABLE + 2 * j + 1)) =
    match wanted l j with
    | Some cpu => (T_IRQ0 + j, u32 (Z.shiftl cpu 24))
    | None => (Z.lor INT_DISABLED (T_IRQ0 + j), 0)
    end.
Proof using Hmax.
  intros Hv Hl j Hj. unfold ioapicinit, ioapicread. destruct (law_get REG_VER d) as [G1 G2].
  destruct (get_data (set_reg REG_VER d)) as [v d1]. cbn [fst snd] in G1, G2. destruct (law_get REG_ID d1) as [G3 G4].
  destruct (get_data (set_reg REG_ID d1)) as [id d2]. cbn [fst snd] in G3, G4 |- *. subst v.
  rewrite Hv, Z.shiftr_shiftl_l, Z.shiftl_0_r by lia. change 255 with (Z.ones 8). rewrite Z.land_ones, Z.mod_small by lia.
  induction l as [|[irq cpu] l IH] using rev_ind.
  - destruct (init_loop_eq (Z.to_nat (maxintr + 1)) 0 d2) as [I _]; [lia|lia|]. simpl. destruct (I j Hj) as [-> ->]. done.
  - apply Forall_app in Hl as [Hl1 Hl2]. rewrite Forall_singleton in Hl2. cbn [fst] in Hl2. unfold enable_all in *. rewrite foldl_snoc. cbn [fst snd].
    destruct (enable_eq irq cpu (foldl (λ d p, ioapicenable p.1 p.2 d) (ioapicinit_loop (Z.to_nat (maxintr + 1)) 0 d2) l) Hl2 j Hj) as [-> ->].
    unfold wanted. rewrite filter_app. destruct (Z.eqb_spec j irq) as [->|Hne].
    + rewrite filter_cons_True, filter_nil, last_snoc by done. done.
    + rewrite filter_cons_False, filter_nil, app_nil_r by (cbn; congruence). by apply IH.
Qed.
End ioapic.

(** ** Serial port and interrupt masks *)

Definition COM1 : Z := 1016.
Definition IO_PIC1 : Z := 32.
Definition IO_PIC2 : Z := 160.

(** [picinit]: the bytes sent to ports. *)
Definition picinit : list (Z * Z) := [(IO_PIC1 + 1, 255); (IO_PIC2 + 1, 255)].

(** The loop of [uartputc]: [n] rounds left, [status] what the status port
    gives read by read; the reads left. *)
Fixpoint uart_wait (n : nat) (status : list Z) : list Z :=
  match n, status with
  | S n', st :: status' => if Z.land st 32 =? 0 then uart_wait n' status' else status'
  | _, _ => status
  end.
Definition uartputc (uart : bool) (c : Z) (status : list Z) : list (Z * Z) * list Z :=
  if negb uart then ([], status) else
  ([(COM1, u8 c)], uart_wait 128 status).
Fixpoint uart_puts (cs : list Z) (status : list Z) : list (Z * Z) * list Z :=
  match cs with
  | [] => ([], status)
  | c :: cs' =>
      let '(o, status) := uartputc true c status in
      let '(o', status) := uart_puts cs' status in (o ++ o', status)
  end.

(** ["xv6...\n"] *)
Definition hello : list Z := [120; 118; 54; 46; 46; 46; 10].
(** [uartinit] with the first status read and those of [uartputc]: the bytes
    sent, [uart], and whether it asks for the interrupt. *)
Definition uartinit (st : Z) (status : list Z) : list (Z * Z) * bool :=
  let setup := [(COM1 + 2, 0); (COM1 + 3, 128); (COM1 + 0, 115200 / 9600); (COM1 + 1, 0); (COM1 + 3, 3); (COM1 + 4, 0); (COM1 + 1, 1)] in
  if st =? 255 then (setup, false) else (setup ++ (uart_puts hello status).1, true).

(** Whatever the port says, the greeting is sent in order. *)
Theorem uart_puts_sends cs status : (uart_puts cs status).1 = (λ c, (COM1, u8 c)) <$> cs.
Proof.
  revert status. induction cs as [|c cs IH]; intros status; [done|]. cbn [uart_puts uartputc negb].
  specialize (IH (uart_wait 128 status)). destruct (uart_puts cs _) as [o s']. cbn [fst] in *. by rewrite IH.
Qed.

(** ** The clock *)

Definition CMOS_STATA : Z := 10.
Definition CMOS_STATB : Z := 11.
Definition CMOS_UIP : Z := 128.
Definition SECS : Z := 0.
Definition MINS : Z := 2.
Definition HOURS : Z := 4.
Definition DAY : Z := 7.
Definition MONTH : Z := 8.
Definition YEAR : Z := 9.

Record rtcdate := RtcDate { second : Z; minute : Z; hour : Z; day : Z; month : Z; year : Z }.
#[export] Instance rtcdate_eq_dec : EqDecision rtcdate.
Proof. solve_decision. Defined.

Section cmos.
(** [clock n r] is what register [r] holds at the time of the [n]-th read. *)
Context (clock : nat → Z → Z).

(** A read, and the number of the next one. *)
Definition cmos_read (r : Z) (n : nat) : Z * nat := (clock n r, S n).

Definition fill_rtcdate (n : nat) : rtcdate * nat :=
  let '(s, n) := cmos_read SECS n in
  let '(mi, n) := cmos_read MINS n in
  let '(h, n) := cmos_read HOURS n in
  let '(d, n) := cmos_read DAY n in
  let '(mo, n) := cmos_read MONTH n in
  let '(y, n) := cmos_read YEAR n in
  (RtcDate s mi h d mo y, n).

(** The loop of [cmostime]. *)
Fixpoint cmos_loop (fuel : nat) (n : nat) : option (rtcdate * nat) :=
  match fuel with
  | O => None
  | S fuel' =>
      let '(t1, n) := fill_rtcdate n in
      let '(a, n) := cmos_read CMOS_STATA n in
      if truthy (Z.land a CMOS_UIP) then cmos_loop fuel' n
      else
        let '(t2, n) := fill_rtcdate n in
        if bool_decide (t1 = t2) then Some (t1, n) else cmos_loop fuel' n
  end.

Definition conv (x : Z) : Z := u32 (Z.shiftr x 4 * 10 + Z.land x 15).
Definition cmostime (fuel : nat) (n : nat) : option (rtcdate * nat) :=
  let '(sb, n) := cmos_read CMOS_STATB n in
  let bcd := Z.land sb 4 =? 0 in
  p ← cmos_loop fuel n;
  let '(t, n) := p in
  let t := if bcd then RtcDate (conv (second t)) (conv (minute t)) (conv (hour t)) (conv (day t)) (conv (month t)) (conv (year t)) else t in
  Some (RtcDate (second t) (minute t) (hour t) (day t) (month t) (u32 (year t + 2000)), n).

(** The date the registers hold at a time. *)
Definition shown (n : nat) : rtcdate :=
  RtcDate (clock n SECS) (clock n MINS) (clock n HOURS) (clock n DAY) (clock n MONTH) (clock n YEAR).
Definition updating (n : nat) : bool := truthy (Z.land (clock n CMOS_STATA) CMOS_UIP).

(** A clock that says no update is under way does not begin one before the
    time is read, in the next six reads. *)
Context (Hquiet : ∀ n, updating n = false → ∀ m, (n ≤ m ≤ n + 6)%nat → shown m = shown n).

Lemma fill_eq n : fill_rtcdate n =
  (RtcDate (clock n SECS) (clock (n + 1) MINS) (clock (n + 2) HOURS) (clock (n + 3) DAY) (clock (n + 4) MONTH) (clock (n + 5) YEAR), (n + 6)%nat).
Proof. unfold fill_rtcdate, cmos_read. by rewrite !Nat.add_succ_r, !Nat.add_0_r. Qed.

(** Reading while the date does not change. *)
Lemma fill_same n m : (∀ j, (n ≤ j ≤ n + 5)%nat → shown j = shown m) → fill_rtcdate n = (shown m, (n + 6)%nat).
Proof.
  intros H. rewrite fill_eq. f_equal.
  rewrite (f_equal second (H n ltac:(lia)) : clock n SECS = _), (f_equal minute (H (n + 1)%nat ltac:(lia)) : clock (n + 1) MINS = _).
  rewrite (f_equal hour (H (n + 2)%nat ltac:(lia)) : clock (n + 2) HOURS = _), (f_equal day (H (n + 3)%nat ltac:(lia)) : clock (n + 3) DAY = _).
  by rewrite (f_equal month (H (n + 4)%nat ltac:(lia)) : clock (n + 4) MONTH = _), (f_equal year (H (n + 5)%nat ltac:(lia)) : clock (n + 5) YEAR = _).
Qed.

(** What the loop returns was shown at the time of one of its reads. *)
Lemma cmos_loop_shown fuel n t n' : cmos_loop fuel n = Some (t, n') → ∃ k, (n ≤ k < n')%nat ∧ t = shown k.
Proof using Hquiet.
  revert n. induction fuel as [|fuel IH]; intros n E; [done|]. cbn [cmos_loop] in E. rewrite fill_eq in E. unfold cmos_read in E.
  fold (updating (n + 6)) in E. destruct (updating (n + 6)) eqn:Hu.
  - destruct (IH _ E) as (k & Hk & Ht). exists k. split; [lia|done].
  - rewrite (fill_same (S (n + 6)) (n + 6)) in E by (intros m Hm; apply Hquiet; [done|lia]). destruct (bool_decide _) eqn:Hb.
    + apply bool_decide_eq_true in Hb. injection E as Et <-. exists (n + 6)%nat. split; [lia|]. congruence.
    + destruct (IH _ E) as (k & Hk & Ht). exists k. split; [lia|done].
Qed.

(** From read [t0] on there is no update for 26 reads. *)
Definition calm (t0 : nat) : Prop := ∀ m, (t0 ≤ m ≤ t0 + 26)%nat → updating m = false ∧ shown m = shown t0.

Lemma cmos_loop_ends t0 fuel n : calm t0 → (n < t0 + 13)%nat → (t0 - n < fuel)%nat → is_Some (cmos_loop fuel n).
Proof using.
  intros Hc. revert n. induction fuel as [|fuel IH]; intros n Hn Hf; [lia|]. cbn [cmos_loop]. rewrite fill_eq. unfold cmos_read.
  fold (updating (n + 6)). destruct (decide (n < t0)%nat) as [Hlt|Hge].
  - destruct (updating (n + 6)); [apply IH; lia|]. rewrite fill_eq. destruct (bool_decide _); [by eexists|apply IH; lia].
  - destruct (Hc (n + 6)%nat) as [-> _]; [lia|]. rewrite (fill_same (S (n + 6)) t0) by (intros m Hm; apply Hc; lia).
    pose proof (fill_same n t0 ltac:(intros m Hm; apply Hc; lia)) as E. rewrite fill_eq in E. injection E as E.
    rewrite bool_decide_true; [by eexists|]. unfold shown. congruence.
Qed.

(** A number below 100 as the clock keeps it. *)
Definition encode (bcd : bool) (x : Z) : Z := if bcd then x / 10 * 16 + x mod 10 else x.
Definition encode_date (bcd : bool) (d : rtcdate) : rtcdate :=
  RtcDate (encode bcd (second d)) (encode bcd (minute d)) (encode bcd (hour d)) (encode bcd (day d)) (encode bcd (month d)) (encode bcd (year d)).
Definition date_ok (d : rtcdate) : Prop := Forall (λ x, 0 ≤ x < 100) [second d; minute d; hour d; day d; month d; year d].

Lemma conv_encode x : 0 ≤ x < 100 → conv (encode true x) = x.
Proof.
  intros Hx. assert (Forall (λ x, conv (encode true x) = x) (seqZ 0 100)) as Hf by (apply (bool_decide_unpack _); by vm_compute).
  rewrite Forall_forall in Hf. apply Hf, elem_of_seqZ. lia.
Qed.

(** [cmostime] returns if the clock leaves it the time of 26 reads without
    an update, and returns a date the clock has shown while it ran, in binary
    or in decimal digits as the clock says, with the century added. *)
Theorem cmostime_date (date : nat → rtcdate) t0 fuel n :
  let bcd := Z.land (clock n CMOS_STATB) 4 =? 0 in
  (∀ m, date_ok (date m) ∧ shown m = encode_date bcd (date m)) → calm t0 → (n < t0)%nat → (t0 - n < fuel)%nat →
  ∃ k n', cmostime fuel n = Some (RtcDate (second (date k)) (minute (date k)) (hour (date k)) (day (date k)) (month (date k)) (year (date k) + 2000), n') ∧
    (n < k < n')%nat.
Proof using Hquiet.
  intros bcd Hd Hc Hn Hf. unfold cmostime, cmos_read. fold bcd.
  destruct (cmos_loop_ends t0 fuel (S n) Hc) as [[t n'] E]; [lia|lia|]. rewrite E. cbn [mbind option_bind].
  destruct (cmos_loop_shown _ _ _ _ E) as (k & Hk & ->). destruct (Hd k) as [Hok Hs]. rewrite Hs.
  exists k, n'. split; [|lia]. unfold date_ok in Hok. rewrite !Forall_cons in Hok. destruct Hok as (O1 & O2 & O3 & O4 & O5 & O6 & _).
  unfold encode_date. destruct bcd; cbn [second minute hour day month year].
  - rewrite !conv_encode, u32_small by lia. done.
  - unfold encode. rewrite u32_small by lia. done.
Qed.
End cmos.

Module DevicesDemo.
(** An I/O APIC with 24 interrupts. *)
#[local] Instance demo_dev : IoApic (Z * (Z → Z)) := {
  set_reg r d := (r, d.2);
  get_data d := (d.2 d.1, d);
  set_data v d := (d.1, λ r, if r =? d.1 then v else d.2 r)
}.
#[local] Instance demo_laws : IoApicLaws (Z * (Z → Z)) (REG_TABLE + 2 * (23 + 1)).
Proof. refine {| reg := λ d : Z * (Z → Z), d.2 |}; simpl; done. Defined.
Definition demo_apic : Z * (Z → Z) := (0, λ r, if r =? REG_VER then Z.shiftl 23 16 else 0).

(** The disk is moved from CPU 0 to CPU 1; nobody wants the timer. *)
Lemma ioapic_routes_witness : let d := enable_all [(14, 0); (1, 0); (14, 1)] (ioapicinit 0 demo_apic).2 in
  (reg d (REG_TABLE + 2 * 14), reg d (REG_TABLE + 2 * 14 + 1)) = (46, 2 ^ 24) ∧ (reg d (REG_TABLE + 2 * 0), reg d (REG_TABLE + 2 * 0 + 1)) = (65568, 0).
Proof.
  assert (Forall (λ p : Z * Z, 0 ≤ p.1 ≤ 23) [(14, 0); (1, 0); (14, 1)]) as Hl by (repeat constructor; simpl; lia).
  split; refine (ioapic_routes 23 _ [(14, 0); (1, 0); (14, 1)] demo_apic 0 eq_refl Hl _ _); lia.
Defined.

(** The clock shows 12:34:56 on 15 November 26, in decimal digits. *)
Definition demo_date : rtcdate := RtcDate 56 34 12 15 11 26.
Definition demo_clock (n : nat) (r : Z) : Z :=
  if r =? SECS then 86 else if r =? MINS then 52 else if r =? HOURS then 18 else if r =? DAY then 21
  else if r =? MONTH then 17 else if r =? YEAR then 38 else 0.
Lemma cmostime_date_witness : ∃ n', cmostime demo_clock 8 0 = Some (RtcDate 56 34 12 15 11 2026, n').
Proof.
  assert (∀ n, updating demo_clock n = false → ∀ m, (n ≤ m ≤ n + 6)%nat → shown demo_clock m = shown demo_clock n) as Hq by done.
  assert (∀ m : nat, date_ok demo_date ∧ shown demo_clock m = encode_date true demo_date) as Hd.
  { intros m. split; [repeat constructor; simpl; lia|done]. }
  assert (calm demo_clock 1) as Hc by done.
  destruct (cmostime_date demo_clock Hq (λ _, demo_date) 1 8 0 Hd Hc ltac:(lia) ltac:(lia)) as (k & n' & E & _).
  exists n'. exact E.
Defined.
End DevicesDemo.
