(* ===== verification/Smp.v ===== *)
(** * Starting the other processors

    [startothers], [mpenter] and [mpmain] of [main.c], [entryother.S],
    [lapicw], [lapicinit] and [lapicstartap] of [lapic.c].  The boot
    processor tells the others one by one which stack to use by three words
    below the code it has copied to [0x7000]; the processors run interleaved,
    and each memory access of the other processors is a step of its own.

    The theorems: the writes of [lapicstartap] make the processor meant start
    at the code; in every interleaving each processor enters [mpenter] with
    the boot page table and a stack of its own, although all of them read it
    from the same word; [startothers] never gets stuck and ends after a
    bounded number of steps with every processor up. *)

From stdpp Require Import functions.
From S2P Require Import Prelude Layout Vm.
From S2P Require Proc.

(** ** The local APIC *)

Definition ID : Z := 8.
Definition VER : Z := 12.
Definition TPR : Z := 32.
Definition EOI : Z := 44.
Definition SVR : Z := 60.
Definition ENABLE : Z := 256.
Definition ESR : Z := 160.
Definition ICRLO : Z := 192.
Definition INIT : Z := 1280.
Definition STARTUP : Z := 1536.
Definition DELIVS : Z := 4096.
Definition ASSERT : Z := 16384.
Definition LEVEL : Z := 32768.
Definition BCAST : Z := 524288.
Definition ICRHI : Z := 196.
Definition TIMER : Z := 200.
Definition X1 : Z := 11.
Definition PERIODIC : Z := 131072.
Definition PCINT : Z := 208.
Definition LINT0 : Z := 212.
Definition LINT1 : Z := 216.
Definition ERROR : Z := 220.
Definition MASKED : Z := 65536.
Definition TICR : Z := 224.
Definition TDCR : Z := 248.
Definition CMOS_PORT : Z := 112.

(** What the code sends to the hardware: a byte to a port, a value to a
    register of the local APIC, a half-word to the warm reset vector. *)
Inductive hwev := Outb (port v : Z) | Lapicw (index v : Z) | Wrv (i v : Z).

Definition lapicw (index value : Z) : list hwev := [Lapicw index (u32 value)].

(** [while(lapic[ICRLO] & DELIVS)] with the values read one after the other. *)
Fixpoint delivered (reads : list Z) : bool :=
  match reads with
  | [] => false
  | v :: reads' => if truthy (Z.land v DELIVS) then delivered reads' else true
  end.
(** [lapicinit] with the version read and the values of [ICRLO]; [None] if the
    loop has not ended. *)
Definition lapicinit (lapic : bool) (ver : Z) (icrlo : list Z) : option (list hwev) :=
  if negb lapic then Some [] else
  if negb (delivered icrlo) then None else
  Some (lapicw SVR (Z.lor ENABLE (T_IRQ0 + IRQ_SPURIOUS)) ++
    lapicw TDCR X1 ++ lapicw TIMER (Z.lor PERIODIC (T_IRQ0 + IRQ_TIMER)) ++ lapicw TICR 10000000 ++
    lapicw LINT0 MASKED ++ lapicw LINT1 MASKED ++
    (if 4 <=? Z.land (Z.shiftr ver 16) 255 then lapicw PCINT MASKED else []) ++
    lapicw ERROR (T_IRQ0 + IRQ_ERROR) ++ lapicw ESR 0 ++ lapicw ESR 0 ++ lapicw EOI 0 ++
    lapicw ICRHI 0 ++ lapicw ICRLO (Z.lor BCAST (Z.lor INIT LEVEL)) ++ lapicw TPR 0).
Definition lapiceoi (lapic : bool) : list hwev := if lapic then lapicw EOI 0 else [].

Definition lapicstartap (apicid addr : Z) : list hwev :=
  [Outb CMOS_PORT 15; Outb (CMOS_PORT + 1) 10; Wrv 0 0; Wrv 1 (u16 (Z.shiftr addr 4))] ++
  lapicw ICRHI (Z.shiftl apicid 24) ++ lapicw ICRLO (Z.lor INIT (Z.lor LEVEL ASSERT)) ++ lapicw ICRLO (Z.lor INIT LEVEL) ++
  concat (replicate 2 (lapicw ICRHI (Z.shiftl apicid 24) ++ lapicw ICRLO (Z.lor STARTUP (Z.shiftr addr 12)))).

(** The startup messages the hardware sends for these: destination and
    address.  [hi] is what [ICRHI] holds; bits 8 to 10 of [ICRLO] are the kind
    of message. *)
Fixpoint startups (hi : Z) (l : list hwev) : list (Z * Z) :=
  match l with
  | [] => []
  | Lapicw i v :: l' =>
      if i =? ICRHI then startups v l'
      else if (i =? ICRLO) && (Z.land v 1792 =? STARTUP) then (Z.shiftr hi 24, Z.shiftl (Z.land v 255) 12) :: startups hi l'
      else startups hi l'
  | _ :: l' => startups hi l'
  end.

Lemma startups_lapicstartap a k hi : 0 ≤ a < 256 → 0 ≤ k < 256 →
  startups hi (lapicstartap a (Z.shiftl k 12)) = [(a, Z.shiftl k 12); (a, Z.shiftl k 12)].
Proof.
  intros Ha Hk. assert (0 ≤ Z.shiftl a 24 < 2 ^ 32) as Hs by (rewrite Z.shiftl_mul_pow2 by lia; lia).
  assert (Z.shiftr (Z.shiftl a 24) 24 = a) as Ea by (rewrite Z.shiftr_shiftl_l, Z.shiftl_0_r by lia; done).
  assert (Z.shiftr (Z.shiftl k 12) 12 = k) as Ek by (rewrite Z.shiftr_shiftl_l, Z.shiftl_0_r by lia; done).
  assert (∀ k, 0 ≤ k < 256 → Z.land (u32 (Z.lor STARTUP k)) 1792 = STARTUP ∧ Z.land (u32 (Z.lor STARTUP k)) 255 = k) as Hv.
  { intros j Hj. assert (Forall (λ k, Z.land (u32 (Z.lor STARTUP k)) 1792 = STARTUP ∧ Z.land (u32 (Z.lor STARTUP k)) 255 = k) (seqZ 0 256)) as Hf
      by (apply (bool_decide_unpack _); by vm_compute).
    rewrite Forall_forall in Hf. apply Hf, elem_of_seqZ. lia. }
  destruct (Hv k Hk) as [V1 V2]. unfold lapicstartap, lapicw. rewrite Ek, (u32_small _ Hs).
  cbn [app concat replicate startups Z.eqb Pos.eqb ICRHI ICRLO andb].
  change (Z.land (u32 (Z.lor INIT (Z.lor LEVEL ASSERT))) 1792 =? STARTUP) with false.
  change (Z.land (u32 (Z.lor INIT LEVEL)) 1792 =? STARTUP) with false. cbv iota.
  rewrite V1, V2, Ea. change (STARTUP =? STARTUP) with true. done.
Qed.

(** ** The boot page table *)

Definition PTE_PS : Z := 128.
Definition PDXSHIFT : Z := 22.
(** The array [entrypgdir]. *)
Definition entrypgdir_table : list Z :=
  <[Z.to_nat (Z.shiftr KERNBASE PDXSHIFT) := Z.lor (Z.lor (Z.lor 0 PTE_P) PTE_W) PTE_PS]>
    (<[0%nat := Z.lor (Z.lor (Z.lor 0 PTE_P) PTE_W) PTE_PS]> (replicate NPDENTRIES 0)).
(** The hardware with 4 Mbyte pages: an entry with [PTE_PS] maps them. *)
Definition translate_large (dir : list Z) (va : Z) : option Z :=
  let pde := dir !!! Z.to_nat (va / 2 ^ 22) in
  if truthy (Z.land pde PTE_P) && truthy (Z.land pde PTE_PS) then Some (pde / 2 ^ 22 * 2 ^ 22 + va mod 2 ^ 22) else None.

(** The first 4 Mbyte are at 0 and at [KERNBASE], and nothing else is mapped. *)
Theorem entrypgdir_maps va : 0 ≤ va < 2 ^ 32 → translate_large entrypgdir_table va =
  if va <? 2 ^ 22 then Some va else if (KERNBASE <=? va) && (va <? KERNBASE + 2 ^ 22) then Some (va - KERNBASE) else None.
Proof.
  intros Hv. unfold translate_large. assert (∀ i, (i < 1024)%nat → entrypgdir_table !!! i = if decide (i = 0%nat ∨ i = 512%nat) then 131 else 0) as Ht.
  { intros i Hi. unfold entrypgdir_table. change (Z.to_nat (Z.shiftr KERNBASE PDXSHIFT)) with 512%nat.
    destruct (decide (i = 512%nat)) as [->|]; [by rewrite list_lookup_total_insert_eq by (rewrite length_insert, length_replicate; unfold NPDENTRIES; lia)|].
    rewrite list_lookup_total_insert_ne by done. destruct (decide (i = 0%nat)) as [->|]; [done|].
    rewrite list_lookup_total_insert_ne, lookup_total_replicate_2, decide_False by (unfold NPDENTRIES; lia). done. }
  assert (0 ≤ va / 2 ^ 22 < 1024) as Hd by (Z.div_mod_to_equations; lia). rewrite Ht by lia. unfold KERNBASE.
  destruct (decide _) as [[E|E]|Hn].
  - assert (va / 2 ^ 22 = 0) as E' by lia. apply Z.div_small_iff in E'; [|lia]. rewrite (proj2 (Z.ltb_lt va _)), Z.mod_small by lia. done.
  - assert (va / 2 ^ 22 = 512) as E' by lia. assert (2 ^ 31 ≤ va < 2 ^ 31 + 2 ^ 22) by (Z.div_mod_to_equations; lia).
    rewrite (proj2 (Z.ltb_ge va _)), (proj2 (Z.leb_le _ va)), (proj2 (Z.ltb_lt va _)) by lia. cbn [andb truthy].
    change (Z.land 131 PTE_P) with 1. change (Z.land 131 PTE_PS) with 128. cbn. f_equal. Z.div_mod_to_equations. lia.
  - cbn [andb]. change (truthy (Z.land 0 PTE_P)) with false. cbn [andb]. destruct (Z.ltb_spec va (2 ^ 22)); [rewrite Z.div_small in Hn by lia; lia|].
    destruct (Z.leb_spec (2 ^ 31) va), (Z.ltb_spec va (2 ^ 31 + 2 ^ 22)); cbn [andb]; try done.
    assert (va / 2 ^ 22 = 512) as E by (Z.div_mod_to_equations; lia). rewrite E in Hn. lia.
Qed.

(** ** [startothers] *)

(** Where the boot processor is in the loop of [startothers]. *)
Inductive bootpc := BLoop (c : nat) | BWait (c : nat) | BDone.
(** Another processor: off, at [start] of [entryother.S], with [cr3] loaded
    from [start-12], with its stack loaded from [start-4], in [mpenter] (called
    through [start-8]), done with [mpmain]. *)
Inductive apst := Off | Start | HasPgdir (pg : Z) | HasStack (pg sp : Z) | Mpenter (pg sp entry : Z) | Up (pg sp entry : Z).

(** The three words below the code, the boot processor, the others,
    [started], and the pages [kalloc] is going to return. *)
Record smp := Smp {
  w_stack : Z; w_entry : Z; w_pgdir : Z;
  boot : bootpc;
  ap : nat → apst;
  started : nat → bool;
  pages : list Z
}.

Definition code : Z := P2V 28672.

Section smp.
Context (apicids : list Z) (me : nat) (mpenter entrypgdir : Z).
Definition ncpu : nat := length apicids.

Definition set_boot (b : bootpc) (s : smp) : smp := Smp (w_stack s) (w_entry s) (w_pgdir s) b (ap s) (started s) (pages s).
Definition set_ap (i : nat) (a : apst) (s : smp) : smp :=
  Smp (w_stack s) (w_entry s) (w_pgdir s) (boot s) (<[i := a]> (ap s)) (started s) (pages s).

(** The processors that receive a startup message for the code. *)
Definition woken (l : list (Z * Z)) (i : nat) : bool :=
  existsb (λ m : Z * Z, bool_decide (apicids !! i = Some m.1) && (m.2 =? V2P code)) l.

(** The body of the loop for another processor, up to the wait; [kalloc]
    returns 0 when there is no page, and this is not tested. *)
Definition start_one (c : nat) (s : smp) : smp :=
  let stack := hd 0 (pages s) in
  let msgs := startups 0 (lapicstartap (apicids !!! c) (V2P code)) in
  Smp (u32 (stack + Proc.KSTACKSIZE)) mpenter (V2P entrypgdir) (BWait c)
    (λ i, match ap s i with Off => if woken msgs i then Start else Off | a => a end) (started s) (tl (pages s)).

(** In [step_mpmain] the processor has run [switchkvm], [seginit] and
    [lapicinit], which concern only its own registers and tables ([Seg.v] and
    above), and sets [started]. *)
Inductive step (s : smp) : smp → Prop :=
| step_self c : boot s = BLoop c → (c < ncpu)%nat → c = me → step s (set_boot (BLoop (S c)) s)
| step_start c : boot s = BLoop c → (c < ncpu)%nat → c ≠ me → step s (start_one c s)
| step_wait c : boot s = BWait c → started s c = true → step s (set_boot (BLoop (S c)) s)
| step_done c : boot s = BLoop c → ¬ (c < ncpu)%nat → step s (set_boot BDone s)
| step_pgdir i : ap s i = Start → step s (set_ap i (HasPgdir (w_pgdir s)) s)
| step_stack i pg : ap s i = HasPgdir pg → step s (set_ap i (HasStack pg (w_stack s)) s)
| step_call i pg sp : ap s i = HasStack pg sp → step s (set_ap i (Mpenter pg sp (w_entry s)) s)
| step_mpmain i pg sp en : ap s i = Mpenter pg sp en →
    step s (Smp (w_stack s) (w_entry s) (w_pgdir s) (boot s) (<[i := Up pg sp en]> (ap s)) (<[i := true]> (started s)) (pages s)).

Definition initial (p0 : list Z) (s : smp) : Prop :=
  boot s = BLoop 0 ∧ (∀ i, ap s i = Off ∧ started s i = false) ∧ pages s = p0.

(** ** Every processor has its own stack *)

Context (p0 : list Z).
Context (Hids : NoDup apicids) (Hbyte : Forall (λ a, 0 ≤ a < 256) apicids) (Hme : (me < ncpu)%nat).

(** The page that [startothers] allocates for processor [i]. *)
Definition idx (i : nat) : nat := if (me <? i)%nat then (i - 1)%nat else i.
Definition stack_of (i : nat) : Z := u32 (default 0 (p0 !! idx i) + Proc.KSTACKSIZE).

Definition is_up (a : apst) : bool := match a with Up _ _ _ => true | _ => false end.
(** What a processor has read is what was meant for it. *)
Definition ap_ok (i : nat) (a : apst) : Prop :=
  match a with
  | Off | Start => True
  | HasPgdir pg => pg = V2P entrypgdir
  | HasStack pg sp => pg = V2P entrypgdir ∧ sp = stack_of i
  | Mpenter pg sp en | Up pg sp en => pg = V2P entrypgdir ∧ sp = stack_of i ∧ en = mpenter
  end.

(** The processors before [c] are up, those from [c'] on are off. *)
Definition split_at (c c' : nat) (s : smp) : Prop :=
  (∀ i, (i < c)%nat → i ≠ me → is_up (ap s i) = true) ∧ (∀ i, (c' ≤ i)%nat ∨ i = me → ap s i = Off).

Record inv (s : smp) : Prop := {
  i_started i : started s i = is_up (ap s i);
  i_vals i : ap_ok i (ap s i);
  i_boot :
    match boot s with
    | BLoop c => (c ≤ ncpu)%nat ∧ split_at c c s ∧ pages s = drop (idx c) p0
    | BWait c => (c < ncpu)%nat ∧ c ≠ me ∧ split_at c (S c) s ∧ pages s = drop (idx (S c)) p0 ∧ ap s c ≠ Off ∧
        w_stack s = stack_of c ∧ w_entry s = mpenter ∧ w_pgdir s = V2P entrypgdir
    | BDone => split_at ncpu ncpu s
    end
}.

Lemma woken_eq c i : (c < ncpu)%nat → woken (startups 0 (lapicstartap (apicids !!! c) (V2P code))) i = bool_decide (i = c).
Proof using Hids Hbyte Hme.
  intros Hc. destruct (lookup_lt_is_Some_2 apicids c Hc) as [a Ha]. rewrite (list_lookup_total_correct _ _ _ Ha).
  assert (0 ≤ a < 256) as Hab by (rewrite Forall_lookup in Hbyte; by apply (Hbyte c)).
  change (V2P code) with (Z.shiftl 7 12). rewrite startups_lapicstartap by lia. unfold woken. cbn [existsb fst snd].
  change (Z.shiftl 7 12 =? V2P code) with true. rewrite !andb_true_r, orb_false_r, orb_diag.
  apply bool_decide_ext. split; [|by intros ->]. intros Hi. by apply (NoDup_lookup apicids i c a).
Qed.

(** A processor that runs is the one the boot processor waits for. *)
Lemma running_is s i : inv s → ap s i ≠ Off → is_up (ap s i) = false → boot s = BWait i ∧ i ≠ me ∧
  w_stack s = stack_of i ∧ w_entry s = mpenter ∧ w_pgdir s = V2P entrypgdir.
Proof using Hme.
  intros [Hs Hv Hb] Hoff Hup. destruct (boot s) as [c|c|].
  - destruct Hb as (_ & [H1 H2] & _). destruct (decide (i < c)%nat), (decide (i = me)) as [->|];
      [by destruct Hoff; apply H2; right|by rewrite H1 in Hup|by destruct Hoff; apply H2; right|by destruct Hoff; apply H2; left; lia].
  - destruct Hb as (_ & Hc & [H1 H2] & _ & _ & W1 & W2 & W3). destruct (decide (i = c)) as [->|]; [done|]. exfalso.
    destruct (decide (i = me)) as [->|]; [by apply Hoff, H2; right|]. destruct (decide (i < c)%nat); [by rewrite H1 in Hup|].
    apply Hoff, H2. left. lia.
  - exfalso. destruct Hb as [H1 H2]. destruct (decide (i = me)) as [->|]; [by apply Hoff, H2; right|].
    destruct (decide (i < ncpu)%nat); [by rewrite H1 in Hup|]. apply Hoff, H2. left. lia.
Qed.

(** A step of a processor that reads or enters [mpmain]. *)
Lemma ap_step s i a st : inv s → ap s i ≠ Off → is_up (ap s i) = false → ap_ok i a → a ≠ Off →
  (∀ j, st j = if decide (j = i) then is_up a else started s j) →
  inv (Smp (w_stack s) (w_entry s) (w_pgdir s) (boot s) (<[i := a]> (ap s)) st (pages s)).
Proof using Hme.
  intros Hi Hoff Hup Hok Ha Hst. destruct (running_is s i Hi Hoff Hup) as (Eb & Hne & _). destruct Hi as [Hs Hv Hb]. rewrite Eb in *.
  destruct Hb as (B1 & B2 & [H1 H2] & B3 & B4 & B5). split; cbn [started ap boot pages].
  - intros j. rewrite Hst. destruct (decide (j = i)) as [->|]; [by rewrite fn_lookup_insert|by rewrite fn_lookup_insert_ne by done].
  - intros j. destruct (decide (j = i)) as [->|]; [by rewrite fn_lookup_insert|by rewrite fn_lookup_insert_ne by done].
  - split; [done|]. split; [done|]. split; [|split; [done|split; [by rewrite fn_lookup_insert|done]]].
    split; cbn [ap]; intros j Hj; [intros Hm|]; (rewrite fn_lookup_insert_ne by lia); [by apply H1|by apply H2].
Qed.

Lemma idx_S c : idx (S c) = if decide (c = me) then idx c else S (idx c).
Proof using. clear. unfold idx. destruct (decide (c = me)), (Nat.ltb_spec me (S c)), (Nat.ltb_spec me c); lia. Qed.

Lemma tl_drop {A} (l : list A) n : tl (drop n l) = drop (S n) l.
Proof using. clear. revert l. induction n as [|n IH]; intros [|x l]; try done. apply IH. Qed.
Lemma hd_drop {A} (d : A) (l : list A) n : hd d (drop n l) = default d (l !! n).
Proof using. clear. revert l. induction n as [|n IH]; intros [|x l]; try done. apply IH. Qed.

Lemma step_inv s s' : inv s → step s s' → inv s'.
Proof using Hids Hbyte Hme.
  intros Hi Hst. destruct Hst as [c Eb Hc ->|c Eb Hc Hne|c Eb Hs|c Eb Hc|i E|i pg E|i pg sp E|i pg sp en E].
  - destruct Hi as [Hs Hv Hb]. rewrite Eb in Hb. destruct Hb as (B1 & [H1 H2] & B2). split; [done|done|]. cbn [boot set_boot].
    split; [lia|]. split; [|cbn; by rewrite idx_S, decide_True].
    split; intros i Hi; cbn; [intros Hm; apply H1; [lia|done]|apply H2; lia].
  - destruct Hi as [Hs Hv Hb]. rewrite Eb in Hb. destruct Hb as (B1 & [H1 H2] & B2).
    assert (ap s c = Off) as Eo by (apply H2; left; lia). unfold start_one.
    assert (∀ i, match ap s i with Off => if woken (startups 0 (lapicstartap (apicids !!! c) (V2P code))) i then Start else Off | a => a end =
      if decide (i = c) then Start else ap s i) as Ea.
    { intros i. rewrite woken_eq by done. destruct (decide (i = c)) as [->|]; [by rewrite Eo, bool_decide_true|]. rewrite bool_decide_false by done.
      by destruct (ap s i). }
    split; cbn [started ap boot pages w_stack w_entry w_pgdir].
    + intros i. rewrite Ea, Hs. destruct (decide (i = c)) as [->|]; [by rewrite Eo|done].
    + intros i. rewrite Ea. destruct (decide (i = c)) as [->|]; [done|apply Hv].
    + split; [done|]. split; [done|]. split; [|split; [by rewrite B2, tl_drop, idx_S, decide_False by done|]].
      * split; cbn [ap]; intros i Hi; [intros Hm|]; rewrite Ea, decide_False by lia; [by apply H1|apply H2; lia].
      * split; [by rewrite Ea, decide_True|]. split; [|done]. rewrite B2. unfold stack_of. do 2 f_equal. by rewrite hd_drop.
  - destruct Hi as [Hst Hv Hb]. rewrite Eb in Hb. destruct Hb as (B1 & B2 & [H1 H2] & B3 & _). split; [done|done|]. cbn [boot set_boot].
    split; [lia|]. split; [|done]. split; intros i Hi; cbn; [|by apply H2]. intros Hm. destruct (decide (i = c)) as [->|]; [by rewrite <- Hst|].
    apply H1; [lia|done].
  - destruct Hi as [Hs Hv Hb]. rewrite Eb in Hb. destruct Hb as (B1 & [H1 H2] & B2). split; [done|done|]. cbn [boot set_boot].
    assert (c = ncpu) as -> by lia. done.
  - pose proof (running_is s i Hi ltac:(by rewrite E) ltac:(by rewrite E)) as (_ & _ & W1 & W2 & W3).
    apply ap_step; rewrite ?E; try done. intros j. destruct (decide (j = i)) as [->|]; [|done]. rewrite (i_started s Hi), E. done.
  - pose proof (running_is s i Hi ltac:(by rewrite E) ltac:(by rewrite E)) as (_ & _ & W1 & W2 & W3). pose proof (i_vals s Hi i) as Hv. rewrite E in Hv.
    apply ap_step; rewrite ?E; try done. intros j. destruct (decide (j = i)) as [->|]; [|done]. rewrite (i_started s Hi), E. done.
  - pose proof (running_is s i Hi ltac:(by rewrite E) ltac:(by rewrite E)) as (_ & _ & W1 & W2 & W3). pose proof (i_vals s Hi i) as Hv. rewrite E in Hv.
    destruct Hv as [V1 V2].
    apply ap_step; rewrite ?E; try done. intros j. destruct (decide (j = i)) as [->|]; [|done]. rewrite (i_started s Hi), E. done.
  - pose proof (i_vals s Hi i) as Hv. rewrite E in Hv.
    apply ap_step; rewrite ?E; try done. intros j. destruct (decide (j = i)) as [->|]; [by rewrite fn_lookup_insert|by rewrite fn_lookup_insert_ne].
Qed.

Lemma initial_inv s : initial p0 s → inv s.
Proof using Hme.
  intros (Eb & Ha & Ep). split.
  - intros i. destruct (Ha i) as [-> ->]. done.
  - intros i. destruct (Ha i) as [-> _]. done.
  - rewrite Eb. split; [lia|]. split; [|by rewrite Ep]. split; intros i Hi; [lia|apply Ha].
Qed.

(** ** [startothers] ends *)

Definition stage (a : apst) : nat :=
  match a with Off | Start => 0 | HasPgdir _ => 1 | HasStack _ _ => 2 | Mpenter _ _ _ => 3 | Up _ _ _ => 4 end.
Definition measure (s : smp) : nat :=
  match boot s with
  | BLoop c => 8 * (ncpu - c) + 1
  | BWait c => 8 * (ncpu - c) - stage (ap s c)
  | BDone => 0
  end.

Lemma step_measure s s' : inv s → step s s' → (measure s' < measure s)%nat.
Proof using Hme.
  intros Hi Hst. destruct Hst as [c Eb Hc ->|c Eb Hc Hne|c Eb Hs|c Eb Hc|i E|i pg E|i pg sp E|i pg sp en E].
  5-8: destruct (running_is s i Hi) as (Eb & _); [by rewrite E|by rewrite E|]; pose proof (i_boot s Hi) as Hb; rewrite Eb in Hb;
    destruct Hb as (B1 & _); unfold measure; cbn [boot set_ap ap]; rewrite Eb, fn_lookup_insert, E; cbn [stage]; lia.
  - unfold measure. rewrite Eb. cbn [set_boot boot]. lia.
  - unfold measure. rewrite Eb. cbn [start_one boot ap]. lia.
  - pose proof (i_boot s Hi) as Hb. rewrite Eb in Hb. destruct Hb as (B1 & _). unfold measure. rewrite Eb. cbn [set_boot boot].
    destruct (ap s c); cbn [stage]; lia.
  - unfold measure. rewrite Eb. cbn [set_boot boot]. lia.
Qed.

Lemma step_progress s : inv s → boot s = BDone ∨ ∃ s', step s s'.
Proof using Hme.
  intros Hi. pose proof (i_boot s Hi) as Hb. destruct (boot s) as [c|c|] eqn:Eb; [| |by left]; right.
  - destruct (decide (c < ncpu)%nat), (decide (c = me)); eexists; by eauto using step.
  - destruct Hb as (_ & _ & _ & _ & Hoff & _). pose proof (i_started s Hi c) as Hs.
    destruct (ap s c) eqn:E; [done|..]; eexists; by eauto using step.
Qed.

Lemma smp_steps_inv n s s' : inv s → nsteps step n s s' → inv s' ∧ (n + measure s' ≤ measure s)%nat.
Proof using Hids Hbyte Hme.
  intros Hi Hn. induction Hn as [s|n s s1 s2 Hst _ IH]; [split; [done|lia]|].
  destruct (IH (step_inv _ _ Hi Hst)) as [H1 H2]. split; [done|]. pose proof (step_measure _ _ Hi Hst). lia.
Qed.

Lemma idx_inj i j : i ≠ me → j ≠ me → idx i = idx j → i = j.
Proof using. clear. unfold idx. destruct (Nat.ltb_spec me i), (Nat.ltb_spec me j); lia. Qed.
Lemma stack_of_inj i j : NoDup p0 → Forall (λ p, 0 ≤ p < 2 ^ 32 - 4096) p0 → (ncpu ≤ S (length p0))%nat →
  (i < ncpu)%nat → (j < ncpu)%nat → i ≠ me → j ≠ me → stack_of i = stack_of j → i = j.
Proof using Hme.
  intros Hn Hf Hl Hi Hj Hm Hm' E.
  assert (∀ k, (k < ncpu)%nat → k ≠ me → ∃ p, p0 !! idx k = Some p ∧ 0 ≤ p < 2 ^ 32 - 4096 ∧ stack_of k = p + 4096) as Hp.
  { intros k Hk Hkm. destruct (lookup_lt_is_Some_2 p0 (idx k)) as [p Ep].
    { unfold idx. destruct (Nat.ltb_spec me k); lia. }
    rewrite Forall_lookup in Hf. pose proof (Hf _ _ Ep). exists p. split; [done|]. split; [done|]. unfold stack_of. rewrite Ep.
    apply u32_small. unfold Proc.KSTACKSIZE. simpl. lia. }
  destruct (Hp i Hi Hm) as (p & P1 & P2 & P3), (Hp j Hj Hm') as (q & Q1 & Q2 & Q3).
  apply idx_inj; [done..|]. apply (NoDup_lookup p0 _ _ p); [done|done|]. rewrite Q1. f_equal. lia.
Qed.

(** C15: [startothers], with the other processors interleaved in any way, does
    not get stuck and ends after at most 8 steps for each processor.  At
    every moment the processors that have loaded a stack have loaded
    different ones; at the end every other processor has entered [mpenter]
    with the boot page table and the top of its own page as stack. *)
Theorem startothers_starts n s s' : NoDup p0 → Forall (λ p, 0 ≤ p < 2 ^ 32 - 4096) p0 → (ncpu ≤ S (length p0))%nat →
  initial p0 s → nsteps step n s s' →
  (n ≤ 8 * ncpu + 1)%nat ∧ (boot s' = BDone ∨ ∃ s'', step s' s'') ∧
  (∀ i j pg sp en pg' en', ap s' i = Mpenter pg sp en ∨ ap s' i = Up pg sp en → ap s' j = Mpenter pg' sp en' ∨ ap s' j = Up pg' sp en' → i = j) ∧
  (boot s' = BDone → ∀ i, (i < ncpu)%nat → i ≠ me → ∃ p, p0 !! idx i = Some p ∧ ap s' i = Up (V2P entrypgdir) (p + 4096) mpenter).
Proof using Hids Hbyte Hme.
  intros Hn Hf Hl H0 Hst. destruct (smp_steps_inv n s s' (initial_inv s H0) Hst) as [Hi Hm].
  assert (measure s = (8 * ncpu + 1)%nat) as Em by (unfold measure; rewrite (proj1 H0); lia). split; [lia|]. split; [by apply step_progress|].
  assert (∀ i, ap s' i ≠ Off → (i < ncpu)%nat ∧ i ≠ me) as Hoff.
  { intros i Ho. pose proof (i_boot s' Hi) as Hb. destruct (boot s') as [c|c|].
    - destruct Hb as (B & [_ H2] & _). split; [destruct (decide (i < ncpu)%nat); [done|destruct Ho; apply H2; lia]|intros ->; apply Ho, H2; by right].
    - destruct Hb as (B & _ & [_ H2] & _). split; [destruct (decide (i < ncpu)%nat); [done|destruct Ho; apply H2; lia]|intros ->; apply Ho, H2; by right].
    - destruct Hb as [_ H2]. split; [destruct (decide (i < ncpu)%nat); [done|destruct Ho; apply H2; lia]|intros ->; apply Ho, H2; by right]. }
  split.
  - intros i j pg sp en pg' en' E E'. pose proof (i_vals s' Hi i) as V. pose proof (i_vals s' Hi j) as V'.
    destruct (Hoff i) as [? ?]; [by destruct E as [->| ->]|]. destruct (Hoff j) as [? ?]; [by destruct E' as [->| ->]|].
    apply stack_of_inj; try done.
    assert (sp = stack_of i) as <- by (destruct E as [E|E]; rewrite E in V; apply V).
    assert (sp = stack_of j) as <- by (destruct E' as [E'|E']; rewrite E' in V'; apply V'). done.
  - intros Eb i Hil Hne. pose proof (i_boot s' Hi) as Hb. rewrite Eb in Hb. destruct Hb as [H1 _]. specialize (H1 i Hil Hne).
    pose proof (i_vals s' Hi i) as V. destruct (ap s' i) as [| | | | |pg sp en]; try done. destruct V as (-> & -> & ->).
    destruct (lookup_lt_is_Some_2 p0 (idx i)) as [p Ep]; [unfold idx; destruct (Nat.ltb_spec me i); lia|].
    exists p. split; [done|]. unfold stack_of. rewrite Ep. rewrite Forall_lookup in Hf. pose proof (Hf _ _ Ep).
    by rewrite u32_small by (unfold Proc.KSTACKSIZE; simpl; lia).
Qed.
End smp.

Module SmpDemo.
(** Two processors; the second one is started with the page at 2 ^ 31 + 4096. *)
Definition demo_start : smp := Smp 0 0 0 (BLoop 0) (λ _, Off) (λ _, false) [2147487744].
Abbreviation dstep := (step [0; 1] 0 2148532224 2148536320).

Lemma demo_run : ∃ s, nsteps dstep 8 demo_start s ∧ boot s = BDone.
Proof.
  eexists. split.
  - do 2 (eapply nsteps_l; [first [eapply step_self; [reflexivity|vm_compute; lia|reflexivity]|eapply (step_start _ _ _ _ _ 1); [reflexivity|vm_compute; lia|done]]|]).
    eapply nsteps_l; [eapply (step_pgdir _ _ _ _ _ 1); reflexivity|]. eapply nsteps_l; [eapply (step_stack _ _ _ _ _ 1); reflexivity|].
    eapply nsteps_l; [eapply (step_call _ _ _ _ _ 1); reflexivity|]. eapply nsteps_l; [eapply (step_mpmain _ _ _ _ _ 1); reflexivity|].
    eapply nsteps_l; [eapply (step_wait _ _ _ _ _ 1); reflexivity|].
    eapply nsteps_l; [eapply (step_done _ _ _ _ _ 2); [reflexivity|vm_compute; lia]|]. apply nsteps_O.
  - reflexivity.
Qed.
Lemma startothers_starts_witness : ∃ s, nsteps dstep 8 demo_start s ∧ ap s 1%nat = Up (V2P 2148536320) 2147491840 2148532224.
Proof.
  destruct demo_run as (s & Hn & Hb). exists s. split; [exact Hn|].
  assert (NoDup [0; 1]) as H1 by (apply (bool_decide_unpack _); by vm_compute).
  assert (Forall (λ a, 0 ≤ a < 256) [0; 1]) as H2 by (repeat constructor; lia).
  assert (Forall (λ p, 0 ≤ p < 2 ^ 32 - 4096) [2147487744]) as H3 by (repeat constructor; lia).
  destruct (startothers_starts [0; 1] 0 2148532224 2148536320 [2147487744] H1 H2 ltac:(vm_compute; lia) 8 demo_start s
    (NoDup_singleton _) H3 ltac:(vm_compute; lia) (conj eq_refl (conj (λ _, conj eq_refl eq_refl) eq_refl)) Hn) as (_ & _ & _ & H).
  destruct (H Hb 1%nat ltac:(vm_compute; lia) ltac:(lia)) as (p & Ep & E). injection Ep as <-. exact E.
Defined.
End SmpDemo.
