(* ===== verification/Lock.v ===== *)
(** * Locks

    Spin locks ([spinlock.c]) and sleep locks ([sleeplock.c]).  The CPUs run
    at the same time: between two accesses to a lock by one CPU any other CPU
    may access it.  So [acquire] and [release] are sequences of steps, one for
    each access to the memory of the lock, and the state has a program counter
    for each CPU. *)

From stdpp Require Import functions.
From S2P Require Import Prelude.

(** ** Spin locks *)

Record lock := Lock { locked : Z; lcpu : option nat }.

(** Where a CPU is in the code of [acquire] and [release]. *)
Inductive pcs : Type :=
| Run                  (* outside *)
| ATest1 (l : nat)     (* acquire, holding: about to read lk->locked *)
| ATest2 (l : nat)     (* acquire, holding: about to read lk->cpu *)
| Spin (l : nat)       (* about to exchange lk->locked *)
| Mark (l : nat)       (* about to set lk->cpu *)
| RTest1 (l : nat)     (* release, holding: about to read lk->locked *)
| RTest2 (l : nat)     (* release, holding: about to read lk->cpu *)
| Clear (l : nat)      (* about to clear lk->cpu *)
| Unlock (l : nat).    (* about to clear lk->locked *)

(** [ncli] and [intena] are fields of [struct cpu], [ifl] is the interrupt
    flag.  Two fields only record the calls made: [held] has the locks whose
    [acquire] has returned and whose [release] has not passed its test,
    [depth] the calls of [pushcli] by the code that uses the locks. *)
Record cpu := Cpu { ncli : Z; intena : bool; ifl : bool; pc : pcs; held : list nat; depth : Z }.
Record lks := Lks { cpus : nat → cpu; locks : nat → lock }.

Definition set_cli (n : Z) (en fl : bool) (k : cpu) : cpu := Cpu n en fl (pc k) (held k) (depth k).
Definition set_pc (p : pcs) (k : cpu) : cpu := Cpu (ncli k) (intena k) (ifl k) p (held k) (depth k).
Definition set_held (h : list nat) (k : cpu) : cpu := Cpu (ncli k) (intena k) (ifl k) (pc k) h (depth k).
Definition set_depth (d : Z) (k : cpu) : cpu := Cpu (ncli k) (intena k) (ifl k) (pc k) (held k) d.
Definition updc (c : nat) (f : cpu → cpu) (s : lks) : lks := Lks (<[c := f (cpus s c)]> (cpus s)) (locks s).
Definition updl (l : nat) (f : lock → lock) (s : lks) : lks := Lks (cpus s) (<[l := f (locks s l)]> (locks s)).
Definition set_locked (v : Z) (k : lock) : lock := Lock v (lcpu k).
Definition set_lcpu (v : option nat) (k : lock) : lock := Lock (locked k) v.

Definition initlock (l : nat) : M lks unit := modify (updl l (λ _, Lock 0 None)).

Definition mycpu (c : nat) : M lks nat :=
  fl ← gets (λ s, ifl (cpus s c));
  if (fl : bool) then panic "mycpu called with interrupts enabled" else mret c.

Definition pushcli (c : nat) : M lks unit :=
  eflags ← gets (λ s, ifl (cpus s c));
  modify (updc c (λ k, set_cli (ncli k) (intena k) false k));;
  _ ← mycpu c;
  n ← gets (λ s, ncli (cpus s c));
  (if n =? 0 then modify (updc c (λ k, set_cli (ncli k) eflags (ifl k) k)) else mret tt);;
  if n =? INT_MAX then undef
  else modify (updc c (λ k, set_cli (ncli k + 1) (intena k) (ifl k) k)).

Definition popcli (c : nat) : M lks unit :=
  fl ← gets (λ s, ifl (cpus s c));
  if (fl : bool) then panic "popcli - interruptible" else
  _ ← mycpu c;
  modify (updc c (λ k, set_cli (ncli k - 1) (intena k) (ifl k) k));;
  k ← gets (λ s, cpus s c);
  if ncli k <? 0 then panic "popcli" else
  if (ncli k =? 0) && intena k then modify (updc c (λ k, set_cli (ncli k) (intena k) true k)) else mret tt.

(** The call of [acquire], up to the first access to the lock. *)
Definition acquire_enter (c l : nat) : M lks unit :=
  pushcli c;; pushcli c;; modify (updc c (set_pc (ATest1 l))).
Definition release_enter (c l : nat) : M lks unit :=
  pushcli c;; modify (updc c (set_pc (RTest1 l))).

Definition goto (c : nat) (p : pcs) : M lks unit := modify (updc c (set_pc p)).

(** [holding] from its first and from its second access to the lock: where the
    second access is, and what the caller does when the result is 1 or 0. *)
Definition holding1 (c l : nat) (next : pcs) (no : M lks unit) : M lks unit :=
  v ← gets (λ s, locked (locks s l));
  if truthy v then goto c next else popcli c;; no.
Definition holding2 (c l : nat) (yes no : M lks unit) : M lks unit :=
  v ← gets (λ s, lcpu (locks s l));
  me ← mycpu c;
  popcli c;;
  if bool_decide (v = Some me) then yes else no.

(** [while(xchg(&lk->locked, 1) != 0);] once around. *)
Definition acquire_spin (c l : nat) : M lks unit :=
  v ← gets (λ s, locked (locks s l));
  modify (updl l (set_locked 1));;
  if truthy v then mret tt else goto c (Mark l).
Definition acquire_mark (c l : nat) : M lks unit :=
  me ← mycpu c;
  modify (updl l (set_lcpu (Some me)));;
  modify (updc c (λ k, set_held (l :: held k) (set_pc Run k))).
Definition release_clear (c l : nat) : M lks unit :=
  modify (updl l (set_lcpu None));;
  goto c (Unlock l).
Definition release_unlock (c l : nat) : M lks unit :=
  modify (updl l (set_locked 0));;
  popcli c;;
  goto c Run.

(** The next access to memory of CPU [c], with what follows it up to the next. *)
Definition advance (c : nat) : M lks unit :=
  p ← gets (λ s, pc (cpus s c));
  match p with
  | Run => mret tt
  | ATest1 l => holding1 c l (ATest2 l) (goto c (Spin l))
  | ATest2 l => holding2 c l (panic "acquire") (goto c (Spin l))
  | Spin l => acquire_spin c l
  | Mark l => acquire_mark c l
  | RTest1 l => holding1 c l (RTest2 l) (panic "release")
  | RTest2 l =>
      holding2 c l (modify (updc c (λ k, set_held (list_difference (held k) [l]) (set_pc (Clear l) k)))) (panic "release")
  | Clear l => release_clear c l
  | Unlock l => release_unlock c l
  end.

(** The CPUs and the code that uses the locks: any CPU that is not inside
    [acquire] or [release] may call one of them, for any lock, or [pushcli],
    or a [popcli] that matches a [pushcli]; outside of all of them it may turn
    interrupts on and off. *)
Inductive lock_step (s : lks) : lks → Prop :=
| step_advance c s' : pc (cpus s c) ≠ Run → advance c s = Ok (tt, s') → lock_step s s'
| step_acquire c l s' : pc (cpus s c) = Run → acquire_enter c l s = Ok (tt, s') → lock_step s s'
| step_release c l s' : pc (cpus s c) = Run → release_enter c l s = Ok (tt, s') → lock_step s s'
| step_push c s' : pc (cpus s c) = Run → pushcli c s = Ok (tt, s') →
    lock_step s (updc c (λ k, set_depth (depth k + 1) k) s')
| step_pop c s' : pc (cpus s c) = Run → 0 < depth (cpus s c) → popcli c s = Ok (tt, s') →
    lock_step s (updc c (λ k, set_depth (depth k - 1) k) s')
| step_flag c fl : pc (cpus s c) = Run → ncli (cpus s c) = 0 →
    lock_step s (updc c (λ k, set_cli (ncli k) (intena k) fl k) s).

Definition lock_boot : lks := Lks (λ _, Cpu 0 false false Run [] 0) (λ _, Lock 0 None).

(** ** Invariant *)

(** The pushes of interrupts that the code at a program point will pop. *)
Definition pc_depth (p : pcs) : Z :=
  match p with
  | Run => 0
  | ATest1 _ | ATest2 _ => 2
  | Spin _ | Mark _ | RTest1 _ | RTest2 _ | Clear _ | Unlock _ => 1
  end.

(** The program points at which a CPU has the lock without holding it. *)
Definition pc_owns (p : pcs) (l : nat) : bool :=
  match p with
  | Mark l' | Clear l' | Unlock l' => bool_decide (l' = l)
  | _ => false
  end.

Definition owns (k : cpu) (l : nat) : Prop := l ∈ held k ∨ pc_owns (pc k) l = true.

Record cpu_ok (k : cpu) : Prop := {
  ck_ncli : ncli k = depth k + Z.of_nat (length (held k)) + pc_depth (pc k);
  ck_depth : 0 ≤ depth k;
  ck_off : 0 < ncli k → ifl k = false;
  ck_nodup : NoDup (held k);
  ck_apart : ∀ l, l ∈ held k → pc_owns (pc k) l = false;
}.

Record lock_inv (s : lks) : Prop := {
  li_cpu : ∀ c, cpu_ok (cpus s c);
  li_one : ∀ c c' l, owns (cpus s c) l → owns (cpus s c') l → c = c';
  li_locked : ∀ c l, owns (cpus s c) l → locked (locks s l) = 1;
  li_free : ∀ l, locked (locks s l) ≠ 0 → ∃ c, owns (cpus s c) l;
  li_held : ∀ c l, l ∈ held (cpus s c) → lcpu (locks s l) = Some c;
  li_mark : ∀ c l, lcpu (locks s l) = Some c → l ∈ held (cpus s c) ∨ pc (cpus s c) = Clear l;
}.

Lemma updc_same c f s : cpus (updc c f s) c = f (cpus s c).
Proof. simpl. apply fn_lookup_insert. Qed.
Lemma updc_ne c c' f s : c ≠ c' → cpus (updc c f s) c' = cpus s c'.
Proof. simpl. apply fn_lookup_insert_ne. Qed.
Lemma updl_same l f s : locks (updl l f s) l = f (locks s l).
Proof. simpl. apply fn_lookup_insert. Qed.
Lemma updl_ne l l' f s : l ≠ l' → locks (updl l f s) l' = locks s l'.
Proof. simpl. apply fn_lookup_insert_ne. Qed.
Lemma updc_updc c f g s : updc c f (updc c g s) = Lks (<[c := f (g (cpus s c))]> (<[c := g (cpus s c)]> (cpus s))) (locks s).
Proof. unfold updc. simpl. by rewrite fn_lookup_insert. Qed.

(** [s'] is [s] with the record of CPU [c] replaced by [k]. *)
Definition moved (c : nat) (k : cpu) (s s' : lks) : Prop :=
  cpus s' c = k ∧ (∀ c', c ≠ c' → cpus s' c' = cpus s c') ∧ ∀ l, locks s' l = locks s l.
Lemma moved_updc c f s : moved c (f (cpus s c)) s (updc c f s).
Proof. split; [apply updc_same|]. split; [|done]. intros. by apply updc_ne. Qed.
Lemma moved_to c k f s : f (cpus s c) = k → moved c k s (updc c f s).
Proof. intros <-. apply moved_updc. Qed.
Lemma moved_trans c k k' s s1 s2 : moved c k s s1 → moved c k' s1 s2 → moved c k' s s2.
Proof.
  intros (A1 & A2 & A3) (B1 & B2 & B3). split; [done|]. split; [|congruence].
  intros c' Hc. rewrite B2, A2; done.
Qed.
Lemma moved_refl c s : moved c (cpus s c) s s.
Proof. done. Qed.

Lemma pushcli_moves c s s' : pushcli c s = Ok (tt, s') →
  ∃ en, moved c (set_cli (ncli (cpus s c) + 1) en false (cpus s c)) s s'.
Proof.
  unfold pushcli, mycpu. intros H. minv.
  rewrite updc_same in E1. simpl in E1. minv. rewrite updc_same in *. simpl in H, E3.
  destruct (_ =? INT_MAX); minv.
  destruct (_ =? 0); minv.
  - eexists. eapply moved_trans; [apply moved_updc|]. eapply moved_trans; [apply moved_updc|]. apply moved_to. by rewrite !updc_same.
  - eexists. eapply moved_trans; [apply moved_updc|]. apply moved_to. by rewrite !updc_same.
Qed.

Lemma popcli_moves c s s' : popcli c s = Ok (tt, s') → let k := cpus s c in
  ifl k = false ∧ 1 ≤ ncli k ∧ ∃ fl, (1 < ncli k → fl = false) ∧ moved c (set_cli (ncli k - 1) (intena k) fl k) s s'.
Proof.
  unfold popcli, mycpu. intros H. minv. destruct (ifl (cpus s c)) eqn:Ei; minv. rewrite Ei in E. minv.
  rewrite updc_same in H. simpl in H. destruct (Z.ltb_spec (ncli (cpus s c) - 1) 0); minv.
  split; [done|]. split; [lia|]. destruct ((ncli (cpus s c) - 1 =? 0) && intena (cpus s c)) eqn:E; minv.
  - exists true. apply andb_true_iff in E as [E%Z.eqb_eq _]. split; [lia|].
    eapply moved_trans; [apply moved_updc|].
    apply moved_to. by rewrite updc_same.
  - exists false. split; [done|]. apply moved_to. by rewrite Ei.
Qed.

(** A step of one CPU that neither takes nor gives a lock. *)
Lemma local_inv c k s s' : lock_inv s → moved c k s s' → cpu_ok k → held k = held (cpus s c) →
  (∀ l, pc_owns (pc k) l = pc_owns (pc (cpus s c)) l) → (∀ l, pc (cpus s c) = Clear l → pc k = Clear l) → lock_inv s'.
Proof.
  intros Hi (Hk & Hne & Hl) Hok Hh Hp Hc.
  assert (∀ c' l, owns (cpus s' c') l ↔ owns (cpus s c') l) as Ho.
  { intros c' l. destruct (decide (c = c')) as [<-|]; [|by rewrite Hne].
    unfold owns. by rewrite Hk, Hh, Hp. }
  assert (∀ c', held (cpus s' c') = held (cpus s c')) as Hh'.
  { intros c'. destruct (decide (c = c')) as [<-|]; [by rewrite Hk|by rewrite Hne]. }
  split.
  - intros c'. destruct (decide (c = c')) as [<-|]; [by rewrite Hk|]. rewrite Hne by done. apply (li_cpu _ Hi).
  - intros c1 c2 l. rewrite !Ho. apply (li_one _ Hi).
  - intros c1 l. rewrite Ho, Hl. apply (li_locked _ Hi).
  - intros l. rewrite Hl. intros [c1 H]%(li_free _ Hi). exists c1. by apply Ho.
  - intros c1 l. rewrite Hh', Hl. apply (li_held _ Hi).
  - intros c1 l. rewrite Hh', Hl. intros [H|H]%(li_mark _ Hi); [by left|]. right.
    destruct (decide (c = c1)) as [<-|]; [rewrite Hk; auto|by rewrite Hne].
Qed.

(** A step by which CPU [c] takes or gives lock [l]: its record becomes [k],
    that of the lock [v]. *)
Definition moved_lock (c l : nat) (k : cpu) (v : lock) (s s' : lks) : Prop :=
  cpus s' c = k ∧ (∀ c', c ≠ c' → cpus s' c' = cpus s c') ∧
  locks s' l = v ∧ (∀ l', l ≠ l' → locks s' l' = locks s l').

Lemma lock_inv_moved c l k v s s' : lock_inv s → moved_lock c l k v s s' → cpu_ok k →
  (* nobody else has the lock *)
  (∀ c', c ≠ c' → ¬ owns (cpus s c') l) →
  (* nothing changes for other locks *)
  (∀ l', l ≠ l' → (l' ∈ held k ↔ l' ∈ held (cpus s c)) ∧ pc_owns (pc k) l' = pc_owns (pc (cpus s c)) l' ∧
     (pc (cpus s c) = Clear l' → pc k = Clear l')) →
  (owns k l ∧ locked v = 1 ∨ ¬ owns k l ∧ locked v = 0) →
  (l ∈ held k → lcpu v = Some c) → (∀ c', lcpu v = Some c' → c' = c ∧ (l ∈ held k ∨ pc k = Clear l)) →
  lock_inv s'.
Proof.
  intros Hi (Hk & Hne & Hv & Hl) Hok Hno Hoth Hlk Hh Hm.
  assert (∀ l', l ≠ l' → (owns k l' ↔ owns (cpus s c) l')) as Ho.
  { intros l' Hl'. destruct (Hoth l' Hl') as (A & B & _). unfold owns. by rewrite A, B. }
  assert (∀ c' l', l ≠ l' → (owns (cpus s' c') l' ↔ owns (cpus s c') l')) as Ho'.
  { intros c' l' Hl'. destruct (decide (c = c')) as [<-|]; [rewrite Hk; auto|by rewrite Hne]. }
  assert (∀ c', owns (cpus s' c') l → c' = c ∧ owns k l) as Hself.
  { intros c' H. destruct (decide (c = c')) as [<-|]; [by rewrite Hk in H|]. rewrite Hne in H by done.
    by apply Hno in H. }
  split.
  - intros c'. destruct (decide (c = c')) as [<-|]; [by rewrite Hk|]. rewrite Hne by done. apply (li_cpu _ Hi).
  - intros c1 c2 l' H1 H2. destruct (decide (l = l')) as [<-|Hll].
    + apply Hself in H1 as [-> _]. by apply Hself in H2 as [-> _].
    + apply Ho' in H1, H2; try done. by eapply (li_one _ Hi).
  - intros c1 l' H1. destruct (decide (l = l')) as [<-|Hll].
    + apply Hself in H1 as [-> ?]. rewrite Hv. naive_solver.
    + rewrite Hl by done. apply Ho' in H1; [|done]. by eapply (li_locked _ Hi).
  - intros l' H1. destruct (decide (l = l')) as [<-|Hll].
    + rewrite Hv in H1. exists c. rewrite Hk. naive_solver.
    + rewrite Hl in H1 by done. apply (li_free _ Hi) in H1 as [c1 H1]. exists c1. by apply Ho'.
  - intros c1 l' H1. destruct (decide (l = l')) as [<-|Hll].
    + rewrite Hv. destruct (Hself c1) as [-> _]; [by left|]. rewrite Hk in H1. auto.
    + rewrite Hl by done. apply (li_held _ Hi). destruct (decide (c = c1)) as [<-|]; [|by rewrite Hne in H1].
      rewrite Hk in H1. by apply Hoth.
  - intros c1 l' H1. destruct (decide (l = l')) as [<-|Hll].
    + rewrite Hv in H1. apply Hm in H1 as [-> H1]. by rewrite Hk.
    + rewrite Hl in H1 by done. apply (li_mark _ Hi) in H1.
      destruct (decide (c = c1)) as [<-|]; [|by rewrite Hne]. rewrite Hk. destruct (Hoth l' Hll) as (A & _ & B).
      rewrite A. naive_solver.
Qed.

Lemma moved_lock_updl c l f g s : moved_lock c l (g (cpus s c)) (f (locks s l)) s (updc c g (updl l f s)).
Proof.
  split; [by rewrite updc_same|]. split; [intros; by rewrite updc_ne|].
  split; [apply updl_same|]. intros. by apply updl_ne.
Qed.
Lemma moved_lock_then c l k v k' s s1 s2 : moved_lock c l k v s s1 → moved c k' s1 s2 → moved_lock c l k' v s s2.
Proof.
  intros (A1 & A2 & A3 & A4) (B1 & B2 & B3). split; [done|]. split; [intros; rewrite B2; auto|].
  rewrite B3. split; [done|]. intros. rewrite B3. auto.
Qed.

(** [popcli] of the code of the locks, which follows a [pushcli], leaves
    interrupts off when a [pushcli] is still to be matched. *)
Lemma pop_keeps_off c s s' : lock_inv s → popcli c s = Ok (tt, s') →
  ∃ fl, (0 < ncli (cpus s c) - 1 → fl = false) ∧
    moved c (set_cli (ncli (cpus s c) - 1) (intena (cpus s c)) fl (cpus s c)) s s'.
Proof. intros Hi (_ & _ & fl & Hfl & Hm)%popcli_moves. exists fl. split; [|done]. intros. apply Hfl. lia. Qed.

Ltac own_cpu Hi c := let H := fresh "Hk" in pose proof (li_cpu _ Hi c) as H; destruct H as [K1 K2 K3 K4 K5].

Lemma push_inv c s s' : lock_inv s → pc (cpus s c) = Run → pushcli c s = Ok (tt, s') →
  lock_inv (updc c (λ k, set_depth (depth k + 1) k) s').
Proof.
  intros Hi Hp (en & Hm)%pushcli_moves. own_cpu Hi c.
  eapply local_inv; [exact Hi|eapply moved_trans; [exact Hm|apply moved_updc]|..];
    destruct Hm as (-> & _ & _); simpl; try done.
  split; simpl; try done; lia.
Qed.
Lemma pop_inv c s s' : lock_inv s → pc (cpus s c) = Run → 0 < depth (cpus s c) → popcli c s = Ok (tt, s') →
  lock_inv (updc c (λ k, set_depth (depth k - 1) k) s').
Proof.
  intros Hi Hp Hd (fl & Hfl & Hm)%(pop_keeps_off _ _ _ Hi). own_cpu Hi c.
  eapply local_inv; [exact Hi|eapply moved_trans; [exact Hm|apply moved_updc]|..];
    destruct Hm as (-> & _ & _); simpl; try done.
  split; simpl; try done; lia.
Qed.
Lemma acquire_enter_inv c l s s' : lock_inv s → pc (cpus s c) = Run → acquire_enter c l s = Ok (tt, s') → lock_inv s'.
Proof.
  intros Hi Hp H. unfold acquire_enter in H. minv. apply pushcli_moves in E as (e1 & M1). apply pushcli_moves in E0 as (e2 & M2).
  own_cpu Hi c. eapply local_inv; [exact Hi|eapply moved_trans; [exact M1|]; eapply moved_trans; [exact M2|apply moved_updc]|..];
    destruct M2 as (-> & _ & _); destruct M1 as (-> & _ & _); rewrite ?Hp in *; simpl in *; try done.
  split; simpl; try done. lia.
Qed.
Lemma release_enter_inv c l s s' : lock_inv s → pc (cpus s c) = Run → release_enter c l s = Ok (tt, s') → lock_inv s'.
Proof.
  intros Hi Hp H. unfold release_enter in H. minv. apply pushcli_moves in E as (e1 & M1).
  own_cpu Hi c. eapply local_inv; [exact Hi|eapply moved_trans; [exact M1|apply moved_updc]|..];
    destruct M1 as (-> & _ & _); rewrite ?Hp in *; simpl in *; try done.
  split; simpl; try done. lia.
Qed.

(** The second half of [holding]: [popcli] and on to the next program point. *)
Lemma pop_to_inv c p s s' : lock_inv s → popcli c s = Ok (tt, s') →
  pc_depth p = pc_depth (pc (cpus s c)) - 1 → (∀ l, pc_owns p l = pc_owns (pc (cpus s c)) l) →
  (∀ l, pc (cpus s c) ≠ Clear l) → lock_inv (updc c (set_pc p) s').
Proof.
  intros Hi (fl & Hfl & Hm)%(pop_keeps_off _ _ _ Hi) Hp Ho Hc. own_cpu Hi c.
  eapply local_inv; [exact Hi|eapply moved_trans; [exact Hm|apply moved_updc]|..];
    destruct Hm as (-> & _ & _); simpl in *; try done.
  - split; simpl; try done; [lia|]. intros l Hl. rewrite Ho. auto.
  - intros l Hl. by apply Hc in Hl.
Qed.

Ltac step_at H Ep :=
  unfold advance in H; minv; rewrite Ep in H;
  unfold holding1, holding2, acquire_spin, acquire_mark, release_clear, release_unlock, goto, mycpu in H; minv.

Lemma spin_inv c l s s' : lock_inv s → pc (cpus s c) = Spin l → advance c s = Ok (tt, s') → lock_inv s'.
Proof.
  intros Hi Ep H. own_cpu Hi c. step_at H Ep. rename H into Hs.
  destruct (truthy _) eqn:Et; minv.
  - assert (locked (locks s l) = 1) as El.
    { destruct (li_free _ Hi l) as [c' Hc']; [|by eapply (li_locked _ Hi)].
      intros E. by rewrite E in Et. }
    eapply (local_inv c (cpus s c)); [exact Hi| |done..]. split; [done|]. split; [done|].
    intros l'. destruct (decide (l = l')) as [<-|]; [|by rewrite updl_ne].
    rewrite updl_same. destruct (locks s l). simpl in *. by subst.
  - assert (locked (locks s l) = 0) as El by (unfold truthy in Et; destruct (Z.eqb_spec (locked (locks s l)) 0); done).
    assert (∀ c', ¬ owns (cpus s c') l) as Hno.
    { intros c' Ho. apply (li_locked _ Hi) in Ho. lia. }
    assert (l ∉ held (cpus s c)) as Hh by (intros ?; apply (Hno c); by left).
    eapply (lock_inv_moved c l); [exact Hi|apply moved_lock_updl|..]; rewrite ?Ep in *; simpl; try done.
    + split; simpl; try done. intros l' Hl'. apply bool_decide_eq_false. by intros <-.
    + intros l' Hl'. by rewrite bool_decide_eq_false_2.
    + left. split; [|done]. right. simpl. by apply bool_decide_eq_true.
    + intros c' [H| H]%(li_mark _ Hi); exfalso; apply (Hno c'); [by left|right; rewrite H; simpl; by apply bool_decide_eq_true].
Qed.

Lemma mark_inv c l s s' : lock_inv s → pc (cpus s c) = Mark l → advance c s = Ok (tt, s') → lock_inv s'.
Proof.
  intros Hi Ep H. own_cpu Hi c. step_at H Ep. destruct (ifl _) eqn:Ei; minv.
  assert (owns (cpus s c) l) as Ho by (right; rewrite Ep; simpl; by apply bool_decide_eq_true).
  assert (l ∉ held (cpus s c)) as Hh.
  { intros Hl%K5. rewrite Ep in Hl. simpl in Hl. by apply bool_decide_eq_false in Hl. }
  eapply (lock_inv_moved c l); [exact Hi|apply moved_lock_updl|..]; rewrite ?Ep in *; simpl; try done.
  - split; simpl in *; try done; [lia|by apply NoDup_cons].
  - intros c' Hc Ho'. apply Hc. by eapply (li_one _ Hi).
  - intros l' Hl. rewrite bool_decide_eq_false_2 by done. split; [set_solver|done].
  - left. split; [left; simpl; set_solver|]. by eapply (li_locked _ Hi).
  - intros c' [= ->]. set_solver.
Qed.

(** The lock of a CPU that passed the test of [release]. *)
Lemma rtest_inv c l s s' : lock_inv s → pc (cpus s c) = RTest2 l → advance c s = Ok (tt, s') → lock_inv s'.
Proof.
  intros Hi Ep H. own_cpu Hi c. step_at H Ep. destruct (ifl _) eqn:Ei; minv.
  apply (pop_keeps_off _ _ _ Hi) in E1 as (fl & Hfl & Hm). case_bool_decide as Hl; minv.
  assert (l ∈ held (cpus s c)) as Hh by (apply (li_mark _ Hi) in Hl as [?|Hc]; [done|by rewrite Ep in Hc]).
  eapply (lock_inv_moved c l _ (locks s l)); [exact Hi| |..].
  { destruct Hm as (_ & Hm2 & Hm3). split; [apply updc_same|]. split; [intros; rewrite updc_ne; auto|]. simpl. split; intros; apply Hm3. }
  all: destruct Hm as (Hm & _ & _); rewrite ?Hm; clear Hm; rewrite ?Ep in *; simpl in *; try done.
  - assert (length (held (cpus s c)) = S (length (list_difference (held (cpus s c)) [l]))) as Hlen.
    { clear -Hh K4. induction K4 as [|x h Hx K4 IH]; [set_solver|]. simpl. destruct (decide_rel _ x [l]) as [->%list_elem_of_singleton|Hn].
      - f_equal. clear -Hx. induction h as [|y h IH]; [done|]. simpl. destruct (decide_rel _ y [l]); [set_solver|].
        simpl. f_equal. apply IH. set_solver.
      - simpl. f_equal. apply IH. set_solver. }
    split; simpl; try done; [lia|by apply NoDup_list_difference|].
    intros l' [_ Hl']%list_elem_of_difference. apply bool_decide_eq_false. set_solver.
  - intros c' Hc Ho. apply Hc. eapply (li_one _ Hi); [|done]. by left.
  - intros l' Hl'. rewrite bool_decide_eq_false_2 by done. rewrite list_elem_of_difference. set_solver.
  - left. split; [right; simpl; by apply bool_decide_eq_true|]. eapply (li_locked _ Hi c). by left.
  - intros c' Hc. split; [congruence|by right].
Qed.

Lemma clear_inv c l s s' : lock_inv s → pc (cpus s c) = Clear l → advance c s = Ok (tt, s') → lock_inv s'.
Proof.
  intros Hi Ep H. own_cpu Hi c. step_at H Ep.
  assert (owns (cpus s c) l) as Ho by (right; rewrite Ep; simpl; by apply bool_decide_eq_true).
  eapply (lock_inv_moved c l); [exact Hi|apply moved_lock_updl|..]; rewrite ?Ep in *; simpl; try done.
  - intros c' Hc Ho'. apply Hc. by eapply (li_one _ Hi).
  - intros l' Hl. split; [done|]. split; [done|]. by intros [= ->].
  - left. split; [right; simpl; by apply bool_decide_eq_true|]. by eapply (li_locked _ Hi).
  - intros Hh%K5. by apply bool_decide_eq_false in Hh.
Qed.

Lemma unlock_inv c l s s' : lock_inv s → pc (cpus s c) = Unlock l → advance c s = Ok (tt, s') → lock_inv s'.
Proof.
  intros Hi Ep H. own_cpu Hi c. step_at H Ep.
  assert (owns (cpus s c) l) as Ho by (right; rewrite Ep; simpl; by apply bool_decide_eq_true).
  assert (l ∉ held (cpus s c)) as Hh.
  { intros Hl%K5. rewrite Ep in Hl. simpl in Hl. by apply bool_decide_eq_false in Hl. }
  apply popcli_moves in E0 as (_ & _ & fl & Hfl & Hm). simpl in Hfl, Hm.
  eapply (lock_inv_moved c l _ (set_locked 0 (locks s l))); [exact Hi| |..].
  { destruct Hm as (_ & Hm2 & Hm3). split; [apply updc_same|]. split; [intros; rewrite updc_ne by done; by rewrite Hm2|].
    simpl. split; [rewrite Hm3; apply updl_same|]. intros. rewrite Hm3. by apply updl_ne. }
  all: destruct Hm as (Hm & _ & _); rewrite ?Hm; clear Hm; rewrite ?Ep in *; simpl in *; try done.
  - split; simpl; try done; [lia|]. intros. apply Hfl. lia.
  - intros c' Hc Ho'. apply Hc. by eapply (li_one _ Hi).
  - intros l' Hl. by rewrite bool_decide_eq_false_2.
  - right. split; [|done]. unfold owns. simpl. naive_solver.
  - intros c' [Hc|Hc]%(li_mark _ Hi).
    + assert (c' = c) as -> by (eapply (li_one _ Hi); [by left|done]). done.
    + assert (c' = c) as -> by (eapply (li_one _ Hi); [right; rewrite Hc; simpl; by apply bool_decide_eq_true|done]). congruence.
Qed.

Lemma advance_inv c s s' : lock_inv s → advance c s = Ok (tt, s') → lock_inv s'.
Proof.
  intros Hi H. destruct (pc (cpus s c)) as [|l|l|l|l|l|l|l|l] eqn:Ep;
    [..|by eapply clear_inv|by eapply unlock_inv].
  - step_at H Ep. done.
  - step_at H Ep. destruct (truthy _); minv.
    + own_cpu Hi c. eapply local_inv; [exact Hi|apply moved_updc|..]; rewrite ?Ep; try done.
      split; rewrite ?Ep in *; simpl; try done.
    + eapply pop_to_inv; [exact Hi|done|by rewrite Ep..].
  - step_at H Ep. destruct (ifl _); minv. case_bool_decide; minv.
    eapply pop_to_inv; [exact Hi|done|by rewrite Ep..].
  - by eapply spin_inv.
  - by eapply mark_inv.
  - step_at H Ep. destruct (truthy _); minv.
    own_cpu Hi c. eapply local_inv; [exact Hi|apply moved_updc|..]; rewrite ?Ep; try done.
    split; rewrite ?Ep in *; simpl; try done.
  - by eapply rtest_inv.
Qed.

Lemma lock_step_inv s s' : lock_inv s → lock_step s s' → lock_inv s'.
Proof.
  intros Hi [c s1 _ H|c l s1 Hp H|c l s1 Hp H|c s1 Hp H|c s1 Hp Hd H|c fl Hp Hn].
  - by eapply advance_inv.
  - by eapply acquire_enter_inv.
  - by eapply release_enter_inv.
  - by eapply push_inv.
  - by eapply pop_inv.
  - own_cpu Hi c. eapply local_inv; [exact Hi|apply moved_updc|..]; simpl; try done. split; simpl; try done. lia.
Qed.
Lemma lock_boot_inv : lock_inv lock_boot.
Proof.
  split; simpl; try done.
  - intros c. split; simpl; try done. constructor.
  - intros c c' l [H|H]; [set_solver|done].
  - intros c l [H|H]; [set_solver|done].
  - intros c l H. set_solver.
Qed.

Lemma popcli_returns c s : ifl (cpus s c) = false → 1 ≤ ncli (cpus s c) → ∃ s', popcli c s = Ok (tt, s').
Proof.
  intros Hf Hn. unfold popcli, mycpu.
  rewrite (bind_ok (gets _) _ s _ s eq_refl), Hf.
  rewrite (bind_ok _ _ s c s) by (rewrite (bind_ok (gets _) _ s _ s eq_refl); by rewrite Hf).
  rewrite (bind_ok (modify _) _ s tt _ eq_refl), (bind_ok (gets _) _ _ _ _ eq_refl), updc_same. simpl.
  rewrite (proj2 (Z.ltb_ge _ _)) by lia. destruct (_ && _); eauto.
Qed.

Lemma mycpu_off c s : ifl (cpus s c) = false → mycpu c s = Ok (c, s).
Proof. intros Hf. unfold mycpu. rewrite (bind_ok (gets _) _ s _ s eq_refl). by rewrite Hf. Qed.
Lemma holding1_eq c l next no s : ifl (cpus s c) = false → 1 ≤ ncli (cpus s c) → ∃ s',
  holding1 c l next no s = if truthy (locked (locks s l)) then goto c next s else no s'.
Proof.
  intros Hf Hn. destruct (popcli_returns c s Hf Hn) as (s' & E). exists s'. unfold holding1.
  rewrite (bind_ok (gets _) _ s _ s eq_refl). destruct (truthy _); [done|]. by rewrite (bind_ok _ _ _ _ _ E).
Qed.
Lemma holding2_eq c l yes no s : ifl (cpus s c) = false → 1 ≤ ncli (cpus s c) → ∃ s',
  holding2 c l yes no s = (if bool_decide (lcpu (locks s l) = Some c) then yes else no) s'.
Proof.
  intros Hf Hn. destruct (popcli_returns c s Hf Hn) as (s' & E). exists s'. unfold holding2.
  rewrite (bind_ok (gets _) _ s _ s eq_refl), (bind_ok _ _ _ _ _ (mycpu_off c s Hf)). by rewrite (bind_ok _ _ _ _ _ E).
Qed.

(** A CPU in the middle of the code of a lock panics only in the two cases
    the code tests for. *)
Lemma advance_panics c s m : lock_inv s → advance c s = Panic m →
  ∃ l, m = "acquire"%string ∧ pc (cpus s c) = ATest2 l ∧ l ∈ held (cpus s c) ∨
       m = "release"%string ∧ (pc (cpus s c) = RTest1 l ∨ pc (cpus s c) = RTest2 l) ∧ l ∉ held (cpus s c).
Proof.
  intros Hi. own_cpu Hi c. unfold advance. rewrite (bind_ok (gets _) _ s _ s eq_refl).
  destruct (pc (cpus s c)) as [|l|l|l|l|l|l|l|l] eqn:Ep; [done|..]; simpl in K1;
    (assert (ifl (cpus s c) = false) as Hf by (apply K3; lia)); (assert (1 ≤ ncli (cpus s c)) as Hn by lia).
  - destruct (holding1_eq c l (ATest2 l) (goto c (Spin l)) s Hf Hn) as (s' & ->). by destruct (truthy _).
  - destruct (holding2_eq c l (panic "acquire") (goto c (Spin l)) s Hf Hn) as (s' & ->).
    case_bool_decide as Hl; [|done]. intros [= <-]. exists l. left. split; [done|]. split; [done|].
    apply (li_mark _ Hi) in Hl as [?|?]; [done|congruence].
  - unfold acquire_spin. rewrite (bind_ok (gets _) _ s _ s eq_refl), (bind_ok (modify _) _ _ _ _ eq_refl). by destruct (truthy _).
  - unfold acquire_mark. by rewrite (bind_ok _ _ _ _ _ (mycpu_off c s Hf)).
  - destruct (holding1_eq c l (RTest2 l) (panic "release") s Hf Hn) as (s' & ->). destruct (truthy _) eqn:Et; [done|].
    intros [= <-]. exists l. right. split; [done|]. split; [by left|]. intros Hh.
    rewrite (li_locked _ Hi c l) in Et; [done|by left].
  - edestruct (holding2_eq c l) as (s' & ->); [done..|]. case_bool_decide as Hl; [done|]. intros [= <-].
    exists l. right. split; [done|]. split; [by right|]. intros Hh. by apply (li_held _ Hi) in Hh.
  - done.
  - unfold release_unlock. rewrite (bind_ok (modify _) _ _ _ _ eq_refl).
    destruct (popcli_returns c (updl l (set_locked 0) s) Hf Hn) as (s' & E). by rewrite (bind_ok _ _ _ _ _ E).
Qed.

(** C11: spin locks exclude.  Whatever locks the CPUs acquire and release, and
    however their accesses to memory interleave, at most one CPU is between
    the end of [acquire] and the test of [release] for a lock; its interrupts
    are off, and the lock names it.  A call panics only when the CPU acquires
    a lock it holds or releases one it does not hold. *)
Theorem spinlock_excludes (s : lks) : rtc lock_step lock_boot s →
  (∀ c c' l, l ∈ held (cpus s c) → l ∈ held (cpus s c') → c = c') ∧
  (∀ c l, l ∈ held (cpus s c) → ifl (cpus s c) = false ∧ locks s l = Lock 1 (Some c)) ∧
  (∀ c m, advance c s = Panic m → ∃ l,
     m = "acquire"%string ∧ pc (cpus s c) = ATest2 l ∧ l ∈ held (cpus s c) ∨
     m = "release"%string ∧ (pc (cpus s c) = RTest1 l ∨ pc (cpus s c) = RTest2 l) ∧ l ∉ held (cpus s c)).
Proof.
  intros Hr. assert (lock_inv s) as Hi.
  { pose proof lock_boot_inv as Hb. revert Hb. induction Hr as [|s1 s2 s3 H12 _ IH]; [done|].
    intros Hb. apply IH. by eapply lock_step_inv. }
  split; [|split].
  - intros c c' l H1 H2. eapply (li_one _ Hi); left; done.
  - intros c l Hl. own_cpu Hi c. split.
    + apply K3. destruct (held (cpus s c)) as [|x h]; [set_solver|]. simpl in K1.
      assert (0 ≤ pc_depth (pc (cpus s c))) by (by destruct (pc (cpus s c))). lia.
    + pose proof (li_held _ Hi _ _ Hl) as H1. assert (locked (locks s l) = 1) as H2 by (eapply (li_locked _ Hi); by left).
      destruct (locks s l). simpl in *. congruence.
  - intros c m. by apply advance_panics.
Qed.

(** Schedules: the CPU that makes the next step and, when it is not inside a
    call, the lock it acquires. *)
Fixpoint run (sched : list (nat * nat)) (s : lks) : option lks :=
  match sched with
  | [] => Some s
  | (c, l) :: sched' =>
      match (match pc (cpus s c) with Run => acquire_enter c l s | _ => advance c s end) with
      | Ok (_, s') => run sched' s'
      | _ => None
      end
  end.
Lemma run_steps sched s s' : run sched s = Some s' → rtc lock_step s s'.
Proof.
  revert s. induction sched as [|[c l] sched IH]; intros s H; simpl in H; [injection H as ->; done|].
  destruct (pc (cpus s c)) eqn:Ep;
    [destruct (acquire_enter c l s) as [[[] s1]| | |] eqn:E|destruct (advance c s) as [[[] s1]| | |] eqn:E..]; try done;
    (eapply rtc_l; [|by apply IH]); [by eapply step_acquire|..]; (eapply step_advance; [by rewrite Ep|done]).
Qed.

(** CPU 0 holds lock 0 while CPU 1 spins on it. *)
Definition contended : list (nat * nat) := [(0, 0); (0, 0); (0, 0); (0, 0); (1, 0); (1, 0); (1, 0); (1, 0)]%nat.
Definition cpu_after (sched : list (nat * nat)) (c : nat) : option cpu := (λ s, cpus s c) <$> run sched lock_boot.
Lemma run_reaches sched h p : (held <$> cpu_after sched 0) = Some h → (pc <$> cpu_after sched 1) = Some p →
  ∃ s, rtc lock_step lock_boot s ∧ held (cpus s 0%nat) = h ∧ pc (cpus s 1%nat) = p.
Proof.
  unfold cpu_after. destruct (run sched lock_boot) as [s|] eqn:E; [|done]. intros [= <-] [= <-]. exists s.
  split; [by apply (run_steps _ _ _ E)|done].
Qed.
Lemma contended_runs : ∃ s, rtc lock_step lock_boot s ∧ held (cpus s 0%nat) = [0%nat] ∧ pc (cpus s 1%nat) = Spin 0.
Proof. apply (run_reaches contended); vm_compute; reflexivity. Qed.
Lemma spinlock_excludes_witness : ∃ s, held (cpus s 0%nat) = [0%nat] ∧ pc (cpus s 1%nat) = Spin 0 ∧
  ∀ c l, l ∈ held (cpus s c) → ifl (cpus s c) = false ∧ locks s l = Lock 1 (Some c).
Proof.
  destruct contended_runs as (s & Hr & H1 & H2). exists s. split; [done|]. split; [done|].
  apply (spinlock_excludes s Hr).
Defined.

(** ** Sleep locks

    The code of [sleeplock.c] runs with the spin lock [lk->lk] held, so each
    round of the loop of [acquiresleep], from the test to [sleep] or to the
    return, is one step; [sleep] gives the spin lock up as it puts the process
    to sleep. *)

Record slock := SLock { s_locked : Z; s_pid : Z }.

(** What a process does with the lock. *)
Inductive thread := TOut | TTry | TSleep | THold.
Global Instance thread_eq_dec : EqDecision thread.
Proof. solve_decision. Defined.
Record sls := Sls { slk : slock; thr : nat → thread }.

Definition set_thr (i : nat) (t : thread) (s : sls) : sls := Sls (slk s) (<[i := t]> (thr s)).
Definition set_slk (l : slock) (s : sls) : sls := Sls l (thr s).

Section sleep.
(** The pids of the processes that are in use. *)
Context (pid : nat → Z) `{!Inj (=) (=) pid}.

Definition initsleeplock : M sls unit := modify (set_slk (SLock 0 0)).

(** One round of the loop of [acquiresleep]. *)
Definition acquiresleep_round (i : nat) : M sls unit :=
  l ← gets slk;
  if truthy (s_locked l) then modify (set_thr i TSleep)
  else
    modify (set_slk (SLock 1 (pid i)));;
    modify (set_thr i THold).

Definition wake (s : sls) : sls := Sls (slk s) (λ i, match thr s i with TSleep => TTry | t => t end).
Definition releasesleep (i : nat) : M sls unit :=
  modify (set_slk (SLock 0 0));;
  modify wake;;
  modify (set_thr i TOut).

Definition holdingsleep (i : nat) : M sls bool :=
  l ← gets slk;
  mret (truthy (s_locked l) && (s_pid l =? pid i)).

(** The callers of [releasesleep] ([iunlock], [brelse]) panic unless
    [holdingsleep]; [kill] may wake a process at any time. *)
Inductive sleep_step (s : sls) : sls → Prop :=
| ss_call i : thr s i = TOut → sleep_step s (set_thr i TTry s)
| ss_round i s' : thr s i = TTry → acquiresleep_round i s = Ok (tt, s') → sleep_step s s'
| ss_release i s' : thr s i ≠ TTry → thr s i ≠ TSleep → holdingsleep i s = Ok (true, s) →
    releasesleep i s = Ok (tt, s') → sleep_step s s'
| ss_kill i : thr s i = TSleep → sleep_step s (set_thr i TTry s).

Record sleep_inv (s : sls) : Prop := {
  si_hold : ∀ i, thr s i = THold → slk s = SLock 1 (pid i);
  si_locked : s_locked (slk s) ≠ 0 → ∃ i, thr s i = THold;
  si_wait : ∀ i, thr s i = TSleep → s_locked (slk s) ≠ 0;
}.

Lemma set_thr_other i j t s : i ≠ j → thr (set_thr i t s) j = thr s j.
Proof. apply fn_lookup_insert_ne. Qed.
Lemma set_thr_same i t s : thr (set_thr i t s) i = t.
Proof. apply fn_lookup_insert. Qed.

(** A process that neither has the lock nor starts waiting for it. *)
Lemma set_thr_inv i t s : sleep_inv s → thr s i ≠ THold → t ≠ THold → (t = TSleep → s_locked (slk s) ≠ 0) →
  sleep_inv (set_thr i t s).
Proof.
  intros Hi H1 H2 H3. split.
  - intros j. destruct (decide (i = j)) as [<-|]; [by rewrite set_thr_same|]. rewrite set_thr_other by done. apply (si_hold _ Hi).
  - intros [j Hj]%(si_locked _ Hi). exists j. rewrite set_thr_other; [done|]. by intros <-.
  - intros j. destruct (decide (i = j)) as [<-|]; [rewrite set_thr_same; auto|]. rewrite set_thr_other by done. apply (si_wait _ Hi).
Qed.

Lemma sleep_step_inv s s' : sleep_inv s → sleep_step s s' → sleep_inv s'.
Proof.
  intros Hi [i Ht|i s1 Ht H|i s1 Ht1 Ht2 Hh H|i Ht].
  - apply set_thr_inv; [done|by rewrite Ht|done..].
  - unfold acquiresleep_round in H. minv. destruct (truthy _) eqn:El; minv.
    + apply set_thr_inv; [done|by rewrite Ht|done|]. intros _ E. by rewrite E in El.
    + assert (s_locked (slk s) = 0) as E0 by (unfold truthy in El; destruct (Z.eqb_spec (s_locked (slk s)) 0); done).
      assert (∀ j, thr s j ≠ THold) as Hno by (intros j Hj%(si_hold _ Hi); by rewrite Hj in E0).
      split; [|intros _; exists i; apply set_thr_same|done].
      intros j. destruct (decide (i = j)) as [<-|]; [done|]. rewrite set_thr_other by done. intros Hj. by apply Hno in Hj.
  - unfold releasesleep in H. minv. unfold holdingsleep in Hh. minv.
    match goal with H : _ = true |- _ => rename H into Hh end. apply andb_true_iff in Hh as [Hl Hp%Z.eqb_eq].
    assert (∀ j, thr s j = THold → i = j) as Hone.
    { intros j Hj%(si_hold _ Hi). rewrite Hj in Hp. simpl in Hp. by apply (inj pid). }
    split; simpl; [|done|]; intros j; (destruct (decide (i = j)) as [<-|Hij]; [by rewrite fn_lookup_insert|]);
      rewrite fn_lookup_insert_ne by done; destruct (thr s j) eqn:E; try done. by apply Hone in E.
  - apply set_thr_inv; [done|by rewrite Ht|done..].
Qed.

(** C28: sleep locks exclude: at most one process holds the lock, it is the one
    for which [holdingsleep] is true, and no process sleeps while the lock is
    free, also when sleepers are killed. *)
Theorem sleeplock_excludes (s0 s : sls) : slk s0 = SLock 0 0 → (∀ i, thr s0 i = TOut) → rtc sleep_step s0 s →
  (∀ i j, thr s i = THold → thr s j = THold → i = j) ∧
  (∀ i, holdingsleep i s = Ok (bool_decide (thr s i = THold), s)) ∧
  (s_locked (slk s) = 0 → ∀ i, thr s i ≠ TSleep).
Proof.
  intros H0 Ht Hr. assert (sleep_inv s) as Hi.
  { assert (sleep_inv s0) as Hb by (split; [intros i; by rewrite Ht|by rewrite H0|intros i; by rewrite Ht]).
    clear H0 Ht. induction Hr as [|s1 s2 s3 H12 _ IH]; [done|]. apply IH. by eapply sleep_step_inv. }
  split; [|split].
  - intros i j E1%(si_hold _ Hi) E2%(si_hold _ Hi). apply (inj pid). congruence.
  - intros i. unfold holdingsleep. rewrite (bind_ok (gets _) _ s _ s eq_refl). unfold mret, M_ret. do 2 f_equal.
    case_bool_decide as E; [apply (si_hold _ Hi) in E as ->; simpl; apply Z.eqb_refl|].
    destruct (truthy (s_locked (slk s))) eqn:El; [|done]. simpl. apply Z.eqb_neq. intros Ep.
    destruct (si_locked _ Hi) as [j Hj]; [intros E0; by rewrite E0 in El|].
    pose proof (si_hold _ Hi _ Hj) as Hs. rewrite Hs in Ep. simpl in Ep. apply (inj pid) in Ep as ->. done.
  - intros E0 i Hw%(si_wait _ Hi). done.
Qed.
End sleep.

(** Process 0 has the lock and process 1 sleeps. *)
Lemma sleeplock_excludes_witness : ∃ s, thr s 0%nat = THold ∧ thr s 1%nat = TSleep ∧
  (∀ i j, thr s i = THold → thr s j = THold → i = j).
Proof.
  pose (s0 := Sls (SLock 0 0) (λ _, TOut)). pose (pid := λ i : nat, Z.of_nat i + 1).
  assert (Inj (=) (=) pid) as Hinj by (intros i j; unfold pid; lia).
  pose (s1 := set_thr 0 THold (set_slk (SLock 1 (pid 0%nat)) (set_thr 0 TTry s0))).
  pose (s2 := set_thr 1 TSleep (set_thr 1 TTry s1)). exists s2. split; [done|]. split; [done|].
  apply (sleeplock_excludes pid s0 s2); [done..|].
  eapply rtc_l; [by apply (ss_call pid _ 0)|]. eapply rtc_l; [by apply (ss_round pid _ 0)|].
  eapply rtc_l; [by apply (ss_call pid _ 1)|]. eapply rtc_l; [by apply (ss_round pid _ 1)|]. apply rtc_refl.
Defined.

