(* ===== verification/Console.v ===== *)
(** * The console

    The input side of [console.c]: [consoleintr] edits the line being typed in
    a ring buffer, [consoleread] takes finished lines out of it; and the
    screen, [cgaputc].  Formatted output is in [Cprintf.v]. *)

From S2P Require Import Prelude.

Definition INPUT_BUF : Z := 128.
Definition BACKSPACE : Z := 256.
(** [C(x)], control-x. *)
Definition C (x : Z) : Z := x - 64.
Definition ctrl_P : Z := C 80.
Definition ctrl_U : Z := C 85.
Definition ctrl_H : Z := C 72.
Definition ctrl_D : Z := C 68.
Definition newline : Z := 10.
Definition return_ : Z := 13.
Definition delete_ : Z := 127.

(** The variable [input]: the buffer and its read, write and edit index. *)
Record input := Input { ibuf : list Z; ir : Z; iw : Z; ie : Z }.
Definition set_r (v : Z) (s : input) : input := Input (ibuf s) v (iw s) (ie s).
Definition set_w (v : Z) (s : input) : input := Input (ibuf s) (ir s) v (ie s).
Definition set_e (v : Z) (s : input) : input := Input (ibuf s) (ir s) (iw s) v.
Definition slot (i : Z) : nat := Z.to_nat (i mod INPUT_BUF).
Definition at_ (i : Z) (s : input) : Z := ibuf s !!! slot i.
(** [input.buf[input.e++ % INPUT_BUF] = c], an assignment to a [char] *)
Definition put (c : Z) (s : input) : input := Input (<[slot (ie s) := u8 c]> (ibuf s)) (ir s) (iw s) (u32 (ie s + 1)).

(** What a key does beside changing the buffer: the characters for
    [consputc], and whether sleeping readers are woken or [procdump] called. *)
Record effect := Effect { echo : list Z; wakes : bool; dumps : bool }.

(** [case C('U')]: the loop that kills the line. *)
Fixpoint kill_line (fuel : nat) (s : input) (out : list Z) : option (input * list Z) :=
  match fuel with
  | O => None
  | S fuel' =>
      if negb (ie s =? iw s) && negb (at_ (u32 (ie s - 1)) s =? newline)
      then kill_line fuel' (set_e (u32 (ie s - 1)) s) (out ++ [BACKSPACE])
      else Some (s, out)
  end.

(** One round of the loop of [consoleintr], for the character [c] of [getc]. *)
Definition console_key (c : Z) (s : input) : option (input * effect) :=
  if c =? ctrl_P then Some (s, Effect [] false true)
  else if c =? ctrl_U then '(s', out) ← kill_line (S (Z.to_nat INPUT_BUF)) s []; Some (s', Effect out false false)
  else if (c =? ctrl_H) || (c =? delete_) then
    if negb (ie s =? iw s) then Some (set_e (u32 (ie s - 1)) s, Effect [BACKSPACE] false false)
    else Some (s, Effect [] false false)
  else if negb (c =? 0) && (u32 (ie s - ir s) <? INPUT_BUF) then
    let c := if c =? return_ then newline else c in
    let s := put c s in
    if (c =? newline) || (c =? ctrl_D) || (ie s =? u32 (ir s + INPUT_BUF))
    then Some (set_w (ie s) s, Effect [c] true false)
    else Some (s, Effect [c] false false)
  else Some (s, Effect [] false false).

(** [consoleintr] with the characters [getc] returns before it has no more. *)
Fixpoint consoleintr (cs : list Z) (s : input) : option (input * effect) :=
  match cs with
  | [] => Some (s, Effect [] false false)
  | c :: cs' =>
      '(s1, e1) ← console_key c s;
      '(s2, e2) ← consoleintr cs' s1;
      Some (s2, Effect (echo e1 ++ echo e2) (wakes e1 || wakes e2) (dumps e1 || dumps e2))
  end.

(** How a run of [consoleread] ended: it returned, or it sleeps with [n]
    characters still wanted. *)
Inductive cresult := CRet (r : Z) | CSleep (n : nat).

(** The loop of [consoleread], [n] characters before its end; [target] is the
    argument of the call.  The characters are those stored at [dst]. *)
Fixpoint consoleread_from (killed : bool) (target : Z) (n : nat) (s : input) : input * list Z * cresult :=
  match n with
  | O => (s, [], CRet target)
  | S n' =>
      if ir s =? iw s then
        if killed then (s, [], CRet (-1)) else (s, [], CSleep n)
      else
        let c := at_ (ir s) s in
        let s1 := set_r (u32 (ir s + 1)) s in
        if c =? ctrl_D then
          ((if Z.of_nat n <? target then set_r (u32 (ir s1 - 1)) s1 else s1), [], CRet (target - Z.of_nat n))
        else if c =? newline then (s1, [c], CRet (target - Z.of_nat n'))
        else let '(s2, l, r) := consoleread_from killed target n' s1 in (s2, c :: l, r)
  end.
Definition consoleread (killed : bool) (n : nat) (s : input) : input * list Z * cresult :=
  consoleread_from killed (Z.of_nat n) n s.

(** ** What the console promises

    The finished characters, oldest first, and the line being typed. *)
Record lines := Lines { ready : list Z; line : list Z }.
Definition room (s : lines) : bool := Z.of_nat (length (ready s) + length (line s)) <? INPUT_BUF.

Definition spec_key (c : Z) (s : lines) : lines * effect :=
  if c =? ctrl_P then (s, Effect [] false true)
  else if c =? ctrl_U then (Lines (ready s) [], Effect (replicate (length (line s)) BACKSPACE) false false)
  else if (c =? ctrl_H) || (c =? delete_) then
    (Lines (ready s) (take (length (line s) - 1) (line s)), Effect (replicate (min 1 (length (line s))) BACKSPACE) false false)
  else if (c =? 0) || negb (room s) then (s, Effect [] false false)
  else
    let c := if c =? return_ then newline else c in
    let s := Lines (ready s) (line s ++ [c]) in
    if (c =? newline) || (c =? ctrl_D) || negb (room s)
    then (Lines (ready s ++ line s) [], Effect [c] true false)
    else (s, Effect [c] false false).

(** A read takes characters up to and with a newline; control-D ends it, and
    is taken only when it comes first. *)
Fixpoint spec_read (killed : bool) (target : Z) (n : nat) (q : list Z) : list Z * list Z * cresult :=
  match n, q with
  | O, _ => (q, [], CRet target)
  | S _, [] => (q, [], if killed then CRet (-1) else CSleep n)
  | S n', c :: q' =>
      if c =? ctrl_D then ((if Z.of_nat n <? target then q else q'), [], CRet (target - Z.of_nat n))
      else if c =? newline then (q', [c], CRet (target - Z.of_nat n'))
      else let '(q2, l, r) := spec_read killed target n' q' in (q2, c :: l, r)
  end.

(** ** The ring buffer holds the lines *)

Record ring (s : input) (a : lines) : Prop := {
  ho_len : length (ibuf s) = Z.to_nat INPUT_BUF;
  ho_r : 0 ≤ ir s < 2 ^ 32;
  ho_w : iw s = u32 (ir s + Z.of_nat (length (ready a)));
  ho_e : ie s = u32 (ir s + Z.of_nat (length (ready a) + length (line a)));
  ho_room : Z.of_nat (length (ready a) + length (line a)) ≤ INPUT_BUF;
  ho_at : ∀ i x, (ready a ++ line a) !! i = Some x → ibuf s !! slot (ir s + Z.of_nat i) = Some x;
}.

Lemma slot_u32 i : slot (u32 i) = slot i.
Proof. unfold slot, u32, INPUT_BUF. f_equal. Z.div_mod_to_equations; lia. Qed.
Lemma slot_lt i : (slot i < Z.to_nat INPUT_BUF)%nat.
Proof. unfold slot. pose proof (Z.mod_pos_bound i INPUT_BUF eq_refl). unfold INPUT_BUF in *. lia. Qed.
Lemma slot_ne a i j : 0 ≤ i < j → j < INPUT_BUF → slot (a + i) ≠ slot (a + j).
Proof. unfold slot, INPUT_BUF. intros. Z.div_mod_to_equations; lia. Qed.
Lemma u32_sub a b : u32 (u32 a - b) = u32 (a - b).
Proof. unfold u32. Z.div_mod_to_equations; lia. Qed.
Lemma u32_eq a b : 0 ≤ a < 2 ^ 32 → 0 ≤ b < 2 ^ 32 → (u32 a =? u32 b) = (a =? b).
Proof. intros. by rewrite !u32_small. Qed.
Lemma u32_index a i j : 0 ≤ i ≤ INPUT_BUF → 0 ≤ j ≤ INPUT_BUF → (u32 (a + i) =? u32 (a + j)) = (i =? j).
Proof.
  unfold INPUT_BUF, u32. intros. destruct (Z.eqb_spec i j) as [->|]; [apply Z.eqb_refl|]. apply Z.eqb_neq.
  Z.div_mod_to_equations; lia.
Qed.

Lemma put_ring s a c : ring s a → room a = true → 0 ≤ c < 256 → ring (put c s) (Lines (ready a) (line a ++ [c])).
Proof.
  intros [H1 H2 H3 H4 H5 H6] Hr Hc. apply Z.ltb_lt in Hr. split; simpl; try done.
  - by rewrite length_insert.
  - rewrite H4, u32_add_l, length_app. simpl. f_equal. lia.
  - rewrite length_app. simpl. lia.
  - intros i x. rewrite app_assoc. intros Hx.
    assert (slot (ie s) = slot (ir s + Z.of_nat (length (ready a ++ line a)))) as He by (by rewrite H4, slot_u32, length_app).
    apply lookup_snoc_Some in Hx as [[Hi Hx]|[-> <-]].
    + rewrite list_lookup_insert_ne; [auto|]. rewrite He. apply not_eq_sym, slot_ne; rewrite length_app in *; lia.
    + rewrite He, list_lookup_insert_eq; [by rewrite u8_small|]. rewrite H1. apply slot_lt.
Qed.

Lemma commit_ring s a : ring s a → ring (set_w (ie s) s) (Lines (ready a ++ line a) []).
Proof.
  intros [H1 H2 H3 H4 H5 H6]. split; simpl; try done.
  - by rewrite H4, length_app.
  - rewrite H4, length_app. f_equal. simpl. lia.
  - rewrite length_app. simpl. lia.
  - by rewrite app_nil_r.
Qed.

(** Taking back the last character of the line. *)
Lemma back_ring s q l c : ring s (Lines q (l ++ [c])) →
  (ie s =? iw s) = false ∧ at_ (u32 (ie s - 1)) s = c ∧ ring (set_e (u32 (ie s - 1)) s) (Lines q l).
Proof.
  intros [H1 H2 H3 H4 H5 H6]. simpl in *. rewrite length_app in *. simpl in *.
  assert (u32 (ie s - 1) = u32 (ir s + Z.of_nat (length q + length l))) as He by (rewrite H4, u32_sub; f_equal; lia).
  split; [rewrite H3, H4, u32_index by lia; apply Z.eqb_neq; lia|]. split.
  - unfold at_. apply list_lookup_total_correct. rewrite He, slot_u32. apply H6.
    rewrite app_assoc. rewrite lookup_app_r by (rewrite length_app; lia).
    by rewrite length_app, Nat.sub_diag.
  - split; simpl; try done; [lia|]. intros i x Hx. apply H6. rewrite app_assoc. by apply lookup_app_l_Some.
Qed.
Lemma empty_ring s q : ring s (Lines q []) → (ie s =? iw s) = true.
Proof. intros [H1 H2 H3 H4 H5 H6]. simpl in *. rewrite H3, H4. apply Z.eqb_eq. f_equal. lia. Qed.

Lemma kill_line_spec q l : ∀ s fuel out, ring s (Lines q l) → newline ∉ l → (length l < fuel)%nat →
  ∃ s', kill_line fuel s out = Some (s', out ++ replicate (length l) BACKSPACE) ∧ ring s' (Lines q []).
Proof.
  induction l as [|c l IH] using rev_ind; intros s fuel out Hr Hn Hf; (destruct fuel as [|fuel]; [simpl in Hf; lia|]); cbn [kill_line].
  - rewrite (empty_ring _ _ Hr). simpl. exists s. by rewrite app_nil_r.
  - destruct (back_ring _ _ _ _ Hr) as (E1 & E2 & Hr'). rewrite E1, E2. rewrite (proj2 (Z.eqb_neq c newline)) by set_solver.
    cbn [negb andb]. rewrite length_app in Hf. simpl in Hf.
    destruct (IH _ fuel (out ++ [BACKSPACE]) Hr') as (s' & E & Hs'); [set_solver|lia|].
    exists s'. split; [|done]. rewrite E, <- app_assoc, length_app. simpl. do 3 f_equal. by rewrite Nat.add_1_r.
Qed.

Lemma room_ring s a : ring s a → (u32 (ie s - ir s) <? INPUT_BUF) = room a ∧
  (ie s =? u32 (ir s + INPUT_BUF)) = negb (room a).
Proof.
  intros [H1 H2 H3 H4 H5 H6]. unfold room. split.
  - rewrite H4, u32_sub. f_equal. rewrite Z.add_simpl_l. apply u32_small. unfold INPUT_BUF in *. lia.
  - rewrite H4, u32_index by (unfold INPUT_BUF in *; lia). unfold INPUT_BUF in *. bcase; simpl; done || lia.
Qed.

(** Each key does to the buffer what it does to the lines. *)
Lemma console_key_spec c s a : ring s a → newline ∉ line a → 0 ≤ c < 256 → ∃ s',
  console_key c s = Some (s', (spec_key c a).2) ∧ ring s' (spec_key c a).1 ∧ newline ∉ line (spec_key c a).1.
Proof.
  intros Hr Hn Hc. unfold console_key, spec_key. destruct (c =? ctrl_P); [by exists s|].
  destruct (c =? ctrl_U).
  { destruct a as [q l]. destruct (kill_line_spec q l s (S (Z.to_nat INPUT_BUF)) [] Hr Hn) as (s' & E & Hs').
    { pose proof (ho_room _ _ Hr) as H. simpl in H. lia. }
    rewrite E. simpl. exists s'. split; [done|]. split; [done|]. apply not_elem_of_nil. }
  destruct ((c =? ctrl_H) || (c =? delete_)).
  { destruct a as [q l]. simpl in *. destruct l as [|x l _] using rev_ind.
    - rewrite (empty_ring _ _ Hr). simpl. by exists s.
    - destruct (back_ring _ _ _ _ Hr) as (E1 & _ & Hr'). rewrite E1. simpl. rewrite length_app, Nat.add_sub, take_app_length. simpl.
      rewrite (Nat.add_comm _ 1). simpl. exists (set_e (u32 (ie s - 1)) s). split; [done|]. split; [done|]. by apply not_elem_of_app in Hn as [? _]. }
  destruct (room_ring _ _ Hr) as [-> _]. destruct (Z.eqb_spec c 0) as [->|Hc0]; [by exists s|].
  destruct (room a) eqn:Er; [|by exists s]. cbn [negb andb orb].
  set (c' := if c =? return_ then newline else c).
  assert (0 ≤ c' < 256) as Hc' by (unfold c'; bcase; unfold newline; lia).
  pose proof (put_ring s a c' Hr Er Hc') as Hp. destruct (room_ring _ _ Hp) as [_ ->].
  destruct ((c' =? newline) || (c' =? ctrl_D) || negb (room (Lines (ready a) (line a ++ [c'])))) eqn:Eb.
  - eexists. split; [done|]. split; [apply commit_ring, Hp|apply not_elem_of_nil].
  - eexists. split; [done|]. split; [done|]. simpl. apply orb_false_iff in Eb as [Eb _]. apply orb_false_iff in Eb as [Eb _].
    apply Z.eqb_neq in Eb. apply not_elem_of_app. split; [done|].
    apply not_elem_of_cons. split; [done|apply not_elem_of_nil].
Qed.

(** A read takes from the buffer what it takes from the finished lines. *)
Lemma take_ring s x q l : ring s (Lines (x :: q) l) →
  (ir s =? iw s) = false ∧ at_ (ir s) s = x ∧ ring (set_r (u32 (ir s + 1)) s) (Lines q l).
Proof.
  intros [H1 H2 H3 H4 H5 H6]. simpl in *. split; [|split].
  - rewrite H3. rewrite <- (u32_small (ir s)) at 1 by done. rewrite <- (Z.add_0_r (ir s)) at 1.
    rewrite u32_index by (unfold INPUT_BUF in *; lia). apply Z.eqb_neq. lia.
  - unfold at_. apply list_lookup_total_correct. rewrite <- (Z.add_0_r (ir s)). by apply (H6 0%nat).
  - split; simpl; try done; [apply u32_range|rewrite H3, u32_add_l; f_equal; lia|rewrite H4, u32_add_l; f_equal; lia|lia|].
    intros i y Hy. specialize (H6 (S i) y Hy). rewrite <- slot_u32, u32_add_l, slot_u32. rewrite <- H6. do 2 f_equal. lia.
Qed.
Lemma drained_ring s l : ring s (Lines [] l) → (ir s =? iw s) = true.
Proof. intros [H1 H2 H3 H4 H5 H6]. rewrite H3. simpl. rewrite Z.add_0_r, u32_small by done. apply Z.eqb_refl. Qed.

Lemma consoleread_spec killed target n : ∀ s q l, ring s (Lines q l) → ∃ s',
  consoleread_from killed target n s = (s', (spec_read killed target n q).1.2, (spec_read killed target n q).2) ∧
  ring s' (Lines (spec_read killed target n q).1.1 l).
Proof.
  induction n as [|n IH]; intros s q l Hr; [by exists s|]. cbn [consoleread_from spec_read]. destruct q as [|c q].
  { rewrite (drained_ring _ _ Hr). destruct killed; by exists s. }
  destruct (take_ring _ _ _ _ Hr) as (E1 & E2 & Hr'). rewrite E1, E2.
  destruct (c =? ctrl_D); [|destruct (c =? newline)].
  - destruct (_ <? target); simpl; [|by eexists]. eexists. split; [done|].
    replace (set_r _ (set_r _ s)) with s; [done|]. destruct s as [b r w e]. unfold set_r. simpl. f_equal.
    rewrite u32_sub, Z.add_simpl_r, u32_small; [done|]. apply (ho_r _ _ Hr).
  - simpl. by eexists.
  - destruct (IH _ _ _ Hr') as (s' & E & Hs'). rewrite E. destruct (spec_read killed target n q) as [[q2 l2] r2]. simpl in *. by exists s'.
Qed.

(** ** Any use of the console *)

(** A key typed, or a run of [consoleread] from the head of its loop. *)
Inductive cevent := Key (c : Z) | Read (killed : bool) (target : Z) (n : nat).
Inductive coutput := OKey (e : effect) | ORead (l : list Z) (r : cresult).

Fixpoint console_run (evs : list cevent) (s : input) : option (list coutput) :=
  match evs with
  | [] => Some []
  | Key c :: evs' => '(s', e) ← console_key c s; o ← console_run evs' s'; Some (OKey e :: o)
  | Read k t n :: evs' =>
      let '(s', l, r) := consoleread_from k t n s in o ← console_run evs' s'; Some (ORead l r :: o)
  end.
Fixpoint spec_run (evs : list cevent) (a : lines) : list coutput :=
  match evs with
  | [] => []
  | Key c :: evs' => OKey (spec_key c a).2 :: spec_run evs' (spec_key c a).1
  | Read k t n :: evs' =>
      let r := spec_read k t n (ready a) in ORead r.1.2 r.2 :: spec_run evs' (Lines r.1.1 (line a))
  end.
Definition typed (e : cevent) : Prop := match e with Key c => 0 ≤ c < 256 | _ => True end.

Lemma console_run_spec evs : Forall typed evs → ∀ s a, ring s a → newline ∉ line a →
  console_run evs s = Some (spec_run evs a).
Proof.
  induction 1 as [|ev evs He _ IH]; intros s a Hr Hn; [done|]. destruct ev as [c|k t n]; simpl.
  - destruct (console_key_spec c s a Hr Hn He) as (s' & E & Hr' & Hn'). rewrite E. simpl. by rewrite (IH _ _ Hr' Hn').
  - destruct a as [q l]. destruct (consoleread_spec k t n s q l Hr) as (s' & E & Hr'). rewrite E. simpl.
    by rewrite (IH _ _ Hr' Hn).
Qed.

(** C18: the console implements its lines.  For every sequence of keys and
    reads from the start, the ring buffer with its wrapping indices behaves
    like a queue of finished lines and a line being edited: the same
    characters are echoed, the same wakeups happen and the reads return the
    same characters. *)
Theorem console_implements_lines (buf : list Z) (evs : list cevent) :
  length buf = Z.to_nat INPUT_BUF → Forall typed evs →
  console_run evs (Input buf 0 0 0) = Some (spec_run evs (Lines [] [])).
Proof.
  intros Hb He. apply console_run_spec; [done| |apply not_elem_of_nil]. split; simpl; try done.
Qed.

(** "ax", delete, "b", return: the read gives "ab" and a newline. *)
Lemma console_implements_lines_witness :
  console_run (Key <$> [97; 120; 127; 98; 13]) (Input (replicate 128 0) 0 0 0) =
    Some (spec_run (Key <$> [97; 120; 127; 98; 13]) (Lines [] [])) ∧
  console_run ((Key <$> [97; 120; 127; 98; 13]) ++ [Read false 10 10]) (Input (replicate 128 0) 0 0 0) =
    Some [OKey (Effect [97] false false); OKey (Effect [120] false false); OKey (Effect [256] false false);
          OKey (Effect [98] false false); OKey (Effect [10] true false); ORead [97; 98; 10] (CRet 3)].
Proof.
  split; [|rewrite (console_implements_lines (replicate 128 0)); [vm_compute; reflexivity|done|]].
  - apply (console_implements_lines (replicate 128 0)); [done|]. repeat constructor; done || lia.
  - repeat constructor; done || lia.
Defined.

(** ** The screen

    The cells of the CGA memory, 25 rows of 80, the cursor position that the
    CRT registers hold, and the bytes sent to the serial port. *)

Record screen := Screen { crt : list Z; cursor : Z; serial : list Z }.
Definition CELLS : nat := 2000.
Definition set_cell (i v : Z) : M screen unit := λ s,
  if (0 <=? i) && (i <? Z.of_nat CELLS) then Ok (tt, Screen (<[Z.to_nat i := v]> (crt s)) (cursor s) (serial s)) else Undef.

(** [memmove(crt, crt+80, sizeof(crt[0])*23*80)], then the cells from the new
    position to the end of row 24 are cleared. *)
Definition scroll (pos : Z) (l : list Z) : list Z :=
  let l := list_inserts 0 (take (23 * 80) (drop 80 l)) l in
  list_inserts (Z.to_nat pos) (replicate (Z.to_nat (24 * 80 - pos)) 0) l.

Definition cgaputc (c : Z) : M screen unit :=
  pos ← gets cursor;
  pos ← (if c =? newline then mret (pos + (80 - pos mod 80))
         else if c =? BACKSPACE then mret (if 0 <? pos then pos - 1 else pos)
         else set_cell pos (Z.lor (Z.land c 255) 1792);; mret (pos + 1));
  if (pos <? 0) || (25 * 80 <? pos) then panic "pos under/overflow" else
  pos ← (if 24 <=? pos / 80 then
           modify (λ s, Screen (scroll (pos - 80) (crt s)) (cursor s) (serial s));; mret (pos - 80)
         else mret pos);
  modify (λ s, Screen (crt s) (Z.lor (Z.shiftl (u8 (Z.shiftr pos 8)) 8) (u8 pos)) (serial s));;
  set_cell pos (Z.lor 32 1792).

Definition uartputc (c : Z) : M screen unit := modify (λ s, Screen (crt s) (cursor s) (serial s ++ [u8 c])).
Definition consputc (c : Z) : M screen unit :=
  (if c =? BACKSPACE then uartputc 8;; uartputc 32;; uartputc 8 else uartputc c);;
  cgaputc c.
Definition consolewrite (buf : list Z) : M screen Z :=
  mfor buf (λ c, consputc (Z.land c 255));; mret (Z.of_nat (length buf)).

Definition screen_ok (s : screen) : Prop := length (crt s) = CELLS ∧ 0 ≤ cursor s < Z.of_nat CELLS.

Lemma register_pos pos : 0 ≤ pos < 2 ^ 16 → Z.lor (Z.shiftl (u8 (Z.shiftr pos 8)) 8) (u8 pos) = pos.
Proof.
  intros H. rewrite Z.shiftr_div_pow2 by lia. rewrite u8_small by (change (2 ^ 8) with 256; Z.div_mod_to_equations; lia).
  unfold u8. change 256 with (2 ^ 8). rewrite <- Z.land_ones, <- Z.shiftr_div_pow2 by lia. apply Z.bits_inj'. intros i Hi.
  rewrite Z.lor_spec, Z.land_spec, Z.testbit_ones_nonneg by lia. destruct (Z.ltb_spec i 8).
  - rewrite Z.shiftl_spec_low by lia. by rewrite andb_true_r.
  - rewrite Z.shiftl_spec, Z.shiftr_spec by lia. rewrite andb_false_r, orb_false_r. f_equal. lia.
Qed.

Lemma set_cell_ok i v s : 0 ≤ i < Z.of_nat CELLS → set_cell i v s = Ok (tt, Screen (<[Z.to_nat i := v]> (crt s)) (cursor s) (serial s)).
Proof.
  intros H. unfold set_cell. rewrite (proj2 (Z.leb_le _ _)), (proj2 (Z.ltb_lt _ _)) by lia. done.
Qed.

(** The new cursor position, before scrolling. *)
Definition next_pos (c pos : Z) : Z :=
  if c =? newline then pos + (80 - pos mod 80) else if c =? BACKSPACE then if 0 <? pos then pos - 1 else pos else pos + 1.

Lemma cgaputc_returns c s : screen_ok s → ∃ s', cgaputc c s = Ok (tt, s') ∧ screen_ok s' ∧
  cursor s' = if 24 <=? next_pos c (cursor s) / 80 then next_pos c (cursor s) - 80 else next_pos c (cursor s).
Proof.
  intros [Hl Hp]. unfold cgaputc. rewrite (bind_ok (gets _) _ s _ s eq_refl).
  assert (∃ s1, ((if c =? newline then mret (cursor s + (80 - cursor s mod 80))
      else if c =? BACKSPACE then mret (if 0 <? cursor s then cursor s - 1 else cursor s)
      else set_cell (cursor s) (Z.lor (Z.land c 255) 1792);; mret (cursor s + 1)) : M screen Z) s = Ok (next_pos c (cursor s), s1) ∧
      length (crt s1) = CELLS) as (s1 & E1 & Hl1).
  { unfold next_pos. destruct (c =? newline); [by exists s|]. destruct (c =? BACKSPACE); [by exists s|].
    rewrite (bind_ok _ _ _ _ _ (set_cell_ok _ _ _ Hp)). eexists. split; [done|]. simpl. by rewrite length_insert. }
  rewrite (bind_ok _ _ _ _ _ E1). clear E1. set (pos := next_pos c (cursor s)).
  assert (0 ≤ pos ≤ 2000) as Hpos.
  { unfold pos, next_pos. unfold CELLS in Hp. bcase; Z.div_mod_to_equations; lia. }
  rewrite (proj2 (Z.ltb_ge pos 0)), (proj2 (Z.ltb_ge (25 * 80) pos)) by lia. cbn [orb].
  set (pos' := if 24 <=? pos / 80 then pos - 80 else pos).
  assert (0 ≤ pos' < 2000) as Hpos' by (unfold pos'; bcase; Z.div_mod_to_equations; lia).
  assert (∃ s2, ((if 24 <=? pos / 80 then modify (λ s, Screen (scroll (pos - 80) (crt s)) (cursor s) (serial s));; mret (pos - 80)
      else mret pos) : M screen Z) s1 = Ok (pos', s2) ∧ length (crt s2) = CELLS) as (s2 & E2 & Hl2).
  { unfold pos'. destruct (24 <=? pos / 80); [|by exists s1]. eexists. split; [done|]. simpl.
    unfold scroll. by rewrite !length_inserts. }
  rewrite (bind_ok _ _ _ _ _ E2), (bind_ok (modify _) _ _ _ _ eq_refl). rewrite set_cell_ok by done.
  eexists. split; [done|]. rewrite register_pos by lia. repeat split; simpl; try done; [by rewrite length_insert|lia|unfold CELLS; lia].
Qed.

Lemma consputc_returns c s : screen_ok s → ∃ s', consputc c s = Ok (tt, s') ∧ screen_ok s'.
Proof.
  intros Hs. unfold consputc. destruct (c =? BACKSPACE);
    (edestruct (cgaputc_returns c) as (s1 & E1 & Hs1 & _); [|exists s1; split; [exact E1|done]]); exact Hs.
Qed.

(** Whatever is written to the console, [cgaputc] does not panic, stays
    inside the CGA memory and leaves the cursor on the screen. *)
Lemma consolewrite_returns buf s : screen_ok s → ∃ s', consolewrite buf s = Ok (Z.of_nat (length buf), s') ∧ screen_ok s'.
Proof.
  intros Hs. unfold consolewrite.
  assert (∃ s', mfor buf (λ c, consputc (Z.land c 255)) s = Ok (tt, s') ∧ screen_ok s') as (s' & E & H').
  { revert s Hs. induction buf as [|c buf IH]; intros s Hs; [by exists s|]. simpl.
    destruct (consputc_returns (Z.land c 255) s Hs) as (s1 & E1 & Hs1). rewrite (bind_ok _ _ _ _ _ E1). auto. }
  exists s'. by rewrite (bind_ok _ _ _ _ _ E).
Qed.
