(* ===== verification/Kbd.v ===== *)
(** * Keyboard and serial line

    [kbdgetc] of [kbd.c] with the tables of [kbd.h], and [uartgetc] of
    [uart.c]: where the characters that [consoleintr] ([Console.v]) reads come
    from.

    The theorem: scan codes, with their prefixes for extended keys and their
    marks for keys released, have the effect of pressing and releasing keys on
    a set of modifiers, and letters come out in the case that shift and caps
    lock ask for. *)

From S2P Require Import Prelude Console.

Definition KBSTATP : Z := 100.
Definition KBS_DIB : Z := 1.
Definition KBDATAP : Z := 96.

Definition SHIFT : Z := 1.
Definition CTL : Z := 2.
Definition ALT : Z := 4.
Definition CAPSLOCK : Z := 8.
Definition NUMLOCK : Z := 16.
Definition SCROLLLOCK : Z := 32.
Definition E0ESC : Z := 64.

(** ** Tables *)

(** An array of 256 bytes with an initial part and elements given by index. *)
Definition table (l : list Z) (more : list (nat * Z)) : list Z :=
  foldl (λ t p, <[p.1 := p.2]> t) (l ++ replicate (256 - length l) 0) more.

Definition shiftcode : list Z := Eval cbv in
  table [] [(29%nat, CTL); (42%nat, SHIFT); (54%nat, SHIFT); (56%nat, ALT); (157%nat, CTL); (184%nat, ALT)].
Definition togglecode : list Z := Eval cbv in table [] [(58%nat, CAPSLOCK); (69%nat, NUMLOCK); (70%nat, SCROLLLOCK)].

(** The keys that the three maps give by index: arrows, page up and down, home,
    end, insert, delete. *)
Definition special_keys : list (nat * Z) :=
  [(200%nat, 226); (208%nat, 227); (201%nat, 230); (209%nat, 231); (203%nat, 228); (205%nat, 229); (151%nat, 224);
   (207%nat, 225); (210%nat, 232); (211%nat, 233)].

Definition normalmap : list Z := Eval cbv in table
  [0; 27; 49; 50; 51; 52; 53; 54;
   55; 56; 57; 48; 45; 61; 8; 9;
   113; 119; 101; 114; 116; 121; 117; 105;
   111; 112; 91; 93; 10; 0; 97; 115;
   100; 102; 103; 104; 106; 107; 108; 59;
   39; 96; 0; 92; 122; 120; 99; 118;
   98; 110; 109; 44; 46; 47; 0; 42;
   0; 32; 0; 0; 0; 0; 0; 0;
   0; 0; 0; 0; 0; 0; 0; 55;
   56; 57; 45; 52; 53; 54; 43; 49;
   50; 51; 48; 46; 0; 0; 0; 0]
  ((156%nat, 10) :: (181%nat, 47) :: special_keys).

Definition shiftmap : list Z := Eval cbv in table
  [0; 27; 33; 64; 35; 36; 37; 94;
   38; 42; 40; 41; 95; 43; 8; 9;
   81; 87; 69; 82; 84; 89; 85; 73;
   79; 80; 123; 125; 10; 0; 65; 83;
   68; 70; 71; 72; 74; 75; 76; 58;
   34; 126; 0; 124; 90; 88; 67; 86;
   66; 78; 77; 60; 62; 63; 0; 42;
   0; 32; 0; 0; 0; 0; 0; 0;
   0; 0; 0; 0; 0; 0; 0; 55;
   56; 57; 45; 52; 53; 54; 43; 49;
   50; 51; 48; 46; 0; 0; 0; 0]
  ((156%nat, 10) :: (181%nat, 47) :: special_keys).

(** [C(x)], a byte. *)
Definition ctl (x : Z) : Z := u8 (x - 64).
Definition ctlmap : list Z := Eval cbv in table
  [0; 0; 0; 0; 0; 0; 0; 0;
   0; 0; 0; 0; 0; 0; 0; 0;
   ctl 81; ctl 87; ctl 69; ctl 82; ctl 84; ctl 89; ctl 85; ctl 73;
   ctl 79; ctl 80; 0; 0; 13; 0; ctl 65; ctl 83;
   ctl 68; ctl 70; ctl 71; ctl 72; ctl 74; ctl 75; ctl 76; 0;
   0; 0; 0; ctl 92; ctl 90; ctl 88; ctl 67; ctl 86;
   ctl 66; ctl 78; ctl 77; 0; 0; ctl 47; 0; 0]
  ((156%nat, 13) :: (181%nat, ctl 47) :: special_keys).

Definition charcode : list (list Z) := [normalmap; shiftmap; ctlmap; ctlmap].

(** ** [kbdgetc] *)

Definition at_ (t : list Z) (i : Z) : Z := t !!! Z.to_nat i.

(** What [kbdgetc] does with a byte from the keyboard: [shift] and its
    result. *)
Definition kbd_byte (shift data : Z) : Z * Z :=
  if data =? 224 then (Z.lor shift E0ESC, 0)
  else if truthy (Z.land data 128) then
    let data := if truthy (Z.land shift E0ESC) then data else Z.land data 127 in
    (Z.land shift (Z.lnot (Z.lor (at_ shiftcode data) E0ESC)), 0)
  else
    let '(data, shift) :=
      if truthy (Z.land shift E0ESC) then (Z.lor data 128, Z.land shift (Z.lnot E0ESC)) else (data, shift) in
    let shift := Z.lor shift (at_ shiftcode data) in
    let shift := Z.lxor shift (at_ togglecode data) in
    let c := at_ (charcode !!! Z.to_nat (Z.land shift (Z.lor CTL SHIFT))) data in
    let c :=
      if truthy (Z.land shift CAPSLOCK) then
        if (97 <=? c) && (c <=? 122) then c + (65 - 97)
        else if (65 <=? c) && (c <=? 90) then c + (97 - 65)
        else c
      else c in
    (shift, c).
(** [kbdgetc] with the status and the data the ports give. *)
Definition kbdgetc (shift st data : Z) : Z * Z :=
  if Z.land st KBS_DIB =? 0 then (shift, -1) else kbd_byte shift data.

(** The results of [kbdgetc] while there is data: the characters of one run of
    [consoleintr] by [kbdintr]. *)
Fixpoint kbd_run (shift : Z) (bytes : list Z) : Z * list Z :=
  match bytes with
  | [] => (shift, [])
  | b :: bytes' =>
      let '(shift, c) := kbdgetc shift KBS_DIB b in
      let '(shift, cs) := kbd_run shift bytes' in (shift, c :: cs)
  end.
Definition kbdintr (shift : Z) (bytes : list Z) (s : input) : option (Z * (input * effect)) :=
  let '(shift, cs) := kbd_run shift bytes in r ← consoleintr cs s; Some (shift, r).

(** [uartgetc] with the line status and the byte received; [uartintr]. *)
Definition uartgetc (uart : bool) (status data : Z) : Z :=
  if negb uart then -1 else if Z.land status 1 =? 0 then -1 else data.
Definition uartintr (uart : bool) (bytes : list Z) (s : input) : option (input * effect) :=
  consoleintr (if uart then uartgetc uart 1 <$> bytes else []) s.

(** ** Keys *)

(** A key goes down or up: its code, and whether it is an extended one. *)
Record key := Key { k_ext : bool; k_code : nat; k_up : bool }.

(** Its scan codes. *)
Definition scan (k : key) : list Z :=
  (if k_ext k then [224] else []) ++ [Z.of_nat (k_code k) + if k_up k then 128 else 0].

(** The keys held and the locks. *)
Record mods := Mods { m_shift : bool; m_ctl : bool; m_alt : bool; m_caps : bool; m_num : bool; m_scroll : bool }.

Global Instance mods_eq_dec : EqDecision mods.
Proof. solve_decision. Defined.

(** The key's place in the tables. *)
Definition k_index (k : key) : nat := (k_code k + if k_ext k then 128 else 0)%nat.

(** Modifier keys count from press to release; locks change at each press. *)
Definition spec_mods (k : key) (m : mods) : mods :=
  let i := k_index k in
  let hold (js : list nat) (b : bool) := if existsb (Nat.eqb i) js then negb (k_up k) else b in
  let lock (j : nat) (b : bool) := if (i =? j)%nat && negb (k_up k) then negb b else b in
  Mods (hold [42; 54]%nat (m_shift m)) (hold [29; 157]%nat (m_ctl m)) (hold [56; 184]%nat (m_alt m))
    (lock 58%nat (m_caps m)) (lock 69%nat (m_num m)) (lock 70%nat (m_scroll m)).

Definition upper (c : Z) : bool := (65 <=? c) && (c <=? 90).
Definition lower (c : Z) : bool := (97 <=? c) && (c <=? 122).
Definition swap_case (c : Z) : Z := if lower c then c - 32 else if upper c then c + 32 else c.

(** The character a press gives. *)
Definition spec_char (k : key) (m : mods) : Z :=
  let m := spec_mods k m in
  let c := (if m_ctl m then ctlmap else if m_shift m then shiftmap else normalmap) !!! k_index k in
  if m_caps m then swap_case c else c.

(** The results of [kbdgetc] for a key. *)
Definition spec_out (k : key) (m : mods) : list Z :=
  (if k_ext k then [0] else []) ++ [if k_up k then 0 else spec_char k m].

Definition b2 (b : bool) (z : Z) : Z := if b then z else 0.
(** The modifiers as bits. *)
Definition enc (m : mods) : Z :=
  b2 (m_shift m) SHIFT + b2 (m_ctl m) CTL + b2 (m_alt m) ALT + b2 (m_caps m) CAPSLOCK + b2 (m_num m) NUMLOCK + b2 (m_scroll m) SCROLLLOCK.

(** Codes of keys: the code of the prefix, less its high bit, is not one. *)
Definition key_ok (k : key) : Prop := (k_code k < 128)%nat ∧ k_code k ≠ 96%nat.

(** *** All keys in all states *)

Definition bools : list bool := [true; false].
Definition all_mods : list mods :=
  a ← bools; b ← bools; c ← bools; d ← bools; e ← bools; f ← bools; [Mods a b c d e f].
Definition all_keys : list key := x ← bools; u ← bools; n ← filter (λ n, n ≠ 96%nat) (seq 0 128); [Key x n u].

Definition key_right (m : mods) (k : key) : bool :=
  let '(s, cs) := kbd_run (enc m) (scan k) in (s =? enc (spec_mods k m)) && forallb (λ p, p.1 =? p.2) (zip cs (spec_out k m)).

Lemma all_right : forallb (λ m, forallb (key_right m) all_keys) all_mods = true.
Proof. vm_compute. reflexivity. Qed.

Lemma elem_mods m : m ∈ all_mods.
Proof. destruct m as [[] [] [] [] [] []]; apply (bool_decide_unpack _); vm_compute; done. Qed.
Lemma elem_keys k : key_ok k → k ∈ all_keys.
Proof.
  destruct k as [x n u]. intros [Hn Hne]. simpl in *.
  assert (∀ b, b ∈ bools) as Hb by (intros []; [left|right; left]).
  apply list_elem_of_bind. exists x. split; [|apply Hb]. apply list_elem_of_bind. exists u. split; [|apply Hb].
  apply list_elem_of_bind. exists n. split; [by left|]. apply list_elem_of_filter. split; [done|]. apply elem_of_seq. lia.
Qed.

Lemma zip_forallb (l k : list Z) : length l = length k → forallb (λ p, p.1 =? p.2) (zip l k) = true → l = k.
Proof.
  revert k. induction l as [|x l IH]; intros [|y k] Hl H; try done. simpl in H. apply andb_true_iff in H as [H1%Z.eqb_eq H2].
  f_equal; [done|]. apply IH; [by injection Hl|done].
Qed.
Lemma kbd_run_length bytes s : length (kbd_run s bytes).2 = length bytes.
Proof.
  revert s. induction bytes as [|b bytes IH]; intros s; [done|]. cbn [kbd_run]. destruct (kbdgetc s KBS_DIB b) as [s1 c].
  specialize (IH s1). destruct (kbd_run s1 bytes) as [s2 cs]. simpl in *. lia.
Qed.
Lemma kbd_run_app b1 b2 s : kbd_run s (b1 ++ b2) =
  let '(s1, cs1) := kbd_run s b1 in let '(s2, cs2) := kbd_run s1 b2 in (s2, cs1 ++ cs2).
Proof.
  revert s. induction b1 as [|b b1 IH]; intros s; cbn [app kbd_run]; [by destruct (kbd_run s b2)|].
  destruct (kbdgetc s KBS_DIB b) as [s1 c]. rewrite IH. destruct (kbd_run s1 b1) as [s2 cs]. by destruct (kbd_run s2 b2).
Qed.

Lemma key_eq m k : key_ok k → kbd_run (enc m) (scan k) = (enc (spec_mods k m), spec_out k m).
Proof.
  intros Hk. pose proof all_right as H. rewrite forallb_forall in H.
  specialize (H m (proj1 (list_elem_of_In _ _) (elem_mods m))). rewrite forallb_forall in H.
  specialize (H k (proj1 (list_elem_of_In _ _) (elem_keys k Hk))). unfold key_right in H.
  pose proof (kbd_run_length (scan k) (enc m)) as Hl. destruct (kbd_run (enc m) (scan k)) as [s cs]. simpl in Hl.
  apply andb_true_iff in H as [->%Z.eqb_eq H]. f_equal. apply zip_forallb; [|done]. rewrite Hl. unfold scan, spec_out. by destruct (k_ext k).
Qed.

(** A sequence of keys. *)
Fixpoint spec_keys (ks : list key) (m : mods) : mods * list Z :=
  match ks with
  | [] => (m, [])
  | k :: ks' => let '(m', cs) := spec_keys ks' (spec_mods k m) in (m', spec_out k m ++ cs)
  end.

(** A letter key, on the main part of the keyboard, that goes down. *)
Definition letter (k : key) : bool := negb (k_ext k) && negb (k_up k) && lower (normalmap !!! k_index k).
Definition letter_right (m : mods) (k : key) : bool :=
  implb (letter k) (spec_char k m =?
    let c := normalmap !!! k_index k in
    if m_ctl m then c - 96 else if xorb (m_shift m) (m_caps m) then c - 32 else c).
Lemma letters_right : forallb (λ m, forallb (letter_right m) all_keys) all_mods = true.
Proof. vm_compute. reflexivity. Qed.

(** The keyboard driver.  For every sequence of keys pressed and released,
    in every state, the scan codes of the keys leave [kbdgetc] with the bits of
    the modifiers held and of the locks, and give 0 for prefixes and releases
    and, for each press, the character of the key under these modifiers; a
    letter key gives its control character under control, else the letter,
    in upper case exactly if one of shift and caps lock is on. *)
Theorem kbd_implements_keys ks m : Forall key_ok ks →
  (let '(m', cs) := spec_keys ks m in kbd_run (enc m) (concat (scan <$> ks)) = (enc m', cs)) ∧
  ∀ k, key_ok k → letter k = true → let c := normalmap !!! k_index k in
    spec_char k m = if m_ctl m then c - 96 else if xorb (m_shift m) (m_caps m) then c - 32 else c.
Proof.
  intros Hks. split.
  - revert m. induction Hks as [|k ks Hk _ IH]; intros m; [done|]. cbn [spec_keys]. specialize (IH (spec_mods k m)).
    destruct (spec_keys ks (spec_mods k m)) as [m' cs]. rewrite fmap_cons. cbn [concat]. by rewrite kbd_run_app, key_eq, IH by done.
  - intros k Hk Hl c. pose proof letters_right as H. rewrite forallb_forall in H.
    specialize (H m (proj1 (list_elem_of_In _ _) (elem_mods m))). rewrite forallb_forall in H.
    specialize (H k (proj1 (list_elem_of_In _ _) (elem_keys k Hk))). unfold letter_right in H. rewrite Hl in H.
    by apply Z.eqb_eq in H.
Qed.

(** Shift down, A, shift up, A, extended Enter. *)
Definition demo_keys : list key :=
  [Key false 42 false; Key false 30 false; Key false 42 true; Key false 30 false; Key true 28 false].
Lemma kbd_implements_keys_witness : kbd_run 0 (concat (scan <$> demo_keys)) = (0, [0; 65; 0; 97; 0; 10]).
Proof.
  assert (Forall key_ok demo_keys) as H by (repeat constructor; simpl; lia).
  exact (proj1 (kbd_implements_keys demo_keys (Mods false false false false false false) H)).
Defined.

(** The Home key, whose code is extended 0x47, gives nothing: the maps have it
    at 0x97 instead of 0xc7. *)
Theorem kbd_home_key_dead m : spec_char (Key true 71 false) m = 0.
Proof. by destruct m as [[] [] [] [] [] []]. Qed.
