(* ===== verification/Login.v ===== *)
(** * Login

    [main] of [init.c] up to the start of the shell: it reads a user name and
    a password from the console, through the reads that [Console.v] specifies,
    and gives up after three failed attempts.  The loop that starts shells is in
    [Programs.v]. *)

From S2P Require Import Prelude Console.

(** The state is what was typed and not read yet.  A read of an empty console
    waits. *)
Definition read0 (n : nat) : M (list Z) (list Z * Z) := λ q,
  match spec_read false (Z.of_nat n) n q with
  | (q', l, CRet r) => Ok ((l, r), q')
  | (_, _, CSleep _) => Blocked
  end.

(** [while (read(0, &flush, 1) == 1 && flush != newline);] *)
Fixpoint flush_loop (fuel : nat) : M (list Z) unit :=
  match fuel with
  | O => undef
  | S fuel' =>
      '(l, len) ← read0 1;
      if (len =? 1) && negb (l !!! 0%nat =? newline) then flush_loop fuel' else mret tt
  end.

(** [get_input]: the new contents of the buffer. *)
Definition get_input (buffer : list Z) (size : nat) : M (list Z) (list Z) :=
  '(l, len) ← read0 (size - 1);
  let buffer := list_inserts 0 l buffer in
  (if len =? Z.of_nat size - 1 then q ← gets id; flush_loop (S (length q)) else mret tt);;
  if (0 <? len) && (buffer !!! Z.to_nat (len - 1) =? newline) then mret (<[Z.to_nat (len - 1) := 0]> buffer)
  else if len <? 0 then undef
  else mret (<[Z.to_nat len := 0]> buffer).

(** [strlen], and the characters it counts. *)
Fixpoint cstring (s : list Z) : list Z :=
  match s with
  | [] => []
  | c :: s' => if c =? 0 then [] else c :: cstring s'
  end.
Definition alnum (c : Z) : bool :=
  ((65 <=? c) && (c <=? 90)) || ((97 <=? c) && (c <=? 122)) || ((48 <=? c) && (c <=? 57)).
Definition is_valid_input (input : list Z) : bool := forallb alnum (cstring input).

(** [strcmp]; reading past the end of an array has no result. *)
Fixpoint ustrcmp (p q : list Z) : option Z :=
  match p, q with
  | a :: p', b :: q' => if truthy a && (a =? b) then ustrcmp p' q' else Some (u8 a - u8 b)
  | _, _ => None
  end.

Definition MAX_ATTEMPTS : nat := 3.

Section login.
(** The name and the password, set when the program is built. *)
Context (USERNAME PASSWORD : list Z).

(** One prompt: the new buffer, and whether the input is the one expected. *)
Definition prompt (buffer expected : list Z) : M (list Z) (list Z * bool) :=
  buffer ← get_input buffer 33;
  if negb (is_valid_input buffer) then mret (buffer, false)
  else match ustrcmp buffer (expected ++ [0]) with
       | None => undef
       | Some d => mret (buffer, d =? 0)
       end.

(** The loop of [main], with [left] attempts to go: true after "Login
    successful", false when login is disabled. *)
Fixpoint login_loop (left : nat) (username password : list Z) : M (list Z) bool :=
  match left with
  | O => mret false
  | S left' =>
      '(username, ok) ← prompt username USERNAME;
      if negb ok then login_loop left' username password
      else
        '(password, ok) ← prompt password PASSWORD;
        if negb ok then login_loop left' username password else mret true
  end.
Definition login (username password : list Z) : M (list Z) bool := login_loop MAX_ATTEMPTS username password.

(** What login should do with the lines typed: [None] while it waits. *)
Fixpoint spec_login (left : nat) (lines : list (list Z)) : option bool :=
  match left with
  | O => Some false
  | S left' =>
      match lines with
      | [] => None
      | u :: lines' =>
          if negb (bool_decide (u = USERNAME)) then spec_login left' lines'
          else match lines' with
               | [] => None
               | p :: lines'' => if negb (bool_decide (p = PASSWORD)) then spec_login left' lines'' else Some true
               end
      end
  end.
End login.

(** ** Reading lines *)

(** The characters of a typed line. *)
Definition typed_line (l : list Z) : Prop := Forall (λ c, 0 < c < 256 ∧ c ≠ newline ∧ c ≠ ctrl_D) l.
Definition type_lines (ls : list (list Z)) : list Z := mjoin ((λ l, l ++ [newline]) <$> ls).

Lemma spec_read_line target n l rest : typed_line l →
  spec_read false target n (l ++ newline :: rest) =
    if (length l <? n)%nat then (rest, l ++ [newline], CRet (target - Z.of_nat n + Z.of_nat (length l) + 1))
    else (drop n l ++ newline :: rest, take n l, CRet target).
Proof.
  intros Hl. revert n. induction Hl as [|c l (H0 & Hn & Hd) _ IH]; intros n.
  - destruct n as [|n]; [done|]. cbn -[newline ctrl_D]. rewrite (proj2 (Z.eqb_neq newline ctrl_D)), Z.eqb_refl by done.
    do 2 f_equal. lia.
  - destruct n as [|n]; [done|]. cbn -[newline ctrl_D Z.of_nat Nat.ltb].
    rewrite (proj2 (Z.eqb_neq c ctrl_D)), (proj2 (Z.eqb_neq c newline)) by done. rewrite IH.
    change (S (length l) <? S n)%nat with (length l <? n)%nat. destruct (length l <? n)%nat; [|done]. do 2 f_equal. lia.
Qed.

Lemma flush_line l rest fuel : typed_line l → (length l < fuel)%nat → flush_loop fuel (l ++ newline :: rest) = Ok (tt, rest).
Proof.
  intros Hl. revert fuel. induction Hl as [|c l Hc Hl IH]; intros fuel Hf; (destruct fuel as [|fuel]; [simpl in Hf; lia|]).
  - done.
  - cbn [flush_loop]. erewrite (bind_ok (read0 1) _ _ ([c], 1) (l ++ newline :: rest)).
    + cbn -[newline]. rewrite (proj2 (Z.eqb_neq c newline)) by apply Hc. simpl. apply IH. simpl in Hf. lia.
    + unfold read0. rewrite (spec_read_line _ _ (c :: l)) by (by constructor). simpl. destruct l; done.
Qed.

(** A line of any length but 31: the buffer gets its first 32 characters. *)
Lemma get_input_line buf l rest : length buf = 33%nat → typed_line l → length l ≠ 31%nat →
  ∃ t, get_input buf 33 (l ++ newline :: rest) = Ok (take 32 l ++ 0 :: t, rest) ∧ length (take 32 l ++ 0 :: t) = 33%nat.
Proof.
  intros Hb Hl Hn. unfold get_input. cbn [Nat.sub].
  assert (read0 32 (l ++ newline :: rest) = if (length l <? 32)%nat
    then Ok ((l ++ [newline], Z.of_nat (length l) + 1), rest) else Ok ((take 32 l, 32), drop 32 l ++ newline :: rest)) as Er.
  { unfold read0. rewrite spec_read_line by done. destruct (length l <? 32)%nat; [|done]. do 3 f_equal; lia. }
  destruct (Nat.ltb_spec (length l) 32) as [Hlt|Hge]; rewrite (bind_ok _ _ _ _ _ Er).
  - rewrite (proj2 (Z.eqb_neq (Z.of_nat (length l) + 1) (Z.of_nat 33 - 1))) by lia. cbn [mret]. rewrite (bind_ok (mret tt) _ _ tt _ eq_refl).
    rewrite (proj2 (Z.ltb_lt 0 _)) by lia. rewrite Z.add_simpl_r, Nat2Z.id. cbn [andb].
    rewrite list_inserts_0 by (rewrite length_app; simpl; lia). rewrite length_app. simpl. rewrite Nat.add_1_r, <- app_assoc. simpl.
    rewrite (list_lookup_total_correct _ _ newline) by (by rewrite lookup_app_r, Nat.sub_diag).
    rewrite Z.eqb_refl. exists (drop (S (length l)) buf). rewrite take_ge by lia. split.
    + unfold mret, M_ret. do 2 f_equal. by rewrite insert_app_r_alt, Nat.sub_diag.
    + rewrite length_app. cbn [length]. rewrite length_drop. lia.
  - change (32 =? Z.of_nat 33 - 1) with true. cbv iota. rewrite (bind_ok _ _ _ tt rest).
    2:{ rewrite (bind_ok (gets id) _ _ _ _ eq_refl). apply flush_line; [by apply Forall_drop|].
        unfold id. rewrite length_app. simpl. lia. }
    rewrite list_inserts_0 by (rewrite length_take; lia). rewrite length_take, Nat.min_l by lia.
    destruct (lookup_lt_is_Some_2 l 31 ltac:(lia)) as [c Hc].
    assert (Hc' := Hc). apply list_elem_of_lookup_2 in Hc'. apply (proj1 (Forall_forall _ _) Hl) in Hc'.
    change (Z.to_nat (32 - 1)) with 31%nat. change (Z.to_nat 32) with 32%nat. cbn [Z.ltb Z.compare andb].
    rewrite (list_lookup_total_correct _ _ c) by (rewrite lookup_app_l by (rewrite length_take; lia); by rewrite lookup_take_lt by lia).
    rewrite (proj2 (Z.eqb_neq c newline)) by apply Hc'. exists (drop 33 buf). unfold mret, M_ret. split.
    + do 2 f_equal. rewrite insert_app_r_alt by (rewrite length_take; lia). rewrite length_take, Nat.min_l by lia.
      f_equal. assert (drop 33 buf = drop 1 (drop 32 buf)) as -> by (by rewrite drop_drop).
      destruct (drop 32 buf) as [|x d] eqn:E; [|done]. apply (f_equal length) in E. rewrite length_drop in E. simpl in E. lia.
    + rewrite length_app, length_take. cbn [length]. rewrite length_drop. lia.
Qed.

Lemma cstring_app s t : Forall (λ c, c ≠ 0) s → cstring (s ++ 0 :: t) = s.
Proof. induction 1 as [|c s Hc _ IH]; [done|]. simpl. rewrite (proj2 (Z.eqb_neq c 0)) by done. by rewrite IH. Qed.

Definition byte (c : Z) : Prop := 0 < c < 256.
Lemma ustrcmp_spec s t e : Forall byte s → Forall byte e →
  ∃ d, ustrcmp (s ++ 0 :: t) (e ++ [0]) = Some d ∧ (d =? 0) = bool_decide (s = e).
Proof.
  intros Hs. revert e. induction Hs as [|c s Hc Hs IH]; intros e He; destruct He as [|c' e Hc' He]; simpl.
  - by exists 0.
  - eexists. split; [done|]. rewrite (u8_small c') by (unfold byte in *; lia).
    apply Z.eqb_neq. change (u8 0) with 0. unfold byte in *. lia.
  - rewrite (proj2 (Z.eqb_neq c 0)), andb_false_r by (unfold byte in *; lia).
    eexists. split; [done|]. rewrite (u8_small c) by (unfold byte in *; lia).
    apply Z.eqb_neq. change (u8 0) with 0. unfold byte in *. lia.
  - unfold truthy. rewrite (proj2 (Z.eqb_neq c 0)) by (unfold byte in *; lia). simpl.
    destruct (Z.eqb_spec c c') as [<-|Hne].
    + destruct (IH e He) as (d & E & Ed). exists d. rewrite E, Ed. split; [done|]. apply bool_decide_ext. naive_solver.
    + eexists. split; [done|]. rewrite !u8_small by (unfold byte in *; lia). rewrite bool_decide_eq_false_2 by naive_solver.
      apply Z.eqb_neq. lia.
Qed.

Lemma alnum_byte c : alnum c = true → byte c.
Proof.
  unfold alnum, byte. rewrite !orb_true_iff, !andb_true_iff, !Z.leb_le. lia.
Qed.

(** A prompt accepts exactly the line expected. *)
Lemma prompt_line buf e l rest : length buf = 33%nat → typed_line l → length l ≠ 31%nat →
  Forall (λ c, alnum c = true) e → (length e < 31)%nat →
  ∃ buf', prompt buf e (l ++ newline :: rest) = Ok ((buf', bool_decide (l = e)), rest) ∧ length buf' = 33%nat.
Proof.
  intros Hb Hl Hn He Hle. destruct (get_input_line buf l rest Hb Hl Hn) as (t & E & Ht).
  exists (take 32 l ++ 0 :: t). split; [|done]. unfold prompt. rewrite (bind_ok _ _ _ _ _ E).
  assert (Forall byte (take 32 l)) as Hby.
  { apply Forall_take. eapply Forall_impl; [exact Hl|]. intros c (? & _). done. }
  assert (bool_decide (take 32 l = e) = bool_decide (l = e)) as Heq.
  { apply bool_decide_ext. split; [|intros ->; apply take_ge; lia]. intros <-. rewrite length_take in Hle.
    symmetry. apply take_ge. lia. }
  unfold is_valid_input. rewrite cstring_app by (eapply Forall_impl; [exact Hby|]; unfold byte; lia).
  destruct (forallb alnum (take 32 l)) eqn:Ev; simpl.
  - destruct (ustrcmp_spec (take 32 l) t e Hby) as (d & -> & Hd).
    { eapply Forall_impl; [exact He|]. apply alnum_byte. }
    by rewrite Hd, Heq.
  - unfold mret, M_ret. do 3 f_equal. rewrite <- Heq. symmetry. apply bool_decide_eq_false. intros <-.
    assert (forallb alnum (take 32 l) = true); [|congruence]. apply forallb_forall. intros c Hc.
    by apply (proj1 (Forall_forall _ _) He), list_elem_of_In.
Qed.

Lemma prompt_waits buf e : prompt buf e [] = Blocked.
Proof. done. Qed.

Section correct.
Context (USERNAME PASSWORD : list Z).
Context (user_ok : Forall (λ c, alnum c = true) USERNAME) (user_len : (length USERNAME < 31)%nat).
Context (pass_ok : Forall (λ c, alnum c = true) PASSWORD) (pass_len : (length PASSWORD < 31)%nat).

(** Lines that leave the input at the start of the next line. *)
Definition good_line (l : list Z) : Prop := typed_line l ∧ length l ≠ 31%nat.

Lemma login_loop_spec left : ∀ lines u p, Forall good_line lines → length u = 33%nat → length p = 33%nat →
  match spec_login USERNAME PASSWORD left lines with
  | Some b => ∃ q, login_loop USERNAME PASSWORD left u p (type_lines lines) = Ok (b, q)
  | None => login_loop USERNAME PASSWORD left u p (type_lines lines) = Blocked
  end.
Proof.
  induction left as [|left IH]; intros lines u p Hls Hu Hp; [by eexists|]. cbn [spec_login login_loop].
  destruct Hls as [|l lines [Hl Hn] Hls]; [done|].
  destruct (prompt_line u USERNAME l (type_lines lines) Hu Hl Hn user_ok user_len) as (u' & E & Hu').
  change (type_lines (l :: lines)) with ((l ++ [newline]) ++ type_lines lines). rewrite <- app_assoc. cbn [app].
  rewrite (bind_ok _ _ _ _ _ E). destruct (negb (bool_decide (l = USERNAME))); [by apply IH|].
  destruct Hls as [|l2 lines [Hl2 Hn2] Hls]; [done|].
  destruct (prompt_line p PASSWORD l2 (type_lines lines) Hp Hl2 Hn2 pass_ok pass_len) as (p' & E2 & Hp').
  change (type_lines (l2 :: lines)) with ((l2 ++ [newline]) ++ type_lines lines). rewrite <- app_assoc. cbn [app].
  rewrite (bind_ok _ _ _ _ _ E2). destruct (negb (bool_decide (l2 = PASSWORD))); [by apply IH|]. by eexists.
Qed.

(** C27: login.  When no line has exactly 31 characters, [main] decides as it
    should on what was typed: it starts the session when a line with the name
    is followed by one with the password, within three attempts, gives up
    after the third failure, and waits for more input otherwise. *)
Theorem login_correct (lines : list (list Z)) (username password : list Z) :
  Forall good_line lines → length username = 33%nat → length password = 33%nat →
  match spec_login USERNAME PASSWORD MAX_ATTEMPTS lines with
  | Some b => ∃ q, login USERNAME PASSWORD username password (type_lines lines) = Ok (b, q)
  | None => login USERNAME PASSWORD username password (type_lines lines) = Blocked
  end.
Proof. apply login_loop_spec. Qed.
End correct.

(** The name and password of the Makefile. *)
Definition user123 : list Z := [117; 115; 101; 114; 49; 50; 51].
Definition pass123 : list Z := [112; 97; 115; 115; 49; 50; 51].

(** A failed attempt, then the right name and password. *)
Lemma login_correct_witness :
  spec_login user123 pass123 3 [pass123; user123; pass123] = Some true ∧
  ∃ q, login user123 pass123 (replicate 33 0) (replicate 33 0) (type_lines [pass123; user123; pass123]) = Ok (true, q).
Proof.
  split; [reflexivity|].
  assert (∀ l, Forall (λ c, alnum c = true) l → l ≠ [] → length l = 7%nat → good_line l) as Hgood.
  { intros l H _ Hlen. split; [|lia]. eapply Forall_impl; [exact H|]. intros c Hc.
    split; [by apply alnum_byte|]. unfold alnum in Hc. rewrite !orb_true_iff, !andb_true_iff, !Z.leb_le in Hc.
    unfold newline, ctrl_D, C. lia. }
  assert (Forall (λ c, alnum c = true) user123) as Hu by (repeat constructor).
  assert (Forall (λ c, alnum c = true) pass123) as Hp by (repeat constructor).
  apply (login_correct user123 pass123 Hu ltac:(simpl; lia) Hp ltac:(simpl; lia) [pass123; user123; pass123]); [|done..].
  do 3 (apply Forall_cons_2; [by apply Hgood|]). apply Forall_nil_2.
Defined.

(** A line of 31 characters fills the buffer with its newline, and
    [get_input] then throws the next line away: the right name and password
    typed after it do not log in. *)
Theorem login_drops_line :
  let lines := [replicate 31 97; user123; pass123] in
  spec_login user123 pass123 MAX_ATTEMPTS lines = Some true ∧
  login user123 pass123 (replicate 33 0) (replicate 33 0) (type_lines lines) = Blocked.
Proof. split; vm_compute; reflexivity. Qed.
