(* ===== verification/Trap.v ===== *)
(** * Traps

    [trap] of [trap.c]: system calls, interrupts, exceptions ([Asm.v] has the
    code before and after it, [Seg.v] the table of vectors).  A trap runs
    until it returns to the interrupted code or until the process gives up
    the CPU; what [trap] does when the process runs again is
    [trap_syscall_end] and [trap_resume].  Messages to the console and
    the acknowledgement of interrupts ([lapiceoi], in [Smp.v]) are left out. *)

From S2P Require Import Prelude CString Layout Proc ProcOps Syscall.


(** How a trap ended for the process it interrupted. *)
Inductive flow := TReturn | TExit | TYield | TSleep.

Section trap.
Context {K : Type} `{Kernel K}.
Context (file_call : Z → nat → M (ksys K) (option Z)).
(** The interrupt handlers of the disk, the keyboard and the serial port. *)
Context (ideintr kbdintr uartintr : M (ksys K) unit).

Definition kupd (cur : nat) (f : proc → proc) (s : ksys K) : ksys K := set_kps (upd cur f (kps s)) s.
Definition set_ticks (t : Z) (s : ksys K) : ksys K := KSys (kps s) (umem s) (blocked s) t.

Definition trap_exit (cur : nat) : M (ksys K) flow := pcall (exit cur);; mret TExit.

Definition trap_syscall_end (cur : nat) : M (ksys K) flow :=
  p ← curproc cur;
  if truthy (p_killed p) then trap_exit cur else mret TReturn.

(** [if(tf->trapno == T_SYSCALL)]; a handler that did not return has put the
    process to sleep or ended it. *)
Definition trap_syscall (cur : nat) (tf : trapframe) : M (ksys K) flow :=
  p ← curproc cur;
  if truthy (p_killed p) then trap_exit cur else
  modify (kupd cur (set_tfv tf));;
  syscall file_call cur;;
  p ← curproc cur;
  match p_state p with
  | RUNNING => trap_syscall_end cur
  | ZOMBIE => mret TExit
  | _ => mret TSleep
  end.

(** The clock interrupt, counted by the first CPU. *)
Definition clock (cpuid : nat) : M (ksys K) unit :=
  if decide (cpuid = 0%nat) then
    modify (λ s, set_ticks (u32 (ticks s + 1)) s);;
    modify (λ s, set_kps (wakeup ticks_chan (kps s)) s)
  else mret tt.

(** The [switch] on [tf->trapno]. *)
Definition trap_switch (cpuid : nat) (cur : option nat) (tf : trapframe) : M (ksys K) unit :=
  let n := tf_trapno tf in
  if n =? T_IRQ0 + IRQ_TIMER then clock cpuid
  else if n =? T_IRQ0 + IRQ_IDE then ideintr
  else if n =? T_IRQ0 + IRQ_IDE + 1 then mret tt
  else if n =? T_IRQ0 + IRQ_KBD then kbdintr
  else if n =? T_IRQ0 + IRQ_COM1 then uartintr
  else if (n =? T_IRQ0 + 7) || (n =? T_IRQ0 + IRQ_SPURIOUS) then mret tt
  else match cur with
       | None => panic "trap"
       | Some cur => if Z.land (tf_cs tf) 3 =? 0 then panic "trap" else modify (kupd cur (set_killed 1))
       end.

(** [if(myproc() && myproc()->killed && (tf->cs&3) == DPL_USER) exit();] *)
Definition trap_check (cur : nat) (tf : trapframe) (k : M (ksys K) flow) : M (ksys K) flow :=
  p ← curproc cur;
  if truthy (p_killed p) && (Z.land (tf_cs tf) 3 =? DPL_USER) then trap_exit cur else k.

(** The last check, also made when the process runs again after [yield]. *)
Definition trap_resume (cur : nat) (tf : trapframe) : M (ksys K) flow := trap_check cur tf (mret TReturn).

Definition trap (cpuid : nat) (cur : option nat) (tf : trapframe) : M (ksys K) flow :=
  if tf_trapno tf =? T_SYSCALL then
    match cur with Some cur => trap_syscall cur tf | None => undef end
  else
    trap_switch cpuid cur tf;;
    match cur with
    | None => mret TReturn
    | Some cur =>
        trap_check cur tf (
          p ← curproc cur;
          if state_is RUNNING p && (tf_trapno tf =? T_IRQ0 + IRQ_TIMER) then pcall (yield cur);; mret TYield
          else trap_resume cur tf)
    end.

(** ** What a trap from user code leads to *)

Lemma exit_final_zombie cur (s s' : pst K) : exit_final cur s = Ok (tt, s') →
  ∃ ps, procs s' = alter (set_state ZOMBIE) cur ps.
Proof.
  unfold exit_final. generalize (seq 0 NPROC). intros is_ E.
  rewrite (bind_ok (modify _) _ _ _ _ eq_refl), (bind_ok (modify _) _ _ _ _ eq_refl), (bind_ok (modify _) _ _ _ _ eq_refl) in E.
  unfold sched in E. destruct (state_is _ _); [done|]. injection E as <-. by eexists.
Qed.
Lemma exit_zombie cur (s s' : pst K) p : exit cur s = Ok (tt, s') → procs s' !! cur = Some p → p_state p = ZOMBIE.
Proof.
  unfold exit. generalize (seq 0 NOFILE). intros fds E Hp.
  assert (∃ s1, exit_final cur s1 = Ok (tt, s')) as (s1 & Ef).
  { apply bind_inv in E as (i & s1 & _ & E). destruct (bool_decide _); [done|].
    do 4 (apply bind_inv in E as (? & ? & _ & E)). destruct (p_cwd _); [|done].
    do 5 (apply bind_inv in E as (? & ? & _ & E)). eauto. }
  apply exit_final_zombie in Ef as (ps & Eq). rewrite Eq, list_lookup_alter_eq in Hp. apply fmap_Some in Hp as (q & _ & ->). done.
Qed.
Lemma trap_exit_inv cur s fl s' : trap_exit cur s = Ok (fl, s') →
  fl = TExit ∧ ∀ p, procs (kps s') !! cur = Some p → p_state p = ZOMBIE.
Proof.
  unfold trap_exit. intros E. apply bind_inv in E as ([] & s1 & E & E1). injection E1 as <- <-. split; [done|].
  unfold pcall in E. destruct (exit cur (kps s)) as [[[] k]| | |] eqn:Ex; [|done..]. injection E as <-.
  intros p. by eapply exit_zombie.
Qed.

(** What holds of the interrupted process at the end of a trap. *)
Definition ended (cur : nat) (tf : trapframe) (fl : flow) (s : ksys K) : Prop :=
  ∀ p, procs (kps s) !! cur = Some p →
  match fl with
  | TReturn => p_killed p = 0 ∧ tf_trapno tf ≠ T_IRQ0 + IRQ_TIMER
  | TExit => p_state p = ZOMBIE
  | TYield => p_state p = RUNNABLE ∧ p_killed p = 0 ∧ tf_trapno tf = T_IRQ0 + IRQ_TIMER ∧ Some cur ∉ cpus (kps s)
  | TSleep => p_state p ≠ RUNNING ∧ tf_trapno tf = T_SYSCALL
  end.

Lemma trap_check_inv cur tf k s fl s' : Z.land (tf_cs tf) 3 = DPL_USER → trap_check cur tf k s = Ok (fl, s') →
  (∀ p, procs (kps s) !! cur = Some p → p_killed p = 0) ∧ k s = Ok (fl, s') ∨ trap_exit cur s = Ok (fl, s').
Proof.
  intros Hcs. unfold trap_check, curproc. rewrite (bind_ok (gets _) _ _ _ _ eq_refl), Hcs, Z.eqb_refl, andb_true_r.
  destruct (truthy _) eqn:Ek; [by right|]. left. split; [|done]. intros p Hp.
  rewrite (list_lookup_total_correct _ _ _ Hp) in Ek. unfold truthy in Ek. destruct (Z.eqb_spec (p_killed p) 0); done.
Qed.
Lemma exit_ended cur tf s fl s' : trap_exit cur s = Ok (fl, s') → ended cur tf fl s'.
Proof. intros [-> E]%trap_exit_inv. done. Qed.
Lemma trap_resume_ended cur tf s fl s' : Z.land (tf_cs tf) 3 = DPL_USER → tf_trapno tf ≠ T_IRQ0 + IRQ_TIMER → trap_resume cur tf s = Ok (fl, s') → ended cur tf fl s'.
Proof.
  intros Hcs Ht [[Hk E]|E]%(trap_check_inv _ _ _ _ _ _ Hcs); [|by eapply exit_ended]. injection E as <- <-. intros p Hp. auto.
Qed.
Lemma syscall_end_ended cur tf s fl s' : tf_trapno tf = T_SYSCALL → trap_syscall_end cur s = Ok (fl, s') → ended cur tf fl s'.
Proof.
  intros Ht. unfold trap_syscall_end, curproc. rewrite (bind_ok (gets _) _ _ _ _ eq_refl). destruct (truthy _) eqn:Ek; [apply exit_ended|].
  intros [= <- <-] p Hp. split; [|rewrite Ht; done]. rewrite (list_lookup_total_correct _ _ _ Hp) in Ek. unfold truthy in Ek.
  destruct (Z.eqb_spec (p_killed p) 0); done.
Qed.

Lemma yield_ended cur tf (s s' : ksys K) : (∀ p, procs (kps s) !! cur = Some p → p_killed p = 0) →
  tf_trapno tf = T_IRQ0 + IRQ_TIMER → pcall (yield cur) s = Ok (tt, s') → ended cur tf TYield s'.
Proof.
  intros Hk Ht E p Hp. unfold pcall in E. destruct (yield cur (kps s)) as [[[] k]| | |] eqn:Ey; [|done..]. injection E as <-.
  unfold yield, sched in Ey. rewrite (bind_ok (modify _) _ _ _ _ eq_refl) in Ey. destruct (state_is _ _); [done|].
  injection Ey as <-. simpl in *. rewrite list_lookup_alter_eq in Hp. apply fmap_Some in Hp as (q & Hq & ->).
  split; [done|]. split; [exact (Hk q Hq)|]. split; [done|]. unfold leave_cpu. intros (o & E & _)%list_elem_of_fmap.
  destruct (bool_decide_reflect (o = Some cur)); congruence.
Qed.

(** The clock leaves processes other than sleeping ones alone. *)
Lemma clock_eq cpuid (s : ksys K) : ∃ s1, clock cpuid s = Ok (tt, s1) ∧
  ticks s1 = (if decide (cpuid = 0%nat) then u32 (ticks s + 1) else ticks s) ∧ blocked s1 = blocked s ∧
  ∀ i p, procs (kps s) !! i = Some p → p_state p = RUNNING → procs (kps s1) !! i = Some p.
Proof.
  unfold clock. destruct (decide _) as [->|]; [|by exists s]. eexists. split; [done|]. split; [done|]. split; [done|].
  intros i p Hp Hr. cbn. unfold wakeup1. rewrite list_lookup_fmap, Hp. cbn. unfold wake_proc, state_is.
  by rewrite Hr, bool_decide_eq_false_2.
Qed.

(** A clock tick of a process that runs and is not killed: it gives up the CPU. *)
Lemma tick_yields cpuid cur tf (s : ksys K) p : tf_trapno tf = T_IRQ0 + IRQ_TIMER →
  procs (kps s) !! cur = Some p → p_state p = RUNNING → p_killed p = 0 →
  ∃ s', trap cpuid (Some cur) tf s = Ok (TYield, s') ∧
    ticks s' = (if decide (cpuid = 0%nat) then u32 (ticks s + 1) else ticks s).
Proof.
  intros Ht Hp Hr Hk. unfold trap. rewrite Ht. destruct (clock_eq cpuid s) as (s1 & E1 & Hti & _ & Hs1). specialize (Hs1 _ _ Hp Hr).
  assert (trap_switch cpuid (Some cur) tf s = Ok (tt, s1)) as Esw by (unfold trap_switch; by rewrite Ht).
  change (T_IRQ0 + IRQ_TIMER =? T_SYSCALL) with false. cbv iota. rewrite (bind_ok _ _ _ _ _ Esw).
  unfold trap_check, curproc. rewrite (bind_ok (gets _) _ _ _ _ eq_refl), (list_lookup_total_correct _ _ _ Hs1), Hk.
  change (truthy 0) with false. cbn [andb]. rewrite (bind_ok (gets _) _ _ _ _ eq_refl), (list_lookup_total_correct _ _ _ Hs1).
  unfold state_is at 1. rewrite Hr, bool_decide_eq_true_2, Z.eqb_refl by done. cbn [andb].
  assert (∃ k, yield cur (kps s1) = Ok (tt, k)) as (k & Ey).
  { unfold yield, sched. rewrite (bind_ok (modify _) _ _ _ _ eq_refl). cbn. rewrite list_lookup_total_alter_eq by by eapply lookup_lt_Some.
    by eexists. }
  exists (set_kps k s1). split; [|done].
  assert (pcall (yield cur) s1 = Ok (tt, set_kps k s1)) as Ep by (unfold pcall; by rewrite Ey). by rewrite (bind_ok _ _ _ _ _ Ep).
Qed.

Lemma syscall_ended cur tf s fl s' : tf_trapno tf = T_SYSCALL → trap_syscall cur tf s = Ok (fl, s') → ended cur tf fl s'.
Proof.
  intros Et E. unfold trap_syscall, curproc in E.
  rewrite (bind_ok (gets _) _ _ _ _ eq_refl) in E. destruct (truthy _); [by eapply exit_ended|].
  rewrite (bind_ok (modify _) _ _ _ _ eq_refl) in E. apply bind_inv in E as ([] & s1 & _ & E).
  rewrite (bind_ok (gets _) _ _ _ _ eq_refl) in E. destruct (p_state (procs (kps s1) !!! cur)) eqn:Es;
    [..|injection E as <- <-; intros p Hp; by rewrite (list_lookup_total_correct _ _ _ Hp) in Es];
    try (injection E as <- <-; intros p Hp; rewrite (list_lookup_total_correct _ _ _ Hp) in Es; by rewrite Es).
  by eapply syscall_end_ended.
Qed.

Lemma trap_ended cpuid cur tf s p fl s' : Z.land (tf_cs tf) 3 = DPL_USER → procs (kps s) !! cur = Some p → p_state p = RUNNING →
  trap cpuid (Some cur) tf s = Ok (fl, s') → ended cur tf fl s'.
Proof.
  intros Hcs Hp Hr E. unfold trap in E. destruct (Z.eqb_spec (tf_trapno tf) T_SYSCALL) as [Et|Et]; [by eapply syscall_ended|].
  apply bind_inv in E as ([] & s1 & Esw & E).
  apply (trap_check_inv _ _ _ _ _ _ Hcs) in E as [[Hk E]|E]; [|by eapply exit_ended].
  unfold curproc in E. rewrite (bind_ok (gets _) _ _ _ _ eq_refl) in E.
  destruct (Z.eqb_spec (tf_trapno tf) (T_IRQ0 + IRQ_TIMER)) as [Ht|Ht]; [|rewrite andb_false_r in E; by eapply trap_resume_ended].
  unfold trap_switch in Esw. rewrite Ht, Z.eqb_refl in Esw. destruct (clock_eq cpuid s) as (s2 & E2 & _ & _ & Hs2).
  rewrite E2 in Esw. injection Esw as ->. specialize (Hs2 _ _ Hp Hr).
  rewrite (list_lookup_total_correct _ _ _ Hs2) in E. unfold state_is in E. rewrite Hr, bool_decide_eq_true_2 in E by done. cbn [andb] in E.
  apply bind_inv in E as ([] & s3 & Ey & E). injection E as <- <-. by eapply yield_ended.
Qed.

Lemma unknown_exits cpuid cur tf s p fl s' : Z.land (tf_cs tf) 3 = DPL_USER → procs (kps s) !! cur = Some p →
  tf_trapno tf < T_IRQ0 ∨ T_SYSCALL < tf_trapno tf → trap cpuid (Some cur) tf s = Ok (fl, s') → fl = TExit.
Proof.
  intros Hcs Hp Hn E. unfold trap in E. unfold trap_switch in E.
  unfold T_IRQ0, IRQ_TIMER, IRQ_IDE, IRQ_KBD, IRQ_COM1, IRQ_SPURIOUS, T_SYSCALL in *.
  repeat (rewrite (proj2 (Z.eqb_neq (tf_trapno tf) _)) in E by lia). cbn [orb] in E. rewrite Hcs in E.
  change (DPL_USER =? 0) with false in E. cbv iota in E. rewrite (bind_ok (modify _) _ _ _ _ eq_refl) in E.
  apply (trap_check_inv _ _ _ _ _ _ Hcs) in E as [[Hk _]|E]; [|by apply trap_exit_inv in E as [-> _]].
  exfalso. specialize (Hk (set_killed 1 p)). simpl in Hk. rewrite list_lookup_alter_eq, Hp in Hk. by specialize (Hk eq_refl).
Qed.

(** C26: traps from user code, of the process running on the CPU.  A trap that
    returns to the program has found it not killed, so a killed process never
    runs user code again, and is not a clock tick; a clock tick of a process
    that is not killed takes the CPU from it, and the first CPU counts it; an
    exception the kernel does not know always ends the process. *)
Theorem trap_from_user (cpuid cur : nat) (tf : trapframe) (s : ksys K) (p : proc) :
  Z.land (tf_cs tf) 3 = DPL_USER → procs (kps s) !! cur = Some p → p_state p = RUNNING →
  (∀ fl s', trap cpuid (Some cur) tf s = Ok (fl, s') → ended cur tf fl s' ∧
     ((tf_trapno tf < T_IRQ0 ∨ T_SYSCALL < tf_trapno tf) → fl = TExit)) ∧
  (tf_trapno tf = T_IRQ0 + IRQ_TIMER → p_killed p = 0 →
     ∃ s', trap cpuid (Some cur) tf s = Ok (TYield, s') ∧ ended cur tf TYield s' ∧
       ticks s' = if decide (cpuid = 0%nat) then u32 (ticks s + 1) else ticks s).
Proof.
  intros Hcs Hp Hr. assert (∀ fl s', trap cpuid (Some cur) tf s = Ok (fl, s') → ended cur tf fl s' ∧
    ((tf_trapno tf < T_IRQ0 ∨ T_SYSCALL < tf_trapno tf) → fl = TExit)) as Hall.
  { intros fl s' E. split; [by eapply trap_ended|]. intros Hn. by eapply unknown_exits. }
  split; [done|]. intros Ht Hk. destruct (tick_yields cpuid cur tf s p Ht Hp Hr Hk) as (s' & E & Hti).
  exists s'. split; [done|]. split; [|done]. by apply (Hall TYield s').
Qed.
End trap.

(** A page fault of process 1 of [Syscall.SysDemo], and a clock tick. *)
Module TrapDemo.
Import Demo SysDemo.
Definition frame (n : Z) : trapframe := TF 0 0 0 0 0 0 0 0 0 0 0 0 n 0 0 27 0 0 0.
Abbreviation trap_n n := (trap (K:=Z) (λ _ _, mret (Some 0)) (mret tt) (mret tt) (mret tt) 0 (Some 1%nat) (frame n)).

Definition exits (c : M (ksys Z) flow) (s : ksys Z) : bool := match c s with Ok (TExit, _) => true | _ => false end.
Lemma exits_inv c s : exits c s = true → ∃ s', c s = Ok (TExit, s').
Proof. unfold exits. destruct (c s) as [[[] s']| | |]; naive_solver. Qed.
Lemma fault_exits : ∃ s', trap_n 14 (sys t0 0 0) = Ok (TExit, s').
Proof. apply exits_inv. vm_compute. reflexivity. Qed.

Lemma trap_from_user_witness :
  (∃ s', trap_n 14 (sys t0 0 0) = Ok (TExit, s') ∧ ended 1 (frame 14) TExit s') ∧
  (∃ s', trap_n 32 (sys t0 0 0) = Ok (TYield, s') ∧ ticks s' = 1).
Proof.
  assert (procs (kps (sys t0 0 0)) !! 1%nat = Some (procs t0 !!! 1%nat)) as Hp by (vm_compute; reflexivity).
  assert (p_state (procs t0 !!! 1%nat) = RUNNING ∧ p_killed (procs t0 !!! 1%nat) = 0) as [Hr Hk] by (split; vm_compute; reflexivity).
  split.
  - destruct fault_exits as (s' & E). exists s'. split; [exact E|].
    destruct (trap_from_user (λ _ _, mret (Some 0)) (mret tt) (mret tt) (mret tt) 0 1 (frame 14) (sys t0 0 0) _ eq_refl Hp Hr) as [Ha _]. exact (proj1 (Ha TExit s' E)).
  - destruct (trap_from_user (λ _ _, mret (Some 0)) (mret tt) (mret tt) (mret tt) 0 1 (frame 32) (sys t0 0 0) _ eq_refl Hp Hr) as [_ Hb].
    destruct (Hb eq_refl Hk) as (s' & E & _ & Ht). exists s'. split; [exact E|]. rewrite Ht. by vm_compute.
Defined.
End TrapDemo.
