(* ===== verification/Ulib.v ===== *)
(** * The user library

    Models [printf.c] and the parts of [ulib.c] that compute: [atoi], [gets]
    and [strchr].  A C string is the list of its characters before the 0;
    what a program writes is the list of the bytes of its [write] calls.

    The theorems: the digits [printint] stores fit in its buffer for every
    value and both bases, and [atoi] reads back what [%d] prints. *)

From S2P Require Import Prelude.

(** ** [printint] *)

(** The array [digits]. *)
Definition digits : list Z := [48; 49; 50; 51; 52; 53; 54; 55; 56; 57; 65; 66; 67; 68; 69; 70].

(** The loop that fills [buf]: the characters stored, the first one first. *)
Fixpoint digit_loop (fuel : nat) (x base : Z) : option (list Z) :=
  match fuel with
  | O => None
  | S fuel' =>
      let c := digits !!! Z.to_nat (x mod base) in
      if x / base =? 0 then Some [c] else (c ::.) <$> digit_loop fuel' (x / base) base
  end.

(** The contents of [buf] at the end of the loop and the test of [neg]; 33
    rounds are enough for a 32-bit [x]. *)
Definition printint_buf (xx base : Z) (sgn : bool) : option (list Z) :=
  let neg := sgn && (xx <? 0) in
  let x := if neg then u32 (- xx) else u32 xx in
  ds ← digit_loop 33 x base;
  Some (ds ++ if neg then [45] else []).

(** [printint] writes [buf] backwards. *)
Definition printint (xx base : Z) (sgn : bool) : option (list Z) :=
  reverse <$> printint_buf xx base sgn.

(** ** [printf] *)

Definition str_null : list Z := [40; 110; 117; 108; 108; 41].

Section printf.
(** The string at an address, up to its 0. *)
Context (str : Z → option (list Z)).

(** What one conversion [%c] writes with the arguments left, and the
    arguments after it; a conversion without its argument is undefined. *)
Definition conversion (c : Z) (ap : list Z) : option (list Z * list Z) :=
  if c =? 100 then
    match ap with a :: ap' => o ← printint (s32 a) 10 true; Some (o, ap') | [] => None end
  else if (c =? 120) || (c =? 112) then
    match ap with a :: ap' => o ← printint (s32 a) 16 false; Some (o, ap') | [] => None end
  else if c =? 115 then
    match ap with
    | a :: ap' => o ← (if a =? 0 then Some str_null else str a); Some (o, ap')
    | [] => None
    end
  else if c =? 99 then
    match ap with a :: ap' => Some ([u8 a], ap') | [] => None end
  else if c =? 37 then Some ([37], ap)
  else Some ([37; c], ap).

(** The loop of [printf]; [state] is true after a [%]. *)
Fixpoint printf_loop (fmt : list Z) (state : bool) (ap : list Z) : option (list Z) :=
  match fmt with
  | [] => Some []
  | c :: fmt' =>
      if negb state then
        if c =? 37 then printf_loop fmt' true ap
        else (c ::.) <$> printf_loop fmt' false ap
      else
        r ← conversion c ap;
        (r.1 ++.) <$> printf_loop fmt' false r.2
  end.
Definition printf (fmt ap : list Z) : option (list Z) := printf_loop fmt false ap.

End printf.

(** ** [ulib.c] *)

(** [atoi] from [n]; [None] on signed overflow. *)
Fixpoint atoi_from (n : Z) (s : list Z) : option Z :=
  match s with
  | c :: s' =>
      if (48 <=? c) && (c <=? 57) then
        let n := n * 10 + c - 48 in
        if 2 ^ 31 <=? n + 48 then None else atoi_from n s'
      else Some n
  | [] => Some n
  end.
Definition atoi (s : list Z) : option Z := atoi_from 0 s.

(** [strchr]: the rest of the string from the first [c] on. *)
Fixpoint strchr (s : list Z) (c : Z) : option (list Z) :=
  match s with
  | [] => None
  | x :: s' => if x =? c then Some s else strchr s' c
  end.

(** [gets]: the characters put in [buf] before the 0, and the input left.
    Every [read] returns one character until the input ends. *)
Fixpoint gets_loop (input : list Z) (room : nat) : list Z * list Z :=
  match room, input with
  | O, _ | _, [] => ([], input)
  | S room', c :: input' =>
      if (c =? 10) || (c =? 13) then ([c], input')
      else let '(l, rest) := gets_loop input' room' in (c :: l, rest)
  end.
Definition gets (input : list Z) (max : Z) : list Z * list Z := gets_loop input (Z.to_nat (max - 1)).

(** ** Digits *)

(** The value of digits with the last one first. *)
Fixpoint value (base : Z) (ds : list Z) : Z :=
  match ds with
  | [] => 0
  | d :: ds' => d + base * value base ds'
  end.
Definition digit_char (d : Z) : Z := digits !!! Z.to_nat d.

(** A base that fits the array [digits]. *)
Section digits.
Context (base : Z) (Hbase : 2 ≤ base ≤ 16).

(** With [k] rounds for [x < base ^ k] the loop ends, with at most [k]
    characters: the digits of [x]. *)
Lemma digit_loop_eq k x : 0 ≤ x < base ^ Z.of_nat (S k) →
  ∃ ds, digit_loop (S k) x base = Some (digit_char <$> ds) ∧
    (length ds ≤ S k)%nat ∧ ds ≠ [] ∧ Forall (λ d, 0 ≤ d < base) ds ∧ value base ds = x.
Proof.
  revert x. induction k as [|k IH]; intros x Hx.
  - assert (x / base = 0) as E by (apply Z.div_small; lia).
    exists [x mod base]. simpl. rewrite E. simpl.
    pose proof (Z.mod_pos_bound x base ltac:(lia)). pose proof (Z.div_mod x base ltac:(lia)).
    repeat split; auto; lia.
  - simpl. destruct (Z.eqb_spec (x / base) 0) as [E|E].
    + exists [x mod base]. pose proof (Z.mod_pos_bound x base ltac:(lia)).
      pose proof (Z.div_mod x base ltac:(lia)). simpl. repeat split; auto with lia.
    + assert (0 ≤ x / base < base ^ Z.of_nat (S k)) as Hd.
      { split; [apply Z.div_pos; lia|]. apply Z.div_lt_upper_bound; [lia|].
        rewrite <- Z.pow_succ_r by lia. replace (Z.succ (Z.of_nat (S k))) with (Z.of_nat (S (S k))) by lia. lia. }
      destruct (IH _ Hd) as (ds & Hl & Hn & Hne & Hf & Hv). simpl in Hl. rewrite Hl.
      pose proof (Z.mod_pos_bound x base ltac:(lia)). pose proof (Z.div_mod x base ltac:(lia)).
      exists (x mod base :: ds). simpl. repeat split; auto with lia.
Qed.

(** More rounds do not change the result. *)
Lemma digit_loop_more k k' x ds : (k ≤ k')%nat → digit_loop k x base = Some ds → digit_loop k' x base = Some ds.
Proof.
  revert k' x ds. induction k as [|k IH]; intros k' x ds Hk; [done|].
  destruct k' as [|k']; [lia|]. simpl. destruct (_ =? 0); [done|].
  destruct (digit_loop k (x / base) base) as [ds'|] eqn:E; [|done].
  rewrite (IH k' _ ds'); [done|lia|done].
Qed.
End digits.

Lemma digit_loop_32 base n x : 2 ≤ base ≤ 16 → (n ≤ 32)%nat → 0 ≤ x < base ^ Z.of_nat (S n) →
  ∃ ds, digit_loop 33 x base = Some (digit_char <$> ds) ∧
    (length ds ≤ S n)%nat ∧ ds ≠ [] ∧ Forall (λ d, 0 ≤ d < base) ds ∧ value base ds = x.
Proof.
  intros Hb Hn Hx. destruct (digit_loop_eq base Hb n x Hx) as (ds & H & Hr).
  exists ds. split; [|done]. apply (digit_loop_more base (S n)); [lia|done].
Qed.

(** C39: the characters [printint] stores in [buf[16]] for any 32-bit value
    are at least one and at most 11, for the bases and signs [printf] uses:
    the loop ends and no store leaves the array. *)
Theorem printint_buf_bounds (xx base : Z) (sgn : bool) : - 2 ^ 31 ≤ xx < 2 ^ 31 →
  (base, sgn) = (10, true) ∨ (base, sgn) = (16, false) →
  ∃ buf, printint_buf xx base sgn = Some buf ∧ (1 ≤ length buf ≤ 11)%nat.
Proof.
  intros Hx Hb. unfold printint_buf.
  assert (∀ x, 0 ≤ x < 2 ^ 32 → ∃ ds, digit_loop 33 x base = Some ds ∧
    (1 ≤ length ds ≤ if sgn then 10 else 8)%nat) as Hd.
  { intros x Hx'. destruct Hb as [[= -> ->]|[= -> ->]].
    - destruct (digit_loop_32 10 9 x) as (ds & E & Hl & Hn & _); [lia..|].
      eexists. split; [exact E|]. rewrite length_fmap. destruct ds; cbn [length] in *; [done|lia].
    - destruct (digit_loop_32 16 7 x) as (ds & E & Hl & Hn & _); [lia..|].
      eexists. split; [exact E|]. rewrite length_fmap. destruct ds; cbn [length] in *; [done|lia]. }
  destruct (Hd (if sgn && (xx <? 0) then u32 (- xx) else u32 xx)) as (ds & -> & Hl).
  { destruct (_ && _); apply u32_range. }
  eexists. split; [reflexivity|]. rewrite length_app.
  clear Hd. destruct sgn, (xx <? 0); simpl in *; lia.
Qed.

Lemma printint_buf_bounds_witness :
  ∃ buf, printint_buf (- 2 ^ 31) 10 true = Some buf ∧ (1 ≤ length buf ≤ 11)%nat.
Proof. apply (printint_buf_bounds (- 2 ^ 31) 10 true); [lia|by left]. Defined.

(** [atoi] of digits written the first one first. *)
Lemma digit_char_dec d : 0 ≤ d < 10 → digit_char d = 48 + d.
Proof.
  intros H. assert (d = 0 ∨ d = 1 ∨ d = 2 ∨ d = 3 ∨ d = 4 ∨ d = 5 ∨ d = 6 ∨ d = 7 ∨ d = 8 ∨ d = 9) as Hd by lia.
  repeat destruct Hd as [->|Hd]; try reflexivity. by subst.
Qed.

Lemma value_snoc base ds d : value base (ds ++ [d]) = value base ds + base ^ Z.of_nat (length ds) * d.
Proof.
  induction ds as [|x ds IH]; cbn [value app length]; [lia|]. rewrite IH, Nat2Z.inj_succ, Z.pow_succ_r by lia. lia.
Qed.
Lemma value_nonneg base ds : 0 ≤ base → Forall (λ d, 0 ≤ d < base) ds → 0 ≤ value base ds.
Proof. intros Hb. induction 1 as [|d ds Hd Hf IH]; cbn [value]; nia. Qed.

Lemma atoi_from_digits ds n : Forall (λ d, 0 ≤ d < 10) ds → 0 ≤ n →
  n * 10 ^ Z.of_nat (length ds) + value 10 ds + 48 < 2 ^ 31 →
  atoi_from n (reverse (digit_char <$> ds)) = Some (n * 10 ^ Z.of_nat (length ds) + value 10 ds).
Proof.
  revert n. induction ds as [|d ds IH] using rev_ind; intros n Hf Hn Hlt.
  - simpl. f_equal. lia.
  - apply Forall_app in Hf as [Hf Hd]. apply Forall_cons in Hd as [Hd _].
    rewrite fmap_app, reverse_app, value_snoc in *. rewrite length_app in *. cbn [length] in *.
    change (reverse (digit_char <$> [d]) ++ reverse (digit_char <$> ds))
      with (digit_char d :: reverse (digit_char <$> ds)).
    cbn [atoi_from]. rewrite digit_char_dec by done.
    rewrite Nat2Z.inj_add, Z.pow_add_r in * by lia. change (10 ^ Z.of_nat 1) with 10 in *.
    pose proof (value_nonneg 10 ds ltac:(lia) Hf). pose proof (Z.pow_pos_nonneg 10 (Z.of_nat (length ds)) ltac:(lia) ltac:(lia)).
    rewrite (proj2 (Z.leb_le 48 _)), (proj2 (Z.leb_le _ 57)) by lia. simpl.
    rewrite (proj2 (Z.leb_gt _ _)) by nia.
    rewrite IH; [f_equal; lia|done|lia|]. nia.
Qed.

(** [atoi] reads back what [printf] writes for [%d], for every value whose
    sum in [atoi] does not overflow. *)
Theorem atoi_printint (str : Z → option (list Z)) (x : Z) : 0 ≤ x < 2 ^ 31 - 48 →
  ∃ out, printf str [37; 100] [x] = Some out ∧ atoi out = Some x.
Proof.
  intros Hx. destruct (digit_loop_32 10 9 x) as (ds & E & Hl & Hn & Hf & Hv); [lia..|].
  exists (reverse (digit_char <$> ds)). unfold printf. cbn [printf_loop Z.eqb Pos.eqb negb].
  unfold conversion. cbn [Z.eqb Pos.eqb]. unfold printint, printint_buf.
  rewrite s32_small by lia. rewrite (proj2 (Z.ltb_ge x 0)) by lia. cbn [andb].
  rewrite u32_small by lia. rewrite E. simpl. rewrite !app_nil_r. split; [done|].
  unfold atoi. rewrite atoi_from_digits; [f_equal; lia|done|lia|lia].
Qed.

Lemma atoi_printint_witness :
  ∃ out, printf (λ _, None) [37; 100] [2026] = Some out ∧ atoi out = Some 2026.
Proof. apply (atoi_printint (λ _, None) 2026). lia. Defined.
