(* ===== verification/Ustring.v ===== *)
(** * String functions of user programs

    [strcpy], [strcmp], [strlen], [memset], [memmove] and [stat] of [ulib.c]
    on byte-addressed memory; the loops that stop at a 0 are given a number
    of rounds.

    The theorems: the functions do with strings in memory what their names
    say, in as many rounds as the string has bytes; [memmove] agrees with the
    [memmove] of the kernel unless the destination starts inside the source,
    and then it does not move the bytes. *)

From S2P Require Import Prelude CString.

Fixpoint ustrcpy (fuel : nat) (m : mem) (s t : Z) : option mem :=
  match fuel with
  | O => None
  | S fuel' => let m' := store m s (m t) in if m t =? 0 then Some m' else ustrcpy fuel' m' (s + 1) (t + 1)
  end.
Fixpoint ustrcmp_mem (fuel : nat) (m : mem) (p q : Z) : option Z :=
  match fuel with
  | O => None
  | S fuel' =>
      if truthy (m p) && (m p =? m q) then ustrcmp_mem fuel' m (p + 1) (q + 1) else Some (m p - m q)
  end.
Fixpoint ustrlen (fuel : nat) (m : mem) (s : Z) (n : Z) : option Z :=
  match fuel with
  | O => None
  | S fuel' => if truthy (m (s + n)) then ustrlen fuel' m s (n + 1) else Some n
  end.
Definition umemset (m : mem) (dst c n : Z) : mem := stosb m dst c (Z.to_nat n).
Definition umemmove (m : mem) (dst src n : Z) : mem := copy_up m dst src (Z.to_nat n).

(** [stat] with the calls it makes: [open], [fstat] on the descriptor,
    [close]. *)
Definition ustat_call {S St} (open : M S Z) (fstat : Z → M S (Z * St)) (close : Z → M S Z) : M S (Z * option St) :=
  fd ← open;
  if fd <? 0 then mret (-1, None) else
  r ← fstat fd;
  _ ← close fd;
  mret (r.1, Some r.2).

(** ** Strings *)

(** The string [l] with its 0 is at [p]. *)
Definition str_at (m : mem) (p : Z) (l : list Z) : Prop :=
  Forall (λ c, 0 < c < 256) l ∧ ∀ i : nat, (i ≤ length l)%nat → m (p + Z.of_nat i) = default 0 (l !! i).

Lemma str_at_cons m p c l : str_at m p (c :: l) → m p = c ∧ 0 < c < 256 ∧ str_at m (p + 1) l.
Proof.
  intros [Hf H]. apply Forall_cons in Hf as [Hc Hf]. split; [|split; [done|split; [done|]]].
  - specialize (H 0%nat ltac:(lia)). by rewrite Z.add_0_r in H.
  - intros i Hi. specialize (H (S i) ltac:(simpl; lia)). change ((c :: l) !! S i) with (l !! i) in H. rewrite <- H. f_equal. lia.
Qed.
Lemma str_at_nil m p : str_at m p [] → m p = 0.
Proof. intros [_ H]. specialize (H 0%nat ltac:(done)). by rewrite Z.add_0_r in H. Qed.

Lemma ustrlen_eq m p l k fuel : str_at m (p + k) l → (length l < fuel)%nat → ustrlen fuel m p k = Some (k + Z.of_nat (length l)).
Proof.
  revert k fuel. induction l as [|c l IH]; intros k fuel Hs Hf; (destruct fuel as [|fuel]; [lia|]); cbn [ustrlen length] in *.
  - rewrite (str_at_nil _ _ Hs). cbn. f_equal. lia.
  - destruct (str_at_cons _ _ _ _ Hs) as (-> & Hc & Hs'). rewrite (proj2 (truthy_true c)) by lia.
    rewrite IH; [f_equal; lia| |lia]. by rewrite Z.add_assoc.
Qed.

(** [strcmp] of two strings is 0 exactly if they are the same. *)
Lemma ustrcmp_eq m p q l l' fuel : str_at m p l → str_at m q l' → (length l < fuel)%nat →
  ∃ r, ustrcmp_mem fuel m p q = Some r ∧ (r = 0 ↔ l = l').
Proof.
  revert p q l' fuel. induction l as [|c l IH]; intros p q l' fuel Hs Hs' Hf; (destruct fuel as [|fuel]; [lia|]); cbn [ustrcmp_mem length] in *.
  - rewrite (str_at_nil _ _ Hs). cbn. eexists. split; [done|]. destruct l' as [|c' l'].
    + by rewrite (str_at_nil _ _ Hs').
    + destruct (str_at_cons _ _ _ _ Hs') as (-> & Hc & _). split; [lia|done].
  - destruct (str_at_cons _ _ _ _ Hs) as (-> & Hc & Hs1). rewrite (proj2 (truthy_true c)) by lia. cbn [andb].
    destruct l' as [|c' l'].
    + rewrite (str_at_nil _ _ Hs'), (proj2 (Z.eqb_neq c 0)) by lia. eexists. split; [done|]. split; [lia|done].
    + destruct (str_at_cons _ _ _ _ Hs') as (-> & Hc' & Hs1'). destruct (Z.eqb_spec c c') as [->|Hne].
      * destruct (IH _ _ _ fuel Hs1 Hs1' ltac:(lia)) as (r & E & Hr). exists r. split; [done|]. rewrite Hr. split; [by intros ->|by intros [= ->]].
      * eexists. split; [done|]. split; [lia|congruence].
Qed.

(** [strcpy] to memory that does not meet the source. *)
Lemma ustrcpy_eq m s t l fuel : str_at m t l → (s + Z.of_nat (length l) < t ∨ t + Z.of_nat (length l) < s) → (length l < fuel)%nat →
  ∃ m', ustrcpy fuel m s t = Some m' ∧ str_at m' s l ∧ ∀ x, ¬ (s ≤ x ≤ s + Z.of_nat (length l)) → m' x = m x.
Proof.
  revert m s t fuel. induction l as [|c l IH]; intros m s t fuel Hs Hd Hf; (destruct fuel as [|fuel]; [lia|]); cbn [ustrcpy length] in *.
  - rewrite (str_at_nil _ _ Hs). cbn. eexists. split; [done|]. split.
    + split; [done|]. intros i Hi. simpl in Hi. assert (i = 0%nat) as -> by lia. rewrite Z.add_0_r. apply store_same.
    + intros x Hx. apply store_other. lia.
  - destruct (str_at_cons _ _ _ _ Hs) as (-> & Hc & Hs1). rewrite (proj2 (Z.eqb_neq c 0)) by lia.
    destruct (IH (store m s c) (s + 1) (t + 1) fuel) as (m' & E & Hs' & Hx); [|lia|lia|].
    { destruct Hs1 as [H1 H2]. split; [done|]. intros i Hi. rewrite store_other by lia. by apply H2. }
    exists m'. split; [done|]. split.
    + destruct Hs' as [H1 H2]. split; [by constructor|]. intros [|i] Hi.
      * rewrite Z.add_0_r, Hx by lia. apply store_same.
      * change ((c :: l) !! S i) with (l !! i). rewrite <- H2 by (simpl in Hi; lia). f_equal. lia.
    + intros x Hx'. rewrite Hx by lia. apply store_other. lia.
Qed.

(** The string functions on two strings in memory: [strlen] returns the
    number of characters, [strcmp] 0 exactly for equal strings, and after
    [strcpy] to memory that does not meet the first string that string is in
    both places and other memory unchanged. *)
Theorem string_functions m p q s l l' fuel : str_at m p l → str_at m q l' →
  (s + Z.of_nat (length l) < p ∨ p + Z.of_nat (length l) < s) → (length l < fuel)%nat →
  ustrlen fuel m p 0 = Some (Z.of_nat (length l)) ∧
  (∃ r, ustrcmp_mem fuel m p q = Some r ∧ (r = 0 ↔ l = l')) ∧
  (∃ m', ustrcpy fuel m s p = Some m' ∧ str_at m' s l ∧ str_at m' p l ∧
     ∀ x, ¬ (s ≤ x ≤ s + Z.of_nat (length l)) → m' x = m x).
Proof.
  intros Hp Hq Hd Hf. split; [|split].
  - rewrite (ustrlen_eq m p l 0 fuel); [done| |done]. by rewrite Z.add_0_r.
  - by apply ustrcmp_eq.
  - destruct (ustrcpy_eq m s p l fuel Hp Hd Hf) as (m' & E & Hs & Hx). exists m'. split; [done|]. split; [done|]. split; [|done].
    destruct Hp as [H1 H2]. split; [done|]. intros i Hi. rewrite Hx by lia. by apply H2.
Qed.

(** [memmove] of [ulib.c] copies upwards always. *)
Theorem umemmove_eq m dst src n : (src <? dst) && (dst <? src + n) = false → umemmove m dst src n = memmove m dst src n.
Proof. intros H. unfold umemmove, memmove. by rewrite H. Qed.
(** Moving three bytes up by one repeats the first one. *)
Lemma umemmove_overlaps : bytes (umemmove (λ x, x) 11 10 3) 11 3 = [10; 10; 10] ∧ bytes (memmove (λ x, x) 11 10 3) 11 3 = [10; 11; 12].
Proof. by vm_compute. Qed.

Module UstringDemo.
(** ["ab"] at 10 and ["ac"] at 20. *)
Definition demo_mem : mem := λ x, if x =? 10 then 97 else if x =? 11 then 98 else if x =? 20 then 97 else if x =? 21 then 99 else 0.
Lemma demo_str1 : str_at demo_mem 10 [97; 98].
Proof. split; [repeat constructor|]. intros i Hi. simpl in Hi. destruct i as [|[|[|]]]; [done..|lia]. Qed.
Lemma demo_str2 : str_at demo_mem 20 [97; 99].
Proof. split; [repeat constructor|]. intros i Hi. simpl in Hi. destruct i as [|[|[|]]]; [done..|lia]. Qed.
Lemma string_functions_witness : ustrlen 3 demo_mem 10 0 = Some 2 ∧ ∃ m', ustrcpy 3 demo_mem 30 10 = Some m' ∧ m' 31 = 98.
Proof.
  destruct (string_functions demo_mem 10 20 30 [97; 98] [97; 99] 3 demo_str1 demo_str2
    ltac:(simpl; lia) ltac:(simpl; lia)) as (H1 & _ & m' & H2 & [_ H3] & _).
  split; [exact H1|]. exists m'. split; [exact H2|]. exact (H3 1%nat ltac:(simpl; lia)).
Defined.
End UstringDemo.
