(* ===== verification/Cprintf.v ===== *)
(** * Printing from the kernel

    [printint], [cprintf] and the message of [panic] in [console.c],
    [getcallerpcs] of [spinlock.c] and [procdump] of [proc.c].  The result is
    the characters given to [consputc] ([Console.v]); the lock around the
    console is not part of it.

    The theorems: the kernel's [cprintf] writes what the [printf] of user
    programs ([Ulib.v]) writes, hexadecimal digits apart, for the formats it
    knows; [getcallerpcs] collects the return addresses of a chain of stack
    frames. *)

From S2P Require Import Prelude CString Layout Proc Ulib.

(** ** [printint] *)

Definition kdigits : list Z := [48; 49; 50; 51; 52; 53; 54; 55; 56; 57; 97; 98; 99; 100; 101; 102].
Fixpoint kdigit_loop (fuel : nat) (x base : Z) : option (list Z) :=
  match fuel with
  | O => None
  | S fuel' =>
      let c := kdigits !!! Z.to_nat (x mod base) in
      if x / base =? 0 then Some [c] else (c ::.) <$> kdigit_loop fuel' (x / base) base
  end.
Definition kprintint (xx base : Z) (sign : bool) : option (list Z) :=
  let sign := sign && (xx <? 0) in
  let x := if sign then u32 (- xx) else u32 xx in
  ds ← kdigit_loop 33 x base;
  Some (reverse (ds ++ if sign then [45] else [])).

(** ** [cprintf] *)

Section cprintf.
Context (str : Z → option (list Z)).

Definition kconversion (c : Z) (argp : list Z) : option (list Z * list Z) :=
  if c =? 100 then
    match argp with a :: argp' => o ← kprintint (s32 a) 10 true; Some (o, argp') | [] => None end
  else if (c =? 120) || (c =? 112) then
    match argp with a :: argp' => o ← kprintint (s32 a) 16 false; Some (o, argp') | [] => None end
  else if c =? 115 then
    match argp with
    | a :: argp' => o ← (if a =? 0 then Some str_null else str a); Some (o, argp')
    | [] => None
    end
  else if c =? 37 then Some ([37], argp)
  else Some ([37; c], argp).

Fixpoint cprintf (fmt argp : list Z) : option (list Z) :=
  match fmt with
  | [] => Some []
  | c :: fmt' =>
      if negb (c =? 37) then (c ::.) <$> cprintf fmt' argp
      else
        match fmt' with
        | [] => Some []
        | c :: fmt'' => r ← kconversion c argp; (r.1 ++.) <$> cprintf fmt'' r.2
        end
  end.
End cprintf.

(** ** Stack traces *)

(** The loop of [getcallerpcs], [n] entries of [pcs] left. *)
Fixpoint getcallerpcs_loop (m : mem) (ebp : Z) (n : nat) : list Z :=
  match n with
  | O => []
  | S n' =>
      if (ebp =? 0) || (ebp <? KERNBASE) || (ebp =? 2 ^ 32 - 1) then replicate n 0
      else load32 m (ebp + 4) :: getcallerpcs_loop m (load32 m ebp) n'
  end.
Definition getcallerpcs (m : mem) (v : Z) : list Z := getcallerpcs_loop m (u32 (v - 8)) 10.

(** [" %p"], ["\n"], ["lapicid %d: panic: "], ["%d %s %s"] *)
Definition fmt_p : list Z := [32; 37; 112].
Definition fmt_nl : list Z := [10].
Definition fmt_panic : list Z := [108; 97; 112; 105; 99; 105; 100; 32; 37; 100; 58; 32; 112; 97; 110; 105; 99; 58; 32].
Definition fmt_proc : list Z := [37; 100; 32; 37; 115; 32; 37; 115].

(** [cprintf] in sequence. *)
Fixpoint outputs (l : list (option (list Z))) : option (list Z) :=
  match l with
  | [] => Some []
  | o :: l' => a ← o; b ← outputs l'; Some (a ++ b)
  end.

(** The message of [panic], with the string [s] as format, [v] the address of
    its argument. *)
Definition panic_message (m : mem) (lapicid : Z) (s : list Z) (v : Z) : option (list Z) :=
  outputs ([cprintf (λ _, None) fmt_panic [lapicid]; cprintf (λ _, None) s []; cprintf (λ _, None) fmt_nl []]
    ++ ((λ pc, cprintf (λ _, None) fmt_p [pc]) <$> getcallerpcs m v)).

(** ** [procdump] *)

Definition state_name (st : procstate) : list Z :=
  match st with
  | UNUSED => [117; 110; 117; 115; 101; 100]
  | EMBRYO => [101; 109; 98; 114; 121; 111]
  | SLEEPING => [115; 108; 101; 101; 112; 32]
  | RUNNABLE => [114; 117; 110; 98; 108; 101]
  | RUNNING => [114; 117; 110; 32; 32; 32]
  | ZOMBIE => [122; 111; 109; 98; 105; 101]
  end.
Fixpoint before_zero (l : list Z) : list Z :=
  match l with
  | [] => []
  | c :: l' => if c =? 0 then [] else c :: before_zero l'
  end.
(** The line for a process; [m] holds the kernel stacks. *)
Definition procdump_line (m : mem) (p : proc) : option (list Z) :=
  let str a := if a =? 1 then Some (state_name (p_state p)) else Some (before_zero (p_name p)) in
  outputs ([cprintf str fmt_proc [p_pid p; 1; 2]]
    ++ (if bool_decide (p_state p = SLEEPING) then
          (λ pc, cprintf str fmt_p [pc]) <$> before_zero (getcallerpcs m (u32 (c_ebp (p_ctxv p) + 8)))
        else [])
    ++ [cprintf str fmt_nl []]).
Definition procdump (m : mem) (procs : list proc) : option (list Z) :=
  outputs (procdump_line m <$> filter (λ p, p_state p ≠ UNUSED) procs).

(** ** The two printers *)

(** Hexadecimal digits in lower case. *)
Definition lower (c : Z) : Z := if (65 <=? c) && (c <=? 70) then c + 32 else c.

Lemma kdigit_lower d : 0 ≤ d < 16 → kdigits !!! Z.to_nat d = lower (digits !!! Z.to_nat d).
Proof.
  intros Hd. assert (Forall (λ d, kdigits !!! Z.to_nat d = lower (digits !!! Z.to_nat d)) (seqZ 0 16)) as Hf
    by (apply (bool_decide_unpack _); by vm_compute).
  rewrite Forall_forall in Hf. apply Hf, elem_of_seqZ. lia.
Qed.
Lemma kdigit_loop_eq base fuel x : 2 ≤ base ≤ 16 → kdigit_loop fuel x base = map lower <$> digit_loop fuel x base.
Proof.
  intros Hb. revert x. induction fuel as [|fuel IH]; intros x; cbn [kdigit_loop digit_loop]; [done|].
  pose proof (Z.mod_pos_bound x base ltac:(lia)). rewrite kdigit_lower by lia. destruct (_ =? 0); [done|].
  rewrite IH. by destruct (digit_loop fuel (x / base) base).
Qed.
(** The kernel's [printint] is that of the library in lower case. *)
Lemma kprintint_eq xx base sign : 2 ≤ base ≤ 16 → kprintint xx base sign = map lower <$> printint xx base sign.
Proof.
  intros Hb. unfold kprintint, printint, printint_buf. rewrite kdigit_loop_eq by done.
  destruct (digit_loop _ _ _) as [ds|]; [|done]. cbn [fmap option_fmap option_map mbind option_bind]. f_equal.
  change (map lower) with (fmap (M := list) lower). rewrite fmap_reverse, fmap_app. by destruct (sign && (xx <? 0)).
Qed.

(** Decimal digits are the same in both. *)
Lemma printint_lower xx ds : printint xx 10 true = Some ds → - 2 ^ 31 ≤ xx < 2 ^ 31 → map lower ds = ds.
Proof.
  intros E Hx. unfold printint, printint_buf in E.
  destruct (digit_loop_32 10 9 (if true && (xx <? 0) then u32 (- xx) else u32 xx)) as (l & El & _ & _ & Hf & _); [lia|lia| |].
  { pose proof (u32_range (- xx)). pose proof (u32_range xx). destruct (true && (xx <? 0)); lia. }
  rewrite El in E. cbn [mbind option_bind fmap option_fmap option_map] in E. injection E as <-.
  change (map lower) with (fmap (M := list) lower). rewrite fmap_reverse, fmap_app.
  assert (lower <$> (digit_char <$> l) = digit_char <$> l) as ->; [|by destruct (xx <? 0)].
  rewrite <- list_fmap_compose. apply Forall_fmap_ext_1. eapply Forall_impl; [exact Hf|].
  intros d Hd. cbn beta in Hd. cbn. rewrite digit_char_dec by done. unfold lower. by rewrite (proj2 (Z.leb_gt 65 (48 + d))) by lia.
Qed.

(** The characters after each [%] of a format. *)
Fixpoint convs (fmt : list Z) : list Z :=
  match fmt with
  | [] => []
  | c :: fmt' => if negb (c =? 37) then convs fmt' else match fmt' with [] => [] | c :: fmt'' => c :: convs fmt'' end
  end.

Lemma s32_bounds a : - 2 ^ 31 ≤ s32 a < 2 ^ 31.
Proof. apply s32_range. Qed.
(** A conversion that both know and that is not hexadecimal. *)
Lemma kconversion_eq str c ap : c ≠ 99 → c ≠ 120 → c ≠ 112 → kconversion str c ap = conversion str c ap.
Proof.
  intros H1 H2 H3. unfold kconversion, conversion. rewrite (proj2 (Z.eqb_neq c 120)), (proj2 (Z.eqb_neq c 112)), (proj2 (Z.eqb_neq c 99)) by done.
  destruct (c =? 100); [|done]. destruct ap as [|a ap]; [done|]. rewrite kprintint_eq by lia.
  destruct (printint (s32 a) 10 true) as [ds|] eqn:E; [|done]. cbn. by rewrite (printint_lower _ _ E (s32_bounds a)).
Qed.

(** For formats whose conversions are [%d], [%s], [%%] or unknown ones,
    [cprintf] of the kernel writes exactly what [printf] of the user library
    writes for the same arguments; it has no [%c] and its hexadecimal digits
    are in lower case. *)
Theorem cprintf_printf str fmt ap : Forall (λ c, c ≠ 99 ∧ c ≠ 120 ∧ c ≠ 112) (convs fmt) → cprintf str fmt ap = printf str fmt ap.
Proof.
  unfold printf. remember (length fmt) as n eqn:En. assert (length fmt ≤ n)%nat as Hn by lia. clear En.
  revert fmt ap Hn. induction n as [|n IH]; intros [|c fmt] ap Hn; simpl in Hn; try done; [lia|]. cbn [cprintf convs printf_loop negb].
  destruct (Z.eqb_spec c 37) as [->|Hc]; cbn [negb]; intros Hf; [|by rewrite IH by (lia || done)].
  destruct fmt as [|c fmt]; [done|]. simpl in Hn. apply Forall_cons in Hf as [(H1 & H2 & H3) Hf].
  cbn [printf_loop negb]. rewrite kconversion_eq by done. destruct (conversion str c ap) as [[o ap']|]; [|done].
  cbn. by rewrite IH by (lia || done).
Qed.
Lemma cprintf_printf_witness : cprintf (λ _, Some [115; 104]) [112; 105; 100; 32; 37; 100; 58; 37; 115] [-7; 1] = Some [112; 105; 100; 32; 45; 55; 58; 115; 104].
Proof. rewrite cprintf_printf; [reflexivity|]. repeat constructor; done. Defined.

(** ** Chains of frames *)

(** [frames m ebp l]: from [ebp] on there are stack frames with the return
    addresses [l], the last of which has a null [ebp]. *)
Fixpoint frames (m : mem) (ebp : Z) (l : list Z) : Prop :=
  match l with
  | [] => ebp = 0
  | pc :: l' => KERNBASE ≤ ebp < 2 ^ 32 - 1 ∧ load32 m (ebp + 4) = pc ∧ frames m (load32 m ebp) l'
  end.

(** [getcallerpcs] returns the first ten return addresses of a chain, with
    zeros after them. *)
Theorem getcallerpcs_chain m v l : 8 ≤ v < 2 ^ 32 → frames m (v - 8) l →
  getcallerpcs m v = take 10 (l ++ replicate 10 0).
Proof.
  intros Hv Hf. unfold getcallerpcs. rewrite u32_small by lia. generalize dependent (v - 8). clear Hv v.
  assert (∀ n k ebp, (n ≤ k)%nat → frames m ebp l → getcallerpcs_loop m ebp n = take n (l ++ replicate k 0)) as H; [|by intros ebp; apply H].
  intros n. induction n as [|n IH] in l |- *; intros k ebp Hk Hf; [by rewrite take_0|]. cbn [getcallerpcs_loop]. destruct l as [|pc l].
  - simpl in Hf. subst. cbn [Z.eqb orb]. by rewrite app_nil_l, take_replicate, Nat.min_l.
  - destruct Hf as (Hb & Hp & Hf). unfold KERNBASE in *.
    rewrite (proj2 (Z.eqb_neq ebp 0)), (proj2 (Z.ltb_ge ebp _)), (proj2 (Z.eqb_neq ebp _)) by lia. cbn [orb].
    rewrite (IH l k) by (done || lia). by rewrite Hp.
Qed.
