(* ===== verification/Umalloc.v ===== *)
(** * The allocator of user programs

    [malloc] and [free] of [umalloc.c]: free blocks are kept in the heap
    itself, in a circular list ordered by address that starts at the static
    header [base]. *)

From stdpp Require Import sorting.
From S2P Require Import Prelude.

(** The memory of the program, the variable [freep], and the end of the heap. *)
Record ust := Ust { um : mem; freep : Z; brk : Z }.
Definition set_freep (v : Z) (s : ust) : ust := Ust (um s) v (brk s).
Definition set_um (m : mem) (s : ust) : ust := Ust m (freep s) (brk s).

(** A [Header] is 8 bytes: [ptr] and [size]. *)
Definition get_ptr (p : Z) : M ust Z := gets (λ s, load32 (um s) p).
Definition get_size (p : Z) : M ust Z := gets (λ s, load32 (um s) (p + 4)).
Definition put_ptr (p v : Z) : M ust unit := modify (λ s, set_um (store32 (um s) p v) s).
Definition put_size (p v : Z) : M ust unit := modify (λ s, set_um (store32 (um s) (p + 4) v) s).
(** [p + n] for a [Header*] *)
Definition plus (p n : Z) : Z := u32 (p + 8 * n).

(** The loop of [free]; every free block takes at least 8 bytes of the heap,
    which bounds the search. *)
Fixpoint free_search (fuel : nat) (bp p : Z) : M ust Z :=
  match fuel with
  | O => undef
  | S fuel' =>
      q ← get_ptr p;
      if (p <? bp) && (bp <? q) then mret p
      else if (q <=? p) && ((p <? bp) || (bp <? q)) then mret p
      else free_search fuel' bp q
  end.

(** Joins [bp] with the block after it, or links it to that block. *)
Definition link_right (bp p : Z) : M ust unit :=
  n ← get_size bp;
  q ← get_ptr p;
  if plus bp n =? q then
    m ← get_size q;
    put_size bp (u32 (n + m));;
    r ← get_ptr q;
    put_ptr bp r
  else put_ptr bp q.
(** Joins [bp] with the block [p] before it, or links that block to it. *)
Definition link_left (bp p : Z) : M ust unit :=
  m ← get_size p;
  if plus p m =? bp then
    n ← get_size bp;
    put_size p (u32 (m + n));;
    r ← get_ptr bp;
    put_ptr p r
  else put_ptr p bp.

Definition free (ap : Z) : M ust unit :=
  let bp := u32 (ap - 8) in
  f ← gets freep;
  fuel ← gets (λ s, S (S (Z.to_nat (brk s))));
  p ← free_search fuel bp f;
  link_right bp p;;
  link_left bp p;;
  modify (set_freep p).

Section malloc.
(** The address of [base], and the size to which the process can grow. *)
Context (base limit : Z).

(** [sbrk] as the program sees it: the old end of its memory, or -1.  A
    negative number lowers the end, as [growproc] does it with 32-bit sizes. *)
Definition sbrk (n : Z) : M ust Z :=
  a ← gets brk;
  if n <? 0 then
    let sz := if a <=? u32 (a + n) then a else u32 (a + n) in
    if sz =? 0 then mret (-1) else modify (λ s, Ust (um s) (freep s) sz);; mret a
  else if limit <? a + n then mret (-1)
  else modify (λ s, Ust (um s) (freep s) (a + n));; mret a.

Definition morecore (nu : Z) : M ust Z :=
  let nu := if nu <? 4096 then 4096 else nu in
  p ← sbrk (s32 (nu * 8));
  if p =? -1 then mret 0 else
  put_size p nu;;
  free (plus p 1);;
  gets freep.

(** The block [p] of [n] units is large enough: all of it or its tail. *)
Definition take_block (nunits prevp p n : Z) : M ust Z :=
  if n =? nunits then
    q ← get_ptr p;
    put_ptr prevp q;;
    modify (set_freep prevp);;
    mret (plus p 1)
  else
    put_size p (u32 (n - nunits));;
    let p := plus p (u32 (n - nunits)) in
    put_size p nunits;;
    modify (set_freep prevp);;
    mret (plus p 1).

(** The loop of [malloc]. *)
Fixpoint malloc_loop (fuel : nat) (nunits prevp p : Z) : M ust Z :=
  match fuel with
  | O => undef
  | S fuel' =>
      n ← get_size p;
      if nunits <=? n then take_block nunits prevp p n
      else
        let next p := (q ← get_ptr p; malloc_loop fuel' nunits p q) in
        f ← gets freep;
        if p =? f then
          r ← morecore nunits;
          if r =? 0 then mret 0 else next r
        else next p
  end.

Definition malloc (nbytes : Z) : M ust Z :=
  let nunits := u32 (nbytes + 8 - 1) / 8 + 1 in
  f ← gets freep;
  prevp ← (if f =? 0 then
             put_ptr base base;;
             modify (set_freep base);;
             put_size base 0;;
             mret base
           else mret f);
  p ← get_ptr prevp;
  fuel ← gets (λ s, S (S (Z.to_nat (2 * limit))));
  malloc_loop fuel nunits prevp p.
End malloc.

(** ** The free list

    [seg m ns z]: the headers of the blocks [ns], each an address and a number
    of units, are chained in this order, the last one to [z]. *)
Abbreviation block := (Z * Z)%type.
Definition fin (b : block) : Z := b.1 + 8 * b.2.

Fixpoint seg (m : mem) (ns : list block) (z : Z) : Prop :=
  match ns with
  | [] => True
  | (p, n) :: ns' =>
      load32 m (p + 4) = n ∧ load32 m p = (match ns' with [] => z | (q, _) :: _ => q end) ∧ seg m ns' z
  end.

Lemma seg_app m l q n l' z : seg m (l ++ (q, n) :: l') z ↔ seg m l q ∧ seg m ((q, n) :: l') z.
Proof.
  induction l as [|[p k] l IH]; [simpl; tauto|]. cbn [app seg]. rewrite IH. destruct l as [|[p' k'] l]; simpl; tauto.
Qed.
Lemma seg_end m l p n z : seg m (l ++ [(p, n)]) z ↔ seg m l p ∧ load32 m (p + 4) = n ∧ load32 m p = z.
Proof. rewrite seg_app. simpl. tauto. Qed.

(** The headers of [ns] are the same in both memories. *)
Definition same_heads (ns : list block) (m m' : mem) : Prop :=
  ∀ p n, (p, n) ∈ ns → load32 m p = load32 m' p ∧ load32 m (p + 4) = load32 m' (p + 4).
Lemma seg_same m m' ns z : same_heads ns m m' → seg m ns z → seg m' ns z.
Proof.
  induction ns as [|[p n] ns IH]; [done|]. intros Hs (H1 & H2 & H3).
  destruct (Hs p n) as [E1 E2]; [set_solver|]. cbn [seg]. rewrite <- E1, <- E2. split_and!; [done..|].
  apply IH; [|done]. intros q k Hq. apply (Hs q k). set_solver.
Qed.

(** The list read from another of its blocks. *)
Lemma ring_rotate m p n l q k l' : seg m ((p, n) :: l ++ (q, k) :: l') p → seg m ((q, k) :: l' ++ (p, n) :: l) q.
Proof.
  rewrite (app_comm_cons l), (app_comm_cons l'), !seg_app. tauto.
Qed.

(** ** [free] *)

(** The search stops at [p] with successor [q]. *)
Definition stops (bp p q : Z) : bool := ((p <? bp) && (bp <? q)) || ((q <=? p) && ((p <? bp) || (bp <? q))).
Fixpoint passes (bp : Z) (w : list block) (z : Z) : Prop :=
  match w with
  | [] => True
  | (p, _) :: w' => stops bp p (match w' with [] => z | (q, _) :: _ => q end) = false ∧ passes bp w' z
  end.

Lemma search_path bp s w p n z fuel : seg (um s) (w ++ [(p, n)]) z → passes bp w p → stops bp p z = true →
  (length w < fuel)%nat → free_search fuel bp (match w with [] => p | (q, _) :: _ => q end) s = Ok (p, s).
Proof.
  revert fuel. induction w as [|[q k] w IH]; intros fuel Hs Hp Hz Hf; (destruct fuel as [|fuel]; [simpl in Hf; lia|]).
  - cbn [free_search]. unfold get_ptr. rewrite (bind_ok (gets _) _ _ _ _ eq_refl). destruct Hs as (_ & -> & _).
    unfold stops in Hz. destruct (_ && _); [done|]. simpl in Hz. by rewrite Hz.
  - cbn [free_search]. unfold get_ptr. rewrite (bind_ok (gets _) _ _ _ _ eq_refl). cbn [app seg] in Hs.
    destruct Hs as (_ & E & Hs). rewrite E. destruct Hp as [Hst Hp]. unfold stops in Hst. apply orb_false_iff in Hst as [Hs1 Hs2].
    assert ((match w ++ [(p, n)] with [] => z | (q, _) :: _ => q end) = match w with [] => p | (q, _) :: _ => q end) as ->
      by (by destruct w as [|[? ?] ?]).
    rewrite Hs1, Hs2. apply IH; [done..|]. simpl in Hf. lia.
Qed.

(** The block [b] put in front of the blocks [l] that follow it, as [free]
    joins or links them. *)
Definition join (b : block) (l : list block) : list block :=
  match l with
  | (q, k) :: l' => if fin b =? q then (b.1, b.2 + k) :: l' else b :: l
  | [] => [b]
  end.

Definition far (x y : block) : Prop := x.1 + 8 ≤ y.1.
Definition head_addr (l : list block) (z : Z) : Z := match l with [] => z | (q, _) :: _ => q end.

(** Nothing changes outside the headers of the blocks [l]. *)
Definition only_heads (l : list block) (m m' : mem) : Prop :=
  ∀ x, (∀ b, b ∈ l → x < b.1 ∨ b.1 + 8 ≤ x) → m' x = m x.
Lemma only_heads_trans l m1 m2 m3 : only_heads l m1 m2 → only_heads l m2 m3 → only_heads l m1 m3.
Proof. intros H1 H2 x Hx. rewrite H2, H1; done. Qed.
Lemma only_heads_store l m b a v : b ∈ l → b.1 ≤ a ≤ b.1 + 4 → only_heads l m (store32 m a v).
Proof. intros Hb Ha x Hx. apply store32_other. specialize (Hx b Hb). lia. Qed.
Lemma only_heads_self m b a v : b.1 ≤ a ≤ b.1 + 4 → only_heads [b] m (store32 m a v).
Proof. apply only_heads_store, list_elem_of_singleton. done. Qed.
Lemma only_heads_same l l' m m' : only_heads l m m' →
  (∀ x y, x ∈ l → y ∈ l' → x.1 + 8 ≤ y.1 ∨ y.1 + 8 ≤ x.1) → same_heads l' m m'.
Proof.
  intros H Hf p n Hp. assert (∀ x, p ≤ x < p + 8 → m x = m' x) as Hx.
  { intros x Hx. symmetry. apply H. intros b Hb. destruct (Hf _ _ Hb Hp); simpl in *; lia. }
  split; apply load32_ext; intros; apply Hx; lia.
Qed.

Lemma seg_keep b m m' l z : only_heads [b] m m' → seg m l z → (∀ x, x ∈ l → x.1 + 8 ≤ b.1 ∨ b.1 + 8 ≤ x.1) → seg m' l z.
Proof.
  intros Ho Hl Hx. eapply seg_same; [|exact Hl]. eapply only_heads_same; [exact Ho|].
  intros x y ->%list_elem_of_singleton Hy. specialize (Hx y Hy). lia.
Qed.

Ltac step := rewrite (bind_ok (gets _) _ _ _ _ eq_refl) || rewrite (bind_ok (modify _) _ _ _ _ eq_refl).

Lemma head_addr_range l z : 0 ≤ z < 2 ^ 31 → (∀ x, x ∈ l → 0 ≤ x.1 ∧ fin x < 2 ^ 31 ∧ 0 ≤ x.2) → 0 ≤ head_addr l z < 2 ^ 31.
Proof. intros Hz Hl. destruct l as [|[q k] l]; [done|].
  destruct (Hl (q, k)) as (? & ? & ?); [set_solver|]. unfold fin in *. simpl in *. lia. Qed.

Section links.
Context (base : Z) (Hbase : 0 ≤ base < 2 ^ 31).
Definition in_range (x : block) : Prop := 0 ≤ x.1 ∧ fin x < 2 ^ 31 ∧ 0 ≤ x.2.

Lemma link_right_spec s b n p t : load32 (um s) (b + 4) = n → load32 (um s) p = head_addr t base → seg (um s) t base →
  base < b → (∀ x, x ∈ (b, n) :: t → in_range x) → (∀ x, x ∈ t → far (b, n) x) →
  ∃ m', link_right b p s = Ok (tt, set_um m' s) ∧ seg m' (join (b, n) t) base ∧ only_heads [(b, n)] (um s) m'.
Proof.
  intros Hn Hp Ht Hb Hr Hf. unfold link_right, get_size, get_ptr. step. step. rewrite Hn, Hp.
  assert (plus b n = fin (b, n)) as ->.
  { unfold plus. apply u32_small. destruct (Hr (b, n)) as (? & ? & ?); [set_solver|]. unfold fin in *. simpl in *. lia. }
  assert (in_range (b, n)) as (Hr1 & Hr2 & Hr3) by set_solver. simpl in *.
  assert (∀ a v, b ≤ a ≤ b + 4 → only_heads [(b, n)] (um s) (store32 (um s) a v)) as Ho.
  { intros a v Ha. apply (only_heads_store _ _ (b, n)); [set_solver|done]. }
  destruct t as [|[q k] t]; simpl.
  - assert ((fin (b, n) =? base) = false) as -> by (apply Z.eqb_neq; unfold fin in *; simpl in *; lia).
    eexists. split; [reflexivity|]. split; [|apply Ho; lia]. simpl. split; [|split; [|done]].
    + rewrite load_store32_ne by lia. done.
    + rewrite load_store32_same. apply u32_small. lia.
  - assert (in_range (q, k)) as (Hq1 & Hq2 & Hq3) by set_solver. pose proof (Hf (q, k) ltac:(set_solver)) as Hfq.
    unfold far, fin in *. simpl in *. destruct (Z.eqb_spec (b + 8 * n) q) as [<-|Hne].
    + step. unfold put_size. step. step. eexists. split; [reflexivity|]. destruct Ht as (E1 & E2 & E3). simpl.
      assert (only_heads [(b, n)] (um s) (store32 (store32 (um s) (b + 4) (u32 (n + load32 (um s) (b + 8 * n + 4)))) b
         (load32 (store32 (um s) (b + 4) (u32 (n + load32 (um s) (b + 8 * n + 4)))) (b + 8 * n)))) as Hall.
      { eapply only_heads_trans; apply only_heads_self; simpl; lia. }
      split; [|done]. rewrite E1, (load_store32_ne _ (b + 4)) in * by lia. rewrite E2 in *. split; [|split].
      * rewrite load_store32_ne by lia. rewrite load_store32_same, u32_u32. apply u32_small. lia.
      * rewrite load_store32_same. apply u32_small.
        assert (0 ≤ head_addr t base < 2 ^ 31) as Hh; [|destruct t as [|[? ?] ?]; simpl in Hh; lia].
        apply head_addr_range; [done|]. intros x Hx. apply Hr. set_solver.
      * eapply seg_same; [|exact E3]. eapply only_heads_same; [exact Hall|]. intros x y ->%list_elem_of_singleton Hy.
        left. specialize (Hf y). simpl in *. apply Hf. set_solver.
    + eexists. split; [reflexivity|]. split; [|apply Ho; lia]. cbn [seg]. split; [|split].
      * simpl. rewrite load_store32_ne by lia. done.
      * simpl. rewrite load_store32_same. apply u32_small. lia.
      * eapply (seg_same (um s) _ ((q, k) :: t)); [|exact Ht]. eapply only_heads_same; [apply Ho; lia|].
        intros x y ->%list_elem_of_singleton Hy. left. by apply Hf.
Qed.

Lemma link_left_spec s b n p k t1 t z : seg (um s) (t1 ++ [(p, k)]) z → seg (um s) ((b, n) :: t) base →
  (∀ x, x ∈ (p, k) :: (b, n) :: t → in_range x) → (∀ x, x ∈ t1 → far x (p, k)) → (∀ x, x ∈ (b, n) :: t → far (p, k) x) →
  ∃ m', link_left b p s = Ok (tt, set_um m' s) ∧ seg m' (t1 ++ join (p, k) ((b, n) :: t)) base ∧
    only_heads [(p, k)] (um s) m'.
Proof.
  intros Hs Hb Hr Hf1 Hf2. unfold link_left, get_size, get_ptr, put_size, put_ptr. step.
  apply seg_end in Hs as (Hs & Hk & _). rewrite Hk. cbn [join].
  assert (in_range (p, k)) as (Hp1 & Hp2 & Hp3) by set_solver. assert (in_range (b, n)) as (Hb1 & Hb2 & Hb3) by set_solver.
  pose proof (Hf2 (b, n) ltac:(set_solver)) as Hfb. unfold far, fin in *. simpl in Hp1, Hp2, Hp3, Hb1, Hb2, Hb3, Hfb.
  assert (plus p k = p + 8 * k) as -> by (unfold plus; apply u32_small; lia). simpl (_.1 + _).
  destruct Hb as (E1 & E2 & E3). destruct (Z.eqb_spec (p + 8 * k) b) as [<-|Hne].
  - step. step. step. eexists. split; [reflexivity|].
    match goal with |- seg ?m _ _ ∧ _ => assert (only_heads [(p, k)] (um s) m) as Hall end.
    { simpl. eapply only_heads_trans; apply only_heads_self; simpl; lia. }
    simpl in Hall |- *. split; [|exact Hall]. apply seg_app. split; [apply (seg_keep _ _ _ _ _ Hall); [done|]; intros x Hx; left; by apply Hf1|].
    simpl. rewrite E1, (load_store32_ne _ (p + 4)) in * by lia. rewrite E2 in *. split; [|split].
    + rewrite load_store32_ne by lia. rewrite load_store32_same, u32_u32. apply u32_small. lia.
    + rewrite load_store32_same. apply u32_small.
      assert (0 ≤ head_addr t base < 2 ^ 31) as Hh; [|destruct t as [|[? ?] ?]; simpl in Hh; lia].
      apply head_addr_range; [done|]. intros x Hx. apply Hr. set_solver.
    + apply (seg_keep _ _ _ _ _ Hall); [done|]. intros x Hx. right. apply Hf2. set_solver.
  - eexists. split; [reflexivity|].
    assert (only_heads [(p, k)] (um s) (store32 (um s) p b)) as Hall by (apply only_heads_self; simpl; lia).
    split; [|exact Hall]. apply seg_app. split; [apply (seg_keep _ _ _ _ _ Hall); [done|]; intros x Hx; left; by apply Hf1|].
    cbn [seg]. split; [rewrite load_store32_ne by lia; done|]. split; [rewrite load_store32_same; apply u32_small; lia|].
    apply (seg_keep _ _ _ ((b, n) :: t) _ Hall); [done|]. intros x Hx. right. by apply Hf2.
Qed.
End links.

(** [malloc] of almost the whole address space: the number of units wraps
    around, and the block returned has no room at all. *)
Definition demo0 : ust := Ust (λ _, 0) 0 16384.
Definition malloc_size (nbytes : Z) : outcome (Z * Z) :=
  match (p ← malloc 4096 65536 nbytes; n ← get_size (u32 (p - 8)); mret (p, n)) demo0 with
  | Ok (r, _) => Ok r
  | Panic m => Panic m
  | Blocked => Blocked
  | Undef => Undef
  end.
Lemma malloc_wraps : malloc_size (2 ^ 32 - 4) = Ok (49152, 1).
Proof. vm_compute. reflexivity. Qed.
