(* ===== verification/UmallocInv.v ===== *)
(** * The heap of a program

    Invariant of [umalloc.c] and the behaviour of [free] and [malloc] on it:
    the free list is ordered by address and disjoint from the blocks in use,
    and blocks in use are disjoint from each other. *)

From S2P Require Import Prelude Umalloc.

(** Blocks in increasing order between [lo] and [top]. *)
Fixpoint good (top lo : Z) (l : list block) : Prop :=
  match l with
  | [] => True
  | x :: l' => lo ≤ x.1 ∧ 1 ≤ x.2 ∧ fin x ≤ top ∧ good top (fin x) l'
  end.

Lemma good_weaken top top' lo lo' l : good top lo l → top ≤ top' → lo' ≤ lo → good top' lo' l.
Proof. revert lo lo'. induction l as [|x l IH]; [done|]. intros lo lo' (?&?&?&?) ??. split_and!; [lia..|]. by eapply IH. Qed.
Lemma good_elem top lo l x : good top lo l → x ∈ l → lo ≤ x.1 ∧ 1 ≤ x.2 ∧ fin x ≤ top.
Proof.
  revert lo. induction l as [|y l IH]; intros lo; [by intros _ ?%elem_of_nil|].
  intros (H1 & H2 & H3 & H4) [->|Hx]%elem_of_cons; [lia|]. destruct (IH _ H4 Hx) as (? & ? & ?). unfold fin in *. lia.
Qed.
Lemma good_app top lo l1 l2 : good top lo (l1 ++ l2) → good top lo l1 ∧ good top lo l2 ∧
  ∀ x y, x ∈ l1 → y ∈ l2 → fin x ≤ y.1.
Proof.
  revert lo. induction l1 as [|z l1 IH]; intros lo; cbn [app good].
  - intros H. split; [done|]. split; [done|]. intros x y Hx. by apply elem_of_nil in Hx.
  - intros (H1 & H2 & H3 & H4). destruct (IH _ H4) as (A & B & Cc). split; [done|].
    split; [eapply good_weaken; [exact B|done|unfold fin in *; lia]|]. intros x y [->|Hx]%elem_of_cons Hy; [|by apply Cc].
    by destruct (good_elem _ _ _ _ B Hy).
Qed.
Lemma app_good top lo l1 l2 : good top lo l1 → (∀ x, x ∈ l1 → good top (fin x) l2) → good top lo l2 → good top lo (l1 ++ l2).
Proof.
  revert lo. induction l1 as [|z l1 IH]; intros lo H1 H2 H3; [done|]. destruct H1 as (A & B & Cc & D). cbn [app good].
  split_and!; [done..|]. apply IH; [done| |]; [intros x Hx|]; apply H2; set_solver.
Qed.
(** Every block takes 8 bytes, which bounds their number. *)
Lemma good_length top lo l : good top lo l → lo ≤ top → 8 * Z.of_nat (length l) ≤ top - lo.
Proof.
  revert lo. induction l as [|x l IH]; intros lo; simpl; [lia|]. intros (H1 & H2 & H3 & H4) _.
  specialize (IH _ H4 H3). unfold fin in *. lia.
Qed.

Definition apart (x y : block) : Prop := fin x ≤ y.1 ∨ fin y ≤ x.1.

(** A block apart from those of the list has its place between two of them. *)
Lemma split_place top lo l b : good top lo l → 1 ≤ b.2 → (∀ x, x ∈ l → apart b x) →
  ∃ l1 l2, l = l1 ++ l2 ∧ (∀ x, x ∈ l1 → fin x ≤ b.1) ∧ good top (fin b) l2.
Proof.
  revert lo. induction l as [|x l IH]; intros lo Hg Hb Ha; [by exists [], []; set_solver|]. destruct Hg as (H1 & H2 & H3 & H4).
  destruct (Ha x ltac:(set_solver)) as [Hx|Hx].
  - exists [], (x :: l). split; [done|]. split; [intros ? ?%elem_of_nil; done|]. by split_and!.
  - destruct (IH _ H4 Hb) as (l1 & l2 & -> & A & B); [intros; apply Ha; set_solver|].
    exists (x :: l1), l2. split; [done|]. split; [|done]. intros y [->|Hy]%elem_of_cons; [done|by apply A].
Qed.

(** ** Joining neighbours *)

Lemma join_good top lo b l : good top (fin b) l → lo ≤ b.1 → 1 ≤ b.2 → fin b ≤ top → good top lo (join b l).
Proof.
  intros Hl H1 H2 H3. destruct l as [|[q k] l]; cbn [join]; [by split_and!|].
  destruct (Z.eqb_spec (fin b) q) as [E|E]; [|by split_and!].
  destruct Hl as (L1 & L2 & L3 & L4). unfold fin in *. cbn [good]. unfold fin. simpl in *.
  split_and!; [lia..|]. replace (b.1 + 8 * (b.2 + k)) with (q + 8 * k) by lia. done.
Qed.
Lemma join_apart y b l : 1 ≤ y.2 → 1 ≤ b.2 → (∀ x, x ∈ b :: l → apart y x ∧ 1 ≤ x.2) → ∀ x, x ∈ join b l → apart y x ∧ 1 ≤ x.2.
Proof.
  intros Hy Hb Ha x. destruct l as [|[q k] l]; cbn [join]; [auto|].
  destruct (Z.eqb_spec (fin b) q) as [E|E]; [|auto]. intros [->|Hx]%elem_of_cons; [|apply Ha; set_solver].
  destruct (Ha b) as [A1 A2]; [set_solver|]. destruct (Ha (q, k)) as [B1 B2]; [set_solver|].
  unfold apart, fin in *. simpl in *. lia.
Qed.
(** The block is inside one of the result. *)
Definition inside (b x : block) : Prop := x.1 ≤ b.1 ∧ fin b ≤ fin x.
Lemma join_inside b l : (∀ x, x ∈ l → 1 ≤ x.2) → ∃ x l', join b l = x :: l' ∧ x.1 = b.1 ∧ inside b x.
Proof.
  intros Hl. destruct l as [|[q k] l]; cbn [join]; [exists b; unfold inside; eauto with lia|].
  destruct (Z.eqb_spec (fin b) q) as [E|E]; [|exists b; unfold inside; eauto with lia].
  eexists _, _. split; [done|]. specialize (Hl (q, k) ltac:(set_solver)). unfold inside, fin in *. simpl in *. lia.
Qed.

(** ** The invariant *)
Section heap.
Context (base heap0 limit : Z).
Context (Hbase : 0 < base) (Hheap : base + 8 ≤ heap0) (Hlim : heap0 ≤ limit < 2 ^ 31).

Record freelist (s : ust) (fr : list block) : Prop := {
  fl_seg : seg (um s) ((base, 0) :: fr) base;
  fl_good : good (brk s) heap0 fr;
  fl_freep : ∃ n, (freep s, n) ∈ (base, 0) :: fr;
  fl_brk : heap0 ≤ brk s ≤ limit;
}.

Lemma free_in_range s fr x : good (brk s) heap0 fr → brk s ≤ limit → x ∈ (base, 0) :: fr → in_range x.
Proof.
  intros Hg Hb [->|Hx]%elem_of_cons; [unfold in_range, fin; simpl; lia|].
  destruct (good_elem _ _ _ _ Hg Hx) as (? & ? & ?). unfold in_range. lia.
Qed.

Lemma ring_split m x l1 l2 : seg m (x :: l1 ++ l2) base → seg m (x :: l1) (head_addr l2 base) ∧ seg m l2 base.
Proof.
  destruct l2 as [|[q j] l2]; [by rewrite app_nil_r|]. rewrite app_comm_cons. by rewrite seg_app.
Qed.

(** ** The search of [free] *)

Lemma passes_app bp l q k l' z : passes bp (l ++ (q, k) :: l') z ↔ passes bp l q ∧ passes bp ((q, k) :: l') z.
Proof.
  induction l as [|[p n] l IH]; [simpl; tauto|]. cbn [app passes]. rewrite IH. destruct l as [|[? ?] ?]; simpl; tauto.
Qed.
(** Blocks below the one to be freed, and above it. *)
Lemma passes_low bp w : ∀ lo p m, good bp lo (w ++ [(p, m)]) → passes bp w p.
Proof.
  induction w as [|[q k] w IH]; intros lo p m Hg; [done|]. cbn [app good] in Hg. destruct Hg as (H1 & H2 & H3 & H4).
  cbn [passes]. split; [|by eapply IH]. unfold stops.
  destruct w as [|[q' k'] w]; cbn [app good] in H4; destruct H4 as (A & B & Cc & _); unfold fin in *; simpl in *;
    apply orb_false_iff; split; apply andb_false_iff; bcase; simpl; lia || auto.
Qed.
Lemma passes_high bp w : ∀ top lo, good top lo w → bp < lo → base < bp → passes bp w base.
Proof.
  induction w as [|[q k] w IH]; intros top lo Hg Hb Hb2; [done|]. cbn [good] in Hg. destruct Hg as (H1 & H2 & H3 & H4).
  unfold fin in *. simpl in *. split; [|eapply IH; [done|lia|done]]. unfold stops.
  destruct w as [|[q' k'] w]; [|cbn [good] in H4; destruct H4 as (A & B & Cc & _); unfold fin in *; simpl in *];
    apply orb_false_iff; split; apply andb_false_iff; bcase; simpl; lia || auto.
Qed.

Lemma good_top top lo l b : good top lo l → (∀ x, x ∈ l → fin x ≤ b) → good b lo l.
Proof.
  revert lo. induction l as [|x l IH]; intros lo; [done|]. intros (H1 & H2 & H3 & H4) Ha.
  split_and!; [done..|apply Ha; set_solver|]. apply IH; [done|]. intros; apply Ha; set_solver.
Qed.
Lemma passes_base bp l1 t p m top : good top heap0 l1 → (∀ x, x ∈ l1 → fin x ≤ bp) → (base, 0) :: l1 = t ++ [(p, m)] → passes bp t p.
Proof.
  intros Hg Hl E. destruct t as [|x t]; [done|]. injection E as <- ->. apply good_top with (b := bp) in Hg; [|done].
  cbn [passes]. split; [|by eapply passes_low].
  assert (∃ q k r, t ++ [(p, m)] = (q, k) :: r ∧ (match t with [] => p | (q, _) :: _ => q end) = q) as (q & k & r & E & ->)
    by (destruct t as [|[? ?] ?]; eauto).
  rewrite E in Hg. destruct Hg as (A & B & Cc & _). unfold fin in *. simpl in *. unfold stops.
  apply orb_false_iff; split; apply andb_false_iff; bcase; simpl; lia || auto.
Qed.

Lemma free_search_spec s l1 l2 b t p m fuel : freelist s (l1 ++ l2) → (∀ x, x ∈ l1 → fin x ≤ b.1) → 1 ≤ b.2 → heap0 ≤ b.1 →
  good (brk s) (fin b) l2 → (base, 0) :: l1 = t ++ [(p, m)] → (length (l1 ++ l2) < fuel)%nat →
  free_search fuel b.1 (freep s) s = Ok (p, s).
Proof.
  intros [Hseg Hg [k Hf] Hbrk] Hl1 Hb1 Hb2 Hl2 Et Hfuel.
  destruct (good_app _ _ _ _ Hg) as (Hg1 & _ & _). pose proof (passes_base _ _ _ _ _ _ Hg1 Hl1 Et) as Hpass.
  assert (p < b.1) as Hp.
  { assert ((p, m) ∈ (base, 0) :: l1) as [[= -> ->]|Hin]%elem_of_cons by (rewrite Et; set_solver); [lia|].
    pose proof (Hl1 _ Hin). destruct (good_elem _ _ _ _ Hg1 Hin) as (? & ? & ?). unfold fin in *. simpl in *. lia. }
  assert (stops b.1 p (head_addr l2 base) = true) as Hstop.
  { unfold stops. destruct l2 as [|[q j] l2]; simpl; [|destruct Hl2 as (Hq & _); unfold fin in Hq; simpl in Hq];
      apply orb_true_iff; [right|left]; rewrite ?andb_true_iff, ?orb_true_iff, ?Z.leb_le, ?Z.ltb_lt.
    - split; [|by left]. assert ((p, m) ∈ (base, 0) :: l1) as [[= -> ->]|Hin]%elem_of_cons by (rewrite Et; set_solver); [lia|].
      destruct (good_elem _ _ _ _ Hg1 Hin) as (? & _). simpl in *. lia.
    - lia. }
  assert (seg (um s) (t ++ [(p, m)]) (head_addr l2 base) ∧ seg (um s) l2 base) as [Hs1 Hs2]
    by (rewrite <- Et; by apply ring_split).
  assert (length t = length l1) as Hlen by (apply (f_equal length) in Et; rewrite length_app in Et; simpl in Et; lia).
  rewrite app_comm_cons, elem_of_app in Hf. rewrite length_app in Hfuel. destruct Hf as [Hf|Hf].
  - rewrite Et in Hf. apply list_elem_of_split in Hf as (u & v & Ev).
    destruct (exists_last (l := (freep s, k) :: v)) as (w & [p' m'] & Ew); [done|].
    rewrite Ew, app_assoc in Ev. apply app_inj_tail in Ev as [-> [= -> ->]].
    assert (free_search fuel b.1 (head_addr w p') s = Ok (p', s)) as Hgo.
    { unfold head_addr. apply (search_path _ _ w p' m' (head_addr l2 base)); [| |done|rewrite length_app in Hlen; lia].
      - destruct w as [|[q j] w]; [simpl in *|]. { rewrite app_nil_r, seg_end in Hs1. simpl. tauto. }
        rewrite <- app_assoc in Hs1. simpl in Hs1. rewrite seg_app in Hs1. apply Hs1.
      - destruct w as [|[q j] w]; [done|]. rewrite passes_app in Hpass. apply Hpass. }
    destruct w as [|[q j] w]; simpl in Ew; injection Ew as <- <- ?; done.
  - apply list_elem_of_split in Hf as (u & v & ->).
    change (freep s) with (head_addr (((freep s, k) :: v) ++ t) p).
    apply (search_path _ _ (((freep s, k) :: v) ++ t) p m (head_addr (u ++ (freep s, k) :: v) base)); [| |done|].
    + rewrite <- app_assoc, <- Et. apply seg_app. split; [by apply seg_app in Hs2 as [_ Hs2]|by rewrite Et].
    + assert (passes b.1 ((freep s, k) :: v) base) as Hh.
      { apply good_app in Hl2 as (_ & Hl2 & _). eapply passes_high; [exact Hl2|unfold fin; lia|lia]. }
      destruct t as [|x t]; [injection Et as <- <- _; by rewrite app_nil_r|]. injection Et as <- _. apply passes_app. done.
    + rewrite !length_app in *. simpl in *. lia.
Qed.

Lemma good_in_range top l lo x : good top lo l → 0 ≤ lo → top ≤ limit → x ∈ l → in_range x.
Proof. intros Hg H0 Ht Hx. destruct (good_elem _ _ _ _ Hg Hx) as (? & ? & ?). unfold in_range. lia. Qed.

(** The two links of [free], once the place is found. *)
Lemma links_spec s l1 l2 b t p m : freelist s (l1 ++ l2) → (∀ x, x ∈ l1 → fin x ≤ b.1) → 1 ≤ b.2 → heap0 ≤ b.1 → fin b ≤ brk s →
  good (brk s) (fin b) l2 → (base, 0) :: l1 = t ++ [(p, m)] → load32 (um s) (b.1 + 4) = b.2 →
  ∃ m', (link_right b.1 p;; link_left b.1 p) s = Ok (tt, set_um m' s) ∧ seg m' (t ++ join (p, m) (join b l2)) base ∧
    only_heads [(p, m); b] (um s) m'.
Proof.
  intros [Hseg Hg _ Hbrk] Hl1 Hb1 Hb2 Hb3 Hl2 Et Hn. destruct b as [b n]. cbn [fst snd] in *.
  assert (seg (um s) (t ++ [(p, m)]) (head_addr l2 base) ∧ seg (um s) l2 base) as [Hs1 Hs2]
    by (rewrite <- Et; by apply ring_split).
  destruct (good_app _ _ _ _ Hg) as (Hg1 & _ & _).
  assert (∀ x, x ∈ t ++ [(p, m)] → x.1 + 8 ≤ b ∧ in_range x ∧ base ≤ x.1) as Hlow.
  { intros x. rewrite <- Et. intros [->|Hx]%elem_of_cons; [unfold in_range, fin; simpl; lia|].
    pose proof (Hl1 _ Hx). destruct (good_elem _ _ _ _ Hg1 Hx) as (? & ? & ?). unfold in_range, fin in *. lia. }
  assert (in_range (b, n)) as Hbr by (unfold in_range, fin in *; simpl in *; lia).
  destruct (link_right_spec base ltac:(lia) s b n p l2) as (m1 & E1 & S1 & O1); [done|by apply seg_end in Hs1 as (_ & _ & ?)|done|lia| | |].
  { intros x [->|Hx]%elem_of_cons; [done|]. eapply good_in_range; [exact Hl2|unfold fin in *; simpl in *; lia|lia|done]. }
  { intros x Hx. destruct (good_elem _ _ _ _ Hl2 Hx) as (? & _). unfold far, fin in *. simpl in *. lia. }
  rewrite (bind_ok _ _ _ _ _ E1).
  pose proof (join_good (brk s) heap0 (b, n) l2 Hl2 Hb2 Hb1 Hb3) as Hj.
  destruct (join_inside (b, n) l2) as (x & l' & Ej & Hx1 & Hin); [intros x Hx; by destruct (good_elem _ _ _ _ Hl2 Hx) as (_ & ? & _)|].
  rewrite Ej in *. destruct x as [b' n']. simpl in Hx1. subst b'.
  assert (seg m1 (t ++ [(p, m)]) (head_addr l2 base)) as Hs1'.
  { eapply seg_same; [|exact Hs1]. eapply only_heads_same; [exact O1|]. intros x y ->%list_elem_of_singleton Hy. right. by apply Hlow. }
  destruct (link_left_spec base ltac:(lia) (set_um m1 s) b n' p m t l' (head_addr l2 base) Hs1' S1) as (m2 & E2 & S2 & O2).
  - intros x [->|Hx]%elem_of_cons; [apply Hlow; set_solver|]. eapply good_in_range; [exact Hj|lia|lia|done].
  - intros x Hx. destruct t as [|x0 t]; [by apply elem_of_nil in Hx|]. injection Et as <- ->. unfold far. simpl.
    apply elem_of_cons in Hx as [->|Hx]; simpl.
    + assert ((p, m) ∈ t ++ [(p, m)]) as Hpm by set_solver. destruct (good_elem _ _ _ _ Hg1 Hpm). simpl in *. lia.
    + apply good_app in Hg1 as (Hgt & _ & Hbe). pose proof (Hbe x (p, m) Hx ltac:(set_solver)) as Hle.
      destruct (good_elem _ _ _ _ Hgt Hx) as (? & ? & ?). unfold fin in *. simpl in *. lia.
  - intros x Hx. unfold far. simpl. assert (b ≤ x.1) as Hle.
    { apply elem_of_cons in Hx as [->|Hx]; [done|]. destruct Hj as (_ & ? & _ & Hj). destruct (good_elem _ _ _ _ Hj Hx).
      unfold fin in *. simpl in *. lia. }
    destruct (Hlow (p, m)); [set_solver|]. simpl in *. lia.
  - exists m2. split; [exact E2|]. split; [done|]. intros x Hx. rewrite O2, O1; [done|..]; intros y Hy; apply Hx; set_solver.
Qed.

(** The list of blocks that the links make. *)
Lemma joined_list top l1 l2 b t p m : good top heap0 (l1 ++ l2) → (∀ x, x ∈ l1 → fin x ≤ b.1) → 1 ≤ b.2 → heap0 ≤ b.1 → fin b ≤ top →
  good top (fin b) l2 → (base, 0) :: l1 = t ++ [(p, m)] →
  ∃ fr', t ++ join (p, m) (join b l2) = (base, 0) :: fr' ∧ good top heap0 fr' ∧ (∃ n, (p, n) ∈ (base, 0) :: fr') ∧
    (∀ y, 1 ≤ y.2 → (∀ x, x ∈ b :: l1 ++ l2 → apart y x) → ∀ x, x ∈ fr' → apart y x) ∧ (∃ x, x ∈ fr' ∧ inside b x).
Proof.
  intros Hg Hl1 Hb1 Hb2 Hb3 Hl2 Et. destruct (good_app _ _ _ _ Hg) as (Hg1 & _ & _).
  pose proof (join_good top heap0 b l2 Hl2 Hb2 Hb1 Hb3) as Hj. pose proof (join_good top b.1 b l2 Hl2 ltac:(lia) Hb1 Hb3) as Hjb.
  assert (∀ x, x ∈ l2 → 1 ≤ x.2) as Hpos by (intros x Hx; by destruct (good_elem _ _ _ _ Hl2 Hx) as (_ & ? & _)).
  destruct (join_inside b l2 Hpos) as (z & l' & Ej & Hz & Hin).
  assert (∀ y, 1 ≤ y.2 → (∀ x, x ∈ b :: l1 ++ l2 → apart y x) → ∀ x, x ∈ join b l2 → apart y x ∧ 1 ≤ x.2) as Hap.
  { intros y Hy Ha. apply join_apart; [done..|]. intros x [->|Hx]%elem_of_cons; [split; [apply Ha; set_solver|done]|].
    split; [apply Ha; set_solver|auto]. }
  destruct t as [|x0 t].
  - injection Et as <- <- ->. exists (join b l2). rewrite Ej in *. cbn [app join].
    assert ((fin (base, 0) =? z.1) = false) as Hne by (apply Z.eqb_neq; unfold fin; simpl; lia).
    destruct z as [z k]. simpl in Hne. rewrite Hne. split; [done|]. split; [done|]. split; [exists 0; set_solver|].
    split; [intros y Hy Ha x Hx; by apply (Hap y Hy Ha)|]. exists (z, k). set_solver.
  - injection Et as <- ->. exists (t ++ join (p, m) (join b l2)). split; [done|].
    apply good_app in Hg1 as (Hgt & Hgp & Hbe). destruct (good_elem _ _ _ (p, m) Hgp ltac:(set_solver)) as (P1 & P2 & P3).
    pose proof (Hl1 (p, m) ltac:(set_solver)) as P4. simpl in P1, P2.
    assert (good top (fin (p, m)) (join b l2)) as Hjp by (eapply good_weaken; [exact Hjb|lia|lia]).
    split; [|split; [|split]].
    + apply app_good; [done| |]; [intros x Hx|]; apply join_good; simpl; try done. by apply (Hbe x (p, m) Hx), list_elem_of_singleton.
    + rewrite Ej. destruct z as [z k]. cbn [join]. destruct (_ =? _); [exists (m + k)|exists m]; set_solver.
    + intros y Hy Ha x [Hx|Hx]%elem_of_app; [apply Ha; set_solver|]. eapply (join_apart y (p, m)); [done|done| |exact Hx].
      intros w [->|Hw]%elem_of_cons; [split; [apply Ha; set_solver|done]|by apply (Hap y Hy Ha)].
    + rewrite Ej. destruct z as [z k]. cbn [join]. destruct (Z.eqb_spec (fin (p, m)) z) as [E|E].
      * exists (p, m + k). split; [set_solver|]. unfold inside, fin in *. simpl in *. lia.
      * exists (z, k). split; [set_solver|done].
Qed.

Lemma free_spec s fr b : freelist s fr → heap0 ≤ b.1 → 1 ≤ b.2 → fin b ≤ brk s → (∀ x, x ∈ fr → apart b x) →
  load32 (um s) (b.1 + 4) = b.2 →
  ∃ s' fr', free (b.1 + 8) s = Ok (tt, s') ∧ freelist s' fr' ∧ brk s' = brk s ∧ only_heads ((base, 0) :: b :: fr) (um s) (um s') ∧
    (∀ y, 1 ≤ y.2 → apart y b → (∀ x, x ∈ fr → apart y x) → ∀ x, x ∈ fr' → apart y x) ∧ (∃ x, x ∈ fr' ∧ inside b x).
Proof.
  intros Hfl Hb1 Hb2 Hb3 Ha Hn. destruct (split_place _ _ _ _ (fl_good _ _ Hfl) Hb2 Ha) as (l1 & l2 & -> & Hl1 & Hl2).
  destruct (exists_last (l := (base, 0) :: l1)) as (t & [p m] & Et); [done|].
  destruct (links_spec s l1 l2 b t p m Hfl Hl1 Hb2 Hb1 Hb3 Hl2 Et Hn) as (m' & E & Hs & Ho).
  pose proof (fl_good _ _ Hfl) as Hg. pose proof (fl_brk _ _ Hfl) as Hbrk.
  destruct (joined_list _ l1 l2 b t p m Hg Hl1 Hb2 Hb1 Hb3 Hl2 Et) as (fr' & Efr & Hg' & Hp & Hap & Hin).
  exists (set_freep p (set_um m' s)), fr'. split; [|split; [split|split; [done|split; [|split; [|done]]]]].
  - unfold free. assert (u32 (b.1 + 8 - 8) = b.1) as -> by (rewrite Z.add_simpl_r; apply u32_small; unfold fin in *; lia).
    rewrite (bind_ok (gets _) _ _ _ _ eq_refl), (bind_ok (gets _) _ _ _ _ eq_refl). rewrite (bind_ok _ _ s p s).
    + apply bind_inv in E as ([] & s1 & E1 & E2). by rewrite (bind_ok _ _ _ _ _ E1), (bind_ok _ _ _ _ _ E2).
    + eapply free_search_spec; [exact Hfl|done..|]. pose proof (good_length _ _ _ Hg ltac:(lia)). lia.
  - cbn [um set_freep set_um]. by rewrite <- Efr.
  - done.
  - done.
  - done.
  - intros x Hx. apply Ho. intros y Hy. apply Hx. apply elem_of_cons in Hy as [->| ->%list_elem_of_singleton]; [|set_solver].
    assert ((p, m) ∈ (base, 0) :: l1) by (rewrite Et; set_solver). set_solver.
  - intros y Hy Hyb Hyf. apply Hap; [done|]. intros x [->|Hx]%elem_of_cons; auto.
Qed.

(** ** [malloc] *)

(** The first block that is large enough, with the one before it. *)
Fixpoint first_fit (nunits prev : Z) (l : list block) : option (Z * block) :=
  match l with
  | [] => None
  | (p, m) :: l' => if nunits <=? m then Some (prev, (p, m)) else first_fit nunits p l'
  end.

Lemma malloc_scan nunits s l : ∀ prevp j f k z fuel,
  seg (um s) ((prevp, j) :: l ++ [(f, k)]) z → freep s = f → (∀ x, x ∈ l → x.1 ≠ f) →
  malloc_loop limit (S (length l) + fuel) nunits prevp (head_addr l f) s =
    match first_fit nunits prevp (l ++ [(f, k)]) with
    | Some (q, (p, m)) => take_block nunits q p m s
    | None => (r ← morecore limit nunits; if r =? 0 then mret 0 else q ← get_ptr r; malloc_loop limit fuel nunits r q) s
    end.
Proof.
  induction l as [|[p m] l IH]; intros prevp j f k z fuel Hs Hf Hne.
  - destruct Hs as (_ & _ & E1 & E2 & _). cbn [head_addr length Nat.add malloc_loop app first_fit].
    unfold get_size at 1. rewrite (bind_ok (gets _) _ _ _ _ eq_refl), E1.
    destruct (nunits <=? k); [done|]. rewrite (bind_ok (gets _) _ _ _ _ eq_refl), Hf, Z.eqb_refl. done.
  - cbn [app] in *. destruct Hs as (_ & _ & Hs). pose proof Hs as (E1 & E2 & _).
    change (S (length ((p, m) :: l)) + fuel)%nat with (S (S (length l) + fuel)).
    remember (S (length l) + fuel)%nat as n eqn:En. cbn [head_addr malloc_loop first_fit].
    unfold get_size at 1. rewrite (bind_ok (gets _) _ _ _ _ eq_refl), E1. destruct (nunits <=? m); [done|].
    rewrite (bind_ok (gets _) _ _ _ _ eq_refl), Hf. rewrite (proj2 (Z.eqb_neq p f)) by (apply (Hne (p, m)); set_solver).
    unfold get_ptr at 1. rewrite (bind_ok (gets _) _ _ _ _ eq_refl), E2.
    replace (match l ++ [(f, k)] with [] => z | (q, _) :: _ => q end) with (head_addr l f) by (by destruct l as [|[? ?] ?]).
    subst n. apply (IH p m f k z fuel Hs Hf). intros x Hx. apply Hne. set_solver.
Qed.

Lemma first_fit_spec nunits l : ∀ prev j q p m, first_fit nunits prev l = Some (q, (p, m)) →
  nunits ≤ m ∧ (p, m) ∈ l ∧ ∃ i a c, (prev, j) :: l = a ++ (q, i) :: (p, m) :: c.
Proof.
  induction l as [|[p' m'] l IH]; intros prev j q p m; cbn [first_fit]; [done|].
  destruct (Z.leb_spec nunits m').
  - intros [= <- <- <-]. split; [done|]. split; [set_solver|]. by exists j, [], l.
  - intros H1. destruct (IH _ m' _ _ _ H1) as (A & B & i & a & c & E). split; [done|]. split; [set_solver|].
    exists i, ((prev, j) :: a), c. rewrite E. done.
Qed.
Lemma first_fit_none nunits l : ∀ prev, first_fit nunits prev l = None → ∀ x, x ∈ l → x.2 < nunits.
Proof.
  induction l as [|[p' m'] l IH]; intros prev; cbn [first_fit]; [intros _ x ?%elem_of_nil; done|].
  destruct (Z.leb_spec nunits m'); [done|]. intros H1 x [->|Hx]%elem_of_cons; [done|]. by eapply IH.
Qed.

(** The ring from [freep] on, back to [freep]. *)
Lemma ring_from s fr : freelist s fr → ∃ k l, seg (um s) ((freep s, k) :: l ++ [(freep s, k)]) (head_addr (l ++ [(freep s, k)]) 0) ∧
  (freep s, k) :: l ≡ₚ (base, 0) :: fr ∧ (∀ x, x ∈ l → x.1 ≠ freep s).
Proof.
  intros [Hseg Hg [k Hf] Hbrk].
  assert (∀ u v, (base, 0) :: fr = u ++ (freep s, k) :: v → ∀ x, x ∈ v ++ u → x.1 ≠ freep s) as Hne.
  { intros u v E x Hx. destruct u as [|y u].
    - injection E as <- <- ->. rewrite app_nil_r in Hx. destruct (good_elem _ _ _ _ Hg Hx). lia.
    - injection E as <- ->. destruct (good_app _ _ _ _ Hg) as (G1 & (G2 & G3 & G4 & G5) & G6). simpl in *.
      apply elem_of_app in Hx as [Hx|[->|Hx]%elem_of_cons].
      + destruct (good_elem _ _ _ _ G5 Hx). unfold fin in *. simpl in *. lia.
      + simpl. lia.
      + pose proof (G6 x (freep s, k) Hx ltac:(set_solver)). destruct (good_elem _ _ _ _ G1 Hx) as (? & ? & ?). unfold fin in *. simpl in *. lia. }
  apply list_elem_of_split in Hf as (u & v & E). exists k, (v ++ u). split; [|split; [|by apply Hne]].
  - rewrite E in Hseg. assert (seg (um s) ((freep s, k) :: v ++ u) (freep s)) as Hr.
    { destruct u as [|[y n] u]; [injection E as E1 _ _; rewrite app_nil_r, <- E1 at 1; by rewrite <- E1 in Hseg |- *|].
      injection E as <- <- _. by apply (ring_rotate _ base 0 u (freep s) k v). }
    rewrite app_comm_cons. apply seg_app. split; [done|]. destruct Hr as (R1 & R2 & _). split_and!; [done| |done].
    rewrite R2. by destruct (v ++ u) as [|[? ?] ?].
  - rewrite E. rewrite app_comm_cons. apply Permutation_app_comm.
Qed.

(** Blocks of the list are at least a header apart. *)
Lemma nodes_far fr top x y l1 l2 : good top heap0 fr → (base, 0) :: fr = l1 ++ y :: l2 → x ∈ l1 → x.1 + 8 ≤ y.1.
Proof.
  intros Hg E Hx. destruct l1 as [|z l1]; [by apply elem_of_nil in Hx|]. injection E as <- ->.
  apply good_app in Hg as (G1 & G2 & G3). apply elem_of_cons in Hx as [->|Hx].
  - destruct (good_elem _ _ _ y G2); [set_solver|]. simpl. lia.
  - pose proof (G3 x y Hx ltac:(set_solver)). destruct (good_elem _ _ _ _ G1 Hx) as (? & ? & ?). unfold fin in *. lia.
Qed.

(** The block that points to [p] is the one before it. *)
Lemma pred_unique s l1 p m l2 q i : freelist s (l1 ++ (p, m) :: l2) → (q, i) ∈ (base, 0) :: l1 ++ (p, m) :: l2 →
  load32 (um s) q = p → ∃ t, (base, 0) :: l1 = t ++ [(q, i)].
Proof.
  intros [Hseg Hg _ _] Hq Hp. rewrite app_comm_cons in Hq. apply elem_of_app in Hq as [Hq|Hq].
  - apply list_elem_of_split in Hq as (u & v & E). destruct v as [|[w j] v]; [by exists u|]. exfalso.
    assert ((base, 0) :: l1 ++ (p, m) :: l2 = (u ++ [(q, i)]) ++ (w, j) :: v ++ (p, m) :: l2) as E2
      by (rewrite app_comm_cons, E, <- !app_assoc; done).
    assert (w + 8 ≤ p).
    { apply (nodes_far (l1 ++ (p, m) :: l2) (brk s) (w, j) (p, m) ((base, 0) :: l1) l2 Hg eq_refl). rewrite E. set_solver. }
    rewrite E2, <- app_assoc in Hseg. apply seg_app in Hseg as (_ & _ & E3 & _). simpl in E3. lia.
  - exfalso. apply list_elem_of_split in Hq as (u & v & E).
    assert (p ≤ q) as Hle.
    { destruct u as [|y u]; [injection E as <- <- _; lia|]. injection E as <- ->.
      assert (p + 8 ≤ q); [|lia]. apply (nodes_far (l1 ++ (p, m) :: u ++ (q, i) :: v) (brk s) (p, m) (q, i) ((base, 0) :: l1 ++ (p, m) :: u) v Hg);
        [by rewrite <- app_comm_cons, <- app_assoc|set_solver]. }
    rewrite E in Hseg, Hg. rewrite app_comm_cons, app_assoc in Hseg. destruct v as [|[w j] v].
    + apply seg_end in Hseg as (_ & _ & E3). assert (heap0 ≤ p); [|lia].
      apply (good_elem _ _ _ (p, m) Hg). rewrite <- E. set_solver.
    + assert (q + 8 ≤ w).
      { apply (nodes_far (l1 ++ u ++ (q, i) :: (w, j) :: v) (brk s) (q, i) (w, j) ((base, 0) :: l1 ++ u ++ [(q, i)]) v Hg);
          [cbn [app]; f_equal; by rewrite <- !app_assoc|set_solver]. }
      apply seg_app in Hseg as (_ & _ & E3 & _). simpl in E3. lia.
Qed.

(** What is known around a block [p] of the list. *)
Record around (s : ust) (l1 : list block) (p m : Z) (l2 t : list block) (q i : Z) : Prop := {
  ar_prev : (base, 0) :: l1 = t ++ [(q, i)];
  ar_range : heap0 ≤ p ∧ 1 ≤ m ∧ p + 8 * m ≤ brk s;
  ar_seg1 : seg (um s) (t ++ [(q, i)]) p;
  ar_size : load32 (um s) (p + 4) = m;
  ar_ptr : load32 (um s) p = head_addr l2 base;
  ar_seg2 : seg (um s) l2 base;
  ar_low : ∀ x, x ∈ (base, 0) :: l1 → x.1 + 8 ≤ p;
  ar_low_t : ∀ x, x ∈ t → x.1 + 8 ≤ q;
  ar_high : good (brk s) (p + 8 * m) l2;
  ar_good : good (brk s) heap0 l1;
  ar_fin : ∀ x, x ∈ l1 → fin x ≤ p;
}.
Lemma around_block s l1 p m l2 t q i : freelist s (l1 ++ (p, m) :: l2) → (base, 0) :: l1 = t ++ [(q, i)] → around s l1 p m l2 t q i.
Proof.
  intros [Hseg Hg Hf Hbrk] Et.
  destruct (good_elem _ _ _ (p, m) Hg ltac:(set_solver)) as (P1 & P2 & P3). unfold fin in P3. simpl in P1, P2, P3.
  pose proof Hseg as Hsplit. rewrite app_comm_cons in Hsplit. apply seg_app in Hsplit as (Hs1 & Hsz & Hpt & Hs2). rewrite Et in Hs1.
  destruct (good_app _ _ _ _ Hg) as (G1 & (G2 & G3 & G4 & G5) & G6). unfold fin in G5. simpl in *.
  split; try done.
  - intros x Hx. apply (nodes_far (l1 ++ (p, m) :: l2) (brk s) x (p, m) ((base, 0) :: l1) l2 Hg eq_refl Hx).
  - intros x Hx. apply (nodes_far (l1 ++ (p, m) :: l2) (brk s) x (q, i) t ((p, m) :: l2) Hg); [|done].
    by rewrite app_comm_cons, Et, <- app_assoc.
  - intros x Hx. apply (G6 x (p, m) Hx ltac:(set_solver)).
Qed.

Lemma take_whole s l1 p nunits l2 t q i : around s l1 p nunits l2 t q i → heap0 ≤ brk s ≤ limit →
  ∃ s', take_block nunits q p nunits s = Ok (p + 8, s') ∧ freelist s' (l1 ++ l2) ∧ brk s' = brk s ∧
    load32 (um s') (p + 4) = nunits ∧ only_heads [(q, i)] (um s) (um s').
Proof.
  intros [Et (P1 & P2 & P3) Hs1 Hsz Hpt Hs2 Hlow Hlowt Hgl2 Hg1 Hfin] Hbrk.
  assert (∀ x, x ∈ l2 → p + 8 * nunits ≤ x.1) as Hhigh by (intros x Hx; by destruct (good_elem _ _ _ _ Hgl2 Hx)).
  assert (good (brk s) heap0 (l1 ++ l2)) as Hg'.
  { apply app_good; [done| |]; [intros x Hx; specialize (Hfin x Hx)|]; (eapply good_weaken; [exact Hgl2|done|unfold fin in *; lia]). }
  assert ((q, i) ∈ (base, 0) :: l1) as Hq by (rewrite Et; set_solver). pose proof (Hlow _ Hq) as Hqp. simpl in Hqp.
  unfold take_block. rewrite Z.eqb_refl. unfold get_ptr, put_ptr. step. step. step.
  exists (set_freep q (set_um (store32 (um s) q (load32 (um s) p)) s)).
  assert (only_heads [(q, i)] (um s) (store32 (um s) q (load32 (um s) p))) as Ho by (apply only_heads_self; simpl; lia).
  split; [unfold mret, M_ret, plus; do 2 f_equal; apply u32_small; lia|].
  split; [split; cbn [um set_freep set_um freep brk]; [|done| |done]|].
  - rewrite app_comm_cons, Et. apply seg_end in Hs1 as (T1 & T2 & T3). rewrite <- app_assoc. apply seg_app. split.
    + apply (seg_keep _ _ _ _ _ Ho T1). intros x Hx. left. by apply Hlowt.
    + cbn [app seg]. split; [rewrite load_store32_ne by lia; done|]. split; [rewrite load_store32_same, Hpt; apply u32_small|].
      * assert (0 ≤ head_addr l2 base < 2 ^ 31) as Hh; [|unfold head_addr in Hh; destruct l2 as [|[? ?] ?]; lia].
        apply head_addr_range; [lia|]. intros x Hx. eapply (good_in_range (brk s) l2 (p + 8 * nunits)); [done|lia|lia|done].
      * apply (seg_keep _ _ _ _ _ Ho Hs2). intros x Hx. specialize (Hhigh x Hx). simpl. lia.
  - exists i. apply elem_of_cons. apply elem_of_cons in Hq as [?|?]; set_solver.
  - split; [done|]. simpl. split; [rewrite load_store32_ne by lia; done|done].
Qed.

Lemma take_tail s l1 p m l2 t q i nunits : around s l1 p m l2 t q i → heap0 ≤ brk s ≤ limit → 1 ≤ nunits < m →
  let a := p + 8 * (m - nunits) in
  ∃ s', take_block nunits q p m s = Ok (a + 8, s') ∧ freelist s' (l1 ++ (p, m - nunits) :: l2) ∧ brk s' = brk s ∧
    load32 (um s') (a + 4) = nunits ∧ only_heads [(p, m); (a, nunits)] (um s) (um s').
Proof.
  intros [Et (P1 & P2 & P3) Hs1 Hsz Hpt Hs2 Hlow Hlowt Hgl2 Hg1 Hfin] Hbrk Hn a. subst a.
  unfold take_block. rewrite (proj2 (Z.eqb_neq m nunits)) by lia. rewrite (u32_small (m - nunits)) by lia.
  assert (plus p (m - nunits) = p + 8 * (m - nunits)) as -> by (unfold plus; apply u32_small; lia).
  set (a := p + 8 * (m - nunits)). assert (p + 8 ≤ a ∧ a + 8 * nunits = p + 8 * m) as [Ha1 Ha2] by (unfold a; lia).
  unfold put_size. step. step. step. cbn [um set_um].
  set (m1 := store32 (um s) (p + 4) (m - nunits)). set (m2 := store32 m1 (a + 4) nunits).
  exists (set_freep q (set_um m2 (set_um m1 s))).
  assert (only_heads [(p, m)] (um s) m1) as O1 by (apply only_heads_self; simpl; lia).
  assert (only_heads [(a, nunits)] m1 m2) as O2 by (apply only_heads_self; simpl; lia).
  assert (∀ l z, seg (um s) l z → (∀ x, x ∈ l → x.1 + 8 ≤ p ∨ p + 8 * m ≤ x.1) → seg m2 l z) as Hkeep.
  { intros l z Hl Hx. apply (seg_keep _ _ _ _ _ O2); [apply (seg_keep _ _ _ _ _ O1); [done|]|];
      intros x Hxl; specialize (Hx x Hxl); simpl; lia. }
  split; [unfold mret, M_ret, plus; do 2 f_equal; apply u32_small; lia|].
  split; [split; cbn [um set_freep set_um freep brk]; [| | |done]|].
  - rewrite app_comm_cons, Et. apply seg_app. split; [apply Hkeep; [done|]; intros x Hx; left; apply Hlow; by rewrite Et|].
    cbn [seg]. split; [|split].
    + unfold m2, m1. rewrite load_store32_ne, load_store32_same by lia. apply u32_small. lia.
    + unfold m2, m1. rewrite !load_store32_ne by lia. done.
    + apply Hkeep; [done|]. intros x Hx. right. by destruct (good_elem _ _ _ _ Hgl2 Hx).
  - assert (good (brk s) p ((p, m - nunits) :: l2)) as Hgt.
    { cbn [good]. unfold fin. simpl. split_and!; [lia..|]. eapply good_weaken; [exact Hgl2|lia|lia]. }
    apply app_good; [done| |]; [intros x Hx; specialize (Hfin x Hx)|]; (eapply good_weaken; [exact Hgt|done|lia]).
  - exists i. assert ((q, i) ∈ (base, 0) :: l1) as Hq by (rewrite Et; set_solver). set_solver.
  - split; [done|]. simpl. split; [unfold m2; rewrite load_store32_same; apply u32_small; lia|].
    intros x Hx. rewrite O2, O1; [done|..]; intros b Hb; apply Hx; set_solver.
Qed.

(** A block in use, as seen from the free list: apart from the free blocks. *)
Record in_use (s : ust) (fr : list block) (y : block) : Prop := {
  iu_range : heap0 ≤ y.1 ∧ 1 ≤ y.2 ∧ fin y ≤ brk s;
  iu_apart : ∀ x, x ∈ fr → apart y x;
}.
Definition untouched (y : block) (m m' : mem) : Prop := ∀ z, y.1 ≤ z < fin y → m' z = m z.

(** Blocks in use stay apart from the free list, and keep their contents. *)
Record keeps_used (s : ust) (fr : list block) (s' : ust) (fr' : list block) : Prop := {
  ku_free : freelist s' fr';
  ku_brk : brk s ≤ brk s';
  ku_used : ∀ y, in_use s fr y → in_use s' fr' y ∧ untouched y (um s) (um s');
}.
Lemma keeps_used_trans s1 f1 s2 f2 s3 f3 : keeps_used s1 f1 s2 f2 → keeps_used s2 f2 s3 f3 → keeps_used s1 f1 s3 f3.
Proof.
  intros [A1 A2 A3] [B1 B2 B3]. split; [done|lia|]. intros y Hy. destruct (A3 y Hy) as [C1 C2]. destruct (B3 y C1) as [D1 D2].
  split; [done|]. intros z Hz. rewrite D2, C2; done.
Qed.

(** Writes to headers of the list do not reach a block in use. *)
Lemma in_use_untouched s fr y l m' : good (brk s) heap0 fr → in_use s fr y → only_heads l (um s) m' →
  (∀ x, x ∈ l → x ∈ (base, 0) :: fr ∨ fin y ≤ x.1 ∨ x.1 + 8 ≤ y.1) → untouched y (um s) m'.
Proof.
  intros Hg [(H1 & H2 & H3) Ha] Ho Hl z Hz. apply Ho. intros b Hb.
  destruct (Hl b Hb) as [[->|Hbf]%elem_of_cons|Hb']; simpl; [lia| |lia].
  destruct (good_elem _ _ _ _ Hg Hbf) as (? & ? & ?). destruct (Ha b Hbf); unfold fin in *; lia.
Qed.

(** [malloc] gave out the block [a] of [n] units. *)
Record gave (s : ust) (fr : list block) (n a : Z) (s' : ust) (fr' : list block) : Prop := {
  gv_keeps : keeps_used s fr s' fr';
  gv_block : in_use s' fr' (a, n);
  gv_size : load32 (um s') (a + 4) = n;
  gv_apart : ∀ y, in_use s fr y → apart y (a, n);
}.

Lemma take_gave s l1 p m l2 t q i nunits : freelist s (l1 ++ (p, m) :: l2) → (base, 0) :: l1 = t ++ [(q, i)] → 1 ≤ nunits ≤ m →
  ∃ a s' fr', take_block nunits q p m s = Ok (a + 8, s') ∧ gave s (l1 ++ (p, m) :: l2) nunits a s' fr'.
Proof.
  intros Hfl Et Hn. pose proof (fl_brk _ _ Hfl) as Hbrk. pose proof (fl_good _ _ Hfl) as Hg.
  pose proof (around_block _ _ _ _ _ _ _ _ Hfl Et) as Har. pose proof Har as [_ (P1 & P2 & P3) _ _ _ _ _ _ Hgl2 Hg1 Hfin].
  assert ((q, i) ∈ (base, 0) :: l1 ++ (p, m) :: l2) as Hq by (rewrite app_comm_cons, Et; set_solver).
  assert (∀ x, x ∈ l1 ++ l2 → fin x ≤ p ∨ p + 8 * m ≤ x.1) as Hside.
  { intros x [Hx|Hx]%elem_of_app; [left; by apply Hfin|right; by destruct (good_elem _ _ _ _ Hgl2 Hx)]. }
  destruct (decide (m = nunits)) as [->|Hne].
  - destruct (take_whole _ _ _ _ _ _ _ _ Har Hbrk) as (s' & E & Hfl' & Hb & Hsz & Ho). exists p, s', (l1 ++ l2).
    split; [done|]. split; [split| |done|].
    + done.
    + lia.
    + intros y Hy. split.
      * destruct Hy as [Hy1 Hy2]. split; [lia|]. intros x Hx. apply Hy2. set_solver.
      * eapply in_use_untouched; [exact Hg|exact Hy|exact Ho|]. intros x ->%list_elem_of_singleton. by left.
    + split; [unfold fin; simpl; lia|]. intros x Hx. specialize (Hside x Hx). unfold apart, fin in *. simpl. lia.
    + intros y [_ Hy]. apply Hy. set_solver.
  - destruct (take_tail _ _ _ _ _ _ _ _ nunits Har Hbrk ltac:(lia)) as (s' & E & Hfl' & Hb & Hsz & Ho).
    eexists _, s', _. split; [exact E|]. split; [split| |done|].
    + exact Hfl'.
    + lia.
    + intros y Hy. split.
      * destruct Hy as [Hy1 Hy2]. split; [lia|]. intros x Hx. assert (x ∈ l1 ++ l2 ∨ x = (p, m - nunits)) as [Hx'| ->] by set_solver;
          [apply Hy2; set_solver|]. specialize (Hy2 (p, m) ltac:(set_solver)). unfold apart, fin in *. simpl in *. lia.
      * eapply in_use_untouched; [exact Hg|exact Hy|exact Ho|]. intros x [->|Hx]%elem_of_cons; [left; set_solver|].
        apply list_elem_of_singleton in Hx as ->. right. destruct Hy as [_ Hy]. specialize (Hy (p, m) ltac:(set_solver)).
        unfold apart, fin in *. simpl in *. lia.
    + split; [unfold fin; simpl; lia|]. intros x Hx. assert (x ∈ l1 ++ l2 ∨ x = (p, m - nunits)) as [Hx'| ->] by set_solver;
        [specialize (Hside x Hx')|]; unfold apart, fin in *; simpl in *; lia.
    + intros y [_ Hy]. specialize (Hy (p, m) ltac:(set_solver)). unfold apart, fin in *. simpl in *. lia.
Qed.

(** [free] of a block in use. *)
Lemma free_in_use s fr b : freelist s fr → in_use s fr b → load32 (um s) (b.1 + 4) = b.2 →
  ∃ s' fr', free (b.1 + 8) s = Ok (tt, s') ∧ freelist s' fr' ∧ brk s' = brk s ∧ (∃ x, x ∈ fr' ∧ inside b x) ∧
    ∀ y, in_use s fr y → apart y b → in_use s' fr' y ∧ untouched y (um s) (um s').
Proof.
  intros Hfl [(H1 & H2 & H3) Ha] Hn.
  destruct (free_spec s fr b Hfl H1 H2 H3 Ha Hn) as (s' & fr' & E & Hfl' & Hb & Ho & Hap & Hin).
  exists s', fr'. split; [done|]. split; [done|]. split; [done|]. split; [done|]. intros y Hy Hyb. split.
  - destruct Hy as [Hy1 Hy2]. split; [by rewrite Hb|]. apply Hap; [lia|done..].
  - eapply in_use_untouched; [apply (fl_good _ _ Hfl)|exact Hy|exact Ho|]. intros x Hx.
    assert (x = b ∨ x ∈ (base, 0) :: fr) as [->|?] by set_solver; [right|by left].
    destruct Hyb; unfold fin in *; lia.
Qed.

Lemma sbrk_eq n s : 0 ≤ n → sbrk limit n s = if limit <? brk s + n then Ok (-1, s) else Ok (brk s, Ust (um s) (freep s) (brk s + n)).
Proof. intros Hn. unfold sbrk. step. rewrite (proj2 (Z.ltb_ge n 0)) by lia. by destruct (limit <? brk s + n). Qed.
Lemma morecore_spec s fr nunits : freelist s fr → 1 ≤ nunits ≤ 2 ^ 27 + 1 →
  morecore limit nunits s = Ok (0, s) ∨
  ∃ s' fr', morecore limit nunits s = Ok (freep s', s') ∧ freep s' ≠ 0 ∧ keeps_used s fr s' fr' ∧ ∃ x, x ∈ fr' ∧ nunits ≤ x.2.
Proof.
  intros [Hseg Hg Hf Hbrk] Hn. unfold morecore.
  set (nu := if nunits <? 4096 then 4096 else nunits). assert (nunits ≤ nu ∧ 1 ≤ nu ≤ 2 ^ 27 + 1) as [Hnu1 Hnu2] by (unfold nu; bcase; lia).
  assert (s32 (nu * 8) = nu * 8) as -> by (apply s32_small; lia). pose proof (sbrk_eq (nu * 8) s ltac:(lia)) as Es.
  destruct (Z.ltb_spec limit (brk s + nu * 8)) as [Hl|Hl]; rewrite (bind_ok _ _ _ _ _ Es); [by left|right].
  rewrite (proj2 (Z.eqb_neq (brk s) (-1))) by lia. unfold put_size. step.
  assert (plus (brk s) 1 = brk s + 8) as -> by (unfold plus; apply u32_small; lia).
  set (s1 := set_um _ _). set (b := (brk s, nu)).
  assert (only_heads [b] (um s) (um s1)) as Ho by (apply only_heads_self; simpl; lia).
  assert (∀ x, x ∈ (base, 0) :: fr → x.1 + 8 ≤ brk s) as Hbelow.
  { intros x [->|Hx]%elem_of_cons; [simpl; lia|]. destruct (good_elem _ _ _ _ Hg Hx) as (? & ? & ?). unfold fin in *. lia. }
  assert (freelist s1 fr) as Hfl1.
  { split; [|eapply good_weaken; [exact Hg|simpl; lia|lia]|done|simpl; lia].
    apply (seg_keep _ _ _ _ _ Ho Hseg). intros x Hx. left. by apply Hbelow. }
  assert (in_use s1 fr b) as Hub.
  { split; [unfold fin; simpl; lia|]. intros x Hx. right. by destruct (good_elem _ _ _ _ Hg Hx) as (_ & _ & ?). }
  destruct (free_in_use s1 fr b Hfl1 Hub) as (s' & fr' & E & Hfl' & Hb & (x & Hx & Hin) & Hu).
  { simpl. rewrite load_store32_same. apply u32_small. lia. }
  simpl in E. exists s', fr'. rewrite (bind_ok _ _ _ _ _ E). split; [done|]. split; [|split; [split|]].
  - destruct (fl_freep _ _ Hfl') as (k & [[= ->]|Hk]%elem_of_cons); [lia|].
    destruct (good_elem _ _ _ _ (fl_good _ _ Hfl') Hk). simpl in *. lia.
  - done.
  - rewrite Hb. simpl. lia.
  - intros y Hy. assert (in_use s1 fr y) as Hy1 by (destruct Hy as [A B]; split; [simpl; lia|done]).
    destruct (Hu y Hy1) as [U1 U2]; [left; destruct Hy as [A _]; simpl; lia|]. split; [done|]. intros z Hz. rewrite U2 by done.
    apply Ho. intros c ->%list_elem_of_singleton. left. simpl. destruct Hy as [A _]. lia.
  - exists x. split; [done|]. unfold inside, fin in Hin. simpl in *. lia.
Qed.

(** One turn around the ring: a large enough block is found if there is one,
    otherwise the program asks for more memory. *)
Lemma malloc_turn s fr nunits fuel : freelist s fr → 1 ≤ nunits →
  let go := malloc_loop limit (S (length fr) + fuel) nunits (freep s) (load32 (um s) (freep s)) s in
  (∃ a s' fr', go = Ok (a + 8, s') ∧ gave s fr nunits a s' fr') ∨
  (∀ x, x ∈ fr → x.2 < nunits) ∧
  go = (r ← morecore limit nunits; if r =? 0 then mret 0 else q ← get_ptr r; malloc_loop limit fuel nunits r q) s.
Proof.
  intros Hfl Hn go. destruct (ring_from s fr Hfl) as (k & l & Hs & Hp & Hne).
  assert (length l = length fr) as Hlen by (apply Permutation_length in Hp; simpl in Hp; lia).
  assert (load32 (um s) (freep s) = head_addr l (freep s)) as Hh
    by (destruct Hs as (_ & -> & _); by destruct l as [|[? ?] ?]).
  unfold go. rewrite Hh, <- Hlen. rewrite (malloc_scan nunits s l _ k _ k _ fuel Hs eq_refl Hne).
  destruct (first_fit nunits (freep s) (l ++ [(freep s, k)])) as [[q [p m]]|] eqn:Ef.
  - left. destruct (first_fit_spec _ _ _ k _ _ _ Ef) as (Hm & Hin & i & a & c & E).
    assert (∀ x, x ∈ (freep s, k) :: l ++ [(freep s, k)] → x ∈ (base, 0) :: fr) as Hsub.
    { intros x Hx. rewrite <- Hp. set_solver. }
    assert ((p, m) ∈ fr) as Hpm.
    { assert ((p, m) ∈ (base, 0) :: fr) as [[= -> ->]|?]%elem_of_cons by (apply Hsub; set_solver); [lia|done]. }
    assert ((q, i) ∈ (base, 0) :: fr) as Hq by (apply Hsub; rewrite E; set_solver).
    apply list_elem_of_split in Hpm as (l1 & l2 & ->).
    destruct (pred_unique s l1 p m l2 q i Hfl Hq) as (t & Et).
    { rewrite E in Hs. by apply seg_app in Hs as (_ & _ & E3 & _). }
    by apply (take_gave s l1 p m l2 t q i).
  - right. split; [|done]. intros x Hx. eapply first_fit_none; [exact Ef|].
    assert (x ∈ (freep s, k) :: l) as Hx' by (rewrite Hp; set_solver). set_solver.
Qed.

Lemma malloc_loop_spec s fr nunits : freelist s fr → 1 ≤ nunits ≤ 2 ^ 27 + 1 →
  let go := malloc_loop limit (S (S (Z.to_nat (2 * limit)))) nunits (freep s) (load32 (um s) (freep s)) s in
  (∃ s', go = Ok (0, s') ∧ s' = s) ∨ (∃ a s' fr', go = Ok (a + 8, s') ∧ gave s fr nunits a s' fr').
Proof.
  intros Hfl Hn go.
  assert (∀ s fr, freelist s fr → (length fr ≤ Z.to_nat limit)%nat) as Hbound.
  { intros s1 fr1 [_ Hg1 _ Hb1]. pose proof (good_length _ _ _ Hg1 ltac:(lia)). lia. }
  pose proof (Hbound _ _ Hfl) as Hl1. unfold go.
  assert (∃ fuel, S (S (Z.to_nat (2 * limit))) = (S (length fr) + fuel)%nat ∧ (Z.to_nat limit < fuel)%nat) as (fuel & -> & Hfu).
  { exists (S (Z.to_nat (2 * limit)) - length fr)%nat. split; lia. }
  destruct (malloc_turn s fr nunits fuel Hfl ltac:(lia)) as [Hdone|[_ ->]]; [by right|].
  destruct (morecore_spec s fr nunits Hfl Hn) as [E|(s1 & fr1 & E & Hnz & Hk & x & Hx & Hsz)]; rewrite (bind_ok _ _ _ _ _ E).
  - left. by exists s.
  - right. rewrite (proj2 (Z.eqb_neq _ _) Hnz). unfold get_ptr at 1. step.
    pose proof (ku_free _ _ _ _ Hk) as Hfl1. pose proof (Hbound _ _ Hfl1) as Hl2.
    assert (∃ fuel2, fuel = (S (length fr1) + fuel2)%nat) as (fuel2 & ->) by (exists (fuel - S (length fr1))%nat; lia).
    destruct (malloc_turn s1 fr1 nunits fuel2 Hfl1 ltac:(lia)) as [(a & s2 & fr2 & -> & Hgv)|[Hno _]];
      [|specialize (Hno x Hx); lia].
    exists a, s2, fr2. split; [done|]. destruct Hgv as [G1 G2 G3 G4]. split; [by eapply keeps_used_trans|done|done|].
    intros y Hy. apply G4. by apply (ku_used _ _ _ _ Hk).
Qed.

(** ** The heap with the blocks in use *)

Fixpoint disjoint_blocks (l : list block) : Prop :=
  match l with
  | [] => True
  | x :: l' => (∀ y, y ∈ l' → apart y x) ∧ disjoint_blocks l'
  end.
Lemma disjoint_remove l1 b l2 : disjoint_blocks (l1 ++ b :: l2) → disjoint_blocks (l1 ++ l2) ∧ ∀ y, y ∈ l1 ++ l2 → apart y b.
Proof.
  induction l1 as [|x l1 IH]; cbn [app disjoint_blocks]; [tauto|]. intros [H1 H2]. destruct (IH H2) as [I1 I2].
  split; [split; [|done]; intros y Hy; apply H1; set_solver|]. intros y [->|Hy]%elem_of_cons; [|auto].
  specialize (H1 b ltac:(set_solver)). unfold apart in *. tauto.
Qed.

(** The state of the allocator with the blocks the program has: before the
    first call of [malloc] there is no free list. *)
Record heap (s : ust) (fr live : list block) : Prop := {
  hp_free : freelist s fr;
  hp_used : ∀ b, b ∈ live → in_use s fr b;
  hp_size : ∀ b, b ∈ live → load32 (um s) (b.1 + 4) = b.2;
  hp_disjoint : disjoint_blocks live;
}.
Definition heap_ok (s : ust) (live : list block) : Prop :=
  (freep s = 0 ∧ live = [] ∧ heap0 ≤ brk s ≤ limit) ∨ ∃ fr, heap s fr live.

Lemma untouched_size y m m' : untouched y m m' → 1 ≤ y.2 → load32 m' (y.1 + 4) = load32 m (y.1 + 4).
Proof. intros H1 H2. apply load32_ext. intros x Hx. apply H1. unfold fin. lia. Qed.

Definition units (n : Z) : Z := u32 (n + 8 - 1) / 8 + 1.
Lemma units_range n : 0 ≤ n ≤ 2 ^ 30 → 1 ≤ units n ≤ 2 ^ 27 + 1 ∧ n ≤ 8 * units n - 8.
Proof. intros Hn. unfold units. rewrite u32_small by lia. Z.div_mod_to_equations. lia. Qed.

(** The part of [malloc] that makes the empty free list. *)
Definition started (s : ust) : ust := set_um (store32 (store32 (um s) base base) (base + 4) 0) (set_freep base s).
Lemma started_heap s : heap0 ≤ brk s ≤ limit → heap (started s) [] [].
Proof.
  intros Hb. split; [|intros b Hb'; by apply elem_of_nil in Hb'..|done]. split; [|done|exists 0; set_solver|done].
  unfold started. simpl. split; [rewrite load_store32_same; done|]. split; [|done].
  rewrite load_store32_ne, load_store32_same by lia. apply u32_small. lia.
Qed.
Lemma malloc_started s n : freep s = 0 → malloc base limit n s = malloc base limit n (started s).
Proof.
  intros Hf. unfold malloc. rewrite (bind_ok (gets _) _ s _ s eq_refl), Hf. cbn [Z.eqb].
  rewrite (bind_ok _ _ s base (started s) eq_refl). symmetry.
  rewrite (bind_ok (gets _) _ _ _ _ eq_refl). cbn [started set_um set_freep freep].
  rewrite (proj2 (Z.eqb_neq base 0)) by lia. by rewrite (bind_ok (mret base) _ _ base _ eq_refl).
Qed.

Lemma gave_heap s fr live n a s' fr' : heap s fr live → gave s fr n a s' fr' →
  heap s' fr' ((a, n) :: live) ∧ ∀ b, b ∈ live → untouched b (um s) (um s').
Proof.
  intros [H1 H2 H3 H4] [[K1 K2 K3] G2 G3 G4]. split; [split|].
  - done.
  - intros b [->|Hb]%elem_of_cons; [done|]. by apply K3, H2.
  - intros b [->|Hb]%elem_of_cons; [done|]. destruct (K3 b (H2 b Hb)) as [_ Hu].
    rewrite (untouched_size b (um s)); [by apply H3|done|]. apply (iu_range _ _ _ (H2 b Hb)).
  - split; [|done]. intros y Hy. by apply G4, H2.
  - intros b Hb. by apply K3, H2.
Qed.

(** [malloc] on a heap: it fails and leaves the blocks as they are, or
    gives out a new block. *)
Lemma malloc_heap s live n : heap_ok s live → 0 ≤ n ≤ 2 ^ 30 →
  ∃ r s', malloc base limit n s = Ok (r, s') ∧ (∀ b, b ∈ live → untouched b (um s) (um s')) ∧
    (r = 0 ∧ heap_ok s' live ∨ r ≠ 0 ∧ heap_ok s' ((r - 8, units n) :: live)).
Proof.
  intros Hok Hn. assert (∃ s1 fr, malloc base limit n s = malloc base limit n s1 ∧ heap s1 fr live ∧
    (∀ b, b ∈ live → untouched b (um s) (um s1))) as (s1 & fr & -> & Hh & Hun).
  { destruct Hok as [(Hf & -> & Hb)|(fr & Hh)]; [|by exists s, fr]. exists (started s), [].
    split; [by apply malloc_started|]. split; [by apply started_heap|]. intros b Hb'. by apply elem_of_nil in Hb'. }
  assert (freep s1 ≠ 0) as Hnz.
  { destruct Hh as [[_ Hg [k Hf] _] _ _ _]. apply elem_of_cons in Hf as [[= -> _]|Hf]; [lia|]. destruct (good_elem _ _ _ _ Hg Hf). simpl in *. lia. }
  assert (malloc base limit n s1 = malloc_loop limit (S (S (Z.to_nat (2 * limit)))) (units n) (freep s1) (load32 (um s1) (freep s1)) s1) as ->.
  { unfold malloc. rewrite (bind_ok (gets _) _ _ _ _ eq_refl), (proj2 (Z.eqb_neq _ _) Hnz), (bind_ok (mret (freep s1)) _ _ _ _ eq_refl).
    unfold get_ptr at 1. rewrite (bind_ok (gets _) _ _ _ _ eq_refl), (bind_ok (gets _) _ _ _ _ eq_refl). done. }
  destruct (units_range n Hn) as [Hu _].
  destruct (malloc_loop_spec s1 fr (units n) (hp_free _ _ _ Hh) Hu) as [(s' & -> & ->)|(a & s' & fr' & -> & Hgv)].
  - exists 0, s1. split; [done|]. split; [done|]. left. split; [done|]. right. by exists fr.
  - destruct (gave_heap _ _ _ _ _ _ _ Hh Hgv) as [Hh' Hun']. exists (a + 8), s'. split; [done|]. split.
    + intros b Hb z Hz. rewrite (Hun' b Hb z Hz). exact (Hun b Hb z Hz).
    + right. destruct (iu_range _ _ _ (gv_block _ _ _ _ _ _ Hgv)) as (Ha & _). simpl in Ha. split; [lia|]. right. exists fr'.
      by rewrite Z.add_simpl_r.
Qed.

Lemma free_heap s l1 b l2 : heap_ok s (l1 ++ b :: l2) →
  ∃ s', free (b.1 + 8) s = Ok (tt, s') ∧ heap_ok s' (l1 ++ l2) ∧ ∀ y, y ∈ l1 ++ l2 → untouched y (um s) (um s').
Proof.
  intros [(_ & E & _)|(fr & [H1 H2 H3 H4])]; [by destruct l1|].
  destruct (disjoint_remove _ _ _ H4) as [D1 D2].
  destruct (free_in_use s fr b H1) as (s' & fr' & E & Hfl & _ & _ & Hu); [apply H2; set_solver|apply H3; set_solver|].
  assert (∀ y, y ∈ l1 ++ l2 → in_use s' fr' y ∧ untouched y (um s) (um s')) as Hy.
  { intros y Hy. apply Hu; [apply H2; set_solver|by apply D2]. }
  exists s'. split; [done|]. split; [right; exists fr'; split|]; [done|by apply Hy| |done|by apply Hy].
  intros y Hyl. destruct (Hy y Hyl) as [_ Hun]. rewrite (untouched_size y (um s)); [apply H3; set_solver|done|].
  destruct (iu_range s fr y) as (_ & ? & _); [apply H2; set_solver|done].
Qed.

(** ** Programs *)

(** A program that allocates, frees what it has, and writes to its blocks
    behind their headers. *)
Inductive heap_step : ust * list block → ust * list block → Prop :=
| hs_malloc s live n r s' : 0 ≤ n ≤ 2 ^ 30 → malloc base limit n s = Ok (r, s') →
    heap_step (s, live) (s', if r =? 0 then live else (r - 8, units n) :: live)
| hs_free s l1 b l2 s' : free (b.1 + 8) s = Ok (tt, s') → heap_step (s, l1 ++ b :: l2) (s', l1 ++ l2)
| hs_write s live b m : b ∈ live → (∀ x, ¬ (b.1 + 8 ≤ x < fin b) → m x = um s x) → heap_step (s, live) (set_um m s, live).

Lemma write_heap s live b m : heap_ok s live → b ∈ live → (∀ x, ¬ (b.1 + 8 ≤ x < fin b) → m x = um s x) → heap_ok (set_um m s) live.
Proof.
  intros [(_ & -> & _)|(fr & [H1 H2 H3 H4])] Hb Hm; [by apply elem_of_nil in Hb|]. right. exists fr.
  destruct (H2 b Hb) as [(B1 & B2 & B3) B4].
  assert (∀ y, (∀ x, y ≤ x < y + 8 → ¬ (b.1 + 8 ≤ x < fin b)) → load32 m y = load32 (um s) y ∧ load32 m (y + 4) = load32 (um s) (y + 4)) as Hld.
  { intros y Hy. split; apply load32_ext; intros x Hx; apply Hm, Hy; lia. }
  destruct H1 as [F1 F2 F3 F4]. split; [split; try done|intros y Hy; destruct (H2 y Hy); by split| |done].
  - eapply seg_same; [|exact F1]. intros p n Hp. cbn [um set_um]. apply elem_of_cons in Hp as [[= -> ->]|Hp].
    + destruct (Hld base) as [-> ->]; [intros; lia|done].
    + destruct (Hld p) as [-> ->]; [|done]. intros x Hx. destruct (good_elem _ _ _ _ F2 Hp) as (_ & ? & _).
      destruct (B4 _ Hp); unfold fin in *; simpl in *; lia.
  - intros y Hy. rewrite <- (H3 y Hy). simpl. apply (Hld y.1). intros x Hx.
    destruct (decide (y = b)) as [->|Hne]; [lia|]. apply list_elem_of_split in Hb as (l1 & l2 & ->).
    destruct (disjoint_remove _ _ _ H4) as [_ D]. assert (y ∈ l1 ++ l2) as Hy' by set_solver.
    destruct (H2 y Hy) as [(_ & ? & _) _]. destruct (D y Hy'); unfold fin in *; lia.
Qed.

(** C7: the allocator of user programs.  Whatever a program allocates (up to
    2{^30} bytes at a time), frees and writes, its blocks are disjoint and
    inside the heap; [malloc] returns, and what it returns is null or a block
    large enough, apart from those in use; [free] of a block in use returns;
    and neither changes the contents of another block. *)
Theorem malloc_safe (s0 s : ust) (live : list block) : freep s0 = 0 → brk s0 = heap0 →
  rtc heap_step (s0, []) (s, live) →
  disjoint_blocks live ∧
  (∀ n, 0 ≤ n ≤ 2 ^ 30 → ∃ r s', malloc base limit n s = Ok (r, s') ∧ (∀ b, b ∈ live → untouched b (um s) (um s')) ∧
     (r ≠ 0 → heap0 < r ∧ r + n ≤ fin (r - 8, units n) ≤ brk s' ∧ ∀ b, b ∈ live → apart b (r - 8, units n))) ∧
  (∀ l1 b l2, live = l1 ++ b :: l2 → ∃ s', free (b.1 + 8) s = Ok (tt, s') ∧ ∀ y, y ∈ l1 ++ l2 → untouched y (um s) (um s')).
Proof.
  intros Hf Hb Hr. assert (heap_ok s live) as Hok.
  { assert (heap_ok s0 []) as H0 by (left; split; [done|split; [done|lia]]).
    remember (s0, []) as c0 eqn:E0. remember (s, live) as c eqn:Ec. 
    assert (heap_ok c0.1 c0.2) as Hi by (by subst c0). assert (heap_ok c.1 c.2); [|by subst c]. clear E0 Ec H0 Hf Hb.
    induction Hr as [c|c1 c2 c3 H12 _ IH]; [done|]. apply IH. clear IH.
    destruct H12 as [s1 l n r s2 Hn E|s1 l1 b l2 s2 E|s1 l b m Hb Hm]; simpl in *.
    - destruct (malloc_heap _ _ _ Hi Hn) as (r' & s' & E' & _ & Hc). rewrite E in E'. injection E' as <- <-.
      destruct Hc as [[-> Hc]|[Hnz Hc]]; [done|]. by rewrite (proj2 (Z.eqb_neq _ _) Hnz).
    - destruct (free_heap _ _ _ _ Hi) as (s' & E' & Hc & _). rewrite E in E'. by injection E' as <-.
    - by eapply write_heap. }
  split; [by destruct Hok as [(_ & -> & _)|(fr & [_ _ _ ?])]|]. split.
  - intros n Hn. destruct (malloc_heap _ _ _ Hok Hn) as (r & s' & E & Hun & Hc). exists r, s'. split; [done|]. split; [done|].
    intros Hnz. destruct Hc as [[? _]|[_ [(_ & ? & _)|(fr & [_ H2 _ [H4 _]])]]]; [done|done|].
    destruct (H2 (r - 8, units n) ltac:(set_solver)) as [(A & B & Cc) _]. destruct (units_range n Hn) as [_ Hu].
    unfold fin in *. simpl in *. split; [lia|]. split; [lia|]. done.
  - intros l1 b l2 ->. destruct (free_heap _ _ _ _ Hok) as (s' & E & _ & Hun). eauto.
Qed.
End heap.

(** A program with one block of 100 bytes. *)
Definition returned {A} (o : outcome (A * ust)) : option A := match o with Ok (a, _) => Some a | _ => None end.
Lemma returned_Some {A} (o : outcome (A * ust)) a : returned o = Some a → ∃ s, o = Ok (a, s).
Proof. destruct o as [[x s]| | |]; simpl; naive_solver. Qed.
Lemma first_malloc : ∃ s, malloc 4096 65536 100 demo0 = Ok (49048, s).
Proof. apply returned_Some. vm_compute. reflexivity. Qed.

Lemma malloc_safe_witness : ∃ s, malloc 4096 65536 100 demo0 = Ok (49048, s) ∧
  ∃ r s', malloc 4096 65536 100 s = Ok (r, s') ∧ untouched (49040, 14) (um s) (um s').
Proof.
  destruct first_malloc as (s & E). exists s. split; [exact E|].
  destruct (malloc_safe 4096 16384 65536 ltac:(lia) ltac:(lia) ltac:(lia) demo0 s [(49040, 14)] eq_refl eq_refl) as (_ & H & _).
  - apply rtc_once. exact (hs_malloc 4096 65536 demo0 [] 100 49048 s ltac:(lia) E).
  - destruct (H 100 ltac:(lia)) as (r & s' & E' & Hu & _). exists r, s'. split; [exact E'|]. apply Hu, list_elem_of_singleton. reflexivity.
Defined.
