(* ===== verification/Programs.v ===== *)
(** * Small user programs

    [wc.c], [cat.c], [echo.c], [ls.c], [kill.c], [rm.c], [mkdir.c], [ln.c],
    [history.c], [block.c] and [unblock.c], how [sh.c] reads commands and
    shows its history, and the loop in which [init.c] starts shells.  A program
    is a function from what its system calls return to the bytes it writes: an
    open file is the list of the buffers that [read] returns, call by call, and
    its last result, 0 at the end of the file or -1.  Output is [Out] of the bytes for
    descriptors 1 and 2 if the function returns, [Exit] if it ends the program.

    The theorems: [wc] counts the lines, words and characters of a file
    however [read] cuts it up, [cat] copies its files, [fmtname] of [ls] is
    the last element of a path padded with blanks, [ls] prints one line for
    each entry in use. *)

From S2P Require Import Prelude CString Block Fs FsBlock FsFile FsDir Ulib.

Inductive output := Out (o : list Z) | Exit (o : list Z).

(** The bytes written before [k]. *)
Definition then_ (a : output) (k : output) : output :=
  match a, k with
  | Out o, Out o' => Out (o ++ o')
  | Out o, Exit o' => Exit (o ++ o')
  | Exit o, _ => Exit o
  end.

(** [printf] with strings in place of their addresses 1, 2, ... *)
Definition cstr (tab : list (list Z)) (a : Z) : option (list Z) := tab !! Z.to_nat (a - 1).
Definition say (fmt : list Z) (tab : list (list Z)) (ap : list Z) : list Z := default [] (printf (cstr tab) fmt ap).

(** The results of the [read] calls on a descriptor. *)
Record ufile := UFile {
  chunks : list (list Z);
  final : Z
}.

(** Format strings: ["%d %d %d %s\n"], ["wc: read error\n"], and so on. *)
Definition ascii_list (s : string) : list Z := (λ a, Z.of_N (Ascii.N_of_ascii a)) <$> String.list_ascii_of_string s.
Definition nl : string := String (Ascii.ascii_of_nat 10) EmptyString.
Definition line (s : string) : list Z := ascii_list (s +:+ nl).

(** ** [wc] *)

(** [" \r\t\n\v"] *)
Definition blanks : list Z := [32; 13; 9; 10; 11].

Record wcst := WC { wl : Z; ww : Z; wch : Z; inword : bool }.

(** The body of the loop over the characters. *)
Definition wc_char (s : wcst) (ch : Z) : wcst :=
  let c := s32 (wch s + 1) in
  let l := if ch =? 10 then s32 (wl s + 1) else wl s in
  match strchr blanks ch with
  | Some _ => WC l (ww s) c false
  | None => if negb (inword s) then WC l (s32 (ww s + 1)) c true else WC l (ww s) c true
  end.
(** The loop over the reads. *)
Definition wc_reads (bufs : list (list Z)) : wcst := foldl (foldl wc_char) (WC 0 0 0 false) bufs.

Definition wc (f : ufile) (name : list Z) : output :=
  let s := wc_reads (chunks f) in
  if final f <? 0 then Exit (line "wc: read error")
  else Out (say (line "%d %d %d %s") [name] [wl s; ww s; wch s; 1]).

Fixpoint wc_files (args : list (list Z * option ufile)) : output :=
  match args with
  | [] => Exit []
  | (name, None) :: _ => Exit (say (line "wc: cannot open %s") [name] [1])
  | (name, Some f) :: args' => then_ (wc f name) (wc_files args')
  end.
Definition wc_main (stdin : ufile) (args : list (list Z * option ufile)) : output :=
  match args with
  | [] => then_ (wc stdin []) (Exit [])
  | _ => wc_files args
  end.

(** ** [cat] *)

(** [write b] is what [write] returns for the bytes [b]: how many it wrote, or
    -1. *)
Fixpoint cat_loop (write : list Z → Z) (bufs : list (list Z)) (last : Z) : output :=
  match bufs with
  | [] => if last <? 0 then Exit (line "cat: read error") else Out []
  | b :: bufs' =>
      if write b =? Z.of_nat (length b) then then_ (Out b) (cat_loop write bufs' last)
      else Exit (take (Z.to_nat (write b)) b ++ line "cat: write error")
  end.
Definition cat (write : list Z → Z) (f : ufile) : output := cat_loop write (chunks f) (final f).

Fixpoint cat_files (write : list Z → Z) (args : list (list Z * option ufile)) : output :=
  match args with
  | [] => Exit []
  | (name, None) :: _ => Exit (say (line "cat: cannot open %s") [name] [1])
  | (name, Some f) :: args' => then_ (cat write f) (cat_files write args')
  end.
Definition cat_main (write : list Z → Z) (stdin : ufile) (args : list (list Z * option ufile)) : output :=
  match args with
  | [] => then_ (cat write stdin) (Exit [])
  | _ => cat_files write args
  end.

(** ** [echo] *)

Fixpoint echo (args : list (list Z)) : list Z :=
  match args with
  | [] => []
  | a :: args' =>
      say (ascii_list "%s%s") [a; match args' with [] => [10] | _ => [32] end] [1; 2] ++ echo args'
  end.

(** ** [ls] *)

(** The loop of [fmtname] from [i] characters into the path: the index of the
    first character after the last slash at or before [i]. *)
Fixpoint after_slash (path : list Z) (i : nat) : nat :=
  if bool_decide (path !! i = Some slash) then S i
  else match i with O => O | S i' => after_slash path i' end.
Definition fmtname (path : list Z) : list Z :=
  let p := drop (after_slash path (length path)) path in
  if (Z.to_nat DIRSIZ <=? length p)%nat then p
  else p ++ replicate (Z.to_nat DIRSIZ - length p) 32.

(** What [fstat] and [stat] say of a file. *)
Record ustat := UStat { us_type : Z; us_ino : Z; us_size : Z }.

Definition ls_line (path : list Z) (st : ustat) : list Z :=
  say (line "%s %d %d %d") [fmtname path] [1; us_type st; us_ino st; us_size st].

(** The loop over the entries of a directory; [stat] as the kernel answers. *)
Fixpoint ls_entries (stat : list Z → option ustat) (path : list Z) (des : list (list Z)) : list Z :=
  match des with
  | [] => []
  | de :: des' =>
      if de_inum de =? 0 then ls_entries stat path des'
      else
        let buf := path ++ [slash] ++ cut (de_name de) in
        match stat buf with
        | None => say (line "ls: cannot stat %s") [buf] [1]
        | Some st => ls_line buf st
        end ++ ls_entries stat path des'
  end.

(** [ls]; an open directory is what [fstat] returns and its entries. *)
Definition ls (open : list Z → option (option ustat * list (list Z))) (stat : list Z → option ustat) (path : list Z) : list Z :=
  match open path with
  | None => say (line "ls: cannot open %s") [path] [1]
  | Some (None, _) => say (line "ls: cannot stat %s") [path] [1]
  | Some (Some st, des) =>
      if us_type st =? T_FILE then ls_line path st
      else if us_type st =? T_DIR then
        if 512 <? Z.of_nat (length path) + 1 + DIRSIZ + 1 then line "ls: path too long"
        else ls_entries stat path des
      else []
  end.
Definition ls_main open stat (args : list (list Z)) : list Z :=
  match args with
  | [] => ls open stat [46]
  | _ => concat (ls open stat <$> args)
  end.

(** ** Programs around one system call *)

(** The calls a program makes and the bytes it writes. *)
Inductive ucall := UKill (pid : Z) | UUnlink (path : list Z) | UMkdir (path : list Z) | ULink (old new : list Z)
| UBlock (id : Z) | UUnblock (id : Z).

(** [kill]; [None] where [atoi] overflows. *)
Definition kill_main (args : list (list Z)) : option (list ucall * list Z) :=
  match args with
  | [] => Some ([], line "usage: kill pid...")
  | _ => pids ← mapM atoi args; Some (UKill <$> pids, [])
  end.

(** The loop of [rm] and [mkdir]: it stops at the first call that fails. *)
Fixpoint until_failure (call : list Z → ucall) (result : ucall → Z) (msg : string) (args : list (list Z)) : list ucall * list Z :=
  match args with
  | [] => ([], [])
  | a :: args' =>
      if result (call a) <? 0 then ([call a], say (line msg) [a] [1])
      else let '(cs, o) := until_failure call result msg args' in (call a :: cs, o)
  end.
Definition rm_main (result : ucall → Z) (args : list (list Z)) : list ucall * list Z :=
  match args with
  | [] => ([], line "Usage: rm files...")
  | _ => until_failure UUnlink result "rm: %s failed to delete" args
  end.
Definition mkdir_main (result : ucall → Z) (args : list (list Z)) : list ucall * list Z :=
  match args with
  | [] => ([], line "Usage: mkdir files...")
  | _ => until_failure UMkdir result "mkdir: %s failed to create" args
  end.
Definition ln_main (result : ucall → Z) (args : list (list Z)) : list ucall * list Z :=
  match args with
  | [old; new] => ([ULink old new], if result (ULink old new) <? 0 then say (line "link %s %s: failed") [old; new] [1; 2] else [])
  | _ => ([], line "Usage: ln old new")
  end.

(** [block] and [unblock] *)
Definition block_main (result : ucall → Z) (args : list (list Z)) : option (list ucall * list Z) :=
  match args with
  | [a] =>
      id ← atoi a;
      Some ([UBlock id], if result (UBlock id) <? 0 then say (line "Failed to block syscall %d") [] [id] else [])
  | _ => Some ([], line "Usage: block <syscall_id>")
  end.
Definition unblock_main (result : ucall → Z) (args : list (list Z)) : option (list ucall * list Z) :=
  match args with
  | [a] =>
      id ← atoi a;
      Some ([UUnblock id], if result (UUnblock id) <? 0 then say (line "Failed to unblock syscall %d") [] [id] else [])
  | _ => Some ([], line "Usage: unblock <syscall_id>")
  end.

(** [history]: the entries [gethistory] returned; [None] if it failed. *)
Definition history_line (h : Z * list Z * Z) : list Z :=
  let '(pid, name, mem) := h in say (ascii_list ("%d" +:+ String (Ascii.ascii_of_nat 9) EmptyString +:+ "%s" +:+
    String (Ascii.ascii_of_nat 9) EmptyString +:+ "%d" +:+ nl)) [name] [pid; 1; mem].
Definition history_main (hist : option (list (Z * list Z * Z))) : list Z :=
  match hist with
  | None => []
  | Some l => concat (history_line <$> filter (λ h, h.1.2 ≠ ascii_list "sh") l)
  end.

(** ** Reading commands in the shell *)

(** [history_command] of [sh.c]. *)
Definition sh_history_line (h : Z * list Z * Z) : list Z :=
  let '(pid, name, mem) := h in say (line "%d %s %d") [name] [pid; 1; mem].
Definition history_command (hist : option (list (Z * list Z * Z))) : list Z :=
  match hist with
  | None => []
  | Some l => concat (sh_history_line <$> l)
  end.

(** [getcmd]: the prompt, the line in [buf] ([None] for -1) and the input left. *)
Definition getcmd (input : list Z) (nbuf : Z) : list Z * option (list Z) * list Z :=
  let '(l, rest) := gets input nbuf in
  (ascii_list "$ ", match l with [] => None | c :: _ => if c =? 0 then None else Some l end, rest).

(** The loop that opens the console: [open] returns the lowest free
    descriptor; the number of descriptors open at the end. *)
Fixpoint open_console (n : nat) (open : nat → option nat) (fds : nat) : nat :=
  match n with
  | O => fds
  | S n' =>
      match open fds with
      | None => fds
      | Some fd => if (3 <=? fd)%nat then fds else open_console n' open (S fds)
      end
  end.

(** ** [init] after the login *)

(** The loop around [wait], for the shell [pid]: what it prints, and the
    results of [wait] after the loop, [None] if it sleeps in [wait]. *)
Fixpoint init_wait (pid : Z) (waits : list Z) : list Z * option (list Z) :=
  match waits with
  | [] => ([], None)
  | wpid :: waits' =>
      if (0 <=? wpid) && negb (wpid =? pid)
      then let '(o, r) := init_wait pid waits' in (line "zombie!" ++ o, r)
      else ([], Some waits')
  end.
(** The loop that starts shells, with the results of [fork] and [wait]; [exec]
    returns to the child only when it failed. *)
Fixpoint init_shell (forks waits : list Z) : output :=
  match forks with
  | [] => Out []
  | pid :: forks' =>
      if pid <? 0 then Exit (line "init: fork failed")
      else if pid =? 0 then Exit (line "init: exec sh failed")
      else match init_wait pid waits with
           | (o, None) => Out o
           | (o, Some waits') => then_ (Out o) (init_shell forks' waits')
           end
  end.

(** ** [wc] counts *)

(** The words of a text: the maximal pieces without blanks. *)
Definition blank (c : Z) : bool := bool_decide (c ∈ blanks).
Fixpoint split_words (t : list Z) : list (list Z) :=
  match t with
  | [] => [[]]
  | c :: t' =>
      match split_words t' with
      | w :: ws => if blank c then [] :: w :: ws else (c :: w) :: ws
      | [] => []
      end
  end.
Definition words (t : list Z) : list (list Z) := filter (λ w, w ≠ []) (split_words t).
Definition newlines (t : list Z) : list Z := filter (λ c, c = 10) t.

Lemma strchr_blank c : is_Some (strchr blanks c) ↔ blank c = true.
Proof.
  unfold blank, blanks. rewrite bool_decide_eq_true. induction [32; 13; 9; 10; 11] as [|x l IH]; simpl.
  - split; [by intros []|by intros ?%not_elem_of_nil].
  - rewrite elem_of_cons. destruct (Z.eqb_spec x c) as [->|Hne]; [split; [by left|eauto]|]. rewrite IH. split; [by right|].
    intros [->|?]; done.
Qed.

Lemma split_words_cons t : ∃ w ws, split_words t = w :: ws.
Proof. induction t as [|c t (w & ws & E)]; simpl; [eauto|]. rewrite E. destruct (blank c); eauto. Qed.

(** The words that begin in [t], when a word is or is not under way. *)
Definition new_words (inword : bool) (t : list Z) : Z :=
  Z.of_nat (length (words t)) - (if inword && negb (bool_decide (head (split_words t) = Some [])) then 1 else 0).

Lemma new_words_cons b c t : new_words b (c :: t) =
  if blank c then new_words false t else (if b then 0 else 1) + new_words true t.
Proof.
  unfold new_words, words. simpl. destruct (split_words_cons t) as (w & ws & E). rewrite E. destruct (blank c).
  - rewrite filter_cons_False by auto. simpl. rewrite andb_false_r. lia.
  - rewrite filter_cons_True by done. simpl. destruct (decide (w = [])) as [->|Hw].
    + rewrite filter_cons_False by auto. simpl. rewrite andb_true_r. destruct b; lia.
    + rewrite filter_cons_True by done. rewrite bool_decide_eq_false_2 by congruence. destruct b; simpl; lia.
Qed.

Lemma wc_chars t s : 0 ≤ wl s → 0 ≤ ww s → 0 ≤ wch s → ww s ≤ wch s → wl s ≤ wch s → wch s + Z.of_nat (length t) < 2 ^ 31 →
  let s' := foldl wc_char s t in
  wl s' = wl s + Z.of_nat (length (newlines t)) ∧ ww s' = ww s + new_words (inword s) t ∧ wch s' = wch s + Z.of_nat (length t).
Proof.
  revert s. induction t as [|c t IH]; intros s H1 H2 H3 H4 H5 Hl; cbv zeta; simpl foldl.
  { unfold new_words. simpl. destruct (inword s); simpl; lia. }
  simpl length in Hl. pose proof (strchr_blank c) as Hb. rewrite new_words_cons. unfold newlines. rewrite filter_cons.
  assert (∀ x, 0 ≤ x → x < 2 ^ 31 - 1 → s32 (x + 1) = x + 1) as Hs by (intros x ??; apply s32_small; lia).
  set (s1 := wc_char s c).
  assert (wl s1 = (if decide (c = 10) then wl s + 1 else wl s) ∧ wch s1 = wch s + 1 ∧
    ww s1 = (if blank c then ww s else ww s + (if inword s then 0 else 1)) ∧ inword s1 = negb (blank c)) as (E1 & E2 & E3 & E4).
  { unfold s1, wc_char. rewrite (Hs (wch s)) by lia.
    assert ((if c =? 10 then s32 (wl s + 1) else wl s) = (if decide (c = 10) then wl s + 1 else wl s)) as ->.
    { destruct (Z.eqb_spec c 10), (decide (c = 10)); try done. apply Hs; lia. }
    destruct (strchr blanks c) as [r|], (blank c); try (exfalso; destruct Hb as [Hb1 Hb2]; (destruct Hb2; done) || (by specialize (Hb1 ltac:(eauto))));
      [done|]. destruct (inword s); simpl; [split; [done|split; [done|lia]]|]. rewrite Hs by lia. done. }
  assert (0 ≤ wl s1 ∧ wl s1 ≤ wch s1 ∧ 0 ≤ ww s1 ∧ ww s1 ≤ wch s1) as (J1 & J2 & J3 & J4)
    by (rewrite E1, E2, E3; destruct (decide (c = 10)), (blank c), (inword s); lia).
  destruct (IH s1) as (I1 & I2 & I3); try lia. rewrite I1, I2, I3, E1, E2, E3, E4. split; [|split].
  - destruct (decide (c = 10)); simpl length; unfold newlines; lia.
  - destruct (blank c); [done|]. simpl negb. lia.
  - simpl length. lia.
Qed.

Lemma wc_reads_concat bufs : wc_reads bufs = foldl wc_char (WC 0 0 0 false) (concat bufs).
Proof.
  unfold wc_reads. generalize (WC 0 0 0 false). induction bufs as [|b bufs IH]; intros s; simpl; [done|].
  by rewrite foldl_app, IH.
Qed.

(** [wc] counts.  For every file of less than 2^31 bytes, however [read]
    cuts it into buffers, the line printed has the number of its newlines, of
    its words (maximal runs of characters that are not blanks) and of its
    characters, and the name. *)
Theorem wc_counts (f : ufile) (name : list Z) : let t := concat (chunks f) in final f = 0 → Z.of_nat (length t) < 2 ^ 31 →
  wc f name = Out (say (line "%d %d %d %s") [name]
    [Z.of_nat (length (newlines t)); Z.of_nat (length (words t)); Z.of_nat (length t); 1]).
Proof.
  intros t Hf Hl. unfold wc. rewrite Hf. cbn [Z.ltb Z.compare]. rewrite wc_reads_concat. fold t.
  destruct (wc_chars t (WC 0 0 0 false)) as (-> & -> & ->); simpl; try lia. unfold new_words. simpl. by rewrite Z.sub_0_r.
Qed.

(** Two words on a line and part of a third, read in two pieces. *)
Lemma wc_counts_witness : wc (UFile [[97; 98; 32; 99]; [100; 10; 101]] 0) [102] = Out (line "1 3 7 f").
Proof. apply (wc_counts (UFile [[97; 98; 32; 99]; [100; 10; 101]] 0) [102] eq_refl eq_refl). Defined.

(** ** [cat] copies *)

Lemma cat_loop_copies write bufs : Forall (λ b, write b = Z.of_nat (length b)) bufs → cat_loop write bufs 0 = Out (concat bufs).
Proof. induction 1 as [|b bufs Hb _ IH]; simpl; [done|]. by rewrite Hb, Z.eqb_refl, IH. Qed.

Definition opened (a : list Z * ufile) : list Z * option ufile := (a.1, Some a.2).

(** With files that can be opened and read, and a descriptor that takes what is
    written, [cat] writes the files one after the other. *)
Theorem cat_copies write stdin (args : list (list Z * ufile)) : args ≠ [] →
  Forall (λ a, final a.2 = 0 ∧ Forall (λ b, write b = Z.of_nat (length b)) (chunks a.2)) args →
  cat_main write stdin (opened <$> args) = Exit (concat ((λ a, concat (chunks a.2)) <$> args)).
Proof.
  intros Hne H. assert (cat_files write (opened <$> args) = Exit (concat ((λ a, concat (chunks a.2)) <$> args))) as E.
  { clear Hne. induction H as [|[n f] args [Hf Hb] _ IH]; [done|]. rewrite !fmap_cons. cbn [cat_files opened fst snd concat].
    rewrite IH. unfold cat. simpl in Hf, Hb. by rewrite Hf, cat_loop_copies. }
  rewrite <- E. by destruct args.
Qed.

(** ** [ls] *)

(** The last element of a path: what follows its last slash. *)
Definition path_tail (path : list Z) : list Z := List.last (split_slash path) [].

Lemma after_slash_spec path i : (i ≤ length path)%nat →
  (after_slash path i = 0%nat ∧ ∀ j, (j ≤ i)%nat → path !! j ≠ Some slash) ∨
  (∃ k, after_slash path i = S k ∧ (k ≤ i)%nat ∧ path !! k = Some slash ∧ ∀ j, (k < j ≤ i)%nat → path !! j ≠ Some slash).
Proof.
  induction i as [|i IH]; intros Hi; cbn [after_slash];
    [destruct (decide (path !! 0%nat = Some slash)) as [E|E]|destruct (decide (path !! S i = Some slash)) as [E|E]].
  - rewrite bool_decide_eq_true_2 by done. right. exists 0%nat. split; [done|]. split; [done|]. split; [done|]. intros; lia.
  - rewrite bool_decide_eq_false_2 by done. left. split; [done|]. intros j Hj. by replace j with 0%nat by lia.
  - rewrite bool_decide_eq_true_2 by done. right. exists (S i). split; [done|]. split; [done|]. split; [done|]. intros; lia.
  - rewrite bool_decide_eq_false_2 by done. destruct (IH ltac:(lia)) as [[H1 H2]|(k & H1 & H2 & H3 & H4)]; [left|right].
    + split; [done|]. intros j Hj. destruct (decide (j = S i)) as [->|]; [done|]. apply H2. lia.
    + exists k. split; [done|]. split; [lia|]. split; [done|]. intros j Hj. destruct (decide (j = S i)) as [->|]; [done|]. apply H4. lia.
Qed.

Lemma split_slash_plain e : (slash ∉ e) → split_slash e = [e].
Proof.
  induction e as [|c e IH]; intros H; [done|]. apply not_elem_of_cons in H as [Hc H]. simpl.
  rewrite (proj2 (Z.eqb_neq c slash)) by done. by rewrite IH.
Qed.
Lemma split_slash_app d e : split_slash (d ++ slash :: e) = split_slash d ++ split_slash e.
Proof.
  induction d as [|c d IH]; [done|]. cbn [app split_slash]. rewrite IH. destruct (c =? slash); [done|].
  destruct (split_slash d) as [|x xs] eqn:E; [|done]. destruct d as [|y d]; [done|]. simpl in E.
  destruct (y =? slash); [done|]. by destruct (split_slash d).
Qed.

Lemma drop_after_slash path : drop (after_slash path (length path)) path = path_tail path.
Proof.
  unfold path_tail. destruct (after_slash_spec path (length path) ltac:(done)) as [[-> H]|(k & -> & Hk & Hs & H)].
  - rewrite drop_0, split_slash_plain; [done|]. intros [j Hj]%list_elem_of_lookup. apply (H j); [|done].
    apply lookup_lt_Some in Hj. lia.
  - rewrite <- (take_drop_middle path k slash Hs) at 2. rewrite split_slash_app, (split_slash_plain (drop (S k) path)); [by rewrite last_last|].
    intros [j Hj]%list_elem_of_lookup. rewrite lookup_drop in Hj. apply (H (S k + j)%nat); [|done].
    apply lookup_lt_Some in Hj. lia.
Qed.

(** [fmtname] is the last element of the path, padded to 14 characters. *)
Theorem fmtname_spec path : fmtname path = path_tail path ++ replicate (14 - length (path_tail path)) 32.
Proof.
  unfold fmtname. rewrite drop_after_slash. change (Z.to_nat DIRSIZ) with 14%nat.
  destruct (Nat.leb_spec 14 (length (path_tail path))) as [Hl|Hl]; [|done].
  by rewrite (proj2 (Nat.sub_0_le _ _) Hl), app_nil_r.
Qed.

(** [ls] of a directory prints a line for each entry in use, in order, with
    the entry's name and what [stat] says of it. *)
Theorem ls_lists open stat path st des (sts : list Z → ustat) : open path = Some (Some st, des) → us_type st = T_DIR →
  (length path ≤ 496)%nat → (∀ buf, stat buf = Some (sts buf)) →
  ls open stat path = concat ((λ de, let buf := path ++ [slash] ++ cut (de_name de) in ls_line buf (sts buf)) <$>
    filter (λ de, de_inum de ≠ 0) des).
Proof.
  intros Ho Ht Hl Hs. unfold ls. rewrite Ho, Ht. change (T_DIR =? T_FILE) with false. rewrite Z.eqb_refl.
  destruct (Z.ltb_spec 512 (Z.of_nat (length path) + 1 + DIRSIZ + 1)) as [Hx|_]; [unfold DIRSIZ in Hx; lia|].
  clear Ho. induction des as [|de des IH]; [done|]. cbn [ls_entries]. destruct (Z.eqb_spec (de_inum de) 0) as [E|E].
  - rewrite filter_cons_False by auto. exact IH.
  - rewrite filter_cons_True by done. rewrite fmap_cons. cbn [concat]. cbv zeta. rewrite Hs. f_equal. exact IH.
Qed.

(** [getcmd] takes one line at a time. *)
Theorem getcmd_line (l rest : list Z) nbuf : Forall (λ c, c ≠ 0 ∧ c ≠ 10 ∧ c ≠ 13) l → Z.of_nat (length l) + 2 ≤ nbuf →
  getcmd (l ++ 10 :: rest) nbuf = (ascii_list "$ ", Some (l ++ [10]), rest).
Proof.
  intros Hf Hn. unfold getcmd, gets. assert (gets_loop (l ++ 10 :: rest) (Z.to_nat (nbuf - 1)) = (l ++ [10], rest)) as ->.
  { assert (length l < Z.to_nat (nbuf - 1))%nat as Hr by lia. clear Hn. revert Hr. generalize (Z.to_nat (nbuf - 1)) as r.
    induction Hf as [|c l (H0 & H1 & H2) _ IH]; intros [|r] Hr; simpl in Hr |- *; try lia; [done|].
    rewrite (proj2 (Z.eqb_neq c 10)), (proj2 (Z.eqb_neq c 13)) by done. cbn [orb]. by rewrite (IH r) by lia. }
  destruct Hf as [|c l (H0 & _) _]; [done|]. cbn [app]. by rewrite (proj2 (Z.eqb_neq c 0)).
Qed.
(** With descriptors given out from the lowest the shell ends up with three. *)
Theorem open_console_three fds n : (fds ≤ 3)%nat → (3 - fds < n)%nat → open_console n Some fds = 3%nat.
Proof.
  intros Hf Hn. revert fds Hf Hn. induction n as [|n IH]; intros fds Hf Hn; [lia|]. cbn [open_console].
  destruct (Nat.leb_spec 3 fds); [lia|]. apply IH; lia.
Qed.

Lemma mjoin_cons (l : list Z) ls : mjoin (l :: ls) = l ++ mjoin ls.
Proof. done. Qed.
(** [init] starts a shell again exactly when [wait] has returned the one it
    started, and prints one line for each orphan it has reaped in between.  A
    session is the pid of its shell with the orphans that end before it. *)
Theorem init_restarts_shell (sessions : list (Z * list Z)) :
  Forall (λ s, 0 < s.1 ∧ Forall (λ w, 0 <= w ∧ w ≠ s.1) s.2) sessions →
  init_shell (fst <$> sessions) (mjoin ((λ s, s.2 ++ [s.1]) <$> sessions)) =
    Out (mjoin ((λ s, mjoin (replicate (length s.2) (line "zombie!"))) <$> sessions)).
Proof.
  assert (∀ pid ws rest, Forall (λ w, 0 <= w ∧ w ≠ pid) ws →
    init_wait pid (ws ++ pid :: rest) = (mjoin (replicate (length ws) (line "zombie!")), Some rest)) as Hw.
  { intros pid ws rest. induction 1 as [|w ws [Hw0 Hne] _ IH]; cbn [init_wait app].
    - by rewrite Z.eqb_refl, andb_false_r.
    - rewrite (proj2 (Z.leb_le 0 w) Hw0), (proj2 (Z.eqb_neq w pid) Hne). cbn [andb negb]. by rewrite IH. }
  induction 1 as [|[pid ws] ss [Hp Hws] _ IH]; [done|]. cbn [fst snd] in *.
  rewrite !fmap_cons. cbn [init_shell fst snd]. rewrite !mjoin_cons.
  rewrite (proj2 (Z.ltb_ge pid 0)), (proj2 (Z.eqb_neq pid 0)) by lia.
  cbn [snd]. rewrite <- app_assoc. cbn [app]. rewrite Hw by done. by rewrite IH.
Qed.
(** While the shell runs [init] sleeps in [wait], whatever other children end. *)
Theorem init_waits_for_shell pid ws forks : 0 < pid → Forall (λ w, 0 <= w ∧ w ≠ pid) ws →
  init_shell (pid :: forks) ws = Out (mjoin (replicate (length ws) (line "zombie!"))).
Proof.
  intros Hp Hws. cbn [init_shell]. rewrite (proj2 (Z.ltb_ge pid 0)), (proj2 (Z.eqb_neq pid 0)) by lia.
  enough (init_wait pid ws = (mjoin (replicate (length ws) (line "zombie!")), None)) as -> by done.
  induction Hws as [|w ws [Hw0 Hne] _ IH]; [done|]. cbn [init_wait].
  rewrite (proj2 (Z.leb_le 0 w) Hw0), (proj2 (Z.eqb_neq w pid) Hne). cbn [andb negb]. by rewrite IH.
Qed.
