(* ===== verification/Grep.v ===== *)
(** * [grep]

    Models [grep.c]: the regular expression matcher of Kernighan and Pike, the
    loop over the lines of the input, and the loop over the files.

    The theorems: the matcher agrees with a reference semantics of patterns
    (a list of items, each matching a piece of the text), the loop prints
    exactly the matching lines of a regular file whose lines fit in the
    buffer, and on short reads it loses a line. *)

From S2P Require Import Prelude Programs.

(** ** The matcher *)

(** The loop of [matchstar]; [mh] is [matchhere] of the rest of the pattern. *)
Fixpoint matchstar (c : Z) (mh : list Z → bool) (text : list Z) : bool :=
  match text with
  | [] => mh []
  | t :: text' => mh text || (((t =? c) || (c =? 46)) && matchstar c mh text')
  end.

Fixpoint matchhere (re text : list Z) : bool :=
  match re with
  | [] => true
  | r0 :: re1 =>
      let rest :=
        if (r0 =? 36) && bool_decide (re1 = []) then bool_decide (text = [])
        else match text with
             | t :: text' => ((r0 =? 46) || (r0 =? t)) && matchhere re1 text'
             | [] => false
             end in
      match re1 with
      | r1 :: re2 => if r1 =? 42 then matchstar r0 (matchhere re2) text else rest
      | [] => rest
      end
  end.

(** The loop of [match]. *)
Fixpoint match_loop (re text : list Z) : bool :=
  matchhere re text ||
  match text with
  | [] => false
  | _ :: text' => match_loop re text'
  end.
Definition match_ (re text : list Z) : bool :=
  match re with
  | r0 :: re' => if r0 =? 94 then matchhere re' text else match_loop re text
  | [] => match_loop re text
  end.

(** ** The loop over the input *)

(** [strchr(p, '\n')]: the line before it and what follows it; a 0 ends the
    string. *)
Fixpoint next_line (p : list Z) : option (list Z * list Z) :=
  match p with
  | [] => None
  | c :: p' =>
      if c =? 10 then Some ([], p') else
      if c =? 0 then None else
      (λ lr : list Z * list Z, (c :: lr.1, lr.2)) <$> next_line p'
  end.

(** The inner loop: what is written, and [p] at its end. *)
Fixpoint scan_lines (fuel : nat) (pattern p : list Z) : list (list Z) * list Z :=
  match fuel with
  | O => ([], p)
  | S fuel' =>
      match next_line p with
      | None => ([], p)
      | Some (l, p') =>
          let '(out, p'') := scan_lines fuel' pattern p' in
          ((if match_ pattern l then [l ++ [10]] else []) ++ out, p'')
      end
  end.

Section grep.
(** The [i]-th [read] has [avail i] bytes at hand. *)
Context (avail : nat → nat).

(** [sizeof(buf)] is 1024.  [kept] are the first [m] bytes of [buf], [src]
    is the input not yet read. *)
Fixpoint grep_loop (fuel : nat) (pattern : list Z) (i : nat) (kept src : list Z) : option (list (list Z)) :=
  match fuel with
  | O => None
  | S fuel' =>
      let n := Nat.min (avail i) (Nat.min (1024 - length kept - 1) (length src)) in
      if (n =? 0)%nat then Some [] else
      let buf := kept ++ take n src in
      let '(out, p) := scan_lines (length buf) pattern buf in
      let kept' := if bool_decide (p = buf) then [] else p in
      (out ++.) <$> grep_loop fuel' pattern (S i) kept' (drop n src)
  end.
Definition grep (pattern src : list Z) : option (list (list Z)) :=
  grep_loop (S (length src)) pattern 0 [] src.
End grep.

(** A regular file: a read returns what was asked for while there is data. *)
Definition regular (i : nat) : nat := 1024.

(** ** [main] *)

(** An open file: what each read has at hand, and its bytes. *)
Definition gfile : Type := (nat → nat) * list Z.
(** The loop over the file arguments. *)
Fixpoint grep_files (pattern : list Z) (args : list (list Z * option gfile)) : option output :=
  match args with
  | [] => Some (Exit [])
  | (name, None) :: _ => Some (Exit (say (line "grep: cannot open %s") [name] [1]))
  | (_, Some (avail, src)) :: args' =>
      out ← grep avail pattern src;
      rest ← grep_files pattern args';
      Some (then_ (Out (mjoin out)) rest)
  end.
(** [args] are the arguments after the program's name; those after the pattern
    come with the files they open, if they do. *)
Definition grep_main (stdin : gfile) (args : option (list Z * list (list Z * option gfile))) : option output :=
  match args with
  | None => Some (Exit (line "usage: grep pattern [file ...]"))
  | Some (pattern, []) => out ← grep stdin.1 pattern stdin.2; Some (Exit (mjoin out))
  | Some (pattern, files) => grep_files pattern files
  end.

(** ** What a pattern means *)

Inductive item := Lit (c : Z) | Star (c : Z) | Eol.

(** The items of a pattern after an optional [^]: a [$] that ends it, a
    character with a star, a character. *)
Fixpoint items (re : list Z) : list item :=
  match re with
  | [] => []
  | c :: re1 =>
      match re1 with
      | r1 :: re2 => if r1 =? 42 then Star c :: items re2 else Lit c :: items re1
      | [] => if c =? 36 then [Eol] else [Lit c]
      end
  end.

(** A pattern character and a character of the text. *)
Definition char_ok (c x : Z) : Prop := c = 46 ∨ c = x.

Definition item_matches (it : item) (w : list Z) : Prop :=
  match it with
  | Lit c => ∃ x, w = [x] ∧ char_ok c x
  | Star c => Forall (char_ok c) w
  | Eol => w = []
  end.

(** The text starts with pieces that match the items one by one, and a [$]
    leaves nothing behind them. *)
Definition starts (re text : list Z) : Prop :=
  ∃ ws rest, text = concat ws ++ rest ∧ Forall2 item_matches (items re) ws ∧ (Eol ∈ items re → rest = []).
Definition matches (re text : list Z) : Prop :=
  match re with
  | 94 :: re' => starts re' text
  | _ => ∃ pre suf, text = pre ++ suf ∧ starts re suf
  end.

Lemma matchstar_true c mh text : matchstar c mh text = true ↔
  ∃ w suf, text = w ++ suf ∧ Forall (char_ok c) w ∧ mh suf = true.
Proof.
  induction text as [|t text IH]; simpl.
  - split; [intros H; by exists [], []|]. by intros ([|] & suf & [= <-] & _ & H).
  - rewrite orb_true_iff, andb_true_iff, orb_true_iff, IH, !Z.eqb_eq. split.
    + intros [H|[Hc (w & suf & -> & Hw & H)]]; [by exists [], (t :: text)|].
      exists (t :: w), suf. repeat split; [|done]. constructor; [|done].
      unfold char_ok. destruct Hc; [right; congruence|by left].
    + intros ([|x w] & suf & E & Hw & H); simpl in E; [left; by subst|].
      injection E as -> ->. apply Forall_cons in Hw as [Hx Hw]. right.
      split; [|by exists w, suf]. destruct Hx; [by right|left; congruence].
Qed.

(** One item at a time. *)
Lemma starts_star c re text :
  starts (c :: 42 :: re) text ↔ ∃ w suf, text = w ++ suf ∧ Forall (char_ok c) w ∧ starts re suf.
Proof.
  unfold starts. simpl. split.
  - intros (ws & rest & -> & (w & ws' & Hw & Hf & ->)%Forall2_cons_inv_l & He). simpl in *.
    exists w, (concat ws' ++ rest). rewrite app_assoc. repeat split; auto.
    exists ws', rest. repeat split; auto. intros HE. apply He. by right.
  - intros (w & suf & -> & Hw & ws & rest & -> & Hf & He). exists (w :: ws), rest. simpl.
    rewrite app_assoc. repeat split; auto. intros [?|?]%elem_of_cons; [done|auto].
Qed.

Lemma starts_lit c re text : items (c :: re) = Lit c :: items re →
  starts (c :: re) text ↔ ∃ x suf, text = x :: suf ∧ char_ok c x ∧ starts re suf.
Proof.
  intros E. unfold starts. rewrite E. split.
  - intros (ws & rest & -> & (w & ws' & (x & -> & Hx) & Hf & ->)%Forall2_cons_inv_l & He). simpl in *.
    exists x, (concat ws' ++ rest). repeat split; auto.
    exists ws', rest. repeat split; auto. intros HE. apply He. by right.
  - intros (x & suf & -> & Hx & ws & rest & -> & Hf & He). exists ([x] :: ws), rest.
    repeat split; [by constructor; [exists x|]|]. intros [?|?]%elem_of_cons; [done|auto].
Qed.

Lemma starts_eol text : starts [36] text ↔ text = [].
Proof.
  unfold starts. simpl. split.
  - intros (ws & rest & -> & (w & ws' & -> & ->%Forall2_nil_inv_l & ->)%Forall2_cons_inv_l & He). simpl in *.
    apply He. by left.
  - intros ->. exists [[]], []. repeat split. by repeat constructor.
Qed.


(** The character case of [matchhere]. *)
Lemma match_char c re text : (∀ t, matchhere re t = true ↔ starts re t) →
  items (c :: re) = Lit c :: items re →
  match text with t :: text' => ((c =? 46) || (c =? t)) && matchhere re text' | [] => false end = true
  ↔ starts (c :: re) text.
Proof.
  intros IH E. rewrite starts_lit by done. destruct text as [|t text].
  - split; [done|]. by intros (x & suf & ? & _).
  - rewrite andb_true_iff, orb_true_iff, !Z.eqb_eq, IH. unfold char_ok. split.
    + intros [H1 H2]. by exists t, text.
    + by intros (x & suf & [= -> ->] & H1 & H2).
Qed.

Lemma matchhere_starts n re text : (length re ≤ n)%nat → matchhere re text = true ↔ starts re text.
Proof.
  revert re text. induction n as [|n IH]; intros re text Hn.
  - destruct re; [|simpl in Hn; lia]. split; [|done]. intros _. exists [], text. repeat split; [constructor|set_solver].
  - destruct re as [|c [|r1 re]].
    + split; [|done]. intros _. exists [], text. repeat split; [constructor|set_solver].
    + cbn [matchhere]. destruct (Z.eqb_spec c 36) as [->|Hc].
      * rewrite bool_decide_eq_true_2 by done. cbn [andb]. rewrite bool_decide_eq_true, starts_eol. done.
      * cbn [andb]. apply (match_char c [] text); [intros t; apply IH; simpl in *; lia|].
        simpl. by rewrite (proj2 (Z.eqb_neq c 36)).
    + cbn [matchhere]. destruct (Z.eqb_spec r1 42) as [->|Hr].
      * rewrite matchstar_true, starts_star. split; intros (w & suf & H1 & H2 & H3);
          exists w, suf; repeat split; auto; apply IH; simpl in *; auto; lia.
      * rewrite (bool_decide_eq_false_2 (r1 :: re = [])), andb_false_r by done.
        apply (match_char c (r1 :: re) text); [intros t; apply IH; simpl in *; lia|]. simpl. by rewrite (proj2 (Z.eqb_neq r1 42)).
Qed.

Lemma match_loop_true re text : match_loop re text = true ↔ ∃ pre suf, text = pre ++ suf ∧ starts re suf.
Proof.
  induction text as [|t text IH]; cbn [match_loop]; rewrite orb_true_iff, (matchhere_starts (length re)) by lia.
  - split; [intros [H|]; [by exists [], []|done]|]. intros ([|] & suf & [= <-] & H). by left.
  - rewrite IH. split.
    + intros [H|(pre & suf & -> & H)]; [by exists [], (t :: text)|by exists (t :: pre), suf].
    + intros ([|x pre] & suf & E & H); simpl in E; [left; by subst|]. injection E as -> ->. right. by exists pre, suf.
Qed.

(** C30: [match] says yes exactly when the pattern matches the text in the
    reference semantics: pieces of the text match the items of the pattern in
    order, [.] stands for any character, [*] repeats, [^] ties the pattern to
    the beginning and [$] to the end. *)
Theorem match_matches (re text : list Z) : match_ re text = true ↔ matches re text.
Proof.
  unfold match_, matches. destruct re as [|r re]; [apply match_loop_true|].
  destruct (Z.eqb_spec r 94) as [->|Hr]; [by apply (matchhere_starts (length re))|].
  rewrite match_loop_true. destruct r as [|p|]; [done| |done].
  do 7 (destruct p as [p|p|]; try done).
Qed.

(** ** Lines *)

(** The lines of [s], without their newlines, when [cur] has been read of the
    first one; what follows the last newline is not a line. *)
Fixpoint lines (cur s : list Z) : list (list Z) :=
  match s with
  | [] => []
  | c :: s' => if c =? 10 then cur :: lines [] s' else lines (cur ++ [c]) s'
  end.
Fixpoint unfinished (cur s : list Z) : list Z :=
  match s with
  | [] => cur
  | c :: s' => if c =? 10 then unfinished [] s' else unfinished (cur ++ [c]) s'
  end.
(** What [grep] writes for some lines. *)
Definition selected (pattern : list Z) (ls : list (list Z)) : list (list Z) :=
  (.++ [10]) <$> filter (λ l, match_ pattern l = true) ls.

Lemma lines_app cur a b : lines cur (a ++ b) = lines cur a ++ lines (unfinished cur a) b.
Proof. revert cur. induction a as [|c a IH]; intros cur; simpl; [done|]. destruct (c =? 10); simpl; by rewrite IH. Qed.
Lemma lines_cur cur l s : 10 ∉ l → lines cur (l ++ s) = lines (cur ++ l) s.
Proof.
  revert cur. induction l as [|c l IH]; intros cur Hl; simpl; [by rewrite app_nil_r|].
  apply not_elem_of_cons in Hl as [Hc Hl]. rewrite (proj2 (Z.eqb_neq c 10)) by done.
  by rewrite IH, <- app_assoc.
Qed.
Lemma unfinished_cur cur l s : 10 ∉ l → unfinished cur (l ++ s) = unfinished (cur ++ l) s.
Proof.
  revert cur. induction l as [|c l IH]; intros cur Hl; simpl; [by rewrite app_nil_r|].
  apply not_elem_of_cons in Hl as [Hc Hl]. rewrite (proj2 (Z.eqb_neq c 10)) by done.
  by rewrite IH, <- app_assoc.
Qed.
Lemma lines_none cur s : 10 ∉ s → lines cur s = [].
Proof. intros H. rewrite <- (app_nil_r s), lines_cur by done. done. Qed.
Lemma unfinished_none s : 10 ∉ s → unfinished [] s = s.
Proof. intros H. rewrite <- (app_nil_r s) at 1. by rewrite unfinished_cur. Qed.

(** The tail has no newline and comes from the end of the text. *)
Lemma unfinished_suffix cur s : (10 ∉ cur) →
  (10 ∉ unfinished cur s) ∧ ∃ pre, cur ++ s = pre ++ unfinished cur s ∧ (10 ∈ s → pre ≠ []).
Proof.
  revert cur. induction s as [|c s IH]; intros cur Hc; simpl.
  - split; [done|]. exists []. rewrite app_nil_r. split; [done|set_solver].
  - destruct (Z.eqb_spec c 10) as [->|Hn].
    + destruct (IH [] ltac:(set_solver)) as (H1 & pre & E & _). split; [done|].
      exists (cur ++ 10 :: pre). simpl in E. split; [by rewrite <- app_assoc; simpl; rewrite <- E|]. by destruct cur.
    + destruct (IH (cur ++ [c]) ltac:(set_solver)) as (H1 & pre & E & Hp). split; [done|].
      exists pre. rewrite <- E, <- app_assoc. split; [done|]. intros [?|?]%elem_of_cons; [done|auto].
Qed.

(** [strchr] splits at the first newline. *)
Lemma next_line_split p : 0 ∉ p →
  match next_line p with
  | None => 10 ∉ p
  | Some (l, p') => p = l ++ 10 :: p' ∧ 10 ∉ l
  end.
Proof.
  induction p as [|c p IH]; simpl; intros Hp; [set_solver|].
  apply not_elem_of_cons in Hp as [Hc Hp]. destruct (Z.eqb_spec c 10) as [->|Hn]; [by split; [|set_solver]|].
  rewrite (proj2 (Z.eqb_neq c 0)) by done. specialize (IH Hp).
  destruct (next_line p) as [[l p']|]; simpl; [|set_solver]. destruct IH as [-> Hl]. split; [done|set_solver].
Qed.

Lemma scan_lines_eq fuel pattern p : 0 ∉ p → (length p ≤ fuel)%nat →
  scan_lines fuel pattern p = (selected pattern (lines [] p), unfinished [] p).
Proof.
  revert p. induction fuel as [|fuel IH]; intros p Hp Hl.
  - destruct p; [done|simpl in Hl; lia].
  - cbn [scan_lines]. pose proof (next_line_split p Hp) as Hn. destruct (next_line p) as [[l p']|].
    + destruct Hn as [-> Hn]. rewrite length_app in Hl. simpl in Hl.
      rewrite IH by (set_solver || lia). rewrite lines_cur, unfinished_cur by done. simpl.
      unfold selected. rewrite filter_cons. destruct (match_ pattern l); simpl; [|done].
      by destruct (decide (true = true)).
    + by rewrite lines_none, unfinished_none.
Qed.

(** ** The loop *)

(** A line that is not complete in a full buffer does not fit in it. *)
Lemma full_buffer cur s n : Forall (λ l, (length l < n)%nat) (lines cur s) → (n ≤ length cur)%nat → 10 ∉ s.
Proof.
  revert cur. induction s as [|c s IH]; intros cur Hf Hn; simpl in *; [set_solver|].
  destruct (Z.eqb_spec c 10) as [->|Hc].
  - apply Forall_cons in Hf as [H _]. lia.
  - apply not_elem_of_cons. split; [done|]. apply (IH (cur ++ [c])); [done|]. rewrite length_app. lia.
Qed.

Lemma grep_loop_eq fuel pattern i kept src :
  (10 ∉ kept) → (0 ∉ kept ++ src) → (length kept ≤ 1022)%nat → (length src < fuel)%nat →
  Forall (λ l, (length l < 1023)%nat) (lines [] (kept ++ src)) →
  grep_loop regular fuel pattern i kept src = Some (selected pattern (lines [] (kept ++ src))).
Proof.
  revert i kept src. induction fuel as [|fuel IH]; intros i kept src Hk H0 Hlen Hfuel Hf; [lia|].
  cbn [grep_loop]. set (n := Nat.min (regular i) _).
  destruct (Nat.eqb_spec n 0) as [En|En].
  { assert (length src = 0)%nat as E0 by (unfold n, regular in En; lia). destruct src; [|done]. by rewrite app_nil_r, lines_none. }
  assert (n ≤ length src ∧ n ≤ 1023 - length kept ∧ (n = length src ∨ n = 1023 - length kept))%nat as Hn by (unfold n, regular in *; lia).
  clearbody n. set (buf := kept ++ take n src).
  assert (kept ++ src = buf ++ drop n src) as Es by (unfold buf; by rewrite <- app_assoc, take_drop).
  rewrite Es in *. clear Es. assert (length buf = length kept + n)%nat as Hb
    by (unfold buf; rewrite length_app, length_take; lia).
  apply not_elem_of_app in H0 as [H0 H0'].
  rewrite scan_lines_eq by (done || lia). rewrite lines_app in Hf |- *.
  unfold selected at 2. rewrite filter_app, fmap_app. fold (selected pattern).
  apply Forall_app in Hf as [_ Hf].
  destruct (unfinished_suffix [] buf ltac:(set_solver)) as (Hu & pre & Ep & Hpre). simpl in Ep.
  case_bool_decide as Eu.
  - assert (10 ∉ buf) as Hnb by (by rewrite <- Eu). rewrite Eu in Hf |- *.
    assert (10 ∉ drop n src) as Hd.
    { destruct Hn as (_ & _ & [->| ->]); [rewrite drop_all; set_solver|].
      apply (full_buffer buf _ 1023); [done|lia]. }
    rewrite IH; simpl; [|set_solver..|lia|rewrite length_drop; lia|by rewrite lines_none].
    by rewrite !(lines_none _ (drop n src)).
  - assert (10 ∈ buf) as Hnl by (apply dec_stable; intros Hnb; by rewrite unfinished_none in Eu).
    rewrite <- (app_nil_l (unfinished [] buf)) in Hf. rewrite <- lines_cur in Hf by done.
    rewrite IH; [|done| |apply (f_equal length) in Ep; rewrite length_app in Ep; destruct pre; [by destruct Hpre|simpl in Ep; lia]
      |rewrite length_drop; lia|done].
    + rewrite lines_cur by done. done.
    + rewrite Ep in H0. set_solver.
Qed.

(** On a regular file without 0 bytes in which every line fits in the
    buffer, [grep] ends and writes exactly the lines that match the pattern,
    in order, each in one [write]. *)
Theorem grep_selects (pattern src : list Z) : 0 ∉ src →
  Forall (λ l, (length l < 1023)%nat) (lines [] src) →
  grep regular pattern src = Some ((.++ [10]) <$> filter (λ l, match_ pattern l = true) (lines [] src)).
Proof. intros H0 Hf. apply (grep_loop_eq _ pattern 0 [] src); [set_solver|done|simpl; lia|lia|done]. Qed.

(** The file [ab\nb\ncd\nb] and the pattern [b$]. *)
Lemma grep_selects_witness :
  grep regular [98; 36] [97; 98; 10; 98; 10; 99; 100; 10; 98] =
    Some ((.++ [10]) <$> filter (λ l, match_ [98; 36] l = true) (lines [] [97; 98; 10; 98; 10; 99; 100; 10; 98])) ∧
  lines [] [97; 98; 10; 98; 10; 99; 100; 10; 98] = [[97; 98]; [98]; [99; 100]].
Proof.
  split; [|reflexivity]. apply (grep_selects [98; 36] [97; 98; 10; 98; 10; 99; 100; 10; 98]).
  - intros H. repeat (apply elem_of_cons in H as [H|H]; [done|]). by apply elem_of_nil in H.
  - simpl. repeat constructor; simpl; lia.
Defined.

(** When a read returns part of a line (a pipe, the console), [grep]
    forgets that part: of [abc\n], read as [ab] and [c\n], it sees only the
    line [c]. *)
Theorem grep_short_read_loses_line :
  match_ [97] [97; 98; 99] = true ∧ lines [] [97; 98; 99; 10] = [[97; 98; 99]] ∧
  grep (λ _, 2%nat) [97] [97; 98; 99; 10] = Some [] ∧
  grep (λ _, 2%nat) [99] [97; 98; 99; 10] = Some [[99; 10]].
Proof. by vm_compute. Qed.

(** [grep] ends, for whatever the reads return: every round of its loop reads
    at least a byte. *)
Theorem grep_ends avail pattern src : is_Some (grep avail pattern src).
Proof.
  unfold grep. assert (∀ fuel i kept s, (length s < fuel)%nat → is_Some (grep_loop avail fuel pattern i kept s)) as H.
  { induction fuel as [|fuel IH]; intros i kept s Hs; [lia|]. cbn [grep_loop].
    set (n := Nat.min _ _). destruct (Nat.eqb_spec n 0) as [|Hn]; [eauto|].
    destruct (scan_lines _ _ _) as [out p]. apply fmap_is_Some, IH. rewrite length_drop. lia. }
  apply H. lia.
Qed.
(** Given regular files whose lines fit in the buffer, the program writes the
    matching lines of each in order, and stops at the first that cannot be
    opened. *)
Theorem grep_main_selects pattern (files : list (list Z * list Z)) (missing : option (list Z)) stdin :
  (files ≠ [] ∨ is_Some missing) →
  Forall (λ f, (0 ∉ f.2) ∧ Forall (λ l, (length l < 1023)%nat) (lines [] f.2)) files →
  grep_main stdin (Some (pattern,
    ((λ f : list Z * list Z, (f.1, Some (regular, f.2))) <$> files) ++ match missing with Some n => [(n, None)] | None => [] end)) =
  Some (Exit (mjoin ((λ f, mjoin (selected pattern (lines [] f.2))) <$> files) ++
    match missing with Some n => say (line "grep: cannot open %s") [n] [1] | None => [] end)).
Proof.
  intros Hne Hf. set (tl := match missing with Some n => [(n, None)] | None => [] end : list (list Z * option gfile)).
  transitivity (grep_files pattern (((λ f : list Z * list Z, (f.1, Some (regular, f.2))) <$> files) ++ tl)).
  { unfold grep_main. destruct files; [|done]. destruct Hne as [|[n ->]]; done. }
  clear Hne. induction Hf as [|[n src] files [H0 Hl] _ IH]; [by destruct missing|].
  cbn [fst snd] in *. rewrite !fmap_cons. cbn [app grep_files fst snd].
  rewrite grep_selects by done. cbn [mbind option_bind]. rewrite IH. cbn [mbind option_bind then_].
  rewrite mjoin_cons. by rewrite <- app_assoc.
Qed.
