(* ===== verification/Sh.v ===== *)
(** * The shell

    Models [sh.c]: the recursive descent parser, the termination of the
    words it found, what [main] does with a line, and [runcmd] as a tree of
    system calls.

    A command line is the list of its characters, a pointer into it an
    index; the character at [es] is the final 0.  The tree holds pointers,
    as in the code.  [malloc] is taken to succeed.

    The theorems: the parser ends on every line, within the bounds of its
    arrays and of the line; after [nulterminate] every word of the tree is
    a string of its own; and the two sides of a pipe run with the ends of the
    pipe as their only descriptors of it.  That every command can be written
    so that parsing gives it back is in [ShRound.v]; how a line is read, and
    the history command, are in [Programs.v]. *)

From Stdlib Require Import String.
From S2P Require Import Prelude.
Local Open Scope list_scope.
Local Open Scope Z_scope.

Definition MAXARGS : nat := 10.
(** [O_RDONLY] and [O_WRONLY|O_CREATE] *)
Definition mode_in : Z := 0.
Definition mode_out : Z := 513.

(** [struct cmd] and its variants; a word is its first character and the one
    after its last. *)
Inductive cmd :=
| EXEC (argv : list (nat * nat))
| REDIR (c : cmd) (file efile : nat) (mode fd : Z)
| PIPE (left right : cmd)
| LIST (left right : cmd)
| BACK (c : cmd).

(** How a parsing function ends: a result and the new [*ps], [panic], or out
    of fuel. *)
Inductive pres (A : Type) :=
| POk (a : A) (ps : nat)
| PPanic (msg : string)
| PFuel.
Arguments POk {A}. Arguments PPanic {A}. Arguments PFuel {A}.
Definition pbind {A B} (r : pres A) (k : A → nat → pres B) : pres B :=
  match r with
  | POk a ps => k a ps
  | PPanic m => PPanic m
  | PFuel => PFuel
  end.
Notation "'let*' a , ps := r 'in' k" := (pbind r (λ a ps, k))
  (at level 10, a pattern, ps name, r at level 100, k at level 200).

Definition whitespace : list Z := [32; 9; 13; 10; 11].
Definition symbols : list Z := [60; 124; 62; 38; 59; 40; 41].
Definition is_in (l : list Z) (c : Z) : bool := existsb (Z.eqb c) l.

Section parser.
(** The command line. *)
Context (buf : list Z).
Definition es : nat := length buf.
Definition chr (s : nat) : Z := default 0 (buf !! s).

(** [while(s < es && f( *s )) s++] *)
Fixpoint skip_while (f : Z → bool) (fuel s : nat) : nat :=
  match fuel with
  | O => s
  | S fuel' => if (s <? es)%nat && f (chr s) then skip_while f fuel' (S s) else s
  end.
Definition skip (f : Z → bool) (s : nat) : nat := skip_while f (es - s) s.
Definition word_char (c : Z) : bool := negb (is_in whitespace c) && negb (is_in symbols c).

(** [gettoken]: the token, [*q], [*eq] and the new [*ps]. *)
Definition gettoken (ps : nat) : Z * nat * nat * nat :=
  let q := skip (is_in whitespace) ps in
  let c := chr q in
  let '(ret, eq) :=
    if c =? 0 then (c, q)
    else if is_in [124; 40; 41; 59; 38; 60] c then (c, S q)
    else if c =? 62 then if chr (S q) =? 62 then (43, S (S q)) else (c, S q)
    else (97, skip word_char q) in
  (ret, q, eq, skip (is_in whitespace) eq).

Definition peek (ps : nat) (toks : list Z) : bool * nat :=
  let s := skip (is_in whitespace) ps in
  (negb (chr s =? 0) && is_in toks (chr s), s).

(** The redirections [parseredirs] finds, the first one first; it wraps
    them around the command it is given. *)
Record redir := Redir { r_q : nat; r_eq : nat; r_mode : Z; r_fd : Z }.
Definition wrap (c : cmd) (rs : list redir) : cmd :=
  fold_left (λ c r, REDIR c (r_q r) (r_eq r) (r_mode r) (r_fd r)) rs c.
Fixpoint parseredirs (fuel ps : nat) : pres (list redir) :=
  match fuel with
  | O => PFuel
  | S fuel' =>
      let '(b, ps) := peek ps [60; 62] in
      if negb b then POk [] ps else
      let '(tok, _, _, ps) := gettoken ps in
      let '(tok2, q, eq, ps) := gettoken ps in
      if negb (tok2 =? 97) then PPanic "missing file for redirection" else
      let r :=
        if tok =? 60 then [Redir q eq mode_in 0]
        else if tok =? 62 then [Redir q eq mode_out 1]
        else if tok =? 43 then [Redir q eq mode_out 1]
        else [] in
      let* rs, ps := parseredirs fuel' ps in
      POk (r ++ rs) ps
  end.

(** The loop of [parseexec] after [argc] words: the words and redirections
    it still finds. *)
Fixpoint parseargs (fuel argc ps : nat) : pres (list (nat * nat) * list redir) :=
  match fuel with
  | O => PFuel
  | S fuel' =>
      let '(b, ps) := peek ps [124; 41; 38; 59] in
      if b then POk ([], []) ps else
      let '(tok, q, eq, ps) := gettoken ps in
      if tok =? 0 then POk ([], []) ps else
      if negb (tok =? 97) then PPanic "syntax" else
      if (MAXARGS <=? S argc)%nat then PPanic "too many args" else
      let* rs, ps := parseredirs (S (es - ps)) ps in
      let* r, ps := parseargs fuel' (S argc) ps in
      POk ((q, eq) :: r.1, rs ++ r.2) ps
  end.

(** The loop of [parseline] over [&]. *)
Fixpoint parseback (fuel : nat) (c : cmd) (ps : nat) : pres cmd :=
  match fuel with
  | O => PFuel
  | S fuel' =>
      let '(b, ps) := peek ps [38] in
      if negb b then POk c ps else
      let '(_, _, _, ps) := gettoken ps in
      parseback fuel' (BACK c) ps
  end.

Fixpoint parseline (fuel ps : nat) : pres cmd :=
  match fuel with
  | O => PFuel
  | S fuel' =>
      let* c, ps := parsepipe fuel' ps in
      let* c, ps := parseback (S (es - ps)) c ps in
      let '(b, ps) := peek ps [59] in
      if negb b then POk c ps else
      let '(_, _, _, ps) := gettoken ps in
      let* r, ps := parseline fuel' ps in
      POk (LIST c r) ps
  end
with parsepipe (fuel ps : nat) : pres cmd :=
  match fuel with
  | O => PFuel
  | S fuel' =>
      let* c, ps := parseexec fuel' ps in
      let '(b, ps) := peek ps [124] in
      if negb b then POk c ps else
      let '(_, _, _, ps) := gettoken ps in
      let* r, ps := parsepipe fuel' ps in
      POk (PIPE c r) ps
  end
with parseexec (fuel ps : nat) : pres cmd :=
  match fuel with
  | O => PFuel
  | S fuel' =>
      let '(b, ps) := peek ps [40] in
      if (b : bool) then parseblock fuel' ps else
      let* rs, ps := parseredirs (S (es - ps)) ps in
      let* r, ps := parseargs (S (es - ps)) 0 ps in
      POk (wrap (EXEC r.1) (rs ++ r.2)) ps
  end
with parseblock (fuel ps : nat) : pres cmd :=
  match fuel with
  | O => PFuel
  | S fuel' =>
      let '(b, ps) := peek ps [40] in
      if negb b then PPanic "parseblock" else
      let '(_, _, _, ps) := gettoken ps in
      let* c, ps := parseline fuel' ps in
      let '(b, ps) := peek ps [41] in
      if negb b then PPanic "syntax - missing )" else
      let '(_, _, _, ps) := gettoken ps in
      let* rs, ps := parseredirs (S (es - ps)) ps in
      POk (wrap c rs) ps
  end.

(** [nulterminate]: the line and its final 0, with a 0 after every word. *)
Fixpoint nulterminate (c : cmd) (m : list Z) : list Z :=
  match c with
  | EXEC argv => fold_left (λ m a, <[a.2 := 0]> m) argv m
  | REDIR c _ efile _ _ => <[efile := 0]> (nulterminate c m)
  | PIPE l r | LIST l r => nulterminate r (nulterminate l m)
  | BACK c => nulterminate c m
  end.

(** Four steps of fuel for every character. *)
Definition parsecmd : pres (cmd * list Z) :=
  let* c, ps := parseline (4 * es + 4) 0 in
  let '(_, ps) := peek ps [] in
  if negb (ps =? es)%nat then PPanic "syntax"
  else POk (c, nulterminate c (buf ++ [0])) ps.

End parser.

(** ** Running a command *)

(** The string at [q]. *)
Fixpoint cstr_from (l : list Z) : list Z :=
  match l with
  | [] => []
  | c :: l' => if c =? 0 then [] else c :: cstr_from l'
  end.
Definition cstr (m : list Z) (q : nat) : list Z := cstr_from (drop q m).

(** A process as the tree of its system calls. *)
Inductive forked := Child | Parent | Failed.
Inductive prog :=
| Exit
| Printf (fmt : string) (args : list (list Z)) (k : prog)
| Exec (argv : list (list Z)) (k : prog)
| Unblock (num : Z) (k : prog)
| Close (fd : nat) (k : prog)
| Dup (fd : nat) (k : prog)
| Open (file : list Z) (mode : Z) (k : bool → prog)
| Pipe (k : option (nat * nat) → prog)
| Fork (k : forked → prog)
| Wait (k : prog).

Definition panic (s : string) : prog := Printf s [] Exit.
(** [if(fork1() == 0) child; parent] *)
Definition fork1 (child parent : prog) : prog :=
  Fork (λ r, match r with Child => child | Parent => parent | Failed => panic "fork" end).

Definition str_unblock : list Z := [117; 110; 98; 108; 111; 99; 107].
Definition SYS_exec : Z := 7.

(** [m] is the line after [nulterminate]. *)
Fixpoint runcmd (m : list Z) (c : cmd) : prog :=
  match c with
  | EXEC argv =>
      match argv with
      | [] => Exit
      | a :: _ =>
          let run := Exec ((λ a, cstr m a.1) <$> argv) Exit in
          if bool_decide (cstr m a.1 = str_unblock) then Unblock SYS_exec run else run
      end
  | REDIR c file _ mode fd =>
      Close (Z.to_nat fd) (Open (cstr m file) mode (λ ok,
        if ok then runcmd m c else Printf "open %s failed" [cstr m file] Exit))
  | LIST l r => fork1 (runcmd m l) (Wait (runcmd m r))
  | PIPE l r =>
      Pipe (λ p,
        match p with
        | None => panic "pipe"
        | Some (p0, p1) =>
            fork1 (Close 1 (Dup p1 (Close p0 (Close p1 (runcmd m l)))))
              (fork1 (Close 0 (Dup p0 (Close p0 (Close p1 (runcmd m r)))))
                 (Close p0 (Close p1 (Wait (Wait Exit)))))
        end)
  | BACK c => fork1 (runcmd m c) Exit
  end.

(** ** A line in [main] *)

Inductive action :=
| History
| Block_ (id : Z)
| Unblock_ (id : Z)
| Chmod (file : list Z) (mode : Z)
| Say (m : string)
| Nothing
| Run (line : list Z).

Definition str_history : list Z := [104; 105; 115; 116; 111; 114; 121].
Definition str_block : list Z := [98; 108; 111; 99; 107; 32].
Definition str_chmod : list Z := [99; 104; 109; 111; 100; 32].
Definition prefix (p l : list Z) : bool := bool_decide (take (length p) l = p).

Fixpoint skip_spaces (l : list Z) : list Z :=
  match l with c :: l' => if c =? 32 then skip_spaces l' else l | [] => [] end.
(** The characters before the first space, and the rest. *)
Fixpoint upto_space (l : list Z) : list Z * list Z :=
  match l with
  | [] => ([], [])
  | c :: l' => if c =? 32 then ([], l) else let '(a, b) := upto_space l' in (c :: a, b)
  end.

Section main.
(** [atoi] of [ulib.c]. *)
Context (atoi : list Z → option Z).

(** [block_command] and [unblock_command]. *)
Definition block_command (arg : list Z) (f : Z → action) : option action :=
  id ← atoi arg; Some (if id <=? 0 then Nothing else f id).
Definition chmod_command (file mode_str : list Z) : option action :=
  mode ← atoi mode_str;
  Some (if (mode <? 0) || (7 <? mode) then Say "Invalid mode. Use a 3-bit integer (0-7)" else Chmod file mode).
(** The part of [main] after [chmod ]. *)
Definition chmod_line (l : list Z) : option action :=
  let '(file, l) := upto_space (skip_spaces l) in
  let mode := skip_spaces (tail l) in
  if bool_decide (file = []) || bool_decide (mode = []) then Some (Say "Usage: chmod <file> <mode>")
  else chmod_command file mode.
(** What the loop of [main] does with a line that [getcmd] read. *)
Definition main_line (buf : list Z) : option action :=
  if prefix str_history buf then Some History
  else if prefix str_block buf then block_command (drop 6 buf) Block_
  else if prefix (str_unblock ++ [32]) buf then block_command (drop 8 buf) Unblock_
  else
    let buf := removelast buf in
    if prefix str_chmod buf then chmod_line (drop 6 buf) else Some (Run buf).
End main.

(** ** The parser ends, within bounds *)

Section bounds.
Context (buf : list Z) (Hbuf : 0 ∉ buf).
Abbreviation ES := (es buf).
Abbreviation CH := (chr buf).

Lemma chr_zero s : CH s = 0 ↔ (ES ≤ s)%nat.
Proof.
  unfold chr, es. split.
  - intros H. apply Nat.nlt_ge. intros Hs. destruct (lookup_lt_is_Some_2 buf s Hs) as [c Hc].
    rewrite Hc in H. simpl in H. subst. apply Hbuf. by eapply list_elem_of_lookup_2.
  - intros H. by rewrite lookup_ge_None_2.
Qed.

Lemma skip_spec f s : (s ≤ ES)%nat →
  (s ≤ skip buf f s ≤ ES)%nat ∧ (∀ i, (s ≤ i < skip buf f s)%nat → f (CH i) = true) ∧
  ((skip buf f s < ES)%nat → f (CH (skip buf f s)) = false).
Proof.
  unfold skip. remember (ES - s)%nat as n eqn:En. revert s En.
  induction n as [|n IH]; intros s En Hs; cbn [skip_while]; [repeat split; lia|].
  rewrite (proj2 (Nat.ltb_lt s ES)) by lia. cbn [andb]. destruct (f (CH s)) eqn:Ef.
  - destruct (IH (S s)) as (H1 & H2 & H3); [lia..|]. repeat split; [lia..| |done].
    intros i Hi. destruct (decide (i = s)) as [->|]; [done|]. apply H2. lia.
  - repeat split; [lia..|done].
Qed.

(** A word of the line: not empty, and as long as possible to the right. *)
Definition is_word (q eq : nat) : Prop :=
  (q < eq ≤ ES)%nat ∧ (∀ i, (q ≤ i < eq)%nat → word_char (CH i) = true) ∧
  ((eq < ES)%nat → word_char (CH eq) = false).

Lemma gettoken_spec ps : (ps ≤ ES)%nat →
  let '(tok, q, eq, ps') := gettoken buf ps in
  (ps ≤ q ≤ eq)%nat ∧ (eq ≤ ps' ≤ ES)%nat ∧ ((q < ES)%nat → (q < eq)%nat ∧ tok ≠ 0) ∧ (tok = 97 → is_word q eq).
Proof.
  intros Hps. unfold gettoken. destruct (skip_spec (is_in whitespace) ps Hps) as (H1 & _ & H3).
  set (q := skip buf (is_in whitespace) ps) in *. clearbody q.
  assert (∀ eq, (q ≤ eq ≤ ES)%nat → (eq ≤ skip buf (is_in whitespace) eq ≤ ES)%nat) as Hsk
    by (intros eq He; apply skip_spec; lia).
  destruct (Z.eqb_spec (CH q) 0) as [E|E].
  { pose proof (Hsk q ltac:(lia)). split; [lia|]. split; [lia|]. rewrite E. split; [|done].
    apply chr_zero in E. lia. }
  assert (q < ES)%nat as Hq by (apply Nat.nle_gt; by rewrite <- chr_zero).
  destruct (is_in [124; 40; 41; 59; 38; 60] (CH q)) eqn:E1.
  { pose proof (Hsk (S q) ltac:(lia)). split; [lia|]. split; [lia|]. split; [by auto with lia|].
    intros E2. by rewrite E2 in E1. }
  destruct (Z.eqb_spec (CH q) 62) as [E2|E2].
  { destruct (Z.eqb_spec (CH (S q)) 62) as [E3|E3].
    - assert (S q < ES)%nat by (apply Nat.nle_gt; rewrite <- chr_zero; lia).
      pose proof (Hsk (S (S q)) ltac:(lia)). split; [lia|]. split; [lia|]. split; [by auto with lia|done].
    - pose proof (Hsk (S q) ltac:(lia)). split; [lia|]. split; [lia|]. split; [by auto with lia|].
      intros ?. congruence. }
  destruct (skip_spec word_char q) as (W1 & W2 & W3); [lia|].
  assert (word_char (CH q) = true) as Hw.
  { unfold word_char. rewrite H3 by done. apply negb_true_iff. cbn in E1 |- *.
    repeat (apply orb_false_elim in E1 as [? E1]).
    repeat (apply orb_false_intro; [assumption || by apply Z.eqb_neq|]). done. }
  assert (q < skip buf word_char q)%nat.
  { destruct (decide (skip buf word_char q = q)) as [Eq|]; [|lia]. rewrite Eq in W3. rewrite W3 in Hw; done. }
  pose proof (Hsk (skip buf word_char q) ltac:(lia)).
  split; [lia|]. split; [lia|]. split; [by auto with lia|]. intros _. split; [lia|]. auto.
Qed.

Lemma peek_spec ps toks : (ps ≤ ES)%nat →
  let '(b, ps') := peek buf ps toks in
  (ps ≤ ps' ≤ ES)%nat ∧ (b = true → (ps' < ES)%nat ∧ is_in toks (CH ps') = true ∧ is_in whitespace (CH ps') = false).
Proof.
  intros Hps. unfold peek. destruct (skip_spec (is_in whitespace) ps Hps) as (H1 & _ & H3).
  split; [lia|]. intros [E1 E2]%andb_true_iff. apply negb_true_iff, Z.eqb_neq in E1.
  rewrite chr_zero in E1. split; [lia|]. split; [done|]. apply H3. lia.
Qed.

(** After a successful [peek], [gettoken] moves on. *)
Lemma gettoken_moves ps : (ps < ES)%nat → is_in whitespace (CH ps) = false →
  let '(tok, q, eq, ps') := gettoken buf ps in q = ps ∧ (ps < ps' ≤ ES)%nat.
Proof.
  intros Hps Hw. pose proof (gettoken_spec ps ltac:(lia)) as H.
  assert (skip buf (is_in whitespace) ps = ps) as Es.
  { unfold skip. destruct (ES - ps)%nat as [|n]; [done|]. cbn [skip_while]. by rewrite Hw, andb_false_r. }
  destruct (gettoken buf ps) as [[[tok q] eq] ps'] eqn:E. unfold gettoken in E. rewrite Es in E.
  assert (q = ps) as ->.
  { repeat case_match; simplify_eq; done. }
  split; [done|]. lia.
Qed.

(** The words of a command, and the bound on its arguments. *)
Definition redir_ok (r : redir) : Prop := is_word (r_q r) (r_eq r).
Fixpoint cmd_ok (c : cmd) : Prop :=
  match c with
  | EXEC argv => (length argv < MAXARGS)%nat ∧ Forall (λ a, is_word a.1 a.2) argv
  | REDIR c q eq _ _ => cmd_ok c ∧ is_word q eq
  | PIPE l r | LIST l r => cmd_ok l ∧ cmd_ok r
  | BACK c => cmd_ok c
  end.
Lemma wrap_ok c rs : cmd_ok c → Forall redir_ok rs → cmd_ok (wrap c rs).
Proof. unfold wrap. intros Hc Hr. revert c Hc. induction Hr as [|r rs H1 H2 IH]; intros c Hc; simpl; auto. by apply IH. Qed.

(** A parsing function called at [ps] that does not run out of fuel: it
    panics, or moves on within the line and its result is right. *)
Definition ends {A} (P : A → Prop) (ps : nat) (r : pres A) : Prop :=
  match r with
  | POk a ps' => (ps ≤ ps' ≤ ES)%nat ∧ P a
  | PPanic _ => True
  | PFuel => False
  end.
Lemma ends_bind {A B} (P : A → Prop) (Q : B → Prop) ps (r : pres A) k :
  ends P ps r → (∀ a ps', (ps ≤ ps' ≤ ES)%nat → P a → ends Q ps' (k a ps')) → ends Q ps (pbind r k).
Proof.
  destruct r as [a ps'| |]; simpl; [|done..]. intros [H1 H2] Hk. specialize (Hk a ps' H1 H2).
  destruct (k a ps') as [b ps''| |]; simpl in *; [|done..]. split; [lia|tauto].
Qed.
Lemma ends_le {A} (P : A → Prop) ps ps' (r : pres A) : (ps ≤ ps')%nat → ends P ps' r → ends P ps r.
Proof. destruct r; simpl; [|done..]. intros ? []. split; [lia|done]. Qed.

Lemma parseredirs_ends fuel ps : (ps ≤ ES)%nat → (ES - ps < fuel)%nat →
  ends (Forall redir_ok) ps (parseredirs buf fuel ps).
Proof.
  revert ps. induction fuel as [|fuel IH]; intros ps Hps Hf; [lia|]. cbn [parseredirs].
  pose proof (peek_spec ps [60; 62] Hps) as Hp. destruct (peek buf ps [60; 62]) as [[] ps1]; cbn [negb].
  2: { split; [lia|constructor]. }
  destruct Hp as [Hp (Hlt & _ & Hw)]; [..|done|]. pose proof (gettoken_moves ps1 Hlt Hw) as Ht.
  destruct (gettoken buf ps1) as [[[tok q1] eq1] ps2]. pose proof (gettoken_spec ps2 ltac:(lia)) as Ht2.
  destruct (gettoken buf ps2) as [[[tok2 q] eq] ps3]. destruct Ht2 as (T1 & T2 & _ & T4).
  destruct (Z.eqb_spec tok2 97) as [E|E]; cbn [negb]; [|done]. specialize (T4 E).
  eapply ends_le; [|eapply ends_bind; [apply IH; lia|]]; [lia|].
  intros rs ps4 H4 Hrs. split; [lia|]. apply Forall_app. split; [|done].
  destruct (tok =? 60); [|destruct (tok =? 62); [|destruct (tok =? 43)]]; repeat constructor; apply T4.
Qed.

Lemma parseargs_ends fuel argc ps : (ps ≤ ES)%nat → (ES - ps < fuel)%nat → (argc < MAXARGS)%nat →
  ends (λ r, (argc + length r.1 < MAXARGS)%nat ∧ Forall (λ a, is_word a.1 a.2) r.1 ∧ Forall redir_ok r.2) ps
    (parseargs buf fuel argc ps).
Proof.
  revert argc ps. induction fuel as [|fuel IH]; intros argc ps Hps Hf Ha; [lia|]. cbn [parseargs].
  pose proof (peek_spec ps [124; 41; 38; 59] Hps) as Hp. destruct (peek buf ps _) as [[] ps1].
  { split; [lia|]. simpl. split; [lia|auto]. }
  destruct Hp as [Hp _]. pose proof (gettoken_spec ps1 ltac:(lia)) as Ht.
  destruct (gettoken buf ps1) as [[[tok q] eq] ps2]. destruct Ht as (T1 & T2 & T3 & T4).
  destruct (Z.eqb_spec tok 0) as [E|E]; [split; [lia|]; simpl; split; [lia|auto]|].
  destruct (Z.eqb_spec tok 97) as [E'|E']; cbn [negb]; [|done]. specialize (T4 E').
  destruct (Nat.leb_spec MAXARGS (S argc)) as [Hm|Hm]; [done|].
  pose proof T4 as ((? & ?) & _).
  eapply ends_le; [|eapply ends_bind; [apply (parseredirs_ends (S (ES - ps2)) ps2); lia|]]; [lia|].
  intros rs ps3 H3 Hrs. eapply ends_bind; [apply (IH (S argc) ps3); lia|].
  intros r ps4 H4 (R1 & R2 & R3). split; [lia|]. simpl. split; [lia|]. split; [by constructor|by apply Forall_app].
Qed.

(** An optional token: [no] without it, [yes] after it. *)
Lemma peek_token_ends {A} (P : A → Prop) ps toks (no yes : nat → pres A) : (ps ≤ ES)%nat →
  (∀ ps', (ps ≤ ps' ≤ ES)%nat → ends P ps' (no ps')) →
  (∀ ps', (ps < ps' ≤ ES)%nat → ends P ps' (yes ps')) →
  ends P ps (let '(b, ps1) := peek buf ps toks in
             if negb b then no ps1 else let '(_, _, _, ps2) := gettoken buf ps1 in yes ps2).
Proof.
  intros Hps Hno Hyes. pose proof (peek_spec ps toks Hps) as Hp. destruct (peek buf ps toks) as [[] ps1]; cbn [negb].
  - destruct Hp as [Hp (Hlt & _ & Hw)]; [..|done|]. pose proof (gettoken_moves ps1 Hlt Hw) as Ht.
    destruct (gettoken buf ps1) as [[[tok q1] eq1] ps2]. eapply ends_le; [|apply Hyes]; lia.
  - eapply ends_le; [|apply Hno]; lia.
Qed.

Lemma parseback_ends fuel c ps : (ps ≤ ES)%nat → (ES - ps < fuel)%nat → cmd_ok c →
  ends cmd_ok ps (parseback buf fuel c ps).
Proof.
  revert c ps. induction fuel as [|fuel IH]; intros c ps Hps Hf Hc; [lia|]. cbn [parseback].
  apply (peek_token_ends cmd_ok ps [38] (POk c) (λ ps, parseback buf fuel (BACK c) ps)); [done|..]; intros ps' Hps'.
  - split; [lia|done].
  - apply IH; [lia..|done].
Qed.

(** Fuel for each function at [ps]: four calls for every character. *)
Lemma parse_ends fuel ps : (ps ≤ ES)%nat →
  ((4 * (ES - ps) + 4 ≤ fuel)%nat → ends cmd_ok ps (parseline buf fuel ps)) ∧
  ((4 * (ES - ps) + 3 ≤ fuel)%nat → ends cmd_ok ps (parsepipe buf fuel ps)) ∧
  ((4 * (ES - ps) + 2 ≤ fuel)%nat → ends cmd_ok ps (parseexec buf fuel ps)) ∧
  ((4 * (ES - ps) + 1 ≤ fuel)%nat → ends cmd_ok ps (parseblock buf fuel ps)).
Proof.
  revert ps. induction fuel as [|fuel IH]; intros ps Hps; [repeat split; lia|].
  cbn [parseline parsepipe parseexec parseblock]. repeat split; intros Hf.
  - eapply ends_bind; [apply IH; lia|]. intros c ps1 H1 Hc.
    eapply ends_bind; [apply (parseback_ends (S (ES - ps1))); [lia..|done]|]. intros c' ps2 H2 Hc'.
    apply (peek_token_ends cmd_ok ps2 [59] (POk c')
      (λ ps, let* r, ps := parseline buf fuel ps in POk (LIST c' r) ps)); [lia|..]; intros ps3 H3.
    + split; [lia|done].
    + eapply ends_bind; [apply IH; lia|]. intros r ps4 H4 Hr. split; [lia|done].
  - eapply ends_bind; [apply IH; lia|]. intros c ps1 H1 Hc.
    apply (peek_token_ends cmd_ok ps1 [124] (POk c)
      (λ ps, let* r, ps := parsepipe buf fuel ps in POk (PIPE c r) ps)); [lia|..]; intros ps3 H3.
    + split; [lia|done].
    + eapply ends_bind; [apply IH; lia|]. intros r ps4 H4 Hr. split; [lia|done].
  - pose proof (peek_spec ps [40] Hps) as Hp. destruct (peek buf ps [40]) as [[] ps1]; destruct Hp as [Hp _].
    { eapply ends_le; [|apply IH]; lia. }
    eapply ends_le; [|eapply ends_bind; [apply (parseredirs_ends (S (ES - ps1)) ps1); lia|]]; [lia|].
    intros rs ps2 H2 Hrs. eapply ends_bind; [apply (parseargs_ends (S (ES - ps2)) 0 ps2); unfold MAXARGS; lia|].
    intros r ps3 H3 (R1 & R2 & R3). split; [lia|]. apply wrap_ok; [by split|by apply Forall_app].
  - apply (peek_token_ends cmd_ok ps [40] (λ _, PPanic _)); [lia|done|]. intros ps1 H1.
    eapply ends_bind; [apply IH; lia|]. intros c ps2 H2 Hc.
    apply (peek_token_ends cmd_ok ps2 [41] (λ _, PPanic _)
      (λ ps, let* rs, ps := parseredirs buf (S (ES - ps)) ps in POk (wrap c rs) ps)); [lia|done|]. intros ps3 H3.
    eapply ends_bind; [apply (parseredirs_ends (S (ES - ps3)) ps3); lia|]. intros rs ps4 H4 Hrs.
    split; [lia|]. by apply wrap_ok.
Qed.

(** ** Words as strings *)

Fixpoint words (c : cmd) : list (nat * nat) :=
  match c with
  | EXEC argv => argv
  | REDIR c q eq _ _ => words c ++ [(q, eq)]
  | PIPE l r | LIST l r => words l ++ words r
  | BACK c => words c
  end.
Lemma cmd_ok_words c : cmd_ok c → Forall (λ a, is_word a.1 a.2) (words c).
Proof. induction c; simpl; rewrite ?Forall_app, ?Forall_singleton; tauto. Qed.

(** [nulterminate] stores a 0 at the end of every word, nothing else. *)
Lemma nulterminate_eq c m : nulterminate c m = fold_left (λ m a, <[a.2 := 0]> m) (words c) m.
Proof.
  revert m. induction c as [argv|c IH q eq mode fd|l IHl r IHr|l IHl r IHr|c IH]; intros m; simpl;
    rewrite ?fold_left_app; simpl; rewrite ?IHr, ?IHl, ?IH; done.
Qed.
Lemma fold_zero_lookup (ws : list (nat * nat)) (m : list Z) i : (i < length m)%nat →
  fold_left (λ m a, <[a.2 := 0]> m) ws m !! i = if decide (i ∈ ws.*2) then Some 0 else m !! i.
Proof.
  revert m. induction ws as [|[q eq] ws IH]; intros m Hi.
  { rewrite decide_False by (apply not_elem_of_nil). done. }
  cbn [fold_left snd]. rewrite IH by (by rewrite length_insert). destruct (decide (i ∈ ws.*2)) as [Hw|Hw].
  - rewrite decide_True by (cbn; set_solver). done.
  - destruct (decide (i = eq)) as [->|Hne].
    + rewrite decide_True by (cbn; set_solver). by rewrite list_lookup_insert_eq.
    + rewrite decide_False by (cbn; set_solver). by rewrite list_lookup_insert_ne.
Qed.

Lemma cstr_take m q n :
  (∀ i, (i < n)%nat → ∃ c, m !! (q + i)%nat = Some c ∧ c ≠ 0) → m !! (q + n)%nat = Some 0 →
  cstr m q = take n (drop q m).
Proof.
  unfold cstr. revert q. induction n as [|n IH]; intros q H H0.
  - rewrite Nat.add_0_r in H0. by rewrite (drop_S _ _ _ H0).
  - destruct (H 0%nat) as (c & Hc & Hn); [lia|]. rewrite Nat.add_0_r in Hc. rewrite (drop_S _ _ _ Hc). simpl.
    rewrite (proj2 (Z.eqb_neq c 0)) by done. rewrite IH; [done| |].
    + intros i Hi. destruct (H (S i)) as (d & Hd & ?); [lia|]. exists d. by replace (S q + i)%nat with (q + S i)%nat by lia.
    + by replace (S q + n)%nat with (q + S n)%nat by lia.
Qed.

Lemma lookup_chr i : (i < ES)%nat → (buf ++ [0]) !! i = Some (CH i).
Proof.
  intros Hi. rewrite lookup_app_l by done. unfold chr.
  by destruct (lookup_lt_is_Some_2 buf i Hi) as [c ->].
Qed.

(** Every word of the tree is a string of the terminated line. *)
Lemma terminated_word c q eq : cmd_ok c → (q, eq) ∈ words c →
  cstr (nulterminate c (buf ++ [0])) q = take (eq - q) (drop q buf).
Proof.
  intros Hc Hw. pose proof (cmd_ok_words c Hc) as Hall. rewrite Forall_forall in Hall.
  pose proof (Hall _ Hw) as ((H1 & H2) & Hin & _). simpl in *.
  assert (∀ i, (i ≤ ES)%nat → nulterminate c (buf ++ [0]) !! i =
    if decide (i ∈ (words c).*2) then Some 0 else (buf ++ [0]) !! i) as Hl.
  { intros i Hi. rewrite nulterminate_eq, fold_zero_lookup; [done|]. rewrite length_app. unfold es in Hi. simpl. lia. }
  assert (∀ i, (q ≤ i < eq)%nat → nulterminate c (buf ++ [0]) !! i = Some (CH i)) as Hk.
  { intros i Hi. rewrite Hl by lia. rewrite decide_False; [by apply lookup_chr; lia|].
    intros ([q' e'] & -> & Hq)%list_elem_of_fmap. destruct (Hall _ Hq) as (? & _ & Hb). simpl in *.
    rewrite (Hin e') in Hb by lia. discriminate Hb. lia. }
  rewrite (cstr_take _ q (eq - q)).
  - apply list_eq. intros i. destruct (decide (i < eq - q)%nat) as [Hi|Hi].
    + rewrite !lookup_take_lt, !lookup_drop, Hk by lia. rewrite <- lookup_chr by lia. by rewrite lookup_app_l by (unfold es in *; lia).
    + by rewrite !lookup_take_ge by lia.
  - intros i Hi. exists (CH (q + i)). rewrite Hk by lia. split; [done|]. rewrite chr_zero. lia.
  - replace (q + (eq - q))%nat with eq by lia. rewrite Hl by lia. rewrite decide_True; [done|].
    apply list_elem_of_fmap. by exists (q, eq).
Qed.
End bounds.

(** C29: [parsecmd] ends on every command line: it reports a syntax error, or
    returns a command for the whole line, in which no argument list reaches
    the end of its array and every word lies in the line. *)
Theorem parsecmd_ends (buf : list Z) : 0 ∉ buf →
  (∃ msg, parsecmd buf = PPanic msg) ∨
  (∃ c, parsecmd buf = POk (c, nulterminate c (buf ++ [0])) (length buf) ∧ cmd_ok buf c).
Proof.
  intros Hb. unfold parsecmd. destruct (parse_ends buf Hb (4 * es buf + 4) 0) as [H _]; [lia|].
  specialize (H ltac:(lia)). destruct (parseline buf (4 * es buf + 4) 0) as [c ps|msg|]; simpl in H; [|by left; exists msg|done].
  destruct H as [Hps Hc]. cbn [pbind]. destruct (peek buf ps []) as [b ps']. 
  destruct (Nat.eqb_spec ps' (es buf)) as [->|]; cbn [negb]; [|left; by eexists]. right. by exists c.
Qed.

(** [ls < a | wc] *)
Lemma parsecmd_ends_witness : let buf := [108; 115; 32; 60; 32; 97; 32; 124; 32; 119; 99] in
  ((∃ msg, parsecmd buf = PPanic msg) ∨
   (∃ c, parsecmd buf = POk (c, nulterminate c (buf ++ [0])) (length buf) ∧ cmd_ok buf c)) ∧
  parsecmd buf = POk (PIPE (REDIR (EXEC [(0, 2)%nat]) 5 6 0 0) (EXEC [(9, 11)%nat]),
    [108; 115; 0; 60; 32; 97; 0; 124; 32; 119; 99; 0]) 11.
Proof.
  split; [|reflexivity]. apply (parsecmd_ends [108; 115; 32; 60; 32; 97; 32; 124; 32; 119; 99]).
  intros H. repeat (apply elem_of_cons in H as [H|H]; [done|]). by apply elem_of_nil in H.
Defined.

(** In the line [parsecmd] leaves behind, every word of the command,
    argument or file name, is a string of its own: the characters the word
    had in the line, none of them blank or special, and at least one. *)
Theorem parsecmd_words (buf m : list Z) (c : cmd) (ps q eq : nat) : 0 ∉ buf →
  parsecmd buf = POk (c, m) ps → (q, eq) ∈ words c →
  cstr m q = take (eq - q) (drop q buf) ∧ (q < eq ≤ length buf)%nat ∧
  (∀ i, (q ≤ i < eq)%nat → word_char (chr buf i) = true).
Proof.
  intros Hb Hp Hw. unfold parsecmd in Hp. destruct (parse_ends buf Hb (4 * es buf + 4) 0) as [H _]; [lia|].
  specialize (H ltac:(lia)). destruct (parseline buf (4 * es buf + 4) 0) as [c' ps'| |]; [|done..].
  destruct H as [_ Hc]. cbn [pbind] in Hp. destruct (peek buf ps' []) as [b ps2].
  destruct (negb _) in Hp; [done|]. injection Hp as <- <- _.
  split; [by apply terminated_word|]. pose proof (cmd_ok_words buf c' Hc) as Hall.
  rewrite Forall_forall in Hall. destruct (Hall _ Hw) as (H1 & H2 & _). done.
Qed.

(** The file name of [ls < a | wc]. *)
Lemma parsecmd_words_witness : let buf := [108; 115; 32; 60; 32; 97; 32; 124; 32; 119; 99] in
  let m := [108; 115; 0; 60; 32; 97; 0; 124; 32; 119; 99; 0] in
  cstr m 5 = take (6 - 5) (drop 5 buf) ∧ (5 < 6 ≤ length buf)%nat ∧
  (∀ i, (5 ≤ i < 6)%nat → word_char (chr buf i) = true).
Proof.
  apply (parsecmd_words [108; 115; 32; 60; 32; 97; 32; 124; 32; 119; 99] [108; 115; 0; 60; 32; 97; 0; 124; 32; 119; 99; 0]
    (PIPE (REDIR (EXEC [(0, 2)%nat]) 5 6 0 0) (EXEC [(9, 11)%nat])) 11).
  - intros H. repeat (apply elem_of_cons in H as [H|H]; [done|]). by apply elem_of_nil in H.
  - reflexivity.
  - do 2 constructor.
Defined.

(** ** Pipelines *)

(** What a descriptor refers to; pipes are numbered. *)
Inductive obj := Tty (n : nat) | OpenFile (name : list Z) | PipeR (k : nat) | PipeW (k : nat).
Abbreviation table := (list (option obj)).

(** The lowest free descriptor now refers to [o]. *)
Fixpoint fd_alloc (o : obj) (t : table) : option (nat * table) :=
  match t with
  | [] => None
  | None :: t' => Some (0%nat, Some o :: t')
  | x :: t' => (λ r : nat * table, (S r.1, x :: r.2)) <$> fd_alloc o t'
  end.

(** The programs a process tree runs, each with its descriptors, when every
    call succeeds; [n] is the number of the next pipe. *)
Fixpoint execs (pr : prog) (t : table) (n : nat) : list (list (list Z) * table) * nat :=
  match pr with
  | Exit => ([], n)
  | Printf _ _ k | Unblock _ k | Wait k => execs k t n
  | Exec argv _ => ([(argv, t)], n)
  | Close fd k => execs k (<[fd := None]> t) n
  | Dup fd k =>
      match t !! fd with
      | Some (Some o) => execs k (default t (snd <$> fd_alloc o t)) n
      | _ => execs k t n
      end
  | Open file _ k =>
      match fd_alloc (OpenFile file) t with
      | Some (_, t') => execs (k true) t' n
      | None => execs (k false) t n
      end
  | Pipe k =>
      match fd_alloc (PipeR n) t with
      | None => execs (k None) t n
      | Some (p0, t0) =>
          match fd_alloc (PipeW n) t0 with
          | None => execs (k None) t n
          | Some (p1, t1) => execs (k (Some (p0, p1))) t1 (S n)
          end
      end
  | Fork k =>
      let '(l1, n1) := execs (k Child) t n in
      let '(l2, n2) := execs (k Parent) t n1 in
      (l1 ++ l2, n2)
  end.

(** The command for [a1 | a2 | ...], as the parser nests it. *)
Fixpoint pipeline (a : list (nat * nat)) (r : list (list (nat * nat))) : cmd :=
  match r with
  | [] => EXEC a
  | b :: r' => PIPE (EXEC a) (pipeline b r')
  end.
(** Descriptors 0, 1 and 2 and no others. *)
Definition std (i o e : obj) : table := [Some i; Some o; Some e] ++ replicate 13 None.
(** The stages: each reads the pipe before it and writes the one after it. *)
Fixpoint stages (m : list Z) (a : list (nat * nat)) (r : list (list (nat * nat))) (i o e : obj) (n : nat) :
    list (list (list Z) * table) :=
  let argv := (λ w : nat * nat, cstr m w.1) <$> a in
  match r with
  | [] => [(argv, std i o e)]
  | b :: r' => (argv, std i (PipeW n) e) :: stages m b r' (PipeR n) o e (S n)
  end.

Lemma execs_exec m a t n : a ≠ [] →
  execs (runcmd m (EXEC a)) t n = ([((λ w : nat * nat, cstr m w.1) <$> a, t)], n).
Proof. intros Ha. destruct a as [|w a]; [done|]. cbn [runcmd]. by case_bool_decide. Qed.

(** C31: [runcmd] of a pipeline runs its commands in order, each with its
    standard input at the read end of the pipe before it and its standard
    output at the write end of the pipe after it, and with no other
    descriptor of any pipe open. *)
Theorem pipeline_descriptors (m : list Z) (a : list (nat * nat)) (r : list (list (nat * nat))) (i o e : obj) (n : nat) :
  Forall (λ a, a ≠ []) (a :: r) →
  execs (runcmd m (pipeline a r)) (std i o e) n = (stages m a r i o e n, (n + length r)%nat).
Proof.
  revert a i n. induction r as [|b r IH]; intros a i n [Ha Hr]%Forall_cons.
  - cbn [pipeline stages length]. rewrite execs_exec by done. by rewrite Nat.add_0_r.
  - change (execs (runcmd m (pipeline a (b :: r))) (std i o e) n) with
      (let '(l1, n1) := execs (runcmd m (EXEC a)) (std i (PipeW n) e) (S n) in
       let '(l2, n2) := let '(l, n2) := execs (runcmd m (pipeline b r)) (std (PipeR n) o e) n1 in (l ++ [], n2) in
       (l1 ++ l2, n2)).
    rewrite (execs_exec m a _ _ Ha), IH by done. cbn [stages]. rewrite app_nil_r. f_equal. simpl. lia.
Qed.

(** Three commands from a terminal. *)
Lemma pipeline_descriptors_witness :
  execs (runcmd [97; 0; 98; 0; 99; 0] (pipeline [(0, 1)%nat] [[(2, 3)%nat]; [(4, 5)%nat]])) (std (Tty 0) (Tty 1) (Tty 2)) 0 =
    (stages [97; 0; 98; 0; 99; 0] [(0, 1)%nat] [[(2, 3)%nat]; [(4, 5)%nat]] (Tty 0) (Tty 1) (Tty 2) 0, (0 + 2)%nat) ∧
  stages [97; 0; 98; 0; 99; 0] [(0, 1)%nat] [[(2, 3)%nat]; [(4, 5)%nat]] (Tty 0) (Tty 1) (Tty 2) 0 =
    [([[97]], std (Tty 0) (PipeW 0) (Tty 2)); ([[98]], std (PipeR 0) (PipeW 1) (Tty 2));
     ([[99]], std (PipeR 1) (Tty 1) (Tty 2))].
Proof.
  split; [|reflexivity]. apply (pipeline_descriptors [97; 0; 98; 0; 99; 0] [(0, 1)%nat] [[(2, 3)%nat]; [(4, 5)%nat]]).
  by repeat constructor.
Defined.
