(* ===== verification/ShRound.v ===== *)
(** * Writing commands down

    A command as a tree of words, the line that writes it with a pair of
    parentheses around every part, and the theorem that the parser of [Sh.v]
    reads the tree back from that line. *)

From S2P Require Import Prelude Sh.
Local Open Scope list_scope.
Local Open Scope Z_scope.

Inductive ast :=
| AExec (ws : list (list Z))
| ARedir (a : ast) (file : list Z) (out : bool)
| APipe (l r : ast)
| AList (l r : ast)
| ABack (a : ast).

Fixpoint show (a : ast) : list Z :=
  match a with
  | AExec ws => concat ((λ w, w ++ [32]) <$> ws)
  | ARedir a file out => (40 :: show a ++ [41]) ++ (if out then 62 else 60) :: file
  | APipe l r => (40 :: show l ++ [41]) ++ 124 :: (40 :: show r ++ [41])
  | AList l r => (40 :: show l ++ [41]) ++ 59 :: (40 :: show r ++ [41])
  | ABack a => (40 :: show a ++ [41]) ++ [38]
  end.

(** Words as the parser accepts them. *)
Definition wordb (w : list Z) : bool := negb (bool_decide (w = [])) && forallb (λ c, negb (c =? 0) && word_char c) w.
Fixpoint ast_ok (a : ast) : bool :=
  match a with
  | AExec ws => (length ws <? MAXARGS)%nat && forallb wordb ws
  | ARedir a file _ => ast_ok a && wordb file
  | APipe l r | AList l r => ast_ok l && ast_ok r
  | ABack a => ast_ok a
  end.

Section reads.
Context (buf : list Z) (Hbuf : 0 ∉ buf).

(** The tree of pointers [c] stands for the tree of words [a]. *)
Definition slice (q eq : nat) : list Z := take (eq - q) (drop q buf).
Fixpoint denotes (c : cmd) (a : ast) : Prop :=
  match c, a with
  | EXEC argv, AExec ws => (λ w : nat * nat, slice w.1 w.2) <$> argv = ws
  | REDIR c q eq mode fd, ARedir a file out =>
      denotes c a ∧ slice q eq = file ∧ (mode, fd) = if out then (mode_out, 1) else (mode_in, 0)
  | PIPE l r, APipe l' r' | LIST l r, AList l' r' => denotes l l' ∧ denotes r r'
  | BACK c, ABack a => denotes c a
  | _, _ => False
  end.

(** The text from [p] on is [l]. *)
Definition text (p : nat) (l : list Z) : Prop := (p ≤ es buf)%nat ∧ drop p buf = l.

Lemma text_tail p l l' : text p (l ++ l') → text (p + length l) l'.
Proof.
  intros [Hp E]. split.
  - apply (f_equal length) in E. rewrite length_drop, length_app in E. unfold es in *. lia.
  - by rewrite <- drop_drop, E, drop_app_length.
Qed.
Lemma text_next p x l : text p (x :: l) → text (S p) l.
Proof. intros H. apply (text_tail p [x] l) in H. by replace (p + length [x])%nat with (S p) in H by (simpl; lia). Qed.
Lemma text_es p l : text p l → es buf = (p + length l)%nat.
Proof. intros [Hp E]. apply (f_equal length) in E. rewrite length_drop in E. unfold es in *. lia. Qed.
Lemma text_chr p l : text p l → chr buf p = default 0 (head l).
Proof. intros [Hp E]. unfold chr. rewrite <- E. rewrite <- (Nat.add_0_r p) at 1. rewrite <- lookup_drop. by destruct (drop p buf). Qed.
Lemma text_lt p x l : text p (x :: l) → (p < es buf)%nat.
Proof. intros H. rewrite (text_es _ _ H). simpl. lia. Qed.
Lemma text_nonzero p x l : text p (x :: l) → x ≠ 0.
Proof.
  intros H ->. pose proof (text_chr _ _ H) as E. apply (chr_zero buf Hbuf) in E.
  pose proof (text_lt _ _ _ H). lia.
Qed.

(** Over a run of characters that satisfy [f]. *)
Lemma skip_run f p w l : text p (w ++ l) → forallb f w = true →
  match l with x :: _ => f x = false | [] => True end → skip buf f p = (p + length w)%nat.
Proof.
  unfold skip. intros H Hw Hl. remember (es buf - p)%nat as n eqn:En. revert p w H Hw En.
  induction n as [|n IH]; intros p w H Hw En; pose proof (text_es _ _ H) as Ee; rewrite length_app in Ee; cbn [skip_while].
  - lia.
  - pose proof (text_chr _ _ H) as Ec. destruct w as [|x w]; simpl in Ec, H, Hw.
    + simpl. destruct l as [|x l]; [simpl in Ee; lia|]. simpl in Ec. rewrite Ec, Hl, andb_false_r. lia.
    + apply andb_true_iff in Hw as [Hx Hw]. rewrite Ec, Hx, (proj2 (Nat.ltb_lt p (es buf))) by (simpl in Ee; lia).
      cbn [andb]. rewrite (IH (S p) w); [simpl; lia|by apply text_next in H|done|simpl in Ee; lia].
Qed.

(** A text that does not start with a blank. *)
Definition unspaced (l : list Z) : Prop := match l with x :: _ => is_in whitespace x = false | [] => True end.
Lemma skip_blank p l : text p l → unspaced l → skip buf (is_in whitespace) p = p.
Proof. intros H Hl. rewrite (skip_run _ p [] l H); [simpl; lia|done|done]. Qed.

Lemma peek_text p l toks : text p l → unspaced l →
  peek buf p toks = (match l with x :: _ => is_in toks x | [] => false end, p).
Proof.
  intros H Hl. unfold peek. rewrite (skip_blank p l H Hl), (text_chr _ _ H). f_equal.
  destruct l as [|x l]; simpl; [done|]. by rewrite (proj2 (Z.eqb_neq x 0)) by (by eapply text_nonzero).
Qed.

(** The symbols the written lines use. *)
Definition plain_sym (x : Z) (l : list Z) : Prop :=
  is_in [124; 40; 41; 59; 38; 60] x = true ∨ (x = 62 ∧ head l ≠ Some 62).
Lemma gettoken_sym p x l : text p (x :: l) → plain_sym x l → unspaced l →
  gettoken buf p = (x, p, S p, S p).
Proof.
  intros H Hx Hl. pose proof (text_next _ _ _ H) as H'. unfold gettoken.
  assert (is_in whitespace x = false) as Hw.
  { destruct Hx as [Hx|[-> _]]; [|done]. unfold is_in in *. simpl in Hx.
    repeat (apply orb_true_iff in Hx as [Hx|Hx]; [apply Z.eqb_eq in Hx as ->; done|]). done. }
  rewrite (skip_blank p (x :: l) H Hw), (text_chr _ _ H). simpl default.
  rewrite (proj2 (Z.eqb_neq x 0)) by (by eapply text_nonzero).
  destruct Hx as [Hx|[-> Hx]].
  - rewrite Hx. by rewrite (skip_blank (S p) l H' Hl).
  - change (is_in [124; 40; 41; 59; 38; 60] 62) with false. cbn [Z.eqb Pos.eqb].
    rewrite (text_chr _ _ H'). rewrite (proj2 (Z.eqb_neq (default 0 (head l)) 62)).
    + by rewrite (skip_blank (S p) l H' Hl).
    + destruct l; simpl in *; congruence.
Qed.

Lemma gettoken_word p w l : text p (w ++ l) → wordb w = true →
  match l with x :: _ => word_char x = false | [] => True end →
  gettoken buf p = (97, p, (p + length w)%nat, skip buf (is_in whitespace) (p + length w)) ∧ slice p (p + length w) = w.
Proof.
  intros H [Hne Hw]%andb_true_iff Hl. apply negb_true_iff, bool_decide_eq_false in Hne.
  assert (forallb word_char w = true) as Hwc.
  { apply forallb_forall. intros c Hc. rewrite forallb_forall in Hw. by apply Hw, andb_true_iff in Hc as []. }
  split.
  - destruct w as [|x w]; [done|]. clear Hne. pose proof Hwc as Hx. simpl in Hx. apply andb_true_iff in Hx as [Hx _].
    unfold word_char in Hx. apply andb_true_iff in Hx as [Hx1 Hx2]. apply negb_true_iff in Hx1, Hx2.
    unfold gettoken. rewrite (skip_blank p ((x :: w) ++ l) H Hx1), (text_chr _ _ H). simpl default.
    rewrite (proj2 (Z.eqb_neq x 0)) by (by eapply text_nonzero).
    rewrite (skip_run word_char p (x :: w) l H Hwc Hl).
    unfold is_in in Hx2. simpl in Hx2. repeat (apply orb_false_elim in Hx2 as [? Hx2]).
    assert (is_in [124; 40; 41; 59; 38; 60] x = false) as ->
      by (unfold is_in; simpl; repeat (apply orb_false_intro; [assumption|]); done).
    assert ((x =? 62) = false) as -> by assumption. done.
  - unfold slice. destruct H as [_ ->]. replace (p + length w - p)%nat with (length w) by lia. apply take_app_length.
Qed.

(** What may follow a command: the end, or a closing parenthesis. *)
Definition stop (post : list Z) : Prop := post = [] ∨ head post = Some 41.
Lemma stop_unspaced post : stop post → unspaced post.
Proof. destruct post; intros [?|H]; simpl in *; [done..|]. by injection H as ->. Qed.
Lemma stop_not post toks : stop post → is_in toks 41 = false →
  match post with x :: _ => is_in toks x | [] => false end = false.
Proof. destruct post; intros [?|H]; simpl in *; [done..|]. by injection H as ->. Qed.

Lemma parseredirs_none n p l : text p l → unspaced l →
  match l with x :: _ => is_in [60; 62] x | [] => false end = false → parseredirs buf (S n) p = POk [] p.
Proof. intros H Hl Hn. cbn [parseredirs]. by rewrite (peek_text p l _ H Hl), Hn. Qed.

(** Words with a blank after each. *)
Definition blanked (ws : list (list Z)) : list Z := concat ((λ w, w ++ [32]) <$> ws).

Lemma wordb_head w x l : wordb w = true → w ++ l = x :: tail (w ++ l) → word_char x = true.
Proof.
  intros [Hne Hw]%andb_true_iff E. destruct w as [|y w]; [done|]. simpl in E, Hw. injection E as ->.
  by apply andb_true_iff in Hw as [[_ ?]%andb_true_iff _].
Qed.
Lemma word_char_not c : word_char c = true → is_in whitespace c = false ∧ is_in symbols c = false.
Proof. by intros [?%negb_true_iff ?%negb_true_iff]%andb_true_iff. Qed.

(** The first character of some words: none of the symbols, not a blank. *)
Lemma blanked_head ws post : forallb wordb ws = true → stop post →
  unspaced (blanked ws ++ post) ∧
  match blanked ws ++ post with x :: _ => ws ≠ [] ∧ is_in symbols x = false ∨ ws = [] ∧ x = 41 | [] => ws = [] end.
Proof.
  intros Hw Hp. destruct ws as [|w ws]; simpl.
  - destruct post as [|x post]; [done|]. destruct Hp as [|[= ->]]; [done|]. split; [done|by right].
  - apply andb_true_iff in Hw as [Hw _]. unfold blanked. simpl. rewrite <- !app_assoc.
    pose proof Hw as Hw'. apply andb_true_iff in Hw' as [Hne _]. apply negb_true_iff, bool_decide_eq_false in Hne.
    destruct w as [|x w]; [done|]. destruct (word_char_not x) as [H1 H2]; [by apply (wordb_head (x :: w) x [])|].
    simpl. split; [done|]. by left.
Qed.

Lemma is_in_sub (l l' : list Z) c : (∀ x, x ∈ l → x ∈ l') → is_in l' c = false → is_in l c = false.
Proof.
  intros Hs Hf. unfold is_in in *. apply not_true_iff_false. intros (x & Hx & Ex)%existsb_exists.
  apply not_true_iff_false in Hf. apply Hf, existsb_exists. exists x. split; [|done].
  apply list_elem_of_In, Hs, list_elem_of_In, Hx.
Qed.

Lemma parseargs_words n argc p ws post : text p (blanked ws ++ post) → stop post →
  forallb wordb ws = true → (argc + length ws < MAXARGS)%nat → (length ws < n)%nat →
  ∃ argv p', parseargs buf n argc p = POk (argv, []) p' ∧ text p' post ∧
    (λ w : nat * nat, slice w.1 w.2) <$> argv = ws.
Proof.
  revert argc p ws. induction n as [|n IH]; intros argc p ws H Hp Hw Ha Hn; [lia|]. cbn [parseargs].
  destruct (blanked_head ws post Hw Hp) as [Hu Hh]. rewrite (peek_text p _ _ H Hu).
  destruct ws as [|w ws].
  - simpl in Hh, H. destruct post as [|x post].
    + pose proof (text_chr _ _ H) as Ec. simpl in Ec. simpl. unfold gettoken.
      rewrite (skip_blank p [] H I), Ec. cbn [Z.eqb]. rewrite (skip_blank p [] H I). by exists [], p.
    + destruct Hh as [[? _]|[_ ->]]; [done|]. by exists [], p.
  - assert (match blanked (w :: ws) ++ post with x :: _ => is_in [124; 41; 38; 59] x | [] => false end = false) as ->.
    { destruct (blanked (w :: ws) ++ post) as [|x l]; [done|]. destruct Hh as [[_ Hx]|[? _]]; [|done].
      revert Hx. apply is_in_sub. intros y. unfold symbols. set_solver. }
    simpl in Hw. apply andb_true_iff in Hw as [Hw Hws].
    assert (text p (w ++ (32 :: blanked ws ++ post))) as H'.
    { revert H. unfold blanked. simpl. by rewrite <- !app_assoc. }
    destruct (gettoken_word p w _ H' Hw eq_refl) as [-> Hs]. cbn [Z.eqb Pos.eqb negb].
    assert (text (S (p + length w)) (blanked ws ++ post)) as H2 by (by apply text_tail, text_next in H').
    destruct (blanked_head ws post Hws Hp) as [Hu2 Hh2].
    assert (skip buf (is_in whitespace) (p + length w) = S (p + length w)) as ->.
    { apply text_tail in H'. rewrite (skip_run _ _ [32] _ H'); [simpl; lia|done|done]. }
    simpl in Ha, Hn. rewrite (proj2 (Nat.leb_gt MAXARGS (S argc))) by lia.
    rewrite (parseredirs_none _ _ _ H2 Hu2).
    2: { destruct (blanked ws ++ post) as [|x l]; [done|]. destruct Hh2 as [[_ Hx]|[_ ->]]; [|done].
         revert Hx. apply is_in_sub. intros y. unfold symbols. set_solver. }
    cbn [pbind]. destruct (IH (S argc) _ ws H2 Hp Hws) as (argv & p' & -> & Hp' & E); [lia..|].
    cbn [pbind fst snd]. exists ((p, p + length w)%nat :: argv), p'. repeat split; try apply Hp'. rewrite fmap_cons. cbn [fst snd]. by rewrite Hs, E.
Qed.

(** ** From the parts to the whole *)

(** A line that is only a pipe, and a pipe of one command. *)
Lemma line_of_pipe n p c p' post : parsepipe buf n p = POk c p' → text p' post → stop post →
  parseline buf (S n) p = POk c p'.
Proof.
  intros E H Hs. cbn [parseline]. rewrite E. cbn [pbind parseback].
  rewrite !(peek_text p' post _ H (stop_unspaced _ Hs)), (stop_not post [38]) by done. cbn [negb pbind].
  by rewrite (peek_text p' post _ H (stop_unspaced _ Hs)), (stop_not post [59]).
Qed.
Lemma pipe_of_exec n p c p' l : parseexec buf n p = POk c p' → text p' l → unspaced l →
  match l with x :: _ => is_in [124] x | [] => false end = false → parsepipe buf (S n) p = POk c p'.
Proof. intros E H Hu Hn. cbn [parsepipe]. rewrite E. cbn [pbind]. by rewrite (peek_text p' l _ H Hu), Hn. Qed.

(** What is written never starts with a blank. *)
Lemma show_unspaced a l : ast_ok a = true → unspaced (41 :: l) → unspaced (show a ++ 41 :: l).
Proof.
  intros Ha Hl. destruct a as [ws| | | |]; try done.
  simpl in Ha. apply andb_true_iff in Ha as [_ Ha]. by apply (blanked_head ws (41 :: l) Ha); right.
Qed.

(** The promise of the line parser for [a], assumed of the parts of a tree. *)
Definition reads (a : ast) : Prop := ∀ n p post, stop post → text p (show a ++ post) →
  (4 * length (show a) + 4 ≤ n)%nat →
  ∃ c p', parseline buf n p = POk c p' ∧ text p' post ∧ denotes c a.

Lemma exec_of_block a n p l : reads a → ast_ok a = true → unspaced l →
  text p ((40 :: show a ++ [41]) ++ l) → (4 * length (show a) + 4 ≤ n)%nat →
  ∃ c p', text p' l ∧ denotes c a ∧
    parseexec buf (S (S n)) p = let* rs, ps := parseredirs buf (S (es buf - p')) p' in POk (wrap c rs) ps.
Proof.
  intros Hr Ha Hl H Hn. simpl in H. rewrite <- app_assoc in H. simpl in H.
  assert (unspaced (show a ++ 41 :: l)) as Hu by by apply show_unspaced.
  pose proof (text_next _ _ _ H) as H1. destruct (Hr n (S p) (41 :: l)) as (c & p1 & E & H2 & Hd); [by right|done|done|].
  exists c, (S p1). split; [by eapply text_next|]. split; [done|]. cbn [parseexec parseblock].
  rewrite (peek_text p _ _ H eq_refl). cbn [is_in existsb Z.eqb Pos.eqb orb].
  rewrite (peek_text p _ _ H eq_refl). cbn [is_in existsb Z.eqb Pos.eqb orb negb].
  rewrite (gettoken_sym p _ _ H) by (done || by left). rewrite E. cbn [pbind].
  rewrite (peek_text p1 _ _ H2 eq_refl). cbn [is_in existsb Z.eqb Pos.eqb orb negb].
  by rewrite (gettoken_sym p1 _ _ H2) by (done || by left).
Qed.

(** A block that is not redirected. *)
Lemma exec_of_plain a n p l : reads a → ast_ok a = true → unspaced l →
  match l with x :: _ => is_in [60; 62] x | [] => false end = false →
  text p ((40 :: show a ++ [41]) ++ l) → (4 * length (show a) + 4 ≤ n)%nat →
  ∃ c p', text p' l ∧ denotes c a ∧ parseexec buf (S (S n)) p = POk c p'.
Proof.
  intros Hr Ha Hl Hn H Hf. destruct (exec_of_block a n p l Hr Ha Hl H Hf) as (c & p' & H1 & H2 & E).
  exists c, p'. repeat split; try done; try apply H1. by rewrite E, (parseredirs_none _ _ _ H1 Hl Hn).
Qed.

Lemma reads_exec ws : ast_ok (AExec ws) = true → reads (AExec ws).
Proof.
  intros [Hl%Nat.ltb_lt Hw]%andb_true_iff n p post Hs H Hn. change (show (AExec ws)) with (blanked ws) in *.
  destruct (blanked_head ws post Hw Hs) as [Hu Hh].
  assert (∀ toks, (∀ x, x ∈ toks → x ∈ symbols) → is_in toks 41 = false →
    match blanked ws ++ post with x :: _ => is_in toks x | [] => false end = false) as Hno.
  { intros toks Ht H41. destruct (blanked ws ++ post) as [|x l]; [done|].
    destruct Hh as [[_ Hx]|[_ ->]]; [|done]. revert Hx. by apply is_in_sub. }
  destruct (parseargs_words (S (es buf - p)) 0 p ws post H Hs Hw) as (argv & p' & E & H' & Ed); [lia| |].
  { pose proof (text_es _ _ H) as Ee. rewrite length_app in Ee.
    assert (length ws ≤ length (blanked ws))%nat; [|lia]. unfold blanked. clear.
    induction ws as [|w ws IH]; [simpl; lia|]. rewrite fmap_cons. cbn [concat]. rewrite !length_app. cbn [length]. lia. }
  exists (EXEC argv), p'. split; [|done]. do 3 (destruct n as [|n]; [lia|]).
  apply (line_of_pipe _ _ _ _ post); [|done|done]. apply (pipe_of_exec _ _ _ _ post); [|done|by apply stop_unspaced|by apply stop_not].
  cbn [parseexec]. rewrite (peek_text p _ _ H Hu), Hno by (done || (unfold symbols; set_solver)).
  rewrite (parseredirs_none _ _ _ H Hu) by (apply Hno; [unfold symbols; set_solver|done]).
  cbn [pbind]. by rewrite E.
Qed.

Lemma reads_redir a file out : reads a → ast_ok (ARedir a file out) = true → reads (ARedir a file out).
Proof.
  intros Hr [Ha Hw]%andb_true_iff n p post Hs H Hn. cbn [show] in H, Hn. rewrite <- app_assoc in H.
  rewrite length_app in Hn. cbn [length] in Hn. rewrite length_app in Hn. cbn [length] in Hn.
  set (x := if out then 62 else 60) in *.
  assert (match post with y :: _ => word_char y = false | [] => True end) as Hpw.
  { destruct post; [done|]. by destruct Hs as [|[= ->]]. }
  assert (unspaced (file ++ post) ∧ head (file ++ post) ≠ Some 62) as [Hu H62].
  { pose proof Hw as Hw'. apply andb_true_iff in Hw' as [Hne _]. apply negb_true_iff, bool_decide_eq_false in Hne.
    destruct file as [|y file]; [done|]. destruct (word_char_not y) as [H1 H2]; [by apply (wordb_head (y :: file) y [])|].
    split; [done|]. simpl. intros [= ->]. done. }
  do 4 (destruct n as [|n]; [lia|]).
  destruct (exec_of_block a n p ((x :: file) ++ post) Hr Ha) as (c & p1 & H1 & Hd & E); [by unfold x; destruct out|done|lia|].
  pose proof (text_next _ _ _ H1) as H2. destruct (gettoken_word (S p1) file post H2 Hw Hpw) as [Eg Esl].
  apply text_tail in H2 as H3. rewrite (skip_blank _ _ H3 (stop_unspaced _ Hs)) in Eg.
  pose proof (text_es _ _ H1) as Ee. rewrite length_app in Ee. cbn [length] in Ee.
  exists (REDIR c (S p1) (S p1 + length file) (if out then mode_out else mode_in) (if out then 1 else 0)), (S p1 + length file)%nat.
  split; [|split; [done|]; split; [done|]; split; [done|by destruct out]].
  apply (line_of_pipe _ _ _ _ post); [|done|done].
  apply (pipe_of_exec _ _ _ _ post); [|done|by apply stop_unspaced|by apply stop_not].
  rewrite E. remember (es buf - p1)%nat as k eqn:Ek. cbn [parseredirs].
  rewrite (peek_text p1 _ _ H1) by (by unfold x; destruct out).
  cbn [app]. assert (is_in [60; 62] x = true) as -> by (by unfold x; destruct out). cbn [negb app].
  rewrite (gettoken_sym p1 x (file ++ post) H1); [|by unfold x; destruct out; [right|left]|done].
  rewrite Eg. cbn [Z.eqb Pos.eqb negb]. destruct k as [|k]; [lia|].
  rewrite (parseredirs_none _ _ _ H3 (stop_unspaced _ Hs)) by (by apply stop_not).
  cbn [pbind]. unfold x, wrap. by destruct out.
Qed.

Lemma reads_pipe l r : reads l → reads r → ast_ok (APipe l r) = true → reads (APipe l r).
Proof.
  intros Hl Hr [Hal Har]%andb_true_iff n p post Hs H Hn. cbn [show] in H, Hn.
  rewrite length_app in Hn. cbn [length] in Hn. rewrite !length_app in Hn. cbn [length] in Hn.
  rewrite <- app_assoc in H. do 6 (destruct n as [|n]; [lia|]).
  destruct (exec_of_plain l (S (S n)) p (124 :: (40 :: show r ++ [41]) ++ post) Hl Hal) as (c & p1 & H1 & Hd & E);
    [done|done|done|lia|].
  pose proof (text_next _ _ _ H1) as H2.
  destruct (exec_of_plain r (S n) (S p1) post Hr Har) as (c' & p2 & H3 & Hd' & E');
    [by apply stop_unspaced|by apply stop_not|done|lia|].
  exists (PIPE c c'), p2. split; [|done]. apply (line_of_pipe _ _ _ _ post); [|done|done].
  pose proof (pipe_of_exec _ _ _ _ post E' H3 (stop_unspaced _ Hs) (stop_not post [124] Hs eq_refl)) as E2.
  remember (S (S (S (S n)))) as k eqn:Ek. cbn [parsepipe]. rewrite E. cbn [pbind].
  rewrite (peek_text p1 _ _ H1 eq_refl). cbn [is_in existsb Z.eqb Pos.eqb orb negb].
  rewrite (gettoken_sym p1 _ _ H1) by (done || by left). by rewrite E2.
Qed.

Lemma reads_list l r : reads l → reads r → ast_ok (AList l r) = true → reads (AList l r).
Proof.
  intros Hl Hr [Hal Har]%andb_true_iff n p post Hs H Hn. cbn [show] in H, Hn.
  rewrite length_app in Hn. cbn [length] in Hn. rewrite !length_app in Hn. cbn [length] in Hn.
  rewrite <- app_assoc in H. do 6 (destruct n as [|n]; [lia|]).
  destruct (exec_of_plain l (S (S n)) p (59 :: (40 :: show r ++ [41]) ++ post) Hl Hal) as (c & p1 & H1 & Hd & E);
    [done|done|done|lia|].
  pose proof (text_next _ _ _ H1) as H2.
  destruct (exec_of_plain r (S n) (S p1) post Hr Har) as (c' & p2 & H3 & Hd' & E');
    [by apply stop_unspaced|by apply stop_not|done|lia|].
  exists (LIST c c'), p2. split; [|done].
  assert (parsepipe buf (S (S (S (S (S n))))) p = POk c p1) as E1 by (by apply (pipe_of_exec _ _ _ _ _ E H1)).
  pose proof (pipe_of_exec _ _ _ _ post E' H3 (stop_unspaced _ Hs) (stop_not post [124] Hs eq_refl)) as E2.
  apply line_of_pipe with (post := post) in E2; [|done|done].
  remember (S (S (S (S (S n))))) as k eqn:Ek. cbn [parseline]. rewrite E1. cbn [pbind parseback].
  rewrite !(peek_text p1 _ _ H1 eq_refl). cbn [is_in existsb Z.eqb Pos.eqb orb negb pbind].
  rewrite (peek_text p1 _ _ H1 eq_refl). cbn [is_in existsb Z.eqb Pos.eqb orb negb pbind].
  rewrite (gettoken_sym p1 _ _ H1) by (done || by left). by rewrite E2.
Qed.

Lemma reads_back a : reads a → ast_ok a = true → reads (ABack a).
Proof.
  intros Hr Ha n p post Hs H Hn. cbn [show] in H, Hn. rewrite length_app in Hn. cbn [length] in Hn.
  rewrite length_app in Hn. cbn [length] in Hn. rewrite <- app_assoc in H. do 4 (destruct n as [|n]; [lia|]).
  destruct (exec_of_plain a n p (38 :: post) Hr Ha) as (c & p1 & H1 & Hd & E); [done|done|done|lia|].
  pose proof (text_next _ _ _ H1) as H2. pose proof (stop_unspaced _ Hs) as Hu.
  exists (BACK c), (S p1). split; [|done]. pose proof (text_lt _ _ _ H1) as Hlt.
  assert (parsepipe buf (S (S (S n))) p = POk c p1) as E1 by (by apply (pipe_of_exec _ _ _ _ _ E H1)).
  remember (S (S (S n))) as k eqn:Ek. cbn [parseline]. rewrite E1. cbn [pbind].
  replace (es buf - p1)%nat with (S (es buf - S p1)) by lia. cbn [parseback].
  rewrite (peek_text p1 _ _ H1 eq_refl). cbn [is_in existsb Z.eqb Pos.eqb orb negb].
  rewrite (gettoken_sym p1 _ _ H1) by (done || by left).
  rewrite (peek_text (S p1) post _ H2 Hu), (stop_not post [38]) by done. cbn [negb pbind].
  by rewrite (peek_text (S p1) post _ H2 Hu), (stop_not post [59]).
Qed.

Lemma reads_all a : ast_ok a = true → reads a.
Proof.
  induction a as [ws|a IH f o|l IHl r IHr|l IHl r IHr|a IH]; intros Ha.
  - by apply reads_exec.
  - pose proof Ha as Ha'. apply andb_true_iff in Ha' as [? _]. by apply reads_redir; auto.
  - pose proof Ha as Ha'. apply andb_true_iff in Ha' as [? ?]. by apply reads_pipe; auto.
  - pose proof Ha as Ha'. apply andb_true_iff in Ha' as [? ?]. by apply reads_list; auto.
  - apply reads_back; auto.
Qed.
End reads.

(** A written line has no 0 in it. *)
Lemma word_nonzero w : wordb w = true → 0 ∉ w.
Proof.
  intros [_ Hw]%andb_true_iff H. rewrite forallb_forall in Hw. apply list_elem_of_In in H. by apply Hw in H.
Qed.
Lemma show_nonzero a : ast_ok a = true → 0 ∉ show a.
Proof.
  induction a as [ws|a IH f o|l IHl r IHr|l IHl r IHr|a IH]; simpl; intros Ha.
  - apply andb_true_iff in Ha as [_ Ha]. induction ws as [|w ws IH]; simpl in *; [set_solver|].
    apply andb_true_iff in Ha as [Hw Ha]. pose proof (word_nonzero w Hw). specialize (IH Ha).
    rewrite !not_elem_of_app. repeat split; [done| |done]. set_solver.
  - apply andb_true_iff in Ha as [H1 H2%word_nonzero]. specialize (IH H1). destruct o; set_solver.
  - apply andb_true_iff in Ha as [H1 H2]. specialize (IHl H1). specialize (IHr H2). set_solver.
  - apply andb_true_iff in Ha as [H1 H2]. specialize (IHl H1). specialize (IHr H2). set_solver.
  - specialize (IH Ha). set_solver.
Qed.

(** C12: every command with proper words and few enough arguments can be
    written on a line from which [parsecmd] reads that same command back. *)
Theorem parse_show (a : ast) : ast_ok a = true →
  ∃ c m, parsecmd (show a) = POk (c, m) (length (show a)) ∧ denotes (show a) c a.
Proof.
  intros Ha. pose proof (show_nonzero a Ha) as H0.
  destruct (reads_all (show a) H0 a Ha (4 * es (show a) + 4)%nat 0%nat []) as (c & p & E & H & Hd).
  - by left.
  - rewrite app_nil_r. split; [lia|done].
  - done.
  - exists c, (nulterminate c (show a ++ [0])). split; [|done]. unfold parsecmd. rewrite E. cbn [pbind].
    rewrite (peek_text (show a) H0 p [] _ H I). pose proof (text_es _ _ _ H) as Ee. simpl in Ee.
    rewrite Nat.add_0_r in Ee. rewrite <- Ee, Nat.eqb_refl. done.
Qed.

(** [(ls -l )|((sort )>f)] *)
Lemma parse_show_witness : let a := APipe (AExec [[108; 115]; [45; 108]]) (ARedir (AExec [[115]]) [102] true) in
  (∃ c m, parsecmd (show a) = POk (c, m) (length (show a)) ∧ denotes (show a) c a) ∧
  show a = [40; 108; 115; 32; 45; 108; 32; 41; 124; 40; 40; 115; 32; 41; 62; 102; 41].
Proof.
  split; [|reflexivity]. apply (parse_show (APipe (AExec [[108; 115]; [45; 108]]) (ARedir (AExec [[115]]) [102] true))).
  reflexivity.
Defined.
